(** * rdbms: storage, planner and executor, embedded in Rocq

    A shallow embedding of the in-memory relational engine
    (src/rdbms/storage, src/rdbms/executor, src/rdbms/utils) and the
    properties its specification states about it.

    Conventions of the embedding.
    - Python values are the inductive [Value]; a float is its exact
      rational value (finite floats only: no NaN, no infinity), so that
      [==] and [<] between ints, bools and floats are the exact
      comparisons Python performs.
    - [str] is [string]; [len] is [String.length], which agrees with
      Python on ASCII text.
    - A row is a Python dict from column name to value: [gmap string Value].
      The dicts whose iteration order the code depends on ([Table.columns],
      [Table._indexes], [HashIndex._index]) are association lists kept in
      insertion order with one entry per key.
    - Exceptions are the inductive [Exception]; code that can raise
      returns a [result]; code that mutates a table runs in the
      state-and-exception monad [M], in which a raise keeps every
      mutation made before it. *)

From Stdlib Require Import QArith ZArith String Ascii List Permutation.
From stdpp Require Import gmap strings list fin_maps.

Local Open Scope string_scope.
Local Open Scope Z_scope.

(** ** Values and exceptions *)

Inductive Value : Type :=
  | VNull
  | VInt (z : Z)
  | VFloat (q : Q)
  | VBool (b : bool)
  | VStr (s : string).

Abbreviation Row := (gmap string Value).

(** The numeric reading of a value: [bool] is a subclass of [int] in
    Python, and ints, bools and floats compare by their exact value. *)
Definition num_of (v : Value) : option Q :=
  match v with
  | VInt z => Some (inject_Z z)
  | VFloat q => Some q
  | VBool b => Some (inject_Z (if b then 1 else 0))
  | VNull | VStr _ => None
  end.

(** Python's [v == w]. *)
Definition py_eq (v w : Value) : bool :=
  match v, w with
  | VNull, VNull => true
  | VStr a, VStr b => String.eqb a b
  | _, _ =>
      match num_of v, num_of w with
      | Some a, Some b => Qeq_bool a b
      | _, _ => false
      end
  end.

(** Python's [v != w]. *)
Definition py_ne (v w : Value) : bool := negb (py_eq v w).

Definition is_none (v : Value) : bool :=
  match v with VNull => true | _ => false end.

Definition isinstance_int (v : Value) : bool :=
  match v with VInt _ | VBool _ => true | _ => false end.

Definition isinstance_float (v : Value) : bool :=
  match v with VFloat _ => true | _ => false end.

Definition isinstance_bool (v : Value) : bool :=
  match v with VBool _ => true | _ => false end.

Definition isinstance_str (v : Value) : bool :=
  match v with VStr _ => true | _ => false end.

(** utils/exceptions.py, with the built-in exceptions the code raises or
    can run into. *)
Inductive Exception : Type :=
  | TableNotFoundError (table_name : string)
  | TableAlreadyExistsError (table_name : string)
  | ColumnNotFoundError (column_name : string) (table_name : option string)
  | DuplicateKeyError (column_name : string) (value : Value)
  | ConstraintViolationError (message : string)
  | TypeValidationError (column_name expected_type : string) (actual_value : Value)
  | InvalidIdentifierError (identifier reason : string)
  | KeyError (message : string)
  | ValueError (message : string)
  | TypeError.

Inductive result (A : Type) : Type :=
  | Return (a : A)
  | Raise (e : Exception).
Arguments Return {A} a.
Arguments Raise {A} e.

Definition rbind {A B} (r : result A) (k : A → result B) : result B :=
  match r with
  | Return a => k a
  | Raise e => Raise e
  end.

Notation "'let?' x ':=' r 'in' k" := (rbind r (fun x => k))
  (at level 10, x pattern, r at level 100, k at level 200, only parsing).

(** The ordering comparisons [<], [>], [<=], [>=] on two non-null
    values: numbers with numbers, strings with strings; any other
    pairing raises [TypeError]. *)
Definition py_lt (v w : Value) : result bool :=
  match v, w with
  | VStr a, VStr b => Return (String.ltb a b)
  | _, _ =>
      match num_of v, num_of w with
      | Some a, Some b => Return (negb (Qle_bool b a))
      | _, _ => Raise TypeError
      end
  end.

Definition py_le (v w : Value) : result bool :=
  match v, w with
  | VStr a, VStr b => Return (String.leb a b)
  | _, _ =>
      match num_of v, num_of w with
      | Some a, Some b => Return (Qle_bool a b)
      | _, _ => Raise TypeError
      end
  end.

Definition py_gt (v w : Value) : result bool := py_lt w v.
Definition py_ge (v w : Value) : result bool := py_le w v.

(** Truthiness of an optional string ([if table_name:]). *)
Definition truthy_str (o : option string) : bool :=
  match o with
  | Some s => negb (String.eqb s "")
  | None => false
  end.

(** ** utils/validators.py *)

Module Validators.

Definition RESERVED_WORDS : list string :=
  [ "SELECT"; "FROM"; "WHERE"; "INSERT"; "UPDATE"; "DELETE";
    "CREATE"; "DROP"; "TABLE"; "INDEX"; "INTO"; "VALUES";
    "SET"; "AND"; "OR"; "NOT"; "NULL"; "PRIMARY"; "KEY";
    "UNIQUE"; "INNER"; "JOIN"; "ON"; "AS"; "INTEGER"; "INT";
    "VARCHAR"; "TEXT"; "BOOLEAN"; "FLOAT"; "REAL"; "TRUE"; "FALSE" ].

Definition in_range (lo hi : nat) (c : ascii) : bool :=
  (Nat.leb lo (nat_of_ascii c)) && (Nat.leb (nat_of_ascii c) hi).

Definition is_lower (c : ascii) : bool := in_range 97 122 c.
Definition is_upper (c : ascii) : bool := in_range 65 90 c.
Definition is_digit (c : ascii) : bool := in_range 48 57 c.
Definition is_underscore (c : ascii) : bool := Nat.eqb (nat_of_ascii c) 95.
Definition is_newline (c : ascii) : bool := Nat.eqb (nat_of_ascii c) 10.

(** [str.upper()] on ASCII text. *)
Definition upper_char (c : ascii) : ascii :=
  if is_lower c then ascii_of_nat (nat_of_ascii c - 32) else c.

Fixpoint upper (s : string) : string :=
  match s with
  | EmptyString => EmptyString
  | String c s' => String (upper_char c) (upper s')
  end.

Definition is_head_char (c : ascii) : bool :=
  is_lower c || is_upper c || is_underscore c.

Definition is_word_char (c : ascii) : bool :=
  is_head_char c || is_digit c.

(** The tail [[a-zA-Z0-9_]*$] of the identifier pattern; [$] also
    matches just before a newline that ends the string. *)
Fixpoint match_tail (s : string) : bool :=
  match s with
  | EmptyString => true
  | String c s' =>
      (is_word_char c && match_tail s')
      || (is_newline c && match s' with EmptyString => true | _ => false end)
  end.

(** [re.match(r'^[a-zA-Z_][a-zA-Z0-9_]*$', name)] *)
Definition re_match_identifier (s : string) : bool :=
  match s with
  | EmptyString => false
  | String c s' => is_head_char c && match_tail s'
  end.

Definition str_in (s : string) (l : list string) : bool :=
  existsb (String.eqb s) l.

Definition validate_identifier (name : string) : result bool :=
  if String.eqb name "" then
    Raise (InvalidIdentifierError name "Identifier cannot be empty")
  else if Nat.ltb 64 (String.length name) then
    Raise (InvalidIdentifierError name "Identifier too long (max 64 characters)")
  else if str_in (upper name) RESERVED_WORDS then
    Raise (InvalidIdentifierError name "Cannot use SQL reserved word")
  else if negb (re_match_identifier name) then
    Raise (InvalidIdentifierError name
      "Must start with letter or underscore, and contain only letters, numbers, and underscores")
  else Return true.

(** Truthiness of [max_length]. *)
Definition truthy_int (o : option Z) : bool :=
  match o with
  | Some n => negb (Z.eqb n 0)
  | None => false
  end.

(** The rendered text of the VARCHAR length failure; [Column.validate]
    replaces that exception by one that carries the value itself. *)
Definition too_long_message : Value := VStr "string too long".

Definition validate_value_for_type
  (value : Value) (data_type : string) (max_length : option Z) : result bool :=
  if is_none value then Return true
  else
    let data_type := upper data_type in
    if str_in data_type ["INTEGER"; "INT"] then
      if negb (isinstance_int value) || isinstance_bool value then
        Raise (TypeValidationError "" data_type value)
      else Return true
    else if str_in data_type ["FLOAT"; "REAL"] then
      if negb (isinstance_int value || isinstance_float value)
         || isinstance_bool value then
        Raise (TypeValidationError "" data_type value)
      else Return true
    else if str_in data_type ["BOOLEAN"; "BOOL"] then
      if negb (isinstance_bool value) then
        Raise (TypeValidationError "" data_type value)
      else Return true
    else if String.eqb data_type "VARCHAR" then
      match value with
      | VStr s =>
          if truthy_int max_length
             && Z.ltb (default 0 max_length) (Z.of_nat (String.length s)) then
            Raise (TypeValidationError "" "VARCHAR(n)" too_long_message)
          else Return true
      | _ => Raise (TypeValidationError "" data_type value)
      end
    else if String.eqb data_type "TEXT" then
      if negb (isinstance_str value) then
        Raise (TypeValidationError "" data_type value)
      else Return true
    else Raise (ValueError ("Unknown data type: " +:+ data_type)).

End Validators.

(** ** storage/types.py *)

Inductive DataType : Type := INTEGER | FLOAT | VARCHAR | TEXT | BOOLEAN.

Inductive ColumnConstraint : Type := PRIMARY_KEY | UNIQUE | NOT_NULL.

Module DataType.
  (** The enum member's [.value]. *)
Definition value (t : DataType) : string :=
    match t with
    | INTEGER => "INTEGER"
    | FLOAT => "FLOAT"
    | VARCHAR => "VARCHAR"
    | TEXT => "TEXT"
    | BOOLEAN => "BOOLEAN"
    end.

  (** [cls[name]]: the member of that name, or a [KeyError]. *)
Definition of_name (name : string) : result DataType :=
    if String.eqb name "INTEGER" then Return INTEGER
    else if String.eqb name "FLOAT" then Return FLOAT
    else if String.eqb name "VARCHAR" then Return VARCHAR
    else if String.eqb name "TEXT" then Return TEXT
    else if String.eqb name "BOOLEAN" then Return BOOLEAN
    else Raise (KeyError name).

Definition from_string (type_str : string) : result DataType :=
    let type_str := Validators.upper type_str in
    (* Handle aliases *)
    if String.eqb type_str "INT" then Return INTEGER
    else if String.eqb type_str "REAL" then Return FLOAT
    else if String.eqb type_str "BOOL" then Return BOOLEAN
    else of_name type_str.
End DataType.

Module ColumnConstraint.
Definition eqb (a b : ColumnConstraint) : bool :=
    match a, b with
    | PRIMARY_KEY, PRIMARY_KEY | UNIQUE, UNIQUE | NOT_NULL, NOT_NULL => true
    | _, _ => false
    end.

  (** The enum member's [.value]. *)
Definition value (k : ColumnConstraint) : string :=
    match k with
    | PRIMARY_KEY => "PRIMARY KEY"
    | UNIQUE => "UNIQUE"
    | NOT_NULL => "NOT NULL"
    end.

  (** [ColumnConstraint(s)]: the member with that value, or a
      [ValueError]. *)
Definition of_value (s : string) : result ColumnConstraint :=
    if String.eqb s "PRIMARY KEY" then Return PRIMARY_KEY
    else if String.eqb s "UNIQUE" then Return UNIQUE
    else if String.eqb s "NOT NULL" then Return NOT_NULL
    else Raise (ValueError ("'" +:+ s +:+ "' is not a valid ColumnConstraint")).
End ColumnConstraint.

Module Column.

Record t : Type := mk {
  name : string;
  data_type : DataType;
  max_length : option Z;
  constraints : list ColumnConstraint
}.

(** [Column.__init__]: the name is validated, the fields are stored. *)
Definition init (name : string) (data_type : DataType)
    (max_length : option Z) (constraints : list ColumnConstraint) : result t :=
  let? _ := Validators.validate_identifier name in
  Return (mk name data_type max_length constraints).

Definition has_constraint (k : ColumnConstraint) (c : t) : bool :=
  existsb (ColumnConstraint.eqb k) (constraints c).

Definition is_primary_key (c : t) : bool := has_constraint PRIMARY_KEY c.

Definition is_unique (c : t) : bool :=
  has_constraint UNIQUE c || is_primary_key c.

Definition is_not_null (c : t) : bool :=
  has_constraint NOT_NULL c || is_primary_key c.

(** [Column.validate(value, column_name_for_error)]; the table always
    passes the column name. *)
Definition validate (c : t) (value : Value) (col_name : string) : result unit :=
  if is_none value then
    if is_not_null c then
      Raise (ConstraintViolationError ("Column '" +:+ col_name +:+ "' cannot be NULL"))
    else Return tt
  else
    match Validators.validate_value_for_type value
            (DataType.value (data_type c)) (max_length c) with
    | Return _ => Return tt
    | Raise (TypeValidationError _ _ _) =>
        Raise (TypeValidationError col_name (DataType.value (data_type c)) value)
    | Raise e => Raise e
    end.

(** The dict [to_dict] builds and [from_dict] reads; a field is [None]
    when the dict has no such key ([max_length] is read with [.get],
    which does not tell a missing key from a [None]). *)
Record ColumnDict : Type := {
  dict_name : option string;
  dict_data_type : option string;
  dict_max_length : option Z;
  dict_constraints : option (list string)
}.

(** The set of constraints is kept as the list of its members. *)
Definition to_dict (c : t) : ColumnDict :=
  {| dict_name := Some (name c);
     dict_data_type := Some (DataType.value (data_type c));
     dict_max_length := max_length c;
     dict_constraints := Some (map ColumnConstraint.value (constraints c)) |}.

(** [{ColumnConstraint(c) for c in ...}] *)
Fixpoint constraint_set (values : list string) (acc : list ColumnConstraint)
    : result (list ColumnConstraint) :=
  match values with
  | [] => Return acc
  | v :: rest =>
      let? k := ColumnConstraint.of_value v in
      constraint_set rest
        (if existsb (ColumnConstraint.eqb k) acc then acc else (acc ++ [k])%list)
  end.

(** [d[key]] *)
Definition required {A} (key : string) (field : option A) : result A :=
  match field with
  | Some a => Return a
  | None => Raise (KeyError key)
  end.

Definition from_dict (data : ColumnDict) : result t :=
  let? name := required "name" (dict_name data) in
  let? type_name := required "data_type" (dict_data_type data) in
  let? data_type := DataType.of_name type_name in
  let max_length := dict_max_length data in
  let? constraints :=
    constraint_set (default [] (dict_constraints data)) [] in
  init name data_type max_length constraints.

End Column.

(** ** parser/ast.py: expressions and conditions *)

Inductive ComparisonOp : Type := EQ | NE | LT | GT | LTE | GTE.

Inductive LogicalOp : Type := AND | OR.

Inductive Expr : Type :=
  | ColumnRef (column_name : string) (table_name : option string)
  | Literal (value : Value) (type : string).

Inductive Condition : Type :=
  | Comparison (left : Expr) (op : ComparisonOp) (right : Expr)
  | LogicalCondition (left : Condition) (op : LogicalOp) (right : Condition).

(** ** utils/row_utils.py *)

Definition qualified_name (table_name column_name : string) : string :=
  table_name +:+ "." +:+ column_name.

Definition not_found_message (column_name : string) : string :=
  "Column '" +:+ column_name +:+ "' not found in row".

Definition get_column_value
    (row : Row) (column_name : string) (table_name : option string) : result Value :=
  let unqualified :=
    match row !! column_name with
    | Some v => Return v
    | None => Raise (KeyError (not_found_message column_name))
    end in
  if truthy_str table_name then
    match row !! qualified_name (default "" table_name) column_name with
    | Some v => Return v
    | None => unqualified
    end
  else unqualified.

Definition has_column
    (row : Row) (column_name : string) (table_name : option string) : bool :=
  if truthy_str table_name then
    match row !! qualified_name (default "" table_name) column_name with
    | Some _ => true
    | None => bool_decide (is_Some (row !! column_name))
    end
  else bool_decide (is_Some (row !! column_name)).

(** [{col: row[col] for col in columns if col in row}] *)
Fixpoint project_columns (row : Row) (columns : list string) : Row :=
  match columns with
  | [] => ∅
  | col :: rest =>
      match row !! col with
      | Some v => <[col := v]> (project_columns row rest)
      | None => project_columns row rest
      end
  end.

(** ** executor/evaluator.py *)

Module ConditionEvaluator.

Definition _get_value (expr : Expr) (row : Row) : result Value :=
  match expr with
  | ColumnRef column_name table_name =>
      match get_column_value row column_name table_name with
      | Return v => Return v
      | Raise (KeyError _) => Raise (ColumnNotFoundError column_name None)
      | Raise e => Raise e
      end
  | Literal value _ => Return value
  end.

Definition _evaluate_comparison
    (left : Expr) (op : ComparisonOp) (right : Expr) (row : Row) : result bool :=
  let? left_value := _get_value left row in
  let? right_value := _get_value right row in
  if is_none left_value || is_none right_value then
    match op with
    | NE => Return (py_ne left_value right_value)
    | _ => Return false
    end
  else
    match op with
    | EQ => Return (py_eq left_value right_value)
    | NE => Return (py_ne left_value right_value)
    | LT => py_lt left_value right_value
    | GT => py_gt left_value right_value
    | LTE => py_le left_value right_value
    | GTE => py_ge left_value right_value
    end.

(** [evaluate], with [_evaluate_logical] unfolded at its only call. *)
Fixpoint evaluate (condition : Condition) (row : Row) : result bool :=
  match condition with
  | Comparison lhs op rhs => _evaluate_comparison lhs op rhs row
  | LogicalCondition lhs op rhs =>
      let? left_result := evaluate lhs row in
      match op with
      | AND => if negb left_result then Return false else evaluate rhs row
      | OR => if left_result then Return true else evaluate rhs row
      end
  end.

(** The same evaluator instrumented with the list of column references
    whose lookup was attempted, in the order of the attempts. *)
Definition traced (A : Type) : Type := (list Expr * result A)%type.

Definition tbind {A B} (m : traced A) (k : A → traced B) : traced B :=
  match m with
  | (tr, Return a) => let '(tr', r) := k a in ((tr ++ tr')%list, r)
  | (tr, Raise e) => (tr, Raise e)
  end.

Definition _get_value_traced (expr : Expr) (row : Row) : traced Value :=
  match expr with
  | ColumnRef _ _ => ([expr], _get_value expr row)
  | Literal _ _ => ([], _get_value expr row)
  end.

Definition _evaluate_comparison_traced
    (left : Expr) (op : ComparisonOp) (right : Expr) (row : Row) : traced bool :=
  tbind (_get_value_traced left row) (fun left_value =>
  tbind (_get_value_traced right row) (fun right_value =>
  ([], if is_none left_value || is_none right_value then
         match op with
         | NE => Return (py_ne left_value right_value)
         | _ => Return false
         end
       else
         match op with
         | EQ => Return (py_eq left_value right_value)
         | NE => Return (py_ne left_value right_value)
         | LT => py_lt left_value right_value
         | GT => py_gt left_value right_value
         | LTE => py_le left_value right_value
         | GTE => py_ge left_value right_value
         end))).

Fixpoint evaluate_traced (condition : Condition) (row : Row) : traced bool :=
  match condition with
  | Comparison lhs op rhs => _evaluate_comparison_traced lhs op rhs row
  | LogicalCondition lhs op rhs =>
      tbind (evaluate_traced lhs row) (fun left_result =>
      match op with
      | AND => if negb left_result then ([], Return false)
               else evaluate_traced rhs row
      | OR => if left_result then ([], Return true)
              else evaluate_traced rhs row
      end)
  end.

(** The column references reached while evaluating [condition] on [row]. *)
Definition reached (condition : Condition) (row : Row) : list Expr :=
  fst (evaluate_traced condition row).

(** A column reference is absent from a row when its bare name is not a
    key of the row and, if it carries a table name, its qualified name
    [table.column] is not a key either.  (An empty table name is falsy
    in Python, so only the bare name counts then.) *)
Definition absent (expr : Expr) (row : Row) : Prop :=
  match expr with
  | ColumnRef column_name table_name =>
      row !! column_name = None
      ∧ (truthy_str table_name = true →
         row !! qualified_name (default "" table_name) column_name = None)
  | Literal _ _ => False
  end.

End ConditionEvaluator.

(** ** Python dicts kept in insertion order

    An association list with one entry per key; [eqb] is the key
    equality the dict uses ([==] on the keys). *)

Section Dict.
Context {K V : Type} (eqb : K → K → bool).

  (** [d.get(k)] *)
Fixpoint dict_get (k : K) (d : list (K * V)) : option V :=
    match d with
    | [] => None
    | (k', v) :: d' => if eqb k k' then Some v else dict_get k d'
    end.

  (** [k in d] *)
Definition dict_mem (k : K) (d : list (K * V)) : bool :=
    match dict_get k d with Some _ => true | None => false end.

  (** [d[k] = v]: an existing entry keeps its place and its key. *)
Fixpoint dict_set (k : K) (v : V) (d : list (K * V)) : list (K * V) :=
    match d with
    | [] => [(k, v)]
    | (k', v') :: d' =>
        if eqb k k' then (k', v) :: d' else (k', v') :: dict_set k v d'
    end.

  (** [del d[k]] (also [d.pop(k, None)]) *)
Fixpoint dict_del (k : K) (d : list (K * V)) : list (K * V) :=
    match d with
    | [] => []
    | (k', v') :: d' =>
        if eqb k k' then d' else (k', v') :: dict_del k d'
    end.

  (** In-place mutation of the object stored under [k]. *)
Fixpoint dict_alter (f : V → V) (k : K) (d : list (K * V)) : list (K * V) :=
    match d with
    | [] => []
    | (k', v') :: d' =>
        if eqb k k' then (k', f v') :: d' else (k', v') :: dict_alter f k d'
    end.
End Dict.

(** ** storage/index.py *)

(** [l.remove(x)]: the first occurrence is removed; [None] stands for
    the [ValueError] raised when there is none. *)
Fixpoint list_remove (x : Z) (l : list Z) : option (list Z) :=
  match l with
  | [] => None
  | y :: l' =>
      if Z.eqb y x then Some l'
      else match list_remove x l' with
           | Some r => Some (y :: r)
           | None => None
           end
  end.

Module HashIndex.

Record t : Type := mk {
  column_name : string;
  _index : list (Value * list Z)
}.

Definition init (column_name : string) : t := mk column_name [].

(** [self._index[key].append(row_id)] on a [defaultdict(list)]. *)
Definition insert (self : t) (key : Value) (row_id : Z) : t :=
  if negb (is_none key) then
    let ids := default [] (dict_get py_eq key (_index self)) in
    mk (column_name self) (dict_set py_eq key (ids ++ [row_id])%list (_index self))
  else self.

Definition search (self : t) (key : Value) : list Z :=
  if is_none key then []
  else default [] (dict_get py_eq key (_index self)).

Definition delete (self : t) (key : Value) (row_id : Z) : t :=
  if negb (is_none key) && dict_mem py_eq key (_index self) then
    match list_remove row_id (default [] (dict_get py_eq key (_index self))) with
    | Some ids =>
        match ids with
        | [] => mk (column_name self) (dict_del py_eq key (_index self))
        | _ => mk (column_name self) (dict_set py_eq key ids (_index self))
        end
    | None => self
    end
  else self.

Definition get_all_keys (self : t) : list Value := map fst (_index self).

Definition clear (self : t) : t := mk (column_name self) [].

(** [__len__]; it is also the truth value of an index object. *)
Definition len (self : t) : nat := length (_index self).

End HashIndex.

(** ** storage/table.py *)

(** The values that equal an int, as that int.  The identifiers the
    embedding passes around are ints ([row_id: int] in the signatures
    of table.py), and the one kept under ['_row_id'] in a stored row is
    read back through [as_int].  The stored value is an int in every
    table whose schema has no column named [_row_id]; in a table that
    has one, [update_row] can store any value of the column's type
    there, and where that value equals no int (a string, [None], a
    fractional float) the embedding does not follow the code: it is
    used only on tables whose stored identifiers are ints. *)
Definition as_int (v : Value) : option Z :=
  match v with
  | VInt z => Some z
  | VBool b => Some (if b then 1 else 0)
  | VFloat q =>
      if Pos.eqb (Qden (Qred q)) 1 then Some (Qnum (Qred q)) else None
  | VNull | VStr _ => None
  end.

Module Table.

Record t : Type := mk {
  name : string;
  columns : list (string * Column.t);
  column_order : list string;
  primary_key : option string;
  _rows : list Row;
  _next_row_id : Z;
  _deleted_row_ids : gset Z;
  _indexes : list (string * HashIndex.t)
}.

Definition set_rows (f : list Row → list Row) (self : t) : t :=
  mk (name self) (columns self) (column_order self) (primary_key self)
     (f (_rows self)) (_next_row_id self) (_deleted_row_ids self) (_indexes self).

Definition set_next_row_id (f : Z → Z) (self : t) : t :=
  mk (name self) (columns self) (column_order self) (primary_key self)
     (_rows self) (f (_next_row_id self)) (_deleted_row_ids self) (_indexes self).

Definition set_deleted_row_ids (f : gset Z → gset Z) (self : t) : t :=
  mk (name self) (columns self) (column_order self) (primary_key self)
     (_rows self) (_next_row_id self) (f (_deleted_row_ids self)) (_indexes self).

Definition set_indexes
    (f : list (string * HashIndex.t) → list (string * HashIndex.t)) (self : t) : t :=
  mk (name self) (columns self) (column_order self) (primary_key self)
     (_rows self) (_next_row_id self) (_deleted_row_ids self) (f (_indexes self)).

(** *** The state-and-exception monad of the methods of a table *)

Definition M (A : Type) : Type := t → t * result A.

Definition ret {A} (a : A) : M A := fun self => (self, Return a).

Definition raise {A} (e : Exception) : M A := fun self => (self, Raise e).

Definition bind {A B} (m : M A) (k : A → M B) : M B :=
  fun self =>
    match m self with
    | (self', Return a) => k a self'
    | (self', Raise e) => (self', Raise e)
    end.

Definition gets {A} (f : t → A) : M A := fun self => (self, Return (f self)).

Definition modify (f : t → t) : M unit := fun self => (f self, Return tt).

Definition lift {A} (r : result A) : M A := fun self => (self, r).

Notation "'let*' x ':=' m 'in' k" := (bind m (fun x => k))
  (at level 10, x pattern, m at level 100, k at level 200, only parsing).
Notation "m ';;' k" := (bind m (fun _ => k))
  (at level 100, k at level 200, right associativity, only parsing).

(** [for x in xs: body(x)] *)
Fixpoint for_each {X} (xs : list X) (body : X → M unit) : M unit :=
  match xs with
  | [] => ret tt
  | x :: xs' => body x ;; for_each xs' body
  end.

(** A loop that threads a local variable. *)
Fixpoint fold_m {X A} (xs : list X) (body : A → X → M A) (a : A) : M A :=
  match xs with
  | [] => ret a
  | x :: xs' => let* a' := body a x in fold_m xs' body a'
  end.

(** [d[k]] on a row, with its [KeyError]. *)
Definition getitem (row : Row) (k : string) : result Value :=
  match row !! k with
  | Some v => Return v
  | None => Raise (KeyError k)
  end.

(** [row.get('_row_id') == row_id] *)
Definition has_row_id (row : Row) (row_id : Z) : bool :=
  py_eq (default VNull (row !! "_row_id")) (VInt row_id).

(** [row.get('_row_id') in self._deleted_row_ids] *)
Definition row_deleted (self : t) (row : Row) : bool :=
  match as_int (default VNull (row !! "_row_id")) with
  | Some z => bool_decide (z ∈ _deleted_row_ids self)
  | None => false
  end.

(** [row_id not in self._deleted_row_ids] *)
Definition not_deleted (self : t) (row_id : Z) : bool :=
  negb (bool_decide (row_id ∈ _deleted_row_ids self)).

Definition has_column (self : t) (column_name : string) : bool :=
  dict_mem String.eqb column_name (columns self).

Definition has_index (self : t) (column_name : string) : bool :=
  dict_mem String.eqb column_name (_indexes self).

Definition get_index (self : t) (column_name : string) : option HashIndex.t :=
  dict_get String.eqb column_name (_indexes self).

(** [None] when the column has no index, else the identifiers found. *)
Definition _find_by_index (self : t) (column_name : string) (value : Value)
    : option (list Z) :=
  match dict_get String.eqb column_name (_indexes self) with
  | None => None
  | Some index => Some (HashIndex.search index value)
  end.

(** Truth value of the result of [_find_by_index]. *)
Definition truthy_ids (o : option (list Z)) : bool :=
  match o with
  | Some (_ :: _) => true
  | _ => false
  end.

Definition _strip_internal_id (row : Row) : Row := base.delete "_row_id" row.

(** The loop of [create_index] over the stored rows.  A stored
    identifier that equals no int (only a table with a column named
    [_row_id] can hold one) is outside the signature
    [insert(key, row_id: int)]: the code inserts it as it is, the
    embedding leaves the row out. *)
Fixpoint populate (self : t) (column_name : string) (rows : list Row)
    (index : HashIndex.t) : result HashIndex.t :=
  match rows with
  | [] => Return index
  | row :: rows' =>
      match row !! "_row_id" with
      | Some v =>
          if negb (row_deleted self row) then
            let? key := getitem row column_name in
            match as_int v with
            | Some row_id =>
                populate self column_name rows' (HashIndex.insert index key row_id)
            | None => populate self column_name rows' index
            end
          else populate self column_name rows' index
      | None => populate self column_name rows' index
      end
  end.

Definition create_index (column_name : string) : M unit :=
  let* known := gets (fun self => has_column self column_name) in
  if negb known then
    let* table_name := gets name in
    raise (ColumnNotFoundError column_name (Some table_name))
  else
    let* present := gets (fun self => has_index self column_name) in
    if present then ret tt
    else
      let* index :=
        (fun self => (self, populate self column_name (_rows self)
                                     (HashIndex.init column_name))) in
      modify (set_indexes (dict_set String.eqb column_name index)).

(** [Table.__init__] *)
Definition init (name : string) (columns : list Column.t) : result t :=
  match columns with
  | [] => Raise (ValueError "Table must have at least one column")
  | _ =>
      let pk_columns := List.filter Column.is_primary_key columns in
      if Nat.ltb 1 (length pk_columns) then
        Raise (ValueError "Table can have at most one PRIMARY KEY")
      else
        let self :=
          mk name
             (fold_left (fun d col => dict_set String.eqb (Column.name col) col d)
                        columns [])
             (map Column.name columns)
             (match pk_columns with c :: _ => Some (Column.name c) | [] => None end)
             [] 0 ∅ [] in
        match for_each columns (fun col =>
                if Column.is_primary_key col || Column.is_unique col
                then create_index (Column.name col)
                else ret tt) self with
        | (self', Return _) => Return self'
        | (_, Raise e) => Raise e
        end
  end.

Definition drop_index (column_name : string) : M unit :=
  let* col := gets (fun self => dict_get String.eqb column_name (columns self)) in
  match col with
  | Some c =>
      if Column.is_primary_key c || Column.is_unique c then
        raise (ValueError ("Cannot drop index on PRIMARY KEY or UNIQUE column '"
                           +:+ column_name +:+ "'"))
      else modify (set_indexes (dict_del String.eqb column_name))
  | None => modify (set_indexes (dict_del String.eqb column_name))
  end.

(** The uniqueness test of [insert_row] for one column and value. *)
Definition check_unique (col_name : string) (value : Value) : M unit :=
  if negb (is_none value) then
    let* existing := gets (fun self => _find_by_index self col_name value) in
    if truthy_ids existing then raise (DuplicateKeyError col_name value)
    else ret tt
  else ret tt.

(** The blocks of [insert_row], in the order of the source. *)

(* Validate columns *)
Definition validate_columns (row_data : list (string * Value)) : M unit :=
  for_each row_data (fun '(col_name, _) =>
    let* known := gets (fun self => has_column self col_name) in
    if negb known then
      let* table_name := gets name in
      raise (ColumnNotFoundError col_name (Some table_name))
    else ret tt).

(* Build complete row with defaults for missing columns *)
Definition build_complete_row (row_data : list (string * Value)) : M Row :=
  let* cols := gets columns in
  fold_m cols (fun (complete_row : Row) '(col_name, column) =>
    let value := default VNull (dict_get String.eqb col_name row_data) in
    lift (Column.validate column value col_name) ;;
    ret (<[col_name := value]> complete_row)) ∅.

(* Check PRIMARY KEY uniqueness *)
Definition check_primary_key (complete_row : Row) : M unit :=
  let* pk := gets primary_key in
  if truthy_str pk then
    let* pk_value := lift (getitem complete_row (default "" pk)) in
    check_unique (default "" pk) pk_value
  else ret tt.

(* Check UNIQUE constraints *)
Definition check_unique_constraints (complete_row : Row) : M unit :=
  let* cols := gets columns in
  for_each cols (fun '(col_name, column) =>
    if Column.is_unique column && negb (Column.is_primary_key column) then
      let* value := lift (getitem complete_row col_name) in
      check_unique col_name value
    else ret tt).

(* Assign internal row ID, insert row, update all indexes *)
Definition store_row (complete_row : Row) : M Z :=
  let* row_id := gets _next_row_id in
  modify (set_next_row_id (fun n => n + 1)) ;;
  let complete_row := <["_row_id" := VInt row_id]> complete_row in
  modify (set_rows (fun rows => rows ++ [complete_row])%list) ;;
  let* indexes := gets _indexes in
  for_each indexes (fun '(col_name, _) =>
    let* key := lift (getitem complete_row col_name) in
    modify (set_indexes (dict_alter String.eqb
              (fun index => HashIndex.insert index key row_id) col_name))) ;;
  ret row_id.

Definition insert_row (row_data : list (string * Value)) : M Z :=
  validate_columns row_data ;;
  let* complete_row := build_complete_row row_data in
  check_primary_key complete_row ;;
  check_unique_constraints complete_row ;;
  store_row complete_row.

(** The first stored row that carries the identifier and is not
    deleted, with its position. *)
Fixpoint find_row (self : t) (row_id : Z) (rows : list Row) (i : nat)
    : option (nat * Row) :=
  match rows with
  | [] => None
  | row :: rows' =>
      if has_row_id row row_id && not_deleted self row_id then Some (i, row)
      else find_row self row_id rows' (S i)
  end.

Definition get_row (self : t) (row_id : Z) : option Row :=
  match find_row self row_id (_rows self) 0 with
  | Some (_, row) => Some (_strip_internal_id row)
  | None => None
  end.

(** The blocks of [update_row]. *)

(* Validate updates *)
Definition validate_updates (row_id : Z) (updates : list (string * Value))
    : M unit :=
  for_each updates (fun '(col_name, new_value) =>
    let* col := gets (fun self => dict_get String.eqb col_name (columns self)) in
    match col with
    | None =>
        let* table_name := gets name in
        raise (ColumnNotFoundError col_name (Some table_name))
    | Some column =>
        if Column.is_primary_key column then
          raise (ConstraintViolationError
                   ("Cannot update PRIMARY KEY column '" +:+ col_name +:+ "'"))
        else
          lift (Column.validate column new_value col_name) ;;
          if Column.is_unique column && negb (is_none new_value) then
            let* existing :=
              gets (fun self => _find_by_index self col_name new_value) in
            match existing with
            | Some (first :: _) =>
                if negb (Z.eqb first row_id) then
                  raise (DuplicateKeyError col_name new_value)
                else ret tt
            | _ => ret tt
            end
          else ret tt
    end).

(* Apply updates *)
Definition apply_updates (row_id : Z) (row_index : nat) (old_row : Row)
    (updates : list (string * Value)) : M unit :=
  let* new_row :=
    fold_m updates (fun (new_row : Row) '(col_name, new_value) =>
      let* old_value := lift (getitem old_row col_name) in
      let new_row := <[col_name := new_value]> new_row in
      let* indexed := gets (fun self => has_index self col_name) in
      (if indexed then
         modify (set_indexes (dict_alter String.eqb
           (fun index => HashIndex.insert
                           (HashIndex.delete index old_value row_id)
                           new_value row_id) col_name))
       else ret tt) ;;
      ret new_row) old_row in
  modify (set_rows (fun rows => <[row_index := new_row]> rows)).

Definition update_row (row_id : Z) (updates : list (string * Value)) : M bool :=
  (* Find the row *)
  let* found := gets (fun self => find_row self row_id (_rows self) 0) in
  match found with
  | None => ret false
  | Some (row_index, old_row) =>
      validate_updates row_id updates ;;
      apply_updates row_id row_index old_row updates ;;
      ret true
  end.

Definition delete_row (row_id : Z) : M bool :=
  let* found := gets (fun self => find_row self row_id (_rows self) 0) in
  match found with
  | Some (_, row) =>
      (* Mark as deleted *)
      modify (set_deleted_row_ids (fun s => {[row_id]} ∪ s)) ;;
      (* Update indexes *)
      let* indexes := gets _indexes in
      for_each indexes (fun '(col_name, _) =>
        let* key := lift (getitem row col_name) in
        modify (set_indexes (dict_alter String.eqb
                  (fun index => HashIndex.delete index key row_id) col_name))) ;;
      ret true
  | None => ret false
  end.

Definition scan (self : t) : list Row :=
  map _strip_internal_id
      (List.filter (fun row => negb (row_deleted self row)) (_rows self)).

Definition get_column (self : t) (column_name : string) : result Column.t :=
  match dict_get String.eqb column_name (columns self) with
  | Some c => Return c
  | None => Raise (ColumnNotFoundError column_name (Some (name self)))
  end.

Definition row_count (self : t) : Z :=
  Z.of_nat (length (_rows self)) - Z.of_nat (size (_deleted_row_ids self)).

(** [[self.columns[name].to_dict() for name in self.column_order]] *)
Fixpoint schema_of (columns : list (string * Column.t)) (names : list string)
    : result (list Column.ColumnDict) :=
  match names with
  | [] => Return []
  | name :: rest =>
      match dict_get String.eqb name columns with
      | Some column =>
          let? dicts := schema_of columns rest in
          Return (Column.to_dict column :: dicts)
      | None => Raise (KeyError name)
      end
  end.

Definition get_schema (self : t) : result (list Column.ColumnDict) :=
  schema_of (columns self) (column_order self).

(** [row.items()] for a row of this table.  [insert_row] fills a row
    in the order of [self.columns], the copy [update_row] makes keeps
    that order, and so does [_strip_internal_id] for what it keeps. *)
Definition row_items (self : t) (row : Row) : list (string * Value) :=
  omap (fun '(col_name, _) =>
          match row !! col_name with
          | Some value => Some (col_name, value)
          | None => None
          end) (columns self).

End Table.

(** ** storage/database.py *)

Module Database.

Record t : Type := mk {
  name : string;
  _tables : gmap string Table.t
}.

Definition get_table (self : t) (table_name : string) : result Table.t :=
  match _tables self !! table_name with
  | Some table => Return table
  | None => Raise (TableNotFoundError table_name)
  end.

(** The table object registered under [table_name] after a method
    mutated it in place. *)
Definition store (table_name : string) (table : Table.t) (self : t) : t :=
  mk (name self) (<[table_name := table]> (_tables self)).

(** [Database.__init__] *)
Definition init (name : string) : t := mk name ∅.

Definition has_table (self : t) (table_name : string) : bool :=
  bool_decide (is_Some (_tables self !! table_name)).

Definition create_table (table_name : string) (columns : list Column.t)
    (self : t) : t * result Table.t :=
  match Validators.validate_identifier table_name with
  | Raise e => (self, Raise e)
  | Return _ =>
      if has_table self table_name then
        (self, Raise (TableAlreadyExistsError table_name))
      else
        match Table.init table_name columns with
        | Return table => (store table_name table self, Return table)
        | Raise e => (self, Raise e)
        end
  end.

Definition drop_table (table_name : string) (self : t) : t * result unit :=
  if negb (has_table self table_name) then
    (self, Raise (TableNotFoundError table_name))
  else (mk (name self) (base.delete table_name (_tables self)), Return tt).

Definition table_count (self : t) : nat := size (_tables self).

Definition clear (self : t) : t := mk (name self) ∅.

End Database.

(** ** executor/planner.py *)

Module QueryPlanner.

Definition _find_index_opportunity (table : Table.t) (condition : Condition)
    : option string * Value :=
  match condition with
  | Comparison (ColumnRef column_name _) EQ (Literal value _) =>
      if Table.has_index table column_name then (Some column_name, value)
      else (None, VNull)
  | Comparison (Literal value _) EQ (ColumnRef column_name _) =>
      if Table.has_index table column_name then (Some column_name, value)
      else (None, VNull)
  | _ => (None, VNull)
  end.

(** [[table.get_row(i) for i in row_ids]], without the misses. *)
Definition rows_of_ids (table : Table.t) (row_ids : list Z) : list Row :=
  omap (Table.get_row table) row_ids.

Definition _get_candidate_rows (table : Table.t) (condition : Condition)
    : list Row :=
  let '(index_column, index_value) := _find_index_opportunity table condition in
  if truthy_str index_column && negb (is_none index_value) then
    match Table.get_index table (default "" index_column) with
    | Some index =>
        (* an index object with no key is falsy *)
        if negb (Nat.eqb (HashIndex.len index) 0) then
          rows_of_ids table (HashIndex.search index index_value)
        else Table.scan table
    | None => Table.scan table
    end
  else Table.scan table.

(** The filtering loop of [get_matching_rows]. *)
Fixpoint filter_rows (where_ : Condition) (rows : list Row) : result (list Row) :=
  match rows with
  | [] => Return []
  | row :: rows' =>
      let? keep := ConditionEvaluator.evaluate where_ row in
      let? rest := filter_rows where_ rows' in
      Return (if keep then row :: rest else rest)
  end.

Definition get_matching_rows (table : Table.t) (where_ : option Condition)
    : result (list Row) :=
  match where_ with
  | None => Return (Table.scan table)
  | Some w => filter_rows w (_get_candidate_rows table w)
  end.

Definition can_use_index (table : Table.t) (condition : option Condition) : bool :=
  match condition with
  | None => false
  | Some c =>
      let '(column, value) := _find_index_opportunity table c in
      match column with
      | Some _ => negb (is_none value)
      | None => false
      end
  end.

End QueryPlanner.

(** ** executor/executor.py

    The statements without a JOIN clause. *)

Inductive SelectColumns : Type :=
  | Star
  | Names (columns : list string).

Record SelectStmt : Type := {
  select_columns : SelectColumns;
  select_table_name : string;
  select_where : option Condition
}.

Record UpdateStmt : Type := {
  update_table_name : string;
  assignments : list (string * Value);
  update_where : option Condition
}.

Record DeleteStmt : Type := {
  delete_table_name : string;
  delete_where : option Condition
}.

Record InsertStmt : Type := {
  insert_table_name : string;
  insert_columns : list string;
  insert_values : list Value
}.

(** A column of a JOIN condition. *)
Record JoinColumn : Type := {
  join_column_name : string;
  join_column_table : option string
}.

Record JoinClause : Type := {
  join_table_name : string;
  left_column : JoinColumn;
  right_column : JoinColumn
}.

Record ColumnDef : Type := {
  def_name : string;
  def_data_type : string;
  def_max_length : option Z;
  def_constraints : list string
}.

Record CreateTableStmt : Type := {
  create_table_name : string;
  create_columns : list ColumnDef
}.

Record DropTableStmt : Type := {
  drop_table_name : string
}.

Record CreateIndexStmt : Type := {
  index_name : string;
  index_table_name : string;
  index_column_name : string
}.

(** A SELECT carries its JOIN clause, if it has one, beside it. *)
Inductive Statement : Type :=
  | CreateTable (stmt : CreateTableStmt)
  | DropTable (stmt : DropTableStmt)
  | CreateIndexOn (stmt : CreateIndexStmt)
  | Insert (stmt : InsertStmt)
  | Select (stmt : SelectStmt) (join : option JoinClause)
  | Update (stmt : UpdateStmt)
  | Delete (stmt : DeleteStmt).

(** A row as a dict in insertion order. *)
Abbreviation Items := (list (string * Value)).

Inductive QueryResult : Type :=
  | Rows (rows : list Row)
  | JoinedRows (rows : list Items)
  | Affected (count : Z)
  | NoResult.

(** ** utils/row_utils.py: [combine_rows] *)

Definition combine_rows (left_row right_row : Items)
    (left_table right_table : string) : Items :=
  let combined :=
    fold_left (fun combined '(col_name, value) =>
                 dict_set String.eqb (qualified_name left_table col_name)
                          value combined)
              left_row [] in
  fold_left (fun combined '(col_name, value) =>
               dict_set String.eqb (qualified_name right_table col_name)
                        value combined)
            right_row combined.

(** The dict an item list stands for. *)
Definition as_row (items : Items) : Row := list_to_map items.

(** [s.endswith(suffix)] *)
Definition ends_with (s suffix : string) : bool :=
  Nat.leb (String.length suffix) (String.length s)
  && String.eqb (substring (String.length s - String.length suffix)
                           (String.length suffix) s) suffix.

Module QueryExecutor.

(** A method body run on the table object a statement names; what it
    mutated stays mutated, also when it raises. *)
Definition on_table {A} (table_name : string) (body : Table.M A)
    (database : Database.t) : Database.t * result A :=
  match Database.get_table database table_name with
  | Return table =>
      let '(table', r) := body table in
      (Database.store table_name table' database, r)
  | Raise e => (database, Raise e)
  end.

(** [zip(stmt.columns, stmt.values)] collected into a dict. *)
Fixpoint build_row_data (columns : list string) (values : list Value)
    (row_data : list (string * Value)) : list (string * Value) :=
  match columns, values with
  | c :: columns', v :: values' =>
      build_row_data columns' values' (dict_set String.eqb c v row_data)
  | _, _ => row_data
  end.

Definition _execute_insert (stmt : InsertStmt) : Database.t → Database.t * result Z :=
  on_table (insert_table_name stmt)
    (if negb (Nat.eqb (length (insert_columns stmt)) (length (insert_values stmt)))
     then Table.raise (ValueError "Number of columns and values must match")
     else
       Table.bind
         (Table.insert_row
            (build_row_data (insert_columns stmt) (insert_values stmt) []))
         (fun _ => Table.ret 1)).

(** The projection loop of [_execute_select]; [project_columns] raises
    no [KeyError], so the handler that would turn one into
    [ColumnNotFoundError] has nothing to catch. *)
Definition _execute_select (stmt : SelectStmt) (database : Database.t)
    : result (list Row) :=
  let? table := Database.get_table database (select_table_name stmt) in
  let? matching_rows := QueryPlanner.get_matching_rows table (select_where stmt) in
  match select_columns stmt with
  | Star => Return matching_rows
  | Names columns =>
      Return (map (fun row => project_columns row columns) matching_rows)
  end.

(** [all(row.get(k) == v for k, v in match_row.items())] *)
Definition is_match (row match_row : Row) : bool :=
  forallb (fun '(k, v) => py_eq (default VNull (row !! k)) v)
          (map_to_list match_row).

(** [row['_row_id']] handed to a method whose parameter is
    [row_id: int].  The code hands over whatever is stored; the
    embedding, whose identifiers are ints, has no result for a stored
    value that equals no int, which only a table with a column named
    [_row_id] can hold. *)
Definition row_id_of (row : Row) : result Z :=
  let? v := Table.getitem row "_row_id" in
  match as_int v with
  | Some row_id => Return row_id
  | None => Raise TypeError
  end.

(** The inner loop of [_execute_update] and [_execute_delete]: the
    first stored row that is not deleted and matches is handed to
    [action]; the result tells whether there was one. *)
Fixpoint relocate (rows : list Row) (match_row : Row)
    (action : Z → Table.M bool) : Table.M bool :=
  match rows with
  | [] => Table.ret false
  | row :: rows' =>
      Table.bind (Table.gets (fun table => Table.row_deleted table row))
        (fun deleted =>
           if negb deleted && is_match row match_row then
             Table.bind (Table.lift (row_id_of row)) (fun row_id =>
             Table.bind (action row_id) (fun _ => Table.ret true))
           else relocate rows' match_row action)
  end.

(** The outer loop: one relocation per matching row, counting hits. *)
Fixpoint mutate_each (matching_rows : list Row) (action : Z → Table.M bool)
    (count : Z) : Table.M Z :=
  match matching_rows with
  | [] => Table.ret count
  | match_row :: rest =>
      Table.bind (Table.gets Table._rows) (fun rows =>
      Table.bind (relocate rows match_row action) (fun hit =>
      mutate_each rest action (if hit then count + 1 else count)))
  end.

Definition update_body (stmt : UpdateStmt) : Table.M Z :=
  Table.bind (fun table =>
                (table, QueryPlanner.get_matching_rows table (update_where stmt)))
    (fun matching_rows =>
       mutate_each matching_rows
         (fun row_id => Table.update_row row_id (assignments stmt)) 0).

Definition _execute_update (stmt : UpdateStmt)
    : Database.t → Database.t * result Z :=
  on_table (update_table_name stmt) (update_body stmt).

Definition delete_body (stmt : DeleteStmt) : Table.M Z :=
  Table.bind (fun table =>
                (table, QueryPlanner.get_matching_rows table (delete_where stmt)))
    (fun matching_rows =>
       mutate_each matching_rows (fun row_id => Table.delete_row row_id) 0).

Definition _execute_delete (stmt : DeleteStmt)
    : Database.t → Database.t * result Z :=
  on_table (delete_table_name stmt) (delete_body stmt).

(** *** DDL statements *)

(** [constraints.add(k)] on the set under construction. *)
Definition set_add (k : ColumnConstraint) (constraints : list ColumnConstraint)
    : list ColumnConstraint :=
  if existsb (ColumnConstraint.eqb k) constraints then constraints
  else (constraints ++ [k])%list.

(** The constraint strings of a column definition; a string that names
    no constraint adds nothing. *)
Definition parse_constraints (constraint_strs : list string)
    : list ColumnConstraint :=
  fold_left (fun constraints constraint_str =>
               if String.eqb constraint_str "PRIMARY KEY" then
                 set_add PRIMARY_KEY constraints
               else if String.eqb constraint_str "UNIQUE" then
                 set_add UNIQUE constraints
               else if String.eqb constraint_str "NOT NULL" then
                 set_add NOT_NULL constraints
               else constraints)
            constraint_strs [].

(** The loop of [_execute_create_table] over the column definitions. *)
Fixpoint build_columns (col_defs : list ColumnDef) (columns : list Column.t)
    : result (list Column.t) :=
  match col_defs with
  | [] => Return columns
  | col_def :: rest =>
      let? data_type := DataType.from_string (def_data_type col_def) in
      let constraints := parse_constraints (def_constraints col_def) in
      let? column := Column.init (def_name col_def) data_type
                                 (def_max_length col_def) constraints in
      build_columns rest (columns ++ [column])%list
  end.

Definition _execute_create_table (stmt : CreateTableStmt)
    (database : Database.t) : Database.t * result unit :=
  match build_columns (create_columns stmt) [] with
  | Return columns =>
      match Database.create_table (create_table_name stmt) columns database with
      | (database', Return _) => (database', Return tt)
      | (database', Raise e) => (database', Raise e)
      end
  | Raise e => (database, Raise e)
  end.

Definition _execute_drop_table (stmt : DropTableStmt)
    : Database.t → Database.t * result unit :=
  Database.drop_table (drop_table_name stmt).

Definition _execute_create_index (stmt : CreateIndexStmt)
    : Database.t → Database.t * result unit :=
  on_table (index_table_name stmt)
           (Table.create_index (index_column_name stmt)).

(** *** SELECT with INNER JOIN *)

(** The body of the [try] for one pair of rows: the combined row to
    append, if there is one. *)
Definition join_pair (stmt : SelectStmt) (join : JoinClause)
    (left_table right_table : Table.t) (left_row right_row : Row)
    : result (option Items) :=
  let? left_value :=
    get_column_value left_row (join_column_name (left_column join))
                     (join_column_table (left_column join)) in
  let? right_value :=
    get_column_value right_row (join_column_name (right_column join))
                     (join_column_table (right_column join)) in
  if py_eq left_value right_value then
    let combined :=
      combine_rows (Table.row_items left_table left_row)
                   (Table.row_items right_table right_row)
                   (select_table_name stmt) (join_table_name join) in
    match select_where stmt with
    | None => Return (Some combined)
    | Some where_ =>
        let? keep := ConditionEvaluator.evaluate where_ (as_row combined) in
        Return (if keep then Some combined else None)
    end
  else Return None.

(** The inner loop; [except KeyError: continue]. *)
Fixpoint join_right (stmt : SelectStmt) (join : JoinClause)
    (left_table right_table : Table.t) (left_row : Row)
    (right_rows : list Row) (result_rows : list Items)
    : result (list Items) :=
  match right_rows with
  | [] => Return result_rows
  | right_row :: rest =>
      match join_pair stmt join left_table right_table left_row right_row with
      | Return (Some combined) =>
          join_right stmt join left_table right_table left_row rest
                     (result_rows ++ [combined])%list
      | Return None | Raise (KeyError _) =>
          join_right stmt join left_table right_table left_row rest result_rows
      | Raise e => Raise e
      end
  end.

(** The outer loop. *)
Fixpoint join_left (stmt : SelectStmt) (join : JoinClause)
    (left_table right_table : Table.t) (left_rows : list Row)
    (result_rows : list Items) : result (list Items) :=
  match left_rows with
  | [] => Return result_rows
  | left_row :: rest =>
      let? result_rows :=
        join_right stmt join left_table right_table left_row
                   (Table.scan right_table) result_rows in
      join_left stmt join left_table right_table rest result_rows
  end.

(** The first key of [row] that ends with [.col_spec], with its value. *)
Definition find_suffixed (col_spec : string) (row : Items)
    : option (string * Value) :=
  List.find (fun '(key, _) => ends_with key ("." +:+ col_spec)) row.

(** The projection of one joined row. *)
Fixpoint project_joined (row : Items) (columns : list string)
    (projected : Items) : result Items :=
  match columns with
  | [] => Return projected
  | col_spec :: rest =>
      match dict_get String.eqb col_spec row with
      | Some value =>
          project_joined row rest (dict_set String.eqb col_spec value projected)
      | None =>
          match find_suffixed col_spec row with
          | Some (key, value) =>
              project_joined row rest (dict_set String.eqb key value projected)
          | None => Raise (ColumnNotFoundError col_spec None)
          end
      end
  end.

Fixpoint project_all (rows : list Items) (columns : list string)
    (projected_results : list Items) : result (list Items) :=
  match rows with
  | [] => Return projected_results
  | row :: rest =>
      let? projected := project_joined row columns [] in
      project_all rest columns (projected_results ++ [projected])%list
  end.

Definition _execute_select_with_join (stmt : SelectStmt) (join : JoinClause)
    (database : Database.t) : result (list Items) :=
  let? left_table := Database.get_table database (select_table_name stmt) in
  let? right_table := Database.get_table database (join_table_name join) in
  let? result_rows :=
    join_left stmt join left_table right_table (Table.scan left_table) [] in
  match select_columns stmt with
  | Star => Return result_rows
  | Names columns => project_all result_rows columns []
  end.

(** [execute]: the dispatch on the statement type. *)
Definition execute (statement : Statement) (database : Database.t)
    : Database.t * result QueryResult :=
  match statement with
  | CreateTable stmt =>
      let '(database', r) := _execute_create_table stmt database in
      (database', let? _ := r in Return NoResult)
  | DropTable stmt =>
      let '(database', r) := _execute_drop_table stmt database in
      (database', let? _ := r in Return NoResult)
  | CreateIndexOn stmt =>
      let '(database', r) := _execute_create_index stmt database in
      (database', let? _ := r in Return NoResult)
  | Insert stmt =>
      let '(database', r) := _execute_insert stmt database in
      (database', let? n := r in Return (Affected n))
  | Select stmt None =>
      (database, let? rows := _execute_select stmt database in Return (Rows rows))
  | Select stmt (Some join) =>
      (database, let? rows := _execute_select_with_join stmt join database in
                 Return (JoinedRows rows))
  | Update stmt =>
      let '(database', r) := _execute_update stmt database in
      (database', let? n := r in Return (Affected n))
  | Delete stmt =>
      let '(database', r) := _execute_delete stmt database in
      (database', let? n := r in Return (Affected n))
  end.

End QueryExecutor.

(** ** Notions used to state the properties *)

(** No two entries of a dict have equal keys. *)
Fixpoint dict_ok {K V} (eqb : K → K → bool) (d : list (K * V)) : Prop :=
  match d with
  | [] => True
  | (k, _) :: d' => dict_get eqb k d' = None ∧ dict_ok eqb d'
  end.

(** [l] without the first occurrence of [x], if there is one. *)
Definition remove1 (x : Z) (l : list Z) : list Z :=
  default l (list_remove x l).

(** The keys of an index are pairwise different and none is null. *)
Definition index_ok (index : HashIndex.t) : Prop :=
  dict_ok py_eq (HashIndex._index index)
  ∧ Forall (fun k => is_none k = false) (HashIndex.get_all_keys index).

(** A Python dict has one entry per key. *)
Definition is_dict {V} (d : list (string * V)) : Prop := NoDup (map fst d).

(** *** Sequences of table operations *)

Inductive Op : Type :=
  | InsertRow (row_data : list (string * Value))
  | UpdateRow (row_id : Z) (updates : list (string * Value))
  | DeleteRow (row_id : Z)
  | CreateIndex (column_name : string)
  | DropIndex (column_name : string).

(** The table after one call, whether the call returned or raised. *)
Definition apply_op (op : Op) (table : Table.t) : Table.t :=
  match op with
  | InsertRow row_data => fst (Table.insert_row row_data table)
  | UpdateRow row_id updates => fst (Table.update_row row_id updates table)
  | DeleteRow row_id => fst (Table.delete_row row_id table)
  | CreateIndex column_name => fst (Table.create_index column_name table)
  | DropIndex column_name => fst (Table.drop_index column_name table)
  end.

Definition run (ops : list Op) (table : Table.t) : Table.t :=
  fold_left (fun t op => apply_op op t) ops table.

(** The dict arguments of a call are dicts. *)
Definition op_ok (op : Op) : Prop :=
  match op with
  | InsertRow row_data => is_dict row_data
  | UpdateRow _ updates => is_dict updates
  | _ => True
  end.

(** A column object is one that its constructor returned. *)
Definition valid_column (c : Column.t) : Prop :=
  Column.init (Column.name c) (Column.data_type c)
              (Column.max_length c) (Column.constraints c) = Return c.

(** The tables a program can hold: built by the constructor from
    column objects, then used through the methods. *)
Definition reachable (table : Table.t) : Prop :=
  ∃ name columns ops table0,
    Forall valid_column columns
    ∧ Table.init name columns = Return table0
    ∧ Forall op_ok ops
    ∧ table = run ops table0.

(** The schema gives no column the name of the internal key under
    which a stored row keeps its identifier. *)
Definition no_internal_column (table : Table.t) : Prop :=
  Table.has_column table "_row_id" = false.

(** *** States reached by the mutating methods *)

(** Every index named in [l] altered by [h]. *)
Definition alter_all (h : string → HashIndex.t → HashIndex.t)
    (l d : list (string * HashIndex.t)) : list (string * HashIndex.t) :=
  fold_left (fun d '(c, _) => dict_alter String.eqb (h c) c d) l d.

Definition value_at (row : Row) (c : string) : Value :=
  default VNull (row !! c).

(** The row [insert_row] stores for [row_data]. *)
Definition complete_row_of (cols : list (string * Column.t))
    (row_data : list (string * Value)) (acc : Row) : Row :=
  fold_left (fun (acc : Row) '(c, _) =>
               <[c := default VNull (dict_get String.eqb c row_data)]> acc)
            cols acc.

Definition insert_commit (table : Table.t) (complete_row : Row) : Table.t :=
  let row_id := Table._next_row_id table in
  let row := <["_row_id" := VInt row_id]> complete_row in
  Table.set_indexes
    (alter_all (fun c index => HashIndex.insert index (value_at row c) row_id)
               (Table._indexes table))
    (Table.set_rows (fun rows => rows ++ [row])%list
       (Table.set_next_row_id (fun n => n + 1) table)).

Definition updated_row (old_row : Row) (updates : list (string * Value)) : Row :=
  fold_left (fun (r : Row) '(c, v) => <[c := v]> r) updates old_row.

Definition update_commit (table : Table.t) (row_id : Z) (row_index : nat)
    (old_row : Row) (updates : list (string * Value)) : Table.t :=
  Table.set_rows (fun rows => <[row_index := updated_row old_row updates]> rows)
    (Table.set_indexes
       (fun d =>
          fold_left (fun d '(c, v) =>
            dict_alter String.eqb
              (fun index => HashIndex.insert
                              (HashIndex.delete index (value_at old_row c) row_id)
                              v row_id) c d) updates d)
       table).

Definition delete_commit (table : Table.t) (row_id : Z) (row : Row) : Table.t :=
  Table.set_indexes
    (alter_all (fun c index => HashIndex.delete index (value_at row c) row_id)
               (Table._indexes table))
    (Table.set_deleted_row_ids (fun s => {[row_id]} ∪ s) table).

(** *** Well-formed and consistent tables *)

(** What the methods rely on to run without a [KeyError]. *)
Definition wf (table : Table.t) : Prop :=
  dict_ok String.eqb (Table.columns table)
  ∧ dict_ok String.eqb (Table._indexes table)
  ∧ (∀ c, Table.has_index table c = true → Table.has_column table c = true)
  ∧ (∀ row, In row (Table._rows table) →
       ∀ c, Table.has_column table c = true → is_Some (row !! c)).

(** The stored row that carries identifier [row_id]. *)
Definition row_at (table : Table.t) (row_id : Z) : option Row :=
  if Z.leb 0 row_id then Table._rows table !! Z.to_nat row_id else None.

(** Row [row_id] is live and holds a value equal to [v] in column [c]. *)
Definition holds_value (table : Table.t) (c : string) (v : Value) (row_id : Z)
    : Prop :=
  ∃ row w,
    row_at table row_id = Some row
    ∧ (row_id ∉ Table._deleted_row_ids table)
    ∧ row !! c = Some w
    ∧ py_eq w v = true.

Definition index_exact (table : Table.t) (c : string) (index : HashIndex.t)
    : Prop :=
  index_ok index
  ∧ ∀ v, is_none v = false →
      NoDup (HashIndex.search index v)
      ∧ ∀ row_id, In row_id (HashIndex.search index v)
                  ↔ holds_value table c v row_id.

Record consistent (table : Table.t) : Prop := {
  cons_ids : ∀ i row, Table._rows table !! i = Some row →
      row !! "_row_id" = Some (VInt (Z.of_nat i));
  cons_next : Table._next_row_id table = Z.of_nat (length (Table._rows table));
  cons_deleted : ∀ row_id, row_id ∈ Table._deleted_row_ids table →
      0 ≤ row_id < Table._next_row_id table;
  cons_keys : ∀ row k, In row (Table._rows table) → is_Some (row !! k) →
      k = "_row_id" ∨ Table.has_column table k = true;
  cons_index : ∀ c index, Table.get_index table c = Some index →
      index_exact table c index;
  cons_unique : ∀ c column index v,
      dict_get String.eqb c (Table.columns table) = Some column →
      Column.is_unique column = true →
      Table.get_index table c = Some index →
      (length (HashIndex.search index v) ≤ 1)%nat;
  cons_mandatory : ∀ c column,
      dict_get String.eqb c (Table.columns table) = Some column →
      Column.is_unique column = true →
      Table.has_index table c = true;
  cons_pk : ∀ c column,
      dict_get String.eqb c (Table.columns table) = Some column →
      Column.is_primary_key column = true →
      Table.primary_key table = Some c;
  cons_names : ∀ c column,
      dict_get String.eqb c (Table.columns table) = Some column →
      Validators.validate_identifier c = Return true
}.

(** A computation that leaves the table as it found it. *)
Definition readonly {A} (m : Table.M A) : Prop := ∀ self, fst (m self) = self.

(** A traced computation is sound when it raises a column-not-found
    error exactly if one of the references it attempted is absent. *)
Definition sound {A} (row : Row) (m : ConditionEvaluator.traced A) : Prop :=
  (∃ n, snd m = Raise (ColumnNotFoundError n None))
  ↔ (∃ e, In e (fst m) ∧ ConditionEvaluator.absent e row).

(** The uniqueness test of [insert_row] lets [v] through for column [c]. *)
Definition unique_free (table : Table.t) (c : string) (v : Value) : Prop :=
  is_none v = true ∨ Table.truthy_ids (Table._find_by_index table c v) = false.

(** [insert_row] accepts [row_data]: the conditions under which none of
    its checks raises. *)
Definition insert_accepts (table : Table.t) (row_data : list (string * Value))
    : Prop :=
  let complete_row := complete_row_of (Table.columns table) row_data ∅ in
  (∀ c v, In (c, v) row_data → Table.has_column table c = true)
  ∧ (∀ c column, In (c, column) (Table.columns table) →
       Column.validate column (default VNull (dict_get String.eqb c row_data)) c
       = Return tt)
  ∧ (truthy_str (Table.primary_key table) = true →
       ∃ v, complete_row !! default "" (Table.primary_key table) = Some v
            ∧ unique_free table (default "" (Table.primary_key table)) v)
  ∧ (∀ c column, In (c, column) (Table.columns table) →
       Column.is_unique column && negb (Column.is_primary_key column) = true →
       ∃ v, complete_row !! c = Some v ∧ unique_free table c v).

(** [update_row] accepts [updates] for the row [row_id]: the conditions
    under which its validation loop raises nothing. *)
Definition update_accepts (table : Table.t) (row_id : Z)
    (updates : list (string * Value)) : Prop :=
  ∀ c v, In (c, v) updates →
    ∃ column,
      dict_get String.eqb c (Table.columns table) = Some column
      ∧ Column.is_primary_key column = false
      ∧ Column.validate column v c = Return tt
      ∧ (Column.is_unique column && negb (is_none v) = true →
           match Table._find_by_index table c v with
           | Some (first :: _) => first = row_id
           | _ => True
           end).

(** Two table states have the same schema. *)
Definition same_schema (a b : Table.t) : Prop :=
  Table.name a = Table.name b
  ∧ Table.columns a = Table.columns b
  ∧ Table.column_order a = Table.column_order b
  ∧ Table.primary_key a = Table.primary_key b.

(** A table that holds no row yet. *)
Definition empty_table (table : Table.t) : Prop :=
  Table._rows table = []
  ∧ Table._next_row_id table = 0
  ∧ Table._deleted_row_ids table = ∅
  ∧ dict_ok String.eqb (Table.columns table)
  ∧ dict_ok String.eqb (Table._indexes table)
  ∧ (∀ c, Table.has_index table c = true → Table.has_column table c = true)
  ∧ (∀ c index, Table.get_index table c = Some index →
       index = HashIndex.init c).

(** The index under construction by [create_index] is exact for the
    rows before position [n]. *)
Definition exact_below (self : Table.t) (c : string) (n : nat)
    (index : HashIndex.t) : Prop :=
  index_ok index
  ∧ ∀ v, is_none v = false →
      NoDup (HashIndex.search index v)
      ∧ ∀ row_id, In row_id (HashIndex.search index v)
                  ↔ holds_value self c v row_id ∧ row_id < Z.of_nat n.

(** *** Live rows as the planner and the executor see them *)

(** The external view of the row [row_id] ([get_row], with the empty
    dict standing for [None]). *)
Definition row_view (table : Table.t) (row_id : Z) : Row :=
  default ∅ (Table.get_row table row_id).

(** The identifiers of the live rows, in storage order. *)
Definition live_ids (table : Table.t) : list Z :=
  List.filter (Table.not_deleted table)
    (map Z.of_nat (seq 0 (length (Table._rows table)))).

(** The evaluator accepts [row] for the WHERE clause (an absent clause
    accepts every row). *)
Definition accepts (where_ : option Condition) (row : Row) : bool :=
  match where_ with
  | None => true
  | Some w =>
      match ConditionEvaluator.evaluate w row with
      | Return true => true
      | _ => false
      end
  end.

(** Two rows have the same columns and hold equal values in each. *)
Definition value_identical (a b : Row) : Prop :=
  ∀ k, (is_Some (a !! k) ↔ is_Some (b !! k))
       ∧ py_eq (default VNull (a !! k)) (default VNull (b !! k)) = true.

(** No two live rows are value-identical across every column. *)
Definition distinct_live (table : Table.t) : Prop :=
  ∀ i j, In i (live_ids table) → In j (live_ids table) →
    value_identical (row_view table i) (row_view table j) → i = j.

(** Some live row holds a value equal to [v] in column [c]. *)
Definition collides (table : Table.t) (c : string) (v : Value) : bool :=
  existsb (fun row => py_eq (value_at row c) v) (Table.scan table).

(** A string contains a dot. *)
Fixpoint has_dot (s : string) : bool :=
  match s with
  | EmptyString => false
  | String ch s' => Ascii.eqb ch "." || has_dot s'
  end.

(** The assignments of an UPDATE that no row can make [update_row]
    reject: known columns other than the primary key, valid values, and
    no non-null value for a UNIQUE column. *)
Definition assignments_admissible (table : Table.t)
    (assignments : list (string * Value)) : Prop :=
  ∀ c v, In (c, v) assignments →
    ∃ column,
      dict_get String.eqb c (Table.columns table) = Some column
      ∧ Column.is_primary_key column = false
      ∧ Column.validate column v c = Return tt
      ∧ Column.is_unique column && negb (is_none v) = false.

(** The state of an UPDATE in progress: [table0] is the table at call
    time, [all_ids] the matched identifiers, [remaining] those whose
    matched row has not been handled yet. *)
Record update_inv (table0 : Table.t) (assignments : list (string * Value))
    (all_ids : list Z) (table : Table.t) (remaining : list Z) : Prop := {
  ui_wf : wf table;
  ui_cons : consistent table;
  ui_schema : same_schema table table0;
  ui_live : live_ids table = live_ids table0;
  ui_status : ∀ i, In i (live_ids table0) →
      row_view table i = row_view table0 i
      ∨ (row_view table i = updated_row (row_view table0 i) assignments
         ∧ In i all_ids);
  ui_remaining : ∀ i, In i remaining → row_view table i = row_view table0 i;
  ui_done : ∀ i, In i all_ids → ¬ In i remaining →
      value_identical (row_view table i)
                      (updated_row (row_view table0 i) assignments)
}.


(** *** Sequences of index operations *)

Inductive IndexOp : Type :=
  | IndexInsert (key : Value) (row_id : Z)
  | IndexDelete (key : Value) (row_id : Z)
  | IndexClear.

Definition index_apply (op : IndexOp) (index : HashIndex.t) : HashIndex.t :=
  match op with
  | IndexInsert key row_id => HashIndex.insert index key row_id
  | IndexDelete key row_id => HashIndex.delete index key row_id
  | IndexClear => HashIndex.clear index
  end.

Definition index_run (ops : list IndexOp) (index : HashIndex.t) : HashIndex.t :=
  fold_left (fun index op => index_apply op index) ops index.


(** Every stored row holds, in every column, a value that the column
    accepts. *)
Definition conforms (table : Table.t) : Prop :=
  ∀ row c column, In row (Table._rows table) →
    dict_get String.eqb c (Table.columns table) = Some column →
    Column.validate column (value_at row c) c = Return tt.

(** *** What one call can do to a table

    [step table table'] lists the states a call of [insert_row],
    [update_row], [delete_row], [create_index] or [drop_index] can
    leave behind. *)
Inductive step (table : Table.t) : Table.t → Prop :=
  | step_none : step table table
  | step_insert row_data :
      insert_accepts table row_data →
      step table
        (insert_commit table (complete_row_of (Table.columns table) row_data ∅))
  | step_update row_id raw updates :
      row_at table row_id = Some raw →
      row_id ∉ Table._deleted_row_ids table →
      is_dict updates →
      update_accepts table row_id updates →
      step table (update_commit table row_id (Z.to_nat row_id) raw updates)
  | step_delete row_id raw :
      row_at table row_id = Some raw →
      row_id ∉ Table._deleted_row_ids table →
      step table (delete_commit table row_id raw)
  | step_create column_name index :
      Table.has_column table column_name = true →
      Table.has_index table column_name = false →
      Table.populate table column_name (Table._rows table)
                     (HashIndex.init column_name) = Return index →
      step table (Table.set_indexes (dict_set String.eqb column_name index) table)
  | step_drop column_name :
      (∀ column,
         dict_get String.eqb column_name (Table.columns table) = Some column →
         Column.is_unique column = false) →
      step table (Table.set_indexes (dict_del String.eqb column_name) table).

(** *** Sequences of statements *)

(** The database after the statements were executed in turn, whether
    they returned or raised. *)
Definition run_statements (statements : list Statement)
    (database : Database.t) : Database.t :=
  fold_left (fun database statement =>
               fst (QueryExecutor.execute statement database))
            statements database.

(** The statements considered: a CREATE TABLE defines no column named
    [_row_id], the key under which a stored row keeps its identifier,
    and the assignments of an UPDATE are a dict. *)
Definition statement_ok (statement : Statement) : Prop :=
  match statement with
  | CreateTable stmt =>
      Forall (fun col_def => def_name col_def ≠ "_row_id") (create_columns stmt)
  | Update stmt => is_dict (assignments stmt)
  | _ => True
  end.

(** Every table of the database is one a program can hold, has no
    column named [_row_id] and is registered under its own name. *)
Definition tables_reachable (database : Database.t) : Prop :=
  ∀ table_name table,
    Database._tables database !! table_name = Some table →
    reachable table ∧ no_internal_column table
    ∧ Table.name table = table_name.

(** The constraint a constraint string names. *)
Definition constraint_string (k : ColumnConstraint) : string :=
  match k with
  | PRIMARY_KEY => "PRIMARY KEY"
  | UNIQUE => "UNIQUE"
  | NOT_NULL => "NOT NULL"
  end.

(** A column object made from a column definition. *)
Definition column_of (col_def : ColumnDef) (column : Column.t) : Prop :=
  Column.name column = def_name col_def
  ∧ DataType.from_string (def_data_type col_def)
    = Return (Column.data_type column)
  ∧ Column.max_length column = def_max_length col_def
  ∧ Column.constraints column = QueryExecutor.parse_constraints (def_constraints col_def)
  ∧ Validators.validate_identifier (def_name col_def) = Return true.

(** *** Strings and conditions *)

(** Every character of a string passes a test. *)
Fixpoint all_chars (p : ascii → bool) (s : string) : bool :=
  match s with
  | EmptyString => true
  | String ch s' => p ch && all_chars p s'
  end.

(** The string that holds one line feed. *)
Definition newline : string := String (ascii_of_nat 10) EmptyString.

(** The condition contains a comparison by [<], [>], [<=] or [>=]. *)
Fixpoint uses_ordering (condition : Condition) : bool :=
  match condition with
  | Comparison _ op _ =>
      match op with
      | EQ | NE => false
      | LT | GT | LTE | GTE => true
      end
  | LogicalCondition lhs _ rhs => uses_ordering lhs || uses_ordering rhs
  end.

(** The operand a condition evaluates first. *)
Fixpoint first_operand (condition : Condition) : Expr :=
  match condition with
  | Comparison lhs _ _ => lhs
  | LogicalCondition lhs _ _ => first_operand lhs
  end.

(** *** Pairs of rows in a join *)

(** The pairs of rows that add nothing to the result. *)
Definition skipped (r : result (option Items)) : Prop :=
  r = Return None ∨ ∃ message, r = Raise (KeyError message).

(** A pair that adds nothing or fails with [e]. *)
Definition barren (e : Exception) (r : result (option Items)) : Prop :=
  skipped r ∨ r = Raise e.
(** ** Example tables and statements *)

Module Example.

Definition users_columns : list Column.t :=
  [ Column.mk "id" INTEGER None [PRIMARY_KEY];
    Column.mk "email" VARCHAR (Some 10) [UNIQUE];
    Column.mk "age" INTEGER None [] ].

Definition empty_users : Table.t :=
  match Table.init "users" users_columns with
  | Return table => table
  | Raise _ => Table.mk "users" [] [] None [] 0 ∅ []
  end.

Definition alice : list (string * Value) :=
  [("id", VInt 1); ("email", VStr "a"); ("age", VInt 30)].

Definition bob : list (string * Value) :=
  [("id", VInt 2); ("email", VStr "b"); ("age", VInt 25)].

Definition users_ops : list Op := [InsertRow alice; InsertRow bob].

(** Two users, identifiers 0 and 1. *)
Definition users : Table.t := run users_ops empty_users.

(** A row that repeats the primary key of [alice]. *)
Definition alice_again : list (string * Value) :=
  [("id", VInt 1); ("email", VStr "c"); ("age", VInt 41)].

Definition database : Database.t :=
  Database.mk "default" {[ "users" := users ]}.

Definition select_nope : SelectStmt :=
  {| select_columns := Names ["nope"];
     select_table_name := "users";
     select_where := None |}.

Definition older_than_26 : Condition :=
  Comparison (ColumnRef "age" None) GT (Literal (VInt 26) "NUMBER").

Definition id_is_2 : Condition :=
  Comparison (ColumnRef "id" None) EQ (Literal (VInt 2) "NUMBER").

Definition delete_older : DeleteStmt :=
  {| delete_table_name := "users";
     delete_where := Some older_than_26 |}.

Definition retire_older : UpdateStmt :=
  {| update_table_name := "users";
     assignments := [("age", VInt 26); ("email", VNull)];
     update_where := Some older_than_26 |}.

Definition create_users : CreateTableStmt :=
  {| create_table_name := "users";
     create_columns :=
       [ {| def_name := "id"; def_data_type := "int";
            def_max_length := None; def_constraints := ["PRIMARY KEY"] |};
         {| def_name := "email"; def_data_type := "VARCHAR";
            def_max_length := Some 10; def_constraints := ["UNIQUE"] |};
         {| def_name := "age"; def_data_type := "INTEGER";
            def_max_length := None; def_constraints := [] |} ] |}.

Definition insert_alice : InsertStmt :=
  {| insert_table_name := "users";
     insert_columns := ["id"; "email"; "age"];
     insert_values := [VInt 1; VStr "a"; VInt 30] |}.

Definition insert_bob : InsertStmt :=
  {| insert_table_name := "users";
     insert_columns := ["id"; "email"; "age"];
     insert_values := [VInt 2; VStr "b"; VInt 25] |}.

(** [SELECT * FROM users INNER JOIN users ON users.id = users.id
    WHERE age > 26] *)
Definition select_older : SelectStmt :=
  {| select_columns := Star;
     select_table_name := "users";
     select_where := Some older_than_26 |}.

Definition join_users : JoinClause :=
  {| join_table_name := "users";
     left_column := {| join_column_name := "id";
                       join_column_table := Some "users" |};
     right_column := {| join_column_name := "id";
                        join_column_table := Some "users" |} |}.

(** A join on a column that [users] does not have. *)
Definition join_on_nope : JoinClause :=
  {| join_table_name := "users";
     left_column := {| join_column_name := "nope";
                       join_column_table := Some "users" |};
     right_column := {| join_column_name := "id";
                        join_column_table := Some "users" |} |}.

(** A session on an empty database. *)
Definition session : list Statement :=
  [ CreateTable create_users; Insert insert_alice; Insert insert_bob;
    Insert insert_alice; Update retire_older; Delete delete_older ].

Definition session_users : Table.t :=
  match Database.get_table (run_statements session (Database.init "default"))
                           "users" with
  | Return table => table
  | Raise _ => empty_users
  end.

(** A table whose schema gives a column the name of the key under which
    a stored row keeps its identifier:
    [Table("tagged", [Column("_row_id", INTEGER),
                      Column("email", VARCHAR, 10, [UNIQUE])])],
    then [insert_row({"email": "a"})] and
    [update_row(0, {"_row_id": 99})]. *)
Definition tagged_columns : list Column.t :=
  [ Column.mk "_row_id" INTEGER None [];
    Column.mk "email" VARCHAR (Some 10) [UNIQUE] ].

Definition empty_tagged : Table.t :=
  match Table.init "tagged" tagged_columns with
  | Return table => table
  | Raise _ => Table.mk "tagged" [] [] None [] 0 ∅ []
  end.

Definition tagged_ops : list Op :=
  [InsertRow [("email", VStr "a")]; UpdateRow 0 [("_row_id", VInt 99)]].

Definition tagged : Table.t := run tagged_ops empty_tagged.

Definition email_is_a : Condition :=
  Comparison (ColumnRef "email" None) EQ (Literal (VStr "a") "STRING").

Definition tagged_database : Database.t :=
  Database.mk "default" {[ "tagged" := tagged ]}.

Definition delete_a : DeleteStmt :=
  {| delete_table_name := "tagged";
     delete_where := Some email_is_a |}.

(** The same with a primary key:
    [Table("keyed", [Column("id", INTEGER, constraints=[PRIMARY_KEY]),
                     Column("_row_id", INTEGER)])],
    then [insert_row({"id": 1})] and [update_row(0, {"_row_id": 99})]. *)
Definition keyed_columns : list Column.t :=
  [ Column.mk "id" INTEGER None [PRIMARY_KEY];
    Column.mk "_row_id" INTEGER None [] ].

Definition empty_keyed : Table.t :=
  match Table.init "keyed" keyed_columns with
  | Return table => table
  | Raise _ => Table.mk "keyed" [] [] None [] 0 ∅ []
  end.

Definition keyed_ops : list Op :=
  [InsertRow [("id", VInt 1)]; UpdateRow 0 [("_row_id", VInt 99)]].

Definition keyed : Table.t := run keyed_ops empty_keyed.

End Example.

(** * Properties *)

(** ** Equality of values *)

Lemma py_eq_refl v : py_eq v v = true.
Proof.
  destruct v; simpl; auto using Qeq_bool_refl.
  apply String.eqb_refl.
Qed.

Lemma py_eq_sym v w : py_eq v w = py_eq w v.
Proof.
  destruct v, w; simpl; auto using Qeq_bool_comm.
  apply String.eqb_sym.
Qed.

Lemma Qeq_bool_trans a b c :
  Qeq_bool a b = true → Qeq_bool b c = true → Qeq_bool a c = true.
Proof.
  rewrite !Qeq_bool_iff. intros H1 H2. by rewrite H1.
Qed.

(** [py_eq] compares the class of a value: null, a string or a number. *)
Lemma py_eq_num v w :
  py_eq v w = true →
  match num_of v, num_of w with
  | Some a, Some b => Qeq_bool a b = true
  | None, None => True
  | _, _ => False
  end.
Proof. destruct v, w; simpl; auto; discriminate. Qed.

Lemma py_eq_trans u v w :
  py_eq u v = true → py_eq v w = true → py_eq u w = true.
Proof.
  destruct u, v, w; simpl; try discriminate; auto;
    try (apply Qeq_bool_trans).
  rewrite !String.eqb_eq. congruence.
Qed.

Lemma py_eq_trans_l u v w :
  py_eq u v = true → py_eq u w = py_eq v w.
Proof.
  intros H. destruct (py_eq v w) eqn:E.
  - eapply py_eq_trans; eauto.
  - destruct (py_eq u w) eqn:E'; auto.
    rewrite py_eq_sym in H. by rewrite (py_eq_trans _ _ _ H E') in E.
Qed.

Lemma py_eq_trans_r u v w :
  py_eq u v = true → py_eq w u = py_eq w v.
Proof. intros H. rewrite !(py_eq_sym w). by apply py_eq_trans_l. Qed.

Lemma py_eq_VInt a b : py_eq (VInt a) (VInt b) = Z.eqb a b.
Proof.
  simpl. unfold Qeq_bool, inject_Z. simpl.
  by rewrite !Z.mul_1_r.
Qed.

Lemma py_eq_null_l v : py_eq VNull v = is_none v.
Proof. by destruct v. Qed.

Lemma py_eq_null_r v : py_eq v VNull = is_none v.
Proof. by destruct v. Qed.

Lemma is_none_py_eq v w : py_eq v w = true → is_none v = is_none w.
Proof. destruct v, w; simpl; auto; discriminate. Qed.

Lemma is_none_true v : is_none v = true ↔ v = VNull.
Proof. destruct v; simpl; split; congruence. Qed.

(** ** The condition evaluator *)

Section Evaluator.
Import ConditionEvaluator.

Lemma get_column_value_raise row column_name table_name e :
  get_column_value row column_name table_name = Raise e →
  e = KeyError (not_found_message column_name).
Proof.
  unfold get_column_value.
  destruct (truthy_str table_name);
    repeat (case_match; try discriminate); congruence.
Qed.

Lemma get_column_value_absent row column_name table_name :
  absent (ColumnRef column_name table_name) row
  ↔ get_column_value row column_name table_name
    = Raise (KeyError (not_found_message column_name)).
Proof.
  unfold get_column_value. simpl. split.
  - intros [Hbare Hqual]. rewrite Hbare.
    destruct (truthy_str table_name); [|done].
    by rewrite Hqual.
  - destruct (truthy_str table_name).
    + destruct (row !! qualified_name _ _); [discriminate|].
      destruct (row !! column_name); [discriminate|]. done.
    + destruct (row !! column_name); [discriminate|].
      split; [done|discriminate].
Qed.

Lemma _get_value_raise expr row e :
  _get_value expr row = Raise e →
  ∃ column_name table_name,
    expr = ColumnRef column_name table_name
    ∧ e = ColumnNotFoundError column_name None
    ∧ absent expr row.
Proof.
  destruct expr as [c tn|v ty]; simpl; [|discriminate].
  destruct (get_column_value row c tn) eqn:E; [discriminate|].
  pose proof (get_column_value_raise _ _ _ _ E) as ->.
  intros [= <-]. exists c, tn. split; [done|split; [done|]].
  by apply get_column_value_absent.
Qed.

Lemma _get_value_absent expr row :
  absent expr row →
  ∃ column_name table_name,
    expr = ColumnRef column_name table_name
    ∧ _get_value expr row = Raise (ColumnNotFoundError column_name None).
Proof.
  destruct expr as [c tn|v ty]; [|done].
  intros Hab. apply get_column_value_absent in Hab.
  exists c, tn. simpl. by rewrite Hab.
Qed.

Lemma evaluate_traced_comparison_snd lhs op rhs row :
  snd (_evaluate_comparison_traced lhs op rhs row)
  = _evaluate_comparison lhs op rhs row.
Proof.
  unfold _evaluate_comparison_traced, _evaluate_comparison, _get_value_traced.
  destruct lhs, rhs; simpl;
    repeat (case_match; simpl in *; simplify_eq; try done).
Qed.

Lemma evaluate_traced_snd condition row :
  snd (evaluate_traced condition row) = evaluate condition row.
Proof.
  induction condition as [lhs op rhs|lhs IHl op rhs IHr]; simpl.
  - apply evaluate_traced_comparison_snd.
  - rewrite <- IHl, <- IHr.
    destruct (evaluate_traced lhs row) as [tr [b|e]]; simpl; [|done].
    destruct op, b; simpl; try done;
      by destruct (evaluate_traced rhs row).
Qed.

Lemma sound_pure {A} row (r : result A) :
  (∀ n, r ≠ Raise (ColumnNotFoundError n None)) → sound row ([], r).
Proof.
  intros H. split; simpl.
  - intros [n Hn]. by destruct (H n).
  - intros [e [[] _]].
Qed.

Lemma sound_tbind {A B} row (m : traced A) (k : A → traced B) :
  sound row m → (∀ a, sound row (k a)) → sound row (tbind m k).
Proof.
  intros Hm Hk. destruct m as [tr [a|e]]; simpl.
  - specialize (Hk a). destruct (k a) as [tr' r] eqn:Ek.
    unfold sound in *; simpl in *.
    rewrite Hk. split.
    + intros [e [Hin Hab]]. exists e. split; [|done].
      apply in_or_app. by right.
    + intros [e [Hin Hab]]. apply in_app_or in Hin as [Hin|Hin].
      * assert (∃ n, Return a = Raise (ColumnNotFoundError n None)) as [n Hn]
          by (apply Hm; eauto).
        discriminate.
      * eauto.
  - unfold sound in *; simpl in *. rewrite <- Hm.
    split; intros [n Hn]; exists n; congruence.
Qed.

Lemma sound_get_value expr row : sound row (_get_value_traced expr row).
Proof.
  destruct expr as [c tn|v ty].
  - split; simpl.
    + intros [n Hn].
      destruct (get_column_value row c tn) eqn:E; [discriminate|].
      pose proof (get_column_value_raise _ _ _ _ E) as ->.
      exists (ColumnRef c tn). split; [by left|].
      by apply get_column_value_absent.
    + intros [e [[<-|[]] Hab]].
      apply get_column_value_absent in Hab. rewrite Hab. eauto.
  - apply sound_pure. discriminate.
Qed.

Lemma py_lt_not_found v w n : py_lt v w ≠ Raise (ColumnNotFoundError n None).
Proof. unfold py_lt. repeat case_match; discriminate. Qed.

Lemma py_le_not_found v w n : py_le v w ≠ Raise (ColumnNotFoundError n None).
Proof. unfold py_le. repeat case_match; discriminate. Qed.

Lemma sound_evaluate condition row : sound row (evaluate_traced condition row).
Proof.
  induction condition as [lhs op rhs|lhs IHl op rhs IHr]; simpl.
  - unfold _evaluate_comparison_traced.
    apply sound_tbind; [apply sound_get_value|intros lv].
    apply sound_tbind; [apply sound_get_value|intros rv].
    apply sound_pure. intros n.
    destruct (is_none lv || is_none rv), op; try discriminate;
      unfold py_gt, py_ge;
      auto using py_lt_not_found, py_le_not_found.
  - apply sound_tbind; [done|intros b].
    destruct op, b; simpl; try done; by apply sound_pure.
Qed.

Lemma reached_short_circuit lhs op rhs row b :
  evaluate lhs row = Return b →
  (match op with AND => negb b | OR => b end) = true →
  evaluate (LogicalCondition lhs op rhs) row = Return b
  ∧ reached (LogicalCondition lhs op rhs) row = reached lhs row.
Proof.
  intros He Hb. unfold reached. simpl. rewrite He.
  pose proof (evaluate_traced_snd lhs row) as Hs. rewrite He in Hs.
  destruct (evaluate_traced lhs row) as [tr r]. simpl in Hs. subst r.
  simpl. destruct op, b; simpl in *; try discriminate;
    by rewrite app_nil_r.
Qed.

End Evaluator.

(** C5. When at least one operand of a comparison resolves to null, the
    comparison is false for every operator but [!=], and for [!=] it is
    the inequality of the two resolved values: null != null is false,
    null != a non-null value is true. *)
Theorem null_comparison_law lhs op rhs row lv rv :
  ConditionEvaluator._get_value lhs row = Return lv →
  ConditionEvaluator._get_value rhs row = Return rv →
  lv = VNull ∨ rv = VNull →
  ConditionEvaluator.evaluate (Comparison lhs op rhs) row
  = Return (match op with NE => py_ne lv rv | _ => false end)
  ∧ py_ne VNull VNull = false
  ∧ (rv ≠ VNull → py_ne VNull rv = true)
  ∧ (lv ≠ VNull → py_ne lv VNull = true).
Proof.
  intros Hl Hr Hnull. split; [|split; [done|split]].
  - simpl. unfold ConditionEvaluator._evaluate_comparison.
    rewrite Hl, Hr. simpl.
    assert (is_none lv || is_none rv = true) as ->
      by (destruct Hnull as [-> | ->]; simpl; auto using orb_true_r).
    by destruct op.
  - by destruct rv.
  - by destruct lv.
Qed.

Lemma null_comparison_law_witness :
  ConditionEvaluator.evaluate
    (Comparison (ColumnRef "age" None) NE (Literal (VInt 30) "NUMBER"))
    {[ "age" := VNull ]}
  = Return true.
Proof.
  refine (proj1 (null_comparison_law (ColumnRef "age" None) NE
                   (Literal (VInt 30) "NUMBER") {[ "age" := VNull ]}
                   VNull (VInt 30) _ _ _)).
  - reflexivity.
  - reflexivity.
  - left. reflexivity.
Defined.

(** C6. Evaluation raises a column-not-found error exactly when one of
    the column references it reached is absent from the row; when the
    left operand of AND is false, or that of OR is true, the node has
    that value and reaches nothing of its right operand, whatever the
    right operand refers to. *)
Theorem column_not_found_iff_reached_absent condition row :
  ((∃ n, ConditionEvaluator.evaluate condition row
         = Raise (ColumnNotFoundError n None))
   ↔ (∃ e, In e (ConditionEvaluator.reached condition row)
           ∧ ConditionEvaluator.absent e row))
  ∧ (∀ rhs,
       ConditionEvaluator.evaluate condition row = Return false →
       ConditionEvaluator.evaluate (LogicalCondition condition AND rhs) row
       = Return false
       ∧ ConditionEvaluator.reached (LogicalCondition condition AND rhs) row
         = ConditionEvaluator.reached condition row)
  ∧ (∀ rhs,
       ConditionEvaluator.evaluate condition row = Return true →
       ConditionEvaluator.evaluate (LogicalCondition condition OR rhs) row
       = Return true
       ∧ ConditionEvaluator.reached (LogicalCondition condition OR rhs) row
         = ConditionEvaluator.reached condition row).
Proof.
  split; [|split].
  - pose proof (sound_evaluate condition row) as H.
    unfold sound in H. by rewrite evaluate_traced_snd in H.
  - intros rhs H. by apply reached_short_circuit.
  - intros rhs H. by apply reached_short_circuit.
Qed.

Lemma column_not_found_iff_reached_absent_witness :
  (∃ n, ConditionEvaluator.evaluate
          (LogicalCondition
             (Comparison (ColumnRef "age" None) LT (Literal (VInt 30) "NUMBER"))
             AND
             (Comparison (ColumnRef "missing" (Some "users")) EQ
                (Literal (VInt 1) "NUMBER")))
          {[ "age" := VInt 20 ]}
        = Raise (ColumnNotFoundError n None))
  ∧ ConditionEvaluator.evaluate
      (LogicalCondition
         (Comparison (ColumnRef "age" None) GT (Literal (VInt 30) "NUMBER"))
         AND
         (Comparison (ColumnRef "missing" (Some "users")) EQ
            (Literal (VInt 1) "NUMBER")))
      {[ "age" := VInt 20 ]}
    = Return false.
Proof.
  split.
  - apply (proj1 (column_not_found_iff_reached_absent _ _)).
    exists (ColumnRef "missing" (Some "users")). split.
    + right. left. reflexivity.
    + split; [reflexivity|intros _; reflexivity].
  - refine (proj1 (proj1 (proj2 (column_not_found_iff_reached_absent
              (Comparison (ColumnRef "age" None) GT
                 (Literal (VInt 30) "NUMBER"))
              {[ "age" := VInt 20 ]})) _ _)).
    reflexivity.
Defined.
(** ** Column validation *)

(** C9, as stated, fails: an int is accepted for a FLOAT column. *)
Lemma float_column_accepts_int :
  Column.validate (Column.mk "price" FLOAT None []) (VInt 42) "price"
  = Return tt
  ∧ Validators.validate_value_for_type (VInt 42) "FLOAT" None = Return true.
Proof. split; reflexivity. Qed.

(** C9, amended. For a FLOAT column, validation accepts a non-null int
    or float and rejects a bool or a string with a type-validation
    error that carries the column name, the type and the value; a null
    is rejected only by NOT NULL. *)
Theorem float_column_validation name max_length constraints value col_name :
  let column := Column.mk name FLOAT max_length constraints in
  Column.validate column value col_name
  = match value with
    | VNull =>
        if Column.is_not_null column then
          Raise (ConstraintViolationError
                   ("Column '" +:+ col_name +:+ "' cannot be NULL"))
        else Return tt
    | VInt _ | VFloat _ => Return tt
    | VBool _ | VStr _ => Raise (TypeValidationError col_name "FLOAT" value)
    end.
Proof. by destruct value. Qed.

(** The other declared types take a non-null value of exactly their
    own kind. *)
Lemma exact_type_validation name data_type max_length constraints value col_name :
  data_type ≠ FLOAT →
  value ≠ VNull →
  Column.validate (Column.mk name data_type max_length constraints) value col_name
  = Return tt →
  match data_type with
  | INTEGER => ∃ z, value = VInt z
  | BOOLEAN => ∃ b, value = VBool b
  | VARCHAR | TEXT => ∃ s, value = VStr s
  | FLOAT => False
  end.
Proof.
  intros Hf Hn. destruct data_type, value; try done; simpl; eauto;
    try discriminate.
Qed.

(** ** Projection in SELECT *)


(** C8, on the code: selecting a column the table does not have returns
    one empty row per matching row where the claim has a
    column-not-found error. *)
Theorem select_absent_column_returns_empty_rows :
  QueryExecutor._execute_select Example.select_nope Example.database
  = Return [∅; ∅].
Proof. reflexivity. Qed.

(** The projection drops what the row lacks, so SELECT never fails on
    a requested column. *)
Lemma project_columns_lookup row columns k :
  project_columns row columns !! k
  = if bool_decide (k ∈ columns) then row !! k else None.
Proof.
  induction columns as [|c cs IH]; simpl.
  - by rewrite lookup_empty.
  - destruct (decide (k = c)) as [->|Hne].
    + rewrite bool_decide_eq_true_2 by left.
      destruct (row !! c) eqn:E.
      * by rewrite lookup_insert_eq.
      * rewrite IH. by destruct (bool_decide (c ∈ cs)).
    + assert (bool_decide (k ∈ c :: cs) = bool_decide (k ∈ cs)) as ->.
      { apply bool_decide_ext. rewrite elem_of_cons. tauto. }
      destruct (row !! c); [rewrite lookup_insert_ne by done|]; apply IH.
Qed.

(** ** Ordered dicts *)

Section DictFacts.
Context {K V : Type} (eqb : K → K → bool).
Hypothesis eqb_refl : ∀ k, eqb k k = true.
Hypothesis eqb_sym : ∀ a b, eqb a b = eqb b a.
Hypothesis eqb_trans : ∀ a b c, eqb a b = true → eqb b c = true → eqb a c = true.

Lemma eqb_congr_l a b c : eqb a b = true → eqb a c = eqb b c.
  Proof using eqb_sym eqb_trans.
    intros H. destruct (eqb b c) eqn:E.
    - eauto.
    - destruct (eqb a c) eqn:E'; auto.
      rewrite eqb_sym in H. by rewrite (eqb_trans _ _ _ H E') in E.
  Qed.

Lemma dict_get_congr k k' (d : list (K * V)) :
    eqb k k' = true → dict_get eqb k d = dict_get eqb k' d.
  Proof using eqb_sym eqb_trans.
    intros H. induction d as [|[k0 v0] d IH]; simpl; [done|].
    by rewrite (eqb_congr_l _ _ _ H), IH.
  Qed.

Lemma dict_get_set k' k v (d : list (K * V)) :
    dict_get eqb k' (dict_set eqb k v d)
    = if eqb k' k then Some v else dict_get eqb k' d.
  Proof using eqb_sym eqb_trans.
    induction d as [|[k0 v0] d IH]; simpl.
    - by destruct (eqb k' k).
    - destruct (eqb k k0) eqn:E; simpl.
      + destruct (eqb k' k) eqn:E'.
        * by rewrite (eqb_trans _ _ _ E' E).
        * destruct (eqb k' k0) eqn:E''; [|done].
          rewrite (eqb_sym k k0) in E.
          by rewrite (eqb_trans _ _ _ E'' E) in E'.
      + rewrite IH. destruct (eqb k' k0) eqn:E''; [|done].
        destruct (eqb k' k) eqn:E'; [|done].
        rewrite (eqb_sym k' k) in E'.
        by rewrite (eqb_trans _ _ _ E' E'') in E.
  Qed.

Lemma dict_get_del k' k (d : list (K * V)) :
    dict_ok eqb d →
    dict_get eqb k' (dict_del eqb k d)
    = if eqb k' k then None else dict_get eqb k' d.
  Proof using eqb_sym eqb_trans.
    induction d as [|[k0 v0] d IH]; simpl.
    - by destruct (eqb k' k).
    - intros [Hfresh Hok]. destruct (eqb k k0) eqn:E; simpl.
      + destruct (eqb k' k) eqn:E'.
        * rewrite <- Hfresh. apply dict_get_congr. eauto.
        * destruct (eqb k' k0) eqn:E''; [|done].
          rewrite (eqb_sym k k0) in E.
          by rewrite (eqb_trans _ _ _ E'' E) in E'.
      + rewrite (IH Hok). destruct (eqb k' k0) eqn:E''; [|done].
        destruct (eqb k' k) eqn:E'; [|done].
        rewrite (eqb_sym k' k) in E'.
        by rewrite (eqb_trans _ _ _ E' E'') in E.
  Qed.

Lemma dict_get_alter f k' k (d : list (K * V)) :
    dict_get eqb k' (dict_alter eqb f k d)
    = if eqb k' k then f <$> dict_get eqb k' d else dict_get eqb k' d.
  Proof using eqb_sym eqb_trans.
    induction d as [|[k0 v0] d IH]; simpl.
    - by destruct (eqb k' k).
    - destruct (eqb k k0) eqn:E; simpl.
      + destruct (eqb k' k0) eqn:E''.
        * rewrite (eqb_sym k k0) in E.
          by rewrite (eqb_trans _ _ _ E'' E).
        * destruct (eqb k' k) eqn:E'; [|done].
          by rewrite (eqb_trans _ _ _ E' E) in E''.
      + rewrite IH. destruct (eqb k' k0) eqn:E''; [|done].
        destruct (eqb k' k) eqn:E'; [|done].
        rewrite (eqb_sym k' k) in E'.
        by rewrite (eqb_trans _ _ _ E' E'') in E.
  Qed.

Lemma dict_ok_set k v (d : list (K * V)) :
    dict_ok eqb d → dict_ok eqb (dict_set eqb k v d).
  Proof using eqb_sym eqb_trans.
    induction d as [|[k0 v0] d IH]; simpl; [done|].
    intros [Hfresh Hok]. destruct (eqb k k0) eqn:E; simpl; [done|].
    split; [|auto]. rewrite dict_get_set, Hfresh.
    by rewrite eqb_sym, E.
  Qed.

Lemma dict_ok_del k (d : list (K * V)) :
    dict_ok eqb d → dict_ok eqb (dict_del eqb k d).
  Proof using eqb_sym eqb_trans.
    induction d as [|[k0 v0] d IH]; simpl; [done|].
    intros [Hfresh Hok]. destruct (eqb k k0) eqn:E; simpl; [done|].
    split; [|auto]. rewrite dict_get_del, Hfresh by done.
    by destruct (eqb k0 k).
  Qed.

Lemma dict_ok_alter f k (d : list (K * V)) :
    dict_ok eqb d → dict_ok eqb (dict_alter eqb f k d).
  Proof using eqb_sym eqb_trans.
    induction d as [|[k0 v0] d IH]; simpl; [done|].
    intros [Hfresh Hok]. destruct (eqb k k0) eqn:E; simpl; [done|].
    split; [|auto]. rewrite dict_get_alter, Hfresh.
    by destruct (eqb k0 k).
  Qed.

Lemma dict_get_In k v (d : list (K * V)) :
    dict_get eqb k d = Some v → ∃ k', eqb k k' = true ∧ In (k', v) d.
  Proof.
    induction d as [|[k0 v0] d IH]; simpl; [done|].
    destruct (eqb k k0) eqn:E.
    - intros [= ->]. eauto.
    - intros H. destruct (IH H) as (k' & ? & ?). eauto.
  Qed.

Lemma dict_In_get k v (d : list (K * V)) :
    dict_ok eqb d → In (k, v) d → dict_get eqb k d = Some v.
  Proof using eqb_refl eqb_sym eqb_trans.
    induction d as [|[k0 v0] d IH]; simpl; [done|].
    intros [Hfresh Hok] [[= -> ->]|Hin].
    - by rewrite eqb_refl.
    - destruct (eqb k k0) eqn:E; [|auto].
      rewrite (dict_get_congr _ _ _ E) in IH.
      rewrite IH in Hfresh by done. discriminate.
  Qed.

Lemma dict_mem_set k' k v (d : list (K * V)) :
    dict_mem eqb k' (dict_set eqb k v d)
    = eqb k' k || dict_mem eqb k' d.
  Proof using eqb_sym eqb_trans.
    unfold dict_mem. rewrite dict_get_set. by destruct (eqb k' k).
  Qed.

Lemma dict_mem_alter f k' k (d : list (K * V)) :
    dict_mem eqb k' (dict_alter eqb f k d) = dict_mem eqb k' d.
  Proof using eqb_sym eqb_trans.
    unfold dict_mem. rewrite dict_get_alter.
    destruct (eqb k' k); [|done]. by destruct (dict_get eqb k' d).
  Qed.

Lemma dict_alter_keys f k (d : list (K * V)) :
    map fst (dict_alter eqb f k d) = map fst d.
  Proof.
    induction d as [|[k0 v0] d IH]; simpl; [done|].
    destruct (eqb k k0); simpl; congruence.
  Qed.
End DictFacts.

Lemma string_eqb_trans (a b c : string) :
  String.eqb a b = true → String.eqb b c = true → String.eqb a c = true.
Proof. rewrite !String.eqb_eq. congruence. Qed.

Lemma py_eq_trans' a b c :
  py_eq a b = true → py_eq b c = true → py_eq a c = true.
Proof. apply py_eq_trans. Qed.

(** String-keyed instances. *)
Section StringDict.
Context {V : Type}.
Implicit Types d : list (string * V).

Lemma sdict_get_set k' k v d :
    dict_get String.eqb k' (dict_set String.eqb k v d)
    = if String.eqb k' k then Some v else dict_get String.eqb k' d.
  Proof. apply dict_get_set; eauto using String.eqb_sym, string_eqb_trans. Qed.

Lemma sdict_get_del k' k d :
    dict_ok String.eqb d →
    dict_get String.eqb k' (dict_del String.eqb k d)
    = if String.eqb k' k then None else dict_get String.eqb k' d.
  Proof. apply dict_get_del; eauto using String.eqb_sym, string_eqb_trans. Qed.

Lemma sdict_get_alter f k' k d :
    dict_get String.eqb k' (dict_alter String.eqb f k d)
    = if String.eqb k' k then f <$> dict_get String.eqb k' d
      else dict_get String.eqb k' d.
  Proof. apply dict_get_alter; eauto using String.eqb_sym, string_eqb_trans. Qed.

Lemma sdict_ok_set k v d :
    dict_ok String.eqb d → dict_ok String.eqb (dict_set String.eqb k v d).
  Proof. apply dict_ok_set; eauto using String.eqb_sym, string_eqb_trans. Qed.

Lemma sdict_ok_del k d :
    dict_ok String.eqb d → dict_ok String.eqb (dict_del String.eqb k d).
  Proof. apply dict_ok_del; eauto using String.eqb_sym, string_eqb_trans. Qed.

Lemma sdict_ok_alter f k d :
    dict_ok String.eqb d → dict_ok String.eqb (dict_alter String.eqb f k d).
  Proof. apply dict_ok_alter; eauto using String.eqb_sym, string_eqb_trans. Qed.

Lemma sdict_get_In k v d :
    dict_get String.eqb k d = Some v → In (k, v) d.
  Proof.
    intros H. apply dict_get_In in H as (k' & E & Hin).
    apply String.eqb_eq in E. by subst.
  Qed.

Lemma sdict_In_get k v d :
    dict_ok String.eqb d → In (k, v) d → dict_get String.eqb k d = Some v.
  Proof.
    apply dict_In_get;
      eauto using String.eqb_refl, String.eqb_sym, string_eqb_trans.
  Qed.

Lemma sdict_mem_In k d :
    dict_mem String.eqb k d = true ↔ ∃ v, In (k, v) d.
  Proof.
    unfold dict_mem. split.
    - destruct (dict_get String.eqb k d) eqn:E; [|discriminate].
      intros _. eauto using sdict_get_In.
    - intros [v Hin]. induction d as [|[k0 v0] d IH]; simpl; [done|].
      destruct Hin as [[= -> ->]|Hin].
      + by rewrite String.eqb_refl.
      + destruct (String.eqb k k0); [done|]. by apply IH.
  Qed.
End StringDict.

(** ** The hash index *)

Lemma list_remove_Some x l r :
  list_remove x l = Some r →
  In x l ∧ length l = S (length r) ∧ (∀ y, In y r → In y l)
  ∧ (∀ y, y ≠ x → In y l → In y r).
Proof.
  revert r. induction l as [|y l IH]; simpl; [done|]. intros r.
  destruct (Z.eqb_spec y x) as [->|Hne].
  - intros [= ->]. repeat split; auto.
    intros y Hy [->|H]; [done|auto].
  - destruct (list_remove x l) as [r'|]; [|done].
    intros [= <-]. destruct (IH r' eq_refl) as (H1 & H2 & H3 & H4).
    repeat split; simpl; auto.
    + intros z [->|Hz]; auto.
    + intros z Hz [->|Hin]; auto.
Qed.

Lemma list_remove_None x l : list_remove x l = None ↔ ¬ In x l.
Proof.
  induction l as [|y l IH]; simpl; [tauto|].
  destruct (Z.eqb_spec y x) as [->|Hne].
  - split; [done|]. intros H. destruct H. by left.
  - destruct (list_remove x l) as [r|] eqn:E; split; try done.
    + intros H. exfalso. apply H. right.
      exact (proj1 (list_remove_Some _ _ _ E)).
    + intros _ [->|Hin]; [done|]. by apply IH in Hin.
Qed.

Lemma list_remove_NoDup x l r :
  NoDup l → list_remove x l = Some r → NoDup r ∧ ¬ In x r.
Proof.
  revert r. induction l as [|y l IH]; simpl; [done|]. intros r Hnd.
  apply NoDup_cons in Hnd as [Hy Hnd].
  destruct (Z.eqb_spec y x) as [->|Hne].
  - intros [= ->]. split; [done|]. by rewrite <- list_elem_of_In.
  - destruct (list_remove x l) as [r'|] eqn:E; [|done].
    intros [= <-]. destruct (IH r' Hnd eq_refl) as [H1 H2].
    split.
    + apply NoDup_cons. split; [|done].
      rewrite list_elem_of_In. intros Hin. apply Hy.
      rewrite list_elem_of_In.
      by apply (proj1 (proj2 (proj2 (list_remove_Some _ _ _ E)))).
    + intros [->|Hin]; [done|auto].
Qed.

Lemma remove1_In x l y :
  NoDup l → In y (remove1 x l) ↔ y ≠ x ∧ In y l.
Proof.
  intros Hnd. unfold remove1.
  destruct (list_remove x l) as [r|] eqn:E; simpl.
  - destruct (list_remove_Some _ _ _ E) as (H1 & H2 & H3 & H4).
    destruct (list_remove_NoDup _ _ _ Hnd E) as [H5 H6].
    split.
    + intros Hy. split; [|auto]. intros ->. done.
    + intros [? ?]. auto.
  - apply list_remove_None in E. split.
    + intros Hy. split; [|done]. intros ->. done.
    + tauto.
Qed.

Lemma remove1_NoDup x l : NoDup l → NoDup (remove1 x l).
Proof.
  intros Hnd. unfold remove1.
  destruct (list_remove x l) as [r|] eqn:E; simpl; [|done].
  by apply (list_remove_NoDup _ _ _ Hnd E).
Qed.

Lemma remove1_length x l : (length (remove1 x l) ≤ length l)%nat.
Proof.
  unfold remove1. destruct (list_remove x l) as [r|] eqn:E; simpl; [|lia].
  destruct (list_remove_Some _ _ _ E) as (_ & H & _). lia.
Qed.

Section IndexFacts.
Implicit Types index : HashIndex.t.

  Local Hint Resolve py_eq_sym py_eq_trans' : core.

Lemma search_null index : HashIndex.search index VNull = [].
  Proof. done. Qed.

Lemma search_insert index k row_id v :
    is_none v = false →
    HashIndex.search (HashIndex.insert index k row_id) v
    = if negb (is_none k) && py_eq v k
      then (HashIndex.search index v ++ [row_id])%list
      else HashIndex.search index v.
  Proof.
    intros Hv. unfold HashIndex.search, HashIndex.insert.
    destruct (is_none k) eqn:Hk; simpl; rewrite Hv; [done|].
    rewrite dict_get_set by eauto.
    destruct (py_eq v k) eqn:E; simpl; [|done].
    by rewrite (dict_get_congr py_eq py_eq_sym py_eq_trans' _ _ _ E).
  Qed.

Lemma search_delete index k row_id v :
    index_ok index →
    HashIndex.search (HashIndex.delete index k row_id) v
    = if negb (is_none k) && py_eq v k
      then remove1 row_id (HashIndex.search index v)
      else HashIndex.search index v.
  Proof.
    intros [Hok _]. unfold HashIndex.search, HashIndex.delete.
    destruct index as [cn d]. simpl in *.
    destruct (is_none v) eqn:Hv.
    { by destruct (negb (is_none k) && py_eq v k). }
    destruct (is_none k) eqn:Hk; simpl; [done|].
    unfold dict_mem.
    assert (dict_get py_eq k d = dict_get py_eq k d) as _ by done.
    destruct (py_eq v k) eqn:E.
    - rewrite !(dict_get_congr py_eq py_eq_sym py_eq_trans' v k) by done.
      destruct (dict_get py_eq k d) as [ids|] eqn:G; simpl; [|by rewrite G].
      unfold remove1.
      destruct (list_remove row_id ids) as [[|i r]|] eqn:R; simpl.
      + rewrite dict_get_del by eauto. by rewrite py_eq_refl.
      + rewrite dict_get_set by eauto. by rewrite py_eq_refl.
      + by rewrite G.
    - destruct (dict_get py_eq k d) as [ids|] eqn:G; simpl; [|done].
      destruct (list_remove row_id ids) as [[|i r]|] eqn:R; simpl.
      + rewrite dict_get_del by eauto. by rewrite E.
      + rewrite dict_get_set by eauto. by rewrite E.
      + done.
  Qed.

Lemma index_ok_init column_name : index_ok (HashIndex.init column_name).
  Proof. split; simpl; [done|constructor]. Qed.

Lemma dict_set_keys_Forall (P : Value → Prop) k (v : list Z) d :
    P k → Forall P (map fst d) → Forall P (map fst (dict_set py_eq k v d)).
  Proof.
    intros Hk. induction d as [|[k0 v0] d IH]; simpl.
    - intros _. by constructor.
    - intros H. apply Forall_cons in H as [H0 H].
      destruct (py_eq k k0); simpl; constructor; auto.
  Qed.

Lemma dict_del_keys_Forall (P : Value → Prop) k (d : list (Value * list Z)) :
    Forall P (map fst d) → Forall P (map fst (dict_del py_eq k d)).
  Proof.
    induction d as [|[k0 v0] d IH]; simpl; [done|].
    intros H. apply Forall_cons in H as [H0 H].
    destruct (py_eq k k0); simpl; [done|]. constructor; auto.
  Qed.

Lemma index_ok_insert index k row_id :
    index_ok index → index_ok (HashIndex.insert index k row_id).
  Proof.
    intros [Hok Hkeys]. unfold HashIndex.insert.
    destruct (is_none k) eqn:Hk; simpl; [done|].
    split; simpl.
    - apply dict_ok_set; eauto.
    - by apply dict_set_keys_Forall.
  Qed.

Lemma index_ok_delete index k row_id :
    index_ok index → index_ok (HashIndex.delete index k row_id).
  Proof.
    intros [Hok Hkeys]. unfold HashIndex.delete.
    destruct (negb (is_none k) && dict_mem py_eq k (HashIndex._index index)) eqn:C;
      [|done].
    apply andb_true_iff in C as [Hk _]. apply negb_true_iff in Hk.
    destruct (list_remove _ _) as [[|i r]|]; [| |done].
    - split; simpl.
      + apply dict_ok_del; eauto.
      + by apply dict_del_keys_Forall.
    - split; simpl.
      + apply dict_ok_set; eauto.
      + by apply dict_set_keys_Forall.
  Qed.
End IndexFacts.

(** ** The methods of a table, step by step *)

Section Steps.
Import Table.

Lemma readonly_run {A} (m : M A) self :
  readonly m → m self = (self, snd (m self)).
Proof. intros H. specialize (H self). by destruct (m self); simpl in *; subst. Qed.

Lemma readonly_ret {A} (a : A) : readonly (ret a).
Proof. done. Qed.

Lemma readonly_raise {A} e : readonly (@raise A e).
Proof. done. Qed.

Lemma readonly_gets {A} (f : t → A) : readonly (gets f).
Proof. done. Qed.

Lemma readonly_lift {A} (r : result A) : readonly (lift r).
Proof. done. Qed.

Lemma readonly_bind {A B} (m : M A) (k : A → M B) :
  readonly m → (∀ a, readonly (k a)) → readonly (bind m k).
Proof.
  intros Hm Hk self. unfold bind. rewrite (readonly_run m self Hm).
  destruct (snd (m self)); [apply Hk|done].
Qed.

Lemma readonly_for_each {X} (xs : list X) (body : X → M unit) :
  (∀ x, readonly (body x)) → readonly (for_each xs body).
Proof.
  intros Hb. induction xs as [|x xs IH]; simpl; [done|].
  apply readonly_bind; auto.
Qed.

Lemma readonly_fold_m {X A} (xs : list X) (body : A → X → M A) a :
  (∀ a x, readonly (body a x)) → readonly (fold_m xs body a).
Proof.
  intros Hb. revert a. induction xs as [|x xs IH]; intros a; simpl; [done|].
  apply readonly_bind; auto.
Qed.

Lemma readonly_if {A} (b : bool) (m1 m2 : M A) :
  readonly m1 → readonly m2 → readonly (if b then m1 else m2).
Proof. by destruct b. Qed.

Lemma bind_ret {A B} (a : A) (k : A → M B) self : bind (ret a) k self = k a self.
Proof. done. Qed.

Lemma bind_gets {A B} (f : t → A) (k : A → M B) self :
  bind (gets f) k self = k (f self) self.
Proof. done. Qed.

Lemma bind_modify {B} (f : t → t) (k : unit → M B) self :
  bind (modify f) k self = k tt (f self).
Proof. done. Qed.

Lemma bind_lift {A B} (r : result A) (k : A → M B) self :
  bind (lift r) k self
  = match r with Return a => k a self | Raise e => (self, Raise e) end.
Proof. by destruct r. Qed.

Lemma bind_assoc {A B C} (m : M A) (k1 : A → M B) (k2 : B → M C) self :
  bind (bind m k1) k2 self = bind m (fun a => bind (k1 a) k2) self.
Proof. unfold bind. destruct (m self) as [s [a|e]]; done. Qed.

Lemma bind_run {A B} (m : M A) (k : A → M B) self self' a :
  m self = (self', Return a) → bind m k self = k a self'.
Proof. unfold bind. by intros ->. Qed.

(** A read-only loop that returns has run every body to its end. *)
Lemma for_each_return {X} (xs : list X) (body : X → M unit) self self' :
  (∀ x, readonly (body x)) →
  for_each xs body self = (self', Return tt) →
  self' = self ∧ ∀ x, In x xs → body x self = (self, Return tt).
Proof.
  intros Hb. induction xs as [|x xs IH]; simpl.
  - intros [= <-]. by split.
  - unfold bind at 1. rewrite (readonly_run (body x) self (Hb x)).
    destruct (snd (body x self)) as [[]|e] eqn:E; [|done].
    intros H. destruct (IH H) as [-> Hall]. split; [done|].
    intros y [<-|Hy]; [|auto].
    by rewrite (readonly_run (body x) self (Hb x)), E.
Qed.

Lemma for_each_all {X} (xs : list X) (body : X → M unit) self :
  (∀ x, In x xs → body x self = (self, Return tt)) →
  for_each xs body self = (self, Return tt).
Proof.
  induction xs as [|x xs IH]; simpl; [done|]. intros H.
  unfold bind at 1. rewrite (H x) by auto. apply IH. auto.
Qed.

(** The loop that hands every index its key of a row. *)
Lemma index_loop (g : HashIndex.t → Value → HashIndex.t) (row : Row)
    (l : list (string * HashIndex.t)) self :
  (∀ c index, In (c, index) l → is_Some (row !! c)) →
  for_each l (fun '(col_name, _) =>
    bind (lift (getitem row col_name)) (fun key =>
    modify (set_indexes (dict_alter String.eqb
              (fun index => g index key) col_name)))) self
  = (set_indexes (alter_all (fun c index => g index (value_at row c)) l) self,
     Return tt).
Proof.
  revert self. induction l as [|[c index] l IH]; intros self Hl; simpl.
  - by destruct self.
  - destruct (Hl c index) as [v Hv]; [by left|].
    unfold bind at 1. unfold bind at 1. unfold lift, getitem. rewrite Hv.
    simpl. rewrite IH by (intros; eapply Hl; right; eauto).
    unfold alter_all. simpl. unfold value_at at 3. by rewrite Hv.
Qed.

End Steps.

(** ** [insert_row], block by block *)

Section InsertSteps.
Import Table.

Lemma dict_mem_cons {V} k c (x : V) d :
  dict_mem String.eqb k ((c, x) :: d)
  = String.eqb k c || dict_mem String.eqb k d.
Proof. unfold dict_mem. simpl. by destruct (String.eqb k c). Qed.

Lemma complete_row_of_lookup cols row_data acc k :
  complete_row_of cols row_data acc !! k
  = if dict_mem String.eqb k cols
    then Some (default VNull (dict_get String.eqb k row_data))
    else acc !! k.
Proof.
  revert acc. induction cols as [|[c col] cols IH]; intros acc; [done|].
  unfold complete_row_of in *. simpl. rewrite IH, dict_mem_cons.
  destruct (dict_mem String.eqb k cols); [by rewrite orb_true_r|].
  rewrite orb_false_r. destruct (String.eqb_spec k c) as [->|Hne].
  - by rewrite lookup_insert_eq.
  - by rewrite lookup_insert_ne.
Qed.

Lemma readonly_validate_columns row_data : readonly (validate_columns row_data).
Proof.
  apply readonly_for_each. intros [c v].
  apply readonly_bind; [apply readonly_gets|]. intros b.
  apply readonly_if; [|apply readonly_ret].
  apply readonly_bind; [apply readonly_gets|]. intros n. apply readonly_raise.
Qed.

Lemma validate_columns_iff row_data self :
  validate_columns row_data self = (self, Return tt)
  ↔ (∀ c v, In (c, v) row_data → has_column self c = true).
Proof.
  split.
  - intros H. apply for_each_return in H as [_ H].
    + intros c v Hin. specialize (H _ Hin). cbv beta iota in H.
      unfold bind, gets in H. simpl in H.
      by destruct (has_column self c).
    + intros [c v]. apply readonly_bind; [apply readonly_gets|]. intros b.
      apply readonly_if; [|apply readonly_ret].
      apply readonly_bind; [apply readonly_gets|]. intros n.
      apply readonly_raise.
  - intros H. apply for_each_all. intros [c v] Hin.
    unfold bind, gets. simpl. by rewrite (H c v Hin).
Qed.

Lemma build_loop row_data cols acc self :
  fst (fold_m cols (fun (complete_row : Row) '(col_name, column) =>
    bind (lift (Column.validate column
                  (default VNull (dict_get String.eqb col_name row_data))
                  col_name))
      (fun _ => ret (<[col_name := default VNull
                         (dict_get String.eqb col_name row_data)]> complete_row)))
    acc self) = self
  ∧ (∀ r, snd (fold_m cols (fun (complete_row : Row) '(col_name, column) =>
    bind (lift (Column.validate column
                  (default VNull (dict_get String.eqb col_name row_data))
                  col_name))
      (fun _ => ret (<[col_name := default VNull
                         (dict_get String.eqb col_name row_data)]> complete_row)))
    acc self) = Return r ↔
       (r = complete_row_of cols row_data acc
        ∧ ∀ c column, In (c, column) cols →
            Column.validate column
              (default VNull (dict_get String.eqb c row_data)) c = Return tt)).
Proof.
  revert acc.
  induction cols as [|[c col] cols IH]; intros acc.
  - split; [done|]. intros r. simpl. split.
    + intros [= <-]. split; [done|]. intros ? ? [].
    + by intros [-> _].
  - cbn [fold_m]. unfold bind at 1 3. unfold bind at 1 3. unfold lift, ret.
    destruct (Column.validate col _ c) as [[]|e] eqn:E; cbv beta iota.
    + destruct (IH (<[c := default VNull (dict_get String.eqb c row_data)]> acc))
        as [IH1 IH2].
      split; [done|]. intros r. rewrite IH2. split.
      * intros [-> H]. split; [done|].
        intros c' col' [[= <- <-]|Hin]; [done|eauto].
      * intros [-> H]. split; [done|]. intros; apply H; by right.
    + split; [done|]. intros r. simpl. split; [done|].
      intros [_ H]. rewrite (H c col) in E by (by left). done.
Qed.

Lemma build_complete_row_run row_data self :
  fst (build_complete_row row_data self) = self
  ∧ (∀ r, snd (build_complete_row row_data self) = Return r ↔
       (r = complete_row_of (columns self) row_data ∅
        ∧ ∀ c column, In (c, column) (columns self) →
            Column.validate column
              (default VNull (dict_get String.eqb c row_data)) c = Return tt)).
Proof. apply (build_loop row_data (columns self) ∅ self). Qed.

Lemma check_unique_run c v self :
  check_unique c v self
  = (self, if negb (is_none v) && truthy_ids (_find_by_index self c v)
           then Raise (DuplicateKeyError c v) else Return tt).
Proof.
  unfold check_unique. destruct (is_none v); simpl; [done|].
  unfold bind, gets. by destruct (truthy_ids _).
Qed.

Lemma check_unique_return c v self :
  check_unique c v self = (self, Return tt) ↔ unique_free self c v.
Proof.
  rewrite check_unique_run. unfold unique_free.
  destruct (is_none v), (truthy_ids _); simpl; split; intros H;
    (done || (by left) || (by right) || (by destruct H)).
Qed.

Lemma readonly_check_unique c v : readonly (check_unique c v).
Proof. intros self. by rewrite check_unique_run. Qed.

Lemma readonly_check_primary_key complete_row :
  readonly (check_primary_key complete_row).
Proof.
  apply readonly_bind; [apply readonly_gets|]. intros pk.
  apply readonly_if; [|apply readonly_ret].
  apply readonly_bind; [apply readonly_lift|]. intros v.
  apply readonly_check_unique.
Qed.

Lemma check_primary_key_iff complete_row self :
  check_primary_key complete_row self = (self, Return tt)
  ↔ (truthy_str (primary_key self) = true →
       ∃ v, complete_row !! default "" (primary_key self) = Some v
            ∧ unique_free self (default "" (primary_key self)) v).
Proof.
  unfold check_primary_key, bind at 1, gets.
  destruct (truthy_str (primary_key self)); [|by split].
  unfold bind, lift, getitem.
  destruct (complete_row !! default "" (primary_key self)) as [v|]; simpl.
  - rewrite check_unique_return. split; [eauto|].
    intros H. destruct H as (v' & [= <-] & H); done.
  - split; [done|]. intros H. by destruct H as (v' & [=] & _).
Qed.

Lemma readonly_unique_body complete_row (x : string * Column.t) :
  readonly (let '(col_name, column) := x in
            if Column.is_unique column && negb (Column.is_primary_key column)
            then bind (lift (getitem complete_row col_name))
                      (fun value => check_unique col_name value)
            else ret tt).
Proof.
  destruct x as [c col]. apply readonly_if; [|apply readonly_ret].
  apply readonly_bind; [apply readonly_lift|]. intros v.
  apply readonly_check_unique.
Qed.

Lemma readonly_check_unique_constraints complete_row :
  readonly (check_unique_constraints complete_row).
Proof.
  apply readonly_bind; [apply readonly_gets|]. intros cols.
  apply readonly_for_each. apply readonly_unique_body.
Qed.

Lemma check_unique_constraints_iff complete_row self :
  check_unique_constraints complete_row self = (self, Return tt)
  ↔ (∀ c column, In (c, column) (columns self) →
       Column.is_unique column && negb (Column.is_primary_key column) = true →
       ∃ v, complete_row !! c = Some v ∧ unique_free self c v).
Proof.
  unfold check_unique_constraints, bind at 1, gets. split.
  - intros H. apply for_each_return in H as [_ H];
      [|apply readonly_unique_body].
    intros c col Hin Hu. specialize (H _ Hin). cbv beta iota in H.
    rewrite Hu in H. unfold bind, lift, getitem in H.
    destruct (complete_row !! c) as [v|]; [|done].
    exists v. split; [done|]. by apply check_unique_return.
  - intros H. apply for_each_all. intros [c col] Hin.
    destruct (Column.is_unique col && negb (Column.is_primary_key col)) eqn:Hu;
      [|done].
    destruct (H c col Hin Hu) as (v & Hv & Hfree).
    unfold bind, lift, getitem. rewrite Hv. by apply check_unique_return.
Qed.

Lemma store_row_run complete_row self :
  (∀ c index, In (c, index) (_indexes self) →
     c = "_row_id" ∨ is_Some (complete_row !! c)) →
  store_row complete_row self
  = (insert_commit self complete_row, Return (_next_row_id self)).
Proof.
  intros H. unfold store_row.
  unfold bind at 1. unfold gets at 1. cbv beta iota.
  unfold bind at 1. unfold modify at 1. cbv beta iota.
  unfold bind at 1. unfold modify at 1. cbv beta iota.
  unfold bind at 1. unfold gets at 1. cbv beta iota.
  unfold bind at 1.
  rewrite index_loop.
  - done.
  - intros c index Hin. simpl in Hin.
    destruct (String.eqb_spec c "_row_id") as [->|Hne].
    + rewrite lookup_insert_eq. eauto.
    + rewrite lookup_insert_ne by done.
      destruct (H c index Hin); [done|done].
Qed.

Lemma wf_complete_row self row_data c index :
  wf self → In (c, index) (_indexes self) →
  is_Some (complete_row_of (columns self) row_data ∅ !! c).
Proof.
  intros (_ & _ & Hidx & _) Hin. rewrite complete_row_of_lookup.
  assert (has_index self c = true) as Hi
    by (apply sdict_mem_In; eauto).
  specialize (Hidx c Hi). unfold has_column in Hidx.
  rewrite Hidx. eauto.
Qed.

(** The outcome of [insert_row] on a well-formed table. *)
Lemma insert_row_cases row_data self (P : t * result Z → Prop) :
  wf self →
  (insert_accepts self row_data →
   P (insert_commit self (complete_row_of (columns self) row_data ∅),
      Return (_next_row_id self))) →
  (∀ e, ¬ insert_accepts self row_data → P (self, Raise e)) →
  P (insert_row row_data self).
Proof.
  intros Hwf Hok Hfail. unfold insert_row, insert_accepts in *.
  unfold bind at 1.
  pose proof (validate_columns_iff row_data self) as H1.
  rewrite (readonly_run _ self (readonly_validate_columns row_data)) in *.
  destruct (snd (validate_columns row_data self)) as [[]|e1].
  2:{ apply Hfail. intros (H & _). apply H1 in H. done. }
  unfold bind at 1.
  destruct (build_complete_row_run row_data self) as [H2a H2].
  destruct (build_complete_row row_data self) as [s2 r2]. simpl in *. subst s2.
  destruct r2 as [cr|e2].
  2:{ apply Hfail. intros (_ & H & _).
      specialize (H2 (complete_row_of (columns self) row_data ∅)).
      destruct H2 as [_ H2]. by specialize (H2 (conj eq_refl H)). }
  destruct (proj1 (H2 cr) eq_refl) as [-> Hval].
  unfold bind at 1.
  pose proof (check_primary_key_iff
                (complete_row_of (columns self) row_data ∅) self) as H3.
  rewrite (readonly_run _ self (readonly_check_primary_key _)) in *.
  destruct (snd (check_primary_key _ self)) as [[]|e3].
  2:{ apply Hfail. intros (_ & _ & H & _). apply H3 in H. done. }
  unfold bind at 1.
  pose proof (check_unique_constraints_iff
                (complete_row_of (columns self) row_data ∅) self) as H4.
  rewrite (readonly_run _ self (readonly_check_unique_constraints _)) in *.
  destruct (snd (check_unique_constraints _ self)) as [[]|e4].
  2:{ apply Hfail. intros (_ & _ & _ & H). apply H4 in H. done. }
  rewrite store_row_run.
  - apply Hok. repeat split; [by apply H1|done|by apply H3|by apply H4].
  - intros c index Hin. right. by eapply wf_complete_row.
Qed.

Lemma insert_row_accepted row_data self :
  wf self → insert_accepts self row_data →
  insert_row row_data self
  = (insert_commit self (complete_row_of (columns self) row_data ∅),
     Return (_next_row_id self)).
Proof.
  intros Hwf Hacc. apply (insert_row_cases row_data self); [done|done|].
  intros e He. by destruct He.
Qed.

Lemma insert_row_return row_data self self' row_id :
  wf self → insert_row row_data self = (self', Return row_id) →
  insert_accepts self row_data
  ∧ self' = insert_commit self (complete_row_of (columns self) row_data ∅)
  ∧ row_id = _next_row_id self.
Proof.
  intros Hwf. apply (insert_row_cases row_data self); [done| |done].
  intros Hacc [= <- <-]. done.
Qed.

Lemma insert_row_raise row_data self self' e :
  wf self → insert_row row_data self = (self', Raise e) →
  self' = self ∧ ¬ insert_accepts self row_data.
Proof.
  intros Hwf. apply (insert_row_cases row_data self); [done|done|].
  intros e' Hn [= <- <-]. done.
Qed.

End InsertSteps.

(** ** [update_row], [delete_row], [create_index], [drop_index] *)

Section UpdateSteps.
Import Table.

Lemma readonly_update_body row_id (x : string * Value) :
  readonly (let '(col_name, new_value) := x in
    bind (gets (fun self => dict_get String.eqb col_name (columns self)))
      (fun col =>
       match col with
       | None =>
           bind (gets name) (fun table_name =>
             raise (ColumnNotFoundError col_name (Some table_name)))
       | Some column =>
           if Column.is_primary_key column then
             raise (ConstraintViolationError
                      ("Cannot update PRIMARY KEY column '" +:+ col_name +:+ "'"))
           else
             bind (lift (Column.validate column new_value col_name)) (fun _ =>
             if Column.is_unique column && negb (is_none new_value) then
               bind (gets (fun self => _find_by_index self col_name new_value))
                 (fun existing =>
                  match existing with
                  | Some (first :: _) =>
                      if negb (Z.eqb first row_id) then
                        raise (DuplicateKeyError col_name new_value)
                      else ret tt
                  | _ => ret tt
                  end)
             else ret tt)
       end)).
Proof.
  destruct x as [c v].
  apply readonly_bind; [apply readonly_gets|]. intros [col|].
  - apply readonly_if; [apply readonly_raise|].
    apply readonly_bind; [apply readonly_lift|]. intros _.
    apply readonly_if; [|apply readonly_ret].
    apply readonly_bind; [apply readonly_gets|]. intros [[|i l]|];
      try apply readonly_ret.
    apply readonly_if; [apply readonly_raise|apply readonly_ret].
  - apply readonly_bind; [apply readonly_gets|]. intros n.
    apply readonly_raise.
Qed.

Lemma readonly_validate_updates row_id updates :
  readonly (validate_updates row_id updates).
Proof. apply readonly_for_each, readonly_update_body. Qed.

Lemma validate_updates_iff row_id updates self :
  validate_updates row_id updates self = (self, Return tt)
  ↔ update_accepts self row_id updates.
Proof.
  unfold validate_updates, update_accepts. split.
  - intros H. apply for_each_return in H as [_ H];
      [|apply readonly_update_body].
    intros c v Hin. specialize (H _ Hin). cbv beta iota in H.
    unfold bind at 1 in H. unfold gets at 1 in H. cbv beta iota in H.
    destruct (dict_get String.eqb c (columns self)) as [col|]; [|done].
    exists col. destruct (Column.is_primary_key col); [done|].
    unfold bind at 1 in H. unfold lift in H.
    destruct (Column.validate col v c) as [[]|e]; [|done].
    repeat split; try done. intros Hu. rewrite Hu in H.
    unfold bind, gets in H.
    destruct (_find_by_index self c v) as [[|i l]|]; try done.
    destruct (Z.eqb_spec i row_id); [done|done].
  - intros H. apply for_each_all. intros [c v] Hin.
    destruct (H c v Hin) as (col & Hc & Hpk & Hval & Hu).
    unfold bind at 1. unfold gets at 1. cbv beta iota. rewrite Hc, Hpk.
    unfold bind at 1. unfold lift. rewrite Hval.
    destruct (Column.is_unique col && negb (is_none v)); [|done].
    specialize (Hu eq_refl). unfold bind, gets.
    destruct (_find_by_index self c v) as [[|i l]|]; try done.
    subst i. by rewrite Z.eqb_refl.
Qed.

Lemma dict_alter_absent {V} (f : V → V) k (d : list (string * V)) :
  dict_mem String.eqb k d = false → dict_alter String.eqb f k d = d.
Proof.
  unfold dict_mem. induction d as [|[k0 v0] d IH]; simpl; [done|].
  destruct (String.eqb k k0); [done|]. intros H. by rewrite IH.
Qed.

Lemma set_indexes_same f self :
  f (_indexes self) = _indexes self → set_indexes f self = self.
Proof. destruct self. unfold set_indexes. simpl. by intros ->. Qed.

Lemma apply_loop row_id old_row updates new_row self :
  (∀ c v, In (c, v) updates → is_Some (old_row !! c)) →
  fold_m updates (fun (new_row : Row) '(col_name, new_value) =>
      bind (lift (getitem old_row col_name)) (fun old_value =>
      let new_row := <[col_name := new_value]> new_row in
      bind (gets (fun self => has_index self col_name)) (fun indexed =>
      bind (if indexed then
         modify (set_indexes (dict_alter String.eqb
           (fun index => HashIndex.insert
                           (HashIndex.delete index old_value row_id)
                           new_value row_id) col_name))
       else ret tt) (fun _ =>
      ret new_row)))) new_row self
  = (set_indexes
       (fun d =>
          fold_left (fun d '(c, v) =>
            dict_alter String.eqb
              (fun index => HashIndex.insert
                              (HashIndex.delete index (value_at old_row c) row_id)
                              v row_id) c d) updates d) self,
     Return (updated_row new_row updates)).
Proof.
  revert new_row self.
  induction updates as [|[c v] updates IH]; intros new_row self Hold.
  - simpl. by destruct self.
  - cbn [fold_m]. destruct (Hold c v) as [w Hw]; [by left|].
    cbv beta iota. rewrite bind_assoc, bind_lift. unfold getitem. rewrite Hw.
    cbv zeta. rewrite bind_assoc, bind_gets, bind_assoc.
    assert ((if has_index self c
             then modify (set_indexes (dict_alter String.eqb
                    (fun index => HashIndex.insert
                       (HashIndex.delete index w row_id) v row_id) c))
             else ret tt) self
            = (set_indexes (dict_alter String.eqb
                    (fun index => HashIndex.insert
                       (HashIndex.delete index (value_at old_row c) row_id)
                       v row_id) c) self, Return tt)) as Hstep.
    { unfold value_at. rewrite Hw. simpl.
      destruct (has_index self c) eqn:Hi; [done|].
      unfold ret. f_equal. symmetry. apply set_indexes_same.
      by apply dict_alter_absent. }
    rewrite (bind_run _ _ _ _ _ Hstep), bind_ret.
    rewrite IH by (intros; eapply Hold; right; eauto). done.
Qed.

Lemma apply_updates_run row_id row_index old_row updates self :
  (∀ c v, In (c, v) updates → is_Some (old_row !! c)) →
  apply_updates row_id row_index old_row updates self
  = (update_commit self row_id row_index old_row updates, Return tt).
Proof.
  intros H. unfold apply_updates. unfold bind at 1.
  rewrite apply_loop by done. done.
Qed.

Lemma find_row_In self row_id rows n i row :
  find_row self row_id rows n = Some (i, row) →
  In row rows ∧ (n ≤ i)%nat ∧ rows !! (i - n)%nat = Some row
  ∧ has_row_id row row_id = true ∧ not_deleted self row_id = true.
Proof.
  revert n. induction rows as [|r rows IH]; intros n; simpl; [done|].
  destruct (has_row_id r row_id && not_deleted self row_id) eqn:E.
  - intros [= <- <-]. apply andb_true_iff in E as [? ?].
    rewrite Nat.sub_diag. repeat split; auto.
  - intros H. destruct (IH _ H) as (H1 & H2 & H3 & H4 & H5).
    repeat split; auto; [lia|].
    replace (i - n)%nat with (S (i - S n)) by lia. done.
Qed.

Lemma update_accepts_columns self row_id updates c v :
  update_accepts self row_id updates → In (c, v) updates →
  has_column self c = true.
Proof.
  intros H Hin. destruct (H c v Hin) as (col & Hc & _).
  unfold has_column, dict_mem. by rewrite Hc.
Qed.

(** The outcome of [update_row] on a well-formed table. *)
Lemma update_row_cases row_id updates self (P : t * result bool → Prop) :
  wf self →
  match find_row self row_id (_rows self) 0 with
  | None => P (self, Return false)
  | Some (row_index, old_row) =>
      (update_accepts self row_id updates →
       P (update_commit self row_id row_index old_row updates, Return true))
      ∧ (∀ e, ¬ update_accepts self row_id updates → P (self, Raise e))
  end →
  P (update_row row_id updates self).
Proof.
  intros Hwf. unfold update_row. unfold bind at 1. unfold gets at 1.
  cbv beta iota.
  destruct (find_row self row_id (_rows self) 0) as [[i old]|] eqn:F; [|done].
  intros [Hok Hfail]. unfold bind at 1.
  pose proof (validate_updates_iff row_id updates self) as H1.
  rewrite (readonly_run _ self (readonly_validate_updates row_id updates)) in *.
  destruct (snd (validate_updates row_id updates self)) as [[]|e1].
  2:{ apply Hfail. intros H. apply H1 in H. done. }
  assert (update_accepts self row_id updates) as Hacc by (by apply H1).
  unfold bind at 1. rewrite apply_updates_run.
  - by apply Hok.
  - intros c v Hin. destruct Hwf as (_ & _ & _ & Hrows).
    apply (Hrows old); [by apply (find_row_In _ _ _ _ _ _ F)|].
    by eapply update_accepts_columns.
Qed.

Lemma delete_row_run row_id self :
  wf self →
  delete_row row_id self
  = match find_row self row_id (_rows self) 0 with
    | Some (_, row) => (delete_commit self row_id row, Return true)
    | None => (self, Return false)
    end.
Proof.
  intros (_ & _ & Hidx & Hrows). unfold delete_row.
  unfold bind at 1. unfold gets at 1. cbv beta iota.
  destruct (find_row self row_id (_rows self) 0) as [[i row]|] eqn:F; [|done].
  unfold bind at 1. unfold modify at 1. cbv beta iota.
  unfold bind at 1. unfold gets at 1. cbv beta iota.
  unfold bind at 1. rewrite index_loop; [done|].
  intros c index Hin. simpl in Hin.
  apply (Hrows row); [by apply (find_row_In _ _ _ _ _ _ F)|].
  apply Hidx, sdict_mem_In. eauto.
Qed.

Lemma create_index_run column_name self :
  create_index column_name self
  = if negb (has_column self column_name) then
      (self, Raise (ColumnNotFoundError column_name (Some (name self))))
    else if has_index self column_name then (self, Return tt)
    else match populate self column_name (_rows self)
                 (HashIndex.init column_name) with
         | Return index =>
             (set_indexes (dict_set String.eqb column_name index) self,
              Return tt)
         | Raise e => (self, Raise e)
         end.
Proof.
  unfold create_index, bind, gets, raise, ret, modify.
  destruct (has_column self column_name); simpl; [|done].
  destruct (has_index self column_name); simpl; [done|].
  by destruct (populate _ _ _ _).
Qed.

Lemma drop_index_run column_name self :
  drop_index column_name self
  = match dict_get String.eqb column_name (columns self) with
    | Some c =>
        if Column.is_primary_key c || Column.is_unique c then
          (self, Raise (ValueError
             ("Cannot drop index on PRIMARY KEY or UNIQUE column '"
              +:+ column_name +:+ "'")))
        else (set_indexes (dict_del String.eqb column_name) self, Return tt)
    | None => (set_indexes (dict_del String.eqb column_name) self, Return tt)
    end.
Proof.
  unfold drop_index, bind, gets, raise, modify.
  destruct (dict_get String.eqb column_name (columns self)) as [c|]; [|done].
  by destruct (Column.is_primary_key c || Column.is_unique c).
Qed.

End UpdateSteps.

(** ** Well-formedness is kept by every method *)

Section WellFormed.
Import Table.

Lemma In_list_insert {A} (l : list A) i x y :
  In y (<[i := x]> l) → y = x ∨ In y l.
Proof.
  revert i. induction l as [|a l IH]; intros i; simpl; [tauto|].
  destruct i as [|i]; simpl.
  - intros [<-|H]; auto.
  - intros [<-|H]; auto. destruct (IH _ H); auto.
Qed.

Lemma In_fst {A B} (k : A) (v : B) d : In (k, v) d → In k (map fst d).
Proof. intros H. apply (in_map fst _ _ H). Qed.

Lemma updated_row_lookup old_row updates k :
  is_dict updates →
  updated_row old_row updates !! k
  = match dict_get String.eqb k updates with
    | Some v => Some v
    | None => old_row !! k
    end.
Proof.
  revert old_row. unfold updated_row, is_dict.
  induction updates as [|[c v] updates IH]; intros old_row Hd; simpl; [done|].
  apply NoDup_cons in Hd as [Hc Hd]. rewrite IH by done.
  destruct (String.eqb_spec k c) as [->|Hne].
  - destruct (dict_get String.eqb c updates) as [v'|] eqn:G.
    + apply sdict_get_In in G. exfalso. apply Hc.
      apply list_elem_of_In. by apply (In_fst _ v').
    + by rewrite lookup_insert_eq.
  - destruct (dict_get String.eqb k updates); [done|].
    by rewrite lookup_insert_ne.
Qed.

Lemma updated_row_is_Some old_row updates k :
  is_Some (old_row !! k) → is_Some (updated_row old_row updates !! k).
Proof.
  revert old_row. unfold updated_row.
  induction updates as [|[c v] updates IH]; intros old_row H; simpl; [done|].
  apply IH. destruct (String.eqb_spec k c) as [->|Hne].
  - rewrite lookup_insert_eq. eauto.
  - by rewrite lookup_insert_ne.
Qed.

Lemma dict_mem_fst {V} k (d : list (string * V)) :
  dict_mem String.eqb k d = true ↔ In k (map fst d).
Proof.
  rewrite sdict_mem_In, in_map_iff. split.
  - intros [v Hin]. by exists (k, v).
  - intros [[k' v] [<- Hin]]. by exists v.
Qed.

Lemma alter_all_get h l d k :
  NoDup (map fst l) →
  dict_get String.eqb k (alter_all h l d)
  = if dict_mem String.eqb k l
    then h k <$> dict_get String.eqb k d
    else dict_get String.eqb k d.
Proof.
  unfold alter_all. revert d.
  induction l as [|[c x] l IH]; intros d Hnd; simpl; [done|].
  apply NoDup_cons in Hnd as [Hc Hnd]. rewrite IH by done.
  rewrite sdict_get_alter, dict_mem_cons.
  destruct (String.eqb_spec k c) as [->|Hne]; simpl; [|done].
  destruct (dict_mem String.eqb c l) eqn:B; [|done].
  apply dict_mem_fst in B. by rewrite <- list_elem_of_In in B.
Qed.

Lemma alter_all_ok h l d :
  dict_ok String.eqb d → dict_ok String.eqb (alter_all h l d).
Proof.
  unfold alter_all. revert d.
  induction l as [|[c x] l IH]; intros d Hd; simpl; [done|].
  apply IH. by apply sdict_ok_alter.
Qed.

Lemma alter_all_mem h l d k :
  dict_mem String.eqb k (alter_all h l d) = dict_mem String.eqb k d.
Proof.
  unfold alter_all. revert d.
  induction l as [|[c x] l IH]; intros d; simpl; [done|].
  rewrite IH. apply dict_mem_alter; eauto using String.eqb_sym, string_eqb_trans.
Qed.

Lemma dict_ok_NoDup {V} (d : list (string * V)) :
  dict_ok String.eqb d → NoDup (map fst d).
Proof.
  induction d as [|[k v] d IH]; simpl; [constructor|].
  intros [Hk Hd]. apply NoDup_cons. split; [|auto].
  rewrite list_elem_of_In, in_map_iff. intros [[k' v'] [Heq Hin]].
  simpl in Heq. subst k'.
  by rewrite (sdict_In_get _ _ _ Hd Hin) in Hk.
Qed.

Lemma alter_all_self_get h d k :
  dict_ok String.eqb d →
  dict_get String.eqb k (alter_all h d d) = h k <$> dict_get String.eqb k d.
Proof.
  intros Hd. rewrite alter_all_get by (by apply dict_ok_NoDup).
  unfold dict_mem. by destruct (dict_get String.eqb k d).
Qed.

Lemma update_fold_get (g : string → Value → HashIndex.t → HashIndex.t)
    updates d k :
  is_dict updates →
  dict_get String.eqb k
    (fold_left (fun d '(c, v) => dict_alter String.eqb (g c v) c d) updates d)
  = match dict_get String.eqb k updates with
    | Some v => g k v <$> dict_get String.eqb k d
    | None => dict_get String.eqb k d
    end.
Proof.
  unfold is_dict. revert d.
  induction updates as [|[c v] updates IH]; intros d Hd; simpl; [done|].
  apply NoDup_cons in Hd as [Hc Hd]. rewrite IH by done.
  rewrite sdict_get_alter.
  destruct (String.eqb_spec k c) as [->|Hne]; [|done].
  destruct (dict_get String.eqb c updates) as [v'|] eqn:G; [|done].
  apply sdict_get_In in G. exfalso. apply Hc.
  apply list_elem_of_In. by apply (In_fst _ v').
Qed.

Lemma update_fold_ok (g : string → Value → HashIndex.t → HashIndex.t)
    updates d :
  dict_ok String.eqb d →
  dict_ok String.eqb
    (fold_left (fun d '(c, v) => dict_alter String.eqb (g c v) c d) updates d).
Proof.
  revert d. induction updates as [|[c v] updates IH]; intros d Hd; simpl;
    [done|].
  apply IH. by apply sdict_ok_alter.
Qed.

Lemma update_fold_mem (g : string → Value → HashIndex.t → HashIndex.t)
    updates d k :
  dict_mem String.eqb k
    (fold_left (fun d '(c, v) => dict_alter String.eqb (g c v) c d) updates d)
  = dict_mem String.eqb k d.
Proof.
  revert d. induction updates as [|[c v] updates IH]; intros d; simpl; [done|].
  rewrite IH. apply dict_mem_alter; eauto using String.eqb_sym, string_eqb_trans.
Qed.

Lemma dict_mem_del {V} k' k (d : list (string * V)) :
  dict_ok String.eqb d →
  dict_mem String.eqb k' (dict_del String.eqb k d)
  = negb (String.eqb k' k) && dict_mem String.eqb k' d.
Proof.
  intros Hd. unfold dict_mem. rewrite sdict_get_del by done.
  by destruct (String.eqb k' k).
Qed.

Lemma same_schema_refl a : same_schema a a.
Proof. done. Qed.

Lemma same_schema_trans a b c :
  same_schema a b → same_schema b c → same_schema a c.
Proof. intros (?&?&?&?) (?&?&?&?). repeat split; congruence. Qed.

Lemma wf_insert_commit self row_data :
  wf self →
  wf (insert_commit self (complete_row_of (columns self) row_data ∅)).
Proof.
  intros (Hc & Hi & Hic & Hrows). repeat split; simpl.
  - done.
  - by apply alter_all_ok.
  - intros c. unfold has_index, has_column. simpl.
    rewrite alter_all_mem. apply Hic.
  - intros row Hin c Hcol. unfold has_column in Hcol. simpl in Hcol.
    apply in_app_or in Hin as [Hin|[<-|[]]].
    + by apply Hrows.
    + destruct (String.eqb_spec c "_row_id") as [->|Hne].
      * rewrite lookup_insert_eq. eauto.
      * rewrite lookup_insert_ne by done.
        rewrite complete_row_of_lookup, Hcol. eauto.
Qed.

Lemma wf_update_commit self row_id i old_row updates :
  wf self → In old_row (_rows self) →
  wf (update_commit self row_id i old_row updates).
Proof.
  intros (Hc & Hi & Hic & Hrows) Hold. repeat split; simpl.
  - done.
  - by apply (update_fold_ok (fun c v index =>
        HashIndex.insert (HashIndex.delete index (value_at old_row c) row_id)
                         v row_id)).
  - intros c. unfold has_index, has_column. simpl.
    rewrite (update_fold_mem (fun c v index =>
        HashIndex.insert (HashIndex.delete index (value_at old_row c) row_id)
                         v row_id)).
    apply Hic.
  - intros row Hin c Hcol. apply In_list_insert in Hin as [->|Hin].
    + apply updated_row_is_Some. by apply Hrows.
    + by apply Hrows.
Qed.

Lemma wf_delete_commit self row_id row :
  wf self → wf (delete_commit self row_id row).
Proof.
  intros (Hc & Hi & Hic & Hrows). repeat split; simpl.
  - done.
  - by apply alter_all_ok.
  - intros c. unfold has_index, has_column. simpl.
    rewrite alter_all_mem. apply Hic.
  - done.
Qed.

Lemma apply_op_wf op self :
  wf self → wf (apply_op op self) ∧ same_schema (apply_op op self) self.
Proof.
  intros Hwf. destruct op as [rd|rid ups|rid|c|c]; simpl.
  - apply (insert_row_cases rd self); [done| |done].
    intros _. simpl. split; [by apply wf_insert_commit|done].
  - apply (update_row_cases rid ups self); [done|].
    destruct (find_row self rid (_rows self) 0) as [[i old]|] eqn:F; [|done].
    split; [|done]. intros _. simpl. split; [|done].
    apply wf_update_commit; [done|]. by apply (find_row_In _ _ _ _ _ _ F).
  - rewrite delete_row_run by done.
    destruct (find_row self rid (_rows self) 0) as [[i row]|]; [|done].
    simpl. split; [by apply wf_delete_commit|done].
  - rewrite create_index_run.
    destruct (has_column self c) eqn:Hc; simpl; [|done].
    destruct (has_index self c) eqn:Hi; simpl; [done|].
    destruct (populate self c (_rows self) (HashIndex.init c)); [|done].
    simpl. split; [|done].
    destruct Hwf as (H1 & H2 & H3 & H4). repeat split; simpl; auto.
    + by apply sdict_ok_set.
    + intros c'. unfold has_index, has_column. simpl.
      rewrite dict_mem_set by eauto using String.eqb_sym, string_eqb_trans.
      destruct (String.eqb_spec c' c) as [->|Hne]; simpl; [done|apply H3].
  - rewrite drop_index_run.
    assert (wf (set_indexes (dict_del String.eqb c) self)) as Hdrop.
    { destruct Hwf as (H1 & H2 & H3 & H4). repeat split; simpl; auto.
      - by apply sdict_ok_del.
      - intros c'. unfold has_index, has_column. simpl.
        rewrite dict_mem_del by done. intros [_ H]%andb_true_iff.
        by apply H3. }
    destruct (dict_get String.eqb c (columns self)) as [col|]; [|done].
    by destruct (Column.is_primary_key col || Column.is_unique col).
Qed.

Lemma run_wf ops self :
  wf self → wf (run ops self) ∧ same_schema (run ops self) self.
Proof.
  revert self. induction ops as [|op ops IH]; intros self Hwf; simpl; [done|].
  destruct (apply_op_wf op self Hwf) as [H1 H2].
  destruct (IH _ H1) as [H3 H4]. split; [done|].
  by eapply same_schema_trans.
Qed.

End WellFormed.

(** ** The constructor *)

Section Init.
Import Table.

Lemma validate_identifier_true name r :
  Validators.validate_identifier name = Return r → r = true.
Proof.
  unfold Validators.validate_identifier.
  repeat case_match; try discriminate. by intros [= <-].
Qed.

Lemma valid_column_name col :
  valid_column col →
  Validators.validate_identifier (Column.name col) = Return true.
Proof.
  unfold valid_column, Column.init.
  destruct (Validators.validate_identifier (Column.name col)) as [b|e] eqn:E;
    [|done].
  intros _. by rewrite (validate_identifier_true _ _ E).
Qed.

Lemma columns_dict_ok (cols : list Column.t) d0 :
  dict_ok String.eqb d0 →
  dict_ok String.eqb
    (fold_left (fun d col => dict_set String.eqb (Column.name col) col d) cols d0).
Proof.
  revert d0. induction cols as [|a cols IH]; intros d0 H; simpl; [done|].
  apply IH. by apply sdict_ok_set.
Qed.

Lemma columns_dict_get (cols : list Column.t) d0 c col :
  dict_get String.eqb c
    (fold_left (fun d col => dict_set String.eqb (Column.name col) col d) cols d0)
  = Some col →
  (In col cols ∧ Column.name col = c) ∨ dict_get String.eqb c d0 = Some col.
Proof.
  revert d0. induction cols as [|a cols IH]; intros d0; simpl; [auto|].
  intros H. destruct (IH _ H) as [[H1 H2]|H1]; [auto|].
  rewrite sdict_get_set in H1.
  destruct (String.eqb_spec c (Column.name a)) as [->|Hne]; [|auto].
  injection H1 as <-. auto.
Qed.

Lemma columns_dict_mem (cols : list Column.t) d0 col :
  In col cols →
  dict_mem String.eqb (Column.name col)
    (fold_left (fun d col => dict_set String.eqb (Column.name col) col d) cols d0)
  = true.
Proof.
  revert d0. induction cols as [|a cols IH]; intros d0; simpl; [done|].
  intros [->|Hin]; [|auto].
  assert (∀ d, dict_mem String.eqb (Column.name col) d = true →
               dict_mem String.eqb (Column.name col)
                 (fold_left (fun d col => dict_set String.eqb (Column.name col) col d)
                            cols d) = true) as Hmono.
  { clear. induction cols as [|a cols IH]; intros d H; simpl; [done|].
    apply IH.
    rewrite dict_mem_set by eauto using String.eqb_sym, string_eqb_trans.
    by rewrite H, orb_true_r. }
  apply Hmono.
  rewrite dict_mem_set by eauto using String.eqb_sym, string_eqb_trans.
  by rewrite String.eqb_refl.
Qed.

Lemma populate_nil self c index : populate self c [] index = Return index.
Proof. done. Qed.

Lemma empty_create_index c self :
  empty_table self → has_column self c = true →
  ∃ self', create_index c self = (self', Return tt)
    ∧ empty_table self' ∧ same_schema self' self
    ∧ has_index self' c = true
    ∧ (∀ c', has_index self c' = true → has_index self' c' = true).
Proof.
  intros (Hr & Hn & Hd & Hc & Hi & Hic & Hinit) Hcol.
  rewrite create_index_run, Hcol. simpl.
  destruct (has_index self c) eqn:Hidx.
  - exists self. by repeat split.
  - rewrite Hr. simpl. eexists. split; [done|].
    assert (∀ c', has_index (set_indexes
               (dict_set String.eqb c (HashIndex.init c)) self) c'
             = String.eqb c' c || has_index self c') as Hmem.
    { intros c'. unfold has_index. simpl.
      apply dict_mem_set; eauto using String.eqb_sym, string_eqb_trans. }
    repeat split; simpl; auto.
    + by apply sdict_ok_set.
    + intros c'. rewrite Hmem. unfold has_column. simpl.
      destruct (String.eqb_spec c' c) as [->|Hne]; simpl; [done|apply Hic].
    + intros c' index. unfold get_index. simpl. rewrite sdict_get_set.
      destruct (String.eqb_spec c' c) as [->|Hne].
      * by intros [= <-].
      * apply Hinit.
    + rewrite Hmem. by rewrite String.eqb_refl.
    + intros c' H. rewrite Hmem, H. apply orb_true_r.
Qed.

Lemma init_loop (l : list Column.t) self :
  empty_table self →
  (∀ col, In col l → has_column self (Column.name col) = true) →
  ∃ self',
    for_each l (fun col =>
      if Column.is_primary_key col || Column.is_unique col
      then create_index (Column.name col) else ret tt) self
    = (self', Return tt)
    ∧ empty_table self' ∧ same_schema self' self
    ∧ (∀ c, has_index self c = true → has_index self' c = true)
    ∧ (∀ col, In col l →
         Column.is_primary_key col || Column.is_unique col = true →
         has_index self' (Column.name col) = true).
Proof.
  revert self. induction l as [|a l IH]; intros self He Hcols.
  - exists self. split; [done|]. split; [done|]. split; [done|].
    split; [done|]. intros ? [].
  - cbn [for_each].
    assert (∃ s1, (if Column.is_primary_key a || Column.is_unique a
                   then create_index (Column.name a) else ret tt) self
                  = (s1, Return tt)
                  ∧ empty_table s1 ∧ same_schema s1 self
                  ∧ (∀ c, has_index self c = true → has_index s1 c = true)
                  ∧ (Column.is_primary_key a || Column.is_unique a = true →
                     has_index s1 (Column.name a) = true))
      as (s1 & Hrun & He1 & Hs1 & Hmono1 & Ha).
    { destruct (Column.is_primary_key a || Column.is_unique a).
      - destruct (empty_create_index (Column.name a) self He)
          as (s1 & Hr1 & He1 & Hs1 & Hi1 & Hm1); [apply Hcols; by left|].
        exists s1. split; [done|]. split; [done|]. split; [done|].
        split; [done|]. done.
      - exists self. split; [done|]. split; [done|]. split; [done|].
        split; [done|]. done. }
    rewrite (bind_run _ _ _ _ _ Hrun).
    destruct (IH s1 He1) as (s' & Hrun' & He' & Hs' & Hmono' & Hall).
    { intros col Hin. unfold has_column.
      destruct Hs1 as (_ & -> & _). apply Hcols. by right. }
    exists s'. split; [done|]. split; [done|].
    split; [by eapply same_schema_trans|].
    split; [by auto|].
    intros col [->|Hin] Hu; [|auto]. apply Hmono'. auto.
Qed.

Lemma empty_table_wf self : empty_table self → wf self.
Proof.
  intros (Hr & Hn & Hd & Hc & Hi & Hic & Hinit).
  repeat split; auto. rewrite Hr. intros ? [].
Qed.

Lemma row_at_empty self row_id : _rows self = [] → row_at self row_id = None.
Proof. unfold row_at. intros ->. by destruct (0 <=? row_id). Qed.

Lemma empty_index_exact self c :
  _rows self = [] → index_exact self c (HashIndex.init c).
Proof.
  intros Hr. split; [apply index_ok_init|].
  intros v Hv. unfold HashIndex.search. rewrite Hv. simpl.
  split; [constructor|]. intros row_id. split; [done|].
  intros (row & w & H & _). by rewrite row_at_empty in H.
Qed.

(** What the constructor returns. *)
Lemma init_spec name cols table :
  Forall valid_column cols →
  Table.init name cols = Return table →
  empty_table table
  ∧ (∀ c column, dict_get String.eqb c (columns table) = Some column →
       In column cols ∧ Column.name column = c)
  ∧ (∀ c column, dict_get String.eqb c (columns table) = Some column →
       Column.is_unique column = true → has_index table c = true)
  ∧ (∀ c column, dict_get String.eqb c (columns table) = Some column →
       Column.is_primary_key column = true → primary_key table = Some c).
Proof.
  intros Hvalid. unfold init.
  destruct cols as [|c0 cols0] eqn:Ecols; [done|]. rewrite <- Ecols in *.
  destruct (Nat.ltb_spec 1 (length (List.filter Column.is_primary_key cols)))
    as [Hlt|Hle]; [done|].
  set (self0 := mk name _ _ _ [] 0 ∅ []).
  assert (empty_table self0) as He0.
  { repeat split; simpl; auto.
    - by apply columns_dict_ok.
    - done.
    - done. }
  destruct (init_loop cols self0 He0) as (s' & Hrun & He' & Hs' & _ & Hall).
  { intros col Hin. by apply columns_dict_mem. }
  rewrite Hrun. intros [= <-].
  destruct Hs' as (_ & Hcols & _ & Hpk).
  assert (∀ c column, dict_get String.eqb c (columns s') = Some column →
            In column cols ∧ Column.name column = c) as Hget.
  { intros c col. rewrite Hcols. simpl. intros H.
    by apply columns_dict_get in H as [?|?]. }
  split; [done|]. split; [done|]. split.
  - intros c col Hc Hu. destruct (Hget c col Hc) as [Hin <-].
    apply Hall; [done|]. by rewrite Hu, orb_true_r.
  - intros c col Hc Hp. destruct (Hget c col Hc) as [Hin <-].
    rewrite Hpk. simpl.
    assert (In col (List.filter Column.is_primary_key cols)) as Hf
      by (apply filter_In; auto).
    destruct (List.filter Column.is_primary_key cols) as [|p [|q l]];
      simpl in *; [done| |lia].
    by destruct Hf as [->|[]].
Qed.

End Init.

(** ** Consistent tables *)

Section ConsistentBasics.
Import Table.

Lemma search_congr index v v' :
  py_eq v v' = true → HashIndex.search index v = HashIndex.search index v'.
Proof.
  intros H. unfold HashIndex.search.
  rewrite (is_none_py_eq _ _ H).
  by rewrite (dict_get_congr py_eq py_eq_sym py_eq_trans' _ _ _ H).
Qed.

Lemma search_none index v : is_none v = true → HashIndex.search index v = [].
Proof. unfold HashIndex.search. by intros ->. Qed.

Lemma nonnull_py_eq v w : py_eq w v = true → is_none v = false → is_none w = false.
Proof. intros H. by rewrite (is_none_py_eq _ _ H). Qed.

Lemma row_at_Some self row_id row :
  row_at self row_id = Some row →
  0 ≤ row_id ∧ _rows self !! Z.to_nat row_id = Some row
  ∧ row_id < Z.of_nat (length (_rows self)).
Proof.
  unfold row_at. destruct (Z.leb_spec 0 row_id) as [Hle|Hlt]; [|done].
  intros H. repeat split; auto.
  apply lookup_lt_Some in H. lia.
Qed.

Lemma row_at_In self row_id row : row_at self row_id = Some row → In row (_rows self).
Proof.
  intros H. apply row_at_Some in H as (_ & H & _).
  apply list_elem_of_In. by eapply list_elem_of_lookup_2.
Qed.

Lemma row_at_id self row_id row :
  consistent self → row_at self row_id = Some row →
  row !! "_row_id" = Some (VInt row_id).
Proof.
  intros Hc H. apply row_at_Some in H as (H0 & H & _).
  rewrite (cons_ids _ Hc _ _ H). by rewrite Z2Nat.id.
Qed.

Lemma find_row_deleted self row_id rows n :
  not_deleted self row_id = false → find_row self row_id rows n = None.
Proof.
  intros H. revert n. induction rows as [|r rows IH]; intros n; simpl; [done|].
  by rewrite H, andb_false_r.
Qed.

Lemma find_row_offset self row_id rows n :
  (∀ j row, rows !! j = Some row →
     row !! "_row_id" = Some (VInt (Z.of_nat (n + j)))) →
  not_deleted self row_id = true →
  find_row self row_id rows n
  = if Z.leb (Z.of_nat n) row_id
    then match rows !! (Z.to_nat row_id - n)%nat with
         | Some row => Some (Z.to_nat row_id, row)
         | None => None
         end
    else None.
Proof.
  intros Hids Hnd. revert n Hids.
  induction rows as [|r rows IH]; intros n Hids; simpl.
  - by destruct (Z.of_nat n <=? row_id).
  - rewrite Hnd, andb_true_r. unfold has_row_id.
    rewrite (Hids 0%nat r eq_refl). simpl default. rewrite py_eq_VInt.
    rewrite Nat.add_0_r.
    destruct (Z.eqb_spec (Z.of_nat n) row_id) as [<-|Hne].
    + rewrite Z.leb_refl, Nat2Z.id, Nat.sub_diag. done.
    + rewrite IH.
      2:{ intros j row Hj. rewrite (Hids (S j) row Hj). do 3 f_equal. lia. }
      destruct (Z.leb_spec (Z.of_nat (S n)) row_id),
               (Z.leb_spec (Z.of_nat n) row_id); try lia; [|done].
      replace (Z.to_nat row_id - n)%nat with (S (Z.to_nat row_id - S n)) by lia.
      done.
Qed.

Lemma find_row_consistent self row_id :
  consistent self →
  find_row self row_id (_rows self) 0
  = match row_at self row_id with
    | Some row =>
        if not_deleted self row_id then Some (Z.to_nat row_id, row) else None
    | None => None
    end.
Proof.
  intros Hc. destruct (not_deleted self row_id) eqn:Hnd.
  - rewrite find_row_offset; [|apply (cons_ids _ Hc)|done].
    unfold row_at. rewrite Nat.sub_0_r. change (Z.of_nat 0) with 0.
    destruct (0 <=? row_id); [|done].
    by destruct (_rows self !! Z.to_nat row_id).
  - rewrite find_row_deleted by done. by destruct (row_at self row_id).
Qed.

Lemma not_deleted_true self row_id :
  not_deleted self row_id = true ↔ row_id ∉ _deleted_row_ids self.
Proof.
  unfold not_deleted. rewrite negb_true_iff, bool_decide_eq_false. done.
Qed.

Lemma holds_value_nonnull self c v row_id :
  holds_value self c v row_id → is_none v = false →
  ∃ row w, row_at self row_id = Some row
         ∧ (row_id ∉ _deleted_row_ids self)
         ∧ row !! c = Some w ∧ is_none w = false ∧ py_eq w v = true.
Proof.
  intros (row & w & H1 & H2 & H3 & H4) Hv. exists row, w.
  repeat split; auto. by eapply nonnull_py_eq.
Qed.

Lemma index_exact_bound self c index v row_id :
  index_exact self c index → In row_id (HashIndex.search index v) →
  0 ≤ row_id < Z.of_nat (length (_rows self)).
Proof.
  intros [_ Hex] Hin. destruct (is_none v) eqn:Hv.
  - by rewrite search_none in Hin.
  - apply (Hex v Hv) in Hin as (row & w & H & _).
    apply row_at_Some in H. lia.
Qed.

Lemma indexed_not_internal self c :
  wf self → no_internal_column self → has_index self c = true →
  c ≠ "_row_id".
Proof.
  intros (_ & _ & Hic & _) Hno Hi ->. apply Hic in Hi.
  unfold no_internal_column in Hno. congruence.
Qed.

Lemma validate_identifier_nonempty c :
  Validators.validate_identifier c = Return true → c ≠ "".
Proof. intros H ->. discriminate. Qed.

Lemma get_index_has_index self c index :
  get_index self c = Some index → has_index self c = true.
Proof. unfold get_index, has_index, dict_mem. by intros ->. Qed.

End ConsistentBasics.

(** ** [insert_row] keeps a table consistent *)

Section ConsistentInsert.
Import Table.

Variables (self : t) (row_data : list (string * Value)).
Hypothesis Hwf : wf self.
Hypothesis Hcons : consistent self.
Hypothesis Hno : no_internal_column self.
Hypothesis Hacc : insert_accepts self row_data.

Let complete_row := complete_row_of (columns self) row_data ∅.
Let new_id := _next_row_id self.
Let new_row : Row := <["_row_id" := VInt new_id]> complete_row.
Let self' := insert_commit self complete_row.

Lemma insert_rows : _rows self' = (_rows self ++ [new_row])%list.
Proof. done. Qed.

Lemma insert_row_at row_id :
  row_at self' row_id
  = if Z.eqb row_id new_id then Some new_row else row_at self row_id.
Proof.
  unfold row_at. rewrite insert_rows. subst new_id.
  rewrite (cons_next _ Hcons).
  destruct (Z.leb_spec 0 row_id) as [Hle|Hlt].
  - destruct (Z.eqb_spec row_id (Z.of_nat (length (_rows self)))) as [->|Hne].
    + rewrite Nat2Z.id. rewrite lookup_app_r by lia.
      by rewrite Nat.sub_diag.
    + destruct (decide (Z.to_nat row_id < length (_rows self))%nat).
      * by rewrite lookup_app_l.
      * rewrite !lookup_ge_None_2; [done|lia|].
        rewrite length_app. simpl. lia.
  - destruct (Z.eqb_spec row_id (Z.of_nat (length (_rows self)))); [lia|done].
Qed.

Lemma insert_new_id_fresh : new_id ∉ _deleted_row_ids self.
Proof.
  intros H. apply (cons_deleted _ Hcons) in H. subst new_id. lia.
Qed.

Lemma insert_row_at_old : row_at self new_id = None.
Proof.
  subst new_id. unfold row_at. rewrite (cons_next _ Hcons).
  destruct (0 <=? _); [|done]. apply lookup_ge_None_2. lia.
Qed.

Lemma insert_holds c v row_id :
  holds_value self' c v row_id
  ↔ holds_value self c v row_id
    ∨ (row_id = new_id ∧ ∃ w, new_row !! c = Some w ∧ py_eq w v = true).
Proof.
  unfold holds_value. setoid_rewrite insert_row_at. split.
  - intros (row & w & H1 & H2 & H3 & H4).
    destruct (Z.eqb_spec row_id new_id) as [->|Hne].
    + injection H1 as <-. right. eauto.
    + left. exists row, w. auto.
  - intros [(row & w & H1 & H2 & H3 & H4)|(-> & w & H3 & H4)].
    + exists row, w. destruct (Z.eqb_spec row_id new_id) as [->|Hne].
      * by rewrite insert_row_at_old in H1.
      * auto.
    + exists new_row, w. rewrite Z.eqb_refl.
      repeat split; auto. apply insert_new_id_fresh.
Qed.

Lemma insert_get_index c index' :
  get_index self' c = Some index' →
  ∃ index, get_index self c = Some index
    ∧ index' = HashIndex.insert index (value_at new_row c) new_id.
Proof.
  unfold get_index. simpl. rewrite alter_all_self_get by apply Hwf.
  destruct (dict_get String.eqb c (_indexes self)) as [index|]; [|done].
  intros [= <-]. eauto.
Qed.

Lemma insert_new_row_lookup c :
  has_column self c = true →
  new_row !! c = Some (default VNull (dict_get String.eqb c row_data)).
Proof.
  intros Hc. subst new_row. rewrite lookup_insert_ne.
  - subst complete_row. rewrite complete_row_of_lookup.
    unfold has_column in Hc. by rewrite Hc.
  - intros <-. unfold no_internal_column in Hno. congruence.
Qed.

Lemma insert_index_exact c index' :
  get_index self' c = Some index' → index_exact self' c index'.
Proof.
  intros H. apply insert_get_index in H as (index & Hi & ->).
  pose proof (cons_index _ Hcons _ _ Hi) as [Hok Hex].
  assert (has_column self c = true) as Hcol.
  { apply Hwf. by eapply get_index_has_index. }
  pose proof (insert_new_row_lookup c Hcol) as Hrow.
  set (k := default VNull (dict_get String.eqb c row_data)) in *.
  assert (value_at new_row c = k) as -> by (unfold value_at; by rewrite Hrow).
  split; [by apply index_ok_insert|].
  intros v Hv. destruct (Hex v Hv) as [Hnd Hin].
  rewrite search_insert by done.
  assert (¬ In new_id (HashIndex.search index v)) as Hfresh.
  { intros Hn. apply Hin in Hn as (row & w & H1 & _).
    by rewrite insert_row_at_old in H1. }
  destruct (negb (is_none k) && py_eq v k) eqn:E.
  - apply andb_true_iff in E as [Hk E]. split.
    + apply NoDup_app. split; [done|]. split; [|apply NoDup_singleton].
      intros x Hx [->|[]]%list_elem_of_In. by apply list_elem_of_In in Hx.
    + intros row_id. rewrite in_app_iff, Hin, insert_holds. simpl.
      split.
      * intros [?|[<-|[]]]; [by left|]. right. split; [done|].
        exists k. by rewrite py_eq_sym.
      * intros [?|[-> _]]; auto.
  - split; [done|]. intros row_id. rewrite Hin, insert_holds.
    split; [by left|]. intros [?|(-> & w & Hw & Hpy)]; [done|].
    rewrite Hrow in Hw. injection Hw as <-.
    rewrite py_eq_sym in Hpy. rewrite Hpy, andb_true_r in E.
    apply negb_false_iff in E.
    rewrite (is_none_py_eq _ _ Hpy) in Hv. congruence.
Qed.

Lemma insert_unique_free c column :
  dict_get String.eqb c (columns self) = Some column →
  Column.is_unique column = true →
  unique_free self c (default VNull (dict_get String.eqb c row_data)).
Proof.
  intros Hc Hu. destruct Hacc as (_ & _ & Hpk & Huniq).
  assert (has_column self c = true) as Hcol
    by (unfold has_column, dict_mem; by rewrite Hc).
  assert (complete_row !! c
          = Some (default VNull (dict_get String.eqb c row_data))) as Hrow.
  { subst complete_row. rewrite complete_row_of_lookup.
    unfold has_column in Hcol. by rewrite Hcol. }
  destruct (Column.is_primary_key column) eqn:Hp.
  - pose proof (cons_pk _ Hcons _ _ Hc Hp) as Hpk'.
    rewrite Hpk' in Hpk. simpl in Hpk.
    destruct Hpk as (v & Hv & Hfree).
    + apply negb_true_iff. apply String.eqb_neq.
      apply validate_identifier_nonempty. by apply (cons_names _ Hcons _ _ Hc).
    + fold complete_row in Hv. rewrite Hrow in Hv. by injection Hv as <-.
  - destruct (Huniq c column) as (v & Hv & Hfree).
    + by apply sdict_get_In.
    + by rewrite Hu, Hp.
    + fold complete_row in Hv. rewrite Hrow in Hv. by injection Hv as <-.
Qed.

Lemma insert_unique c column index' v :
  dict_get String.eqb c (columns self') = Some column →
  Column.is_unique column = true →
  get_index self' c = Some index' →
  (length (HashIndex.search index' v) ≤ 1)%nat.
Proof.
  intros Hc Hu H. apply insert_get_index in H as (index & Hi & ->).
  simpl in Hc.
  pose proof (cons_unique _ Hcons _ _ _ v Hc Hu Hi) as Hlen.
  destruct (is_none v) eqn:Hv; [rewrite search_none by done; simpl; lia|].
  assert (has_column self c = true) as Hcol
    by (unfold has_column, dict_mem; by rewrite Hc).
  pose proof (insert_new_row_lookup c Hcol) as Hrow.
  set (k := default VNull (dict_get String.eqb c row_data)) in *.
  assert (value_at new_row c = k) as -> by (unfold value_at; by rewrite Hrow).
  rewrite search_insert by done.
  destruct (negb (is_none k) && py_eq v k) eqn:E; [|done].
  apply andb_true_iff in E as [Hk E]. apply negb_true_iff in Hk.
  destruct (insert_unique_free c column Hc Hu) as [Hnull|Hfree].
  - fold k in Hnull. congruence.
  - fold k in Hfree. unfold _find_by_index in Hfree.
    unfold get_index in Hi. rewrite Hi in Hfree.
    rewrite (search_congr _ _ _ E).
    destruct (HashIndex.search index k); [simpl; lia|done].
Qed.

Lemma consistent_insert_commit : consistent self'.
Proof.
  split.
  - intros i row. rewrite insert_rows. intros H.
    apply lookup_app_Some in H as [H|[Hlen H]].
    + by apply (cons_ids _ Hcons).
    + destruct (i - length (_rows self))%nat eqn:E; [|done].
      injection H as <-. subst new_row. rewrite lookup_insert_eq.
      subst new_id. rewrite (cons_next _ Hcons). do 2 f_equal. lia.
  - simpl. rewrite length_app. simpl. rewrite (cons_next _ Hcons). lia.
  - simpl. intros row_id H. apply (cons_deleted _ Hcons) in H. lia.
  - intros row k. rewrite insert_rows. intros Hin Hk.
    apply in_app_or in Hin as [Hin|[<-|[]]].
    + by apply (cons_keys _ Hcons row).
    + destruct (String.eqb_spec k "_row_id") as [->|Hne]; [by left|].
      right. subst new_row. rewrite lookup_insert_ne in Hk by done.
      subst complete_row. rewrite complete_row_of_lookup in Hk.
      unfold has_column. simpl.
      destruct (dict_mem String.eqb k (columns self)); [done|].
      rewrite lookup_empty in Hk. by destruct Hk.
  - apply insert_index_exact.
  - apply insert_unique.
  - intros c column Hc Hu. unfold has_index. simpl. rewrite alter_all_mem.
    by apply (cons_mandatory _ Hcons c column).
  - apply (cons_pk _ Hcons).
  - apply (cons_names _ Hcons).
Qed.

End ConsistentInsert.

(** ** [delete_row] keeps a table consistent *)

Section ConsistentDelete.
Import Table.

Variables (self : t) (row_id : Z) (row : Row).
Hypothesis Hwf : wf self.
Hypothesis Hcons : consistent self.
Hypothesis Hrow : row_at self row_id = Some row.
Hypothesis Hlive : row_id ∉ _deleted_row_ids self.

Let self' := delete_commit self row_id row.

Lemma delete_holds c v row_id' :
  holds_value self' c v row_id'
  ↔ row_id' ≠ row_id ∧ holds_value self c v row_id'.
Proof.
  unfold holds_value, row_at. simpl. split.
  - intros (r & w & H1 & H2 & H3 & H4).
    apply not_elem_of_union in H2 as [H2 H2'].
    apply not_elem_of_singleton in H2. split; [done|].
    exists r, w. repeat split; auto.
  - intros (Hne & r & w & H1 & H2 & H3 & H4).
    exists r, w. repeat split; auto.
    apply not_elem_of_union. split; [|done].
    by apply not_elem_of_singleton.
Qed.

Lemma delete_get_index c index' :
  get_index self' c = Some index' →
  ∃ index, get_index self c = Some index
    ∧ index' = HashIndex.delete index (value_at row c) row_id.
Proof.
  unfold get_index. simpl. rewrite alter_all_self_get by apply Hwf.
  destruct (dict_get String.eqb c (_indexes self)) as [index|]; [|done].
  intros [= <-]. eauto.
Qed.

(** The identifier of the row is in the index under the row's own
    key only. *)
Lemma own_key_only c index v :
  index_exact self c index → is_none v = false →
  In row_id (HashIndex.search index v) →
  negb (is_none (value_at row c)) && py_eq v (value_at row c) = true.
Proof.
  intros [_ Hex] Hv Hin. apply (Hex v Hv) in Hin as (r & w & H1 & _ & H3 & H4).
  rewrite Hrow in H1. injection H1 as <-.
  unfold value_at. rewrite H3. simpl.
  rewrite (py_eq_sym v w), H4, andb_true_r.
  by rewrite (nonnull_py_eq _ _ H4 Hv).
Qed.

Lemma delete_index_exact c index' :
  get_index self' c = Some index' → index_exact self' c index'.
Proof.
  intros H. apply delete_get_index in H as (index & Hi & ->).
  pose proof (cons_index _ Hcons _ _ Hi) as Hexact.
  destruct Hexact as [Hok Hex] eqn:Eex. clear Eex.
  split; [by apply index_ok_delete|].
  intros v Hv. destruct (Hex v Hv) as [Hnd Hin].
  rewrite search_delete by done.
  destruct (negb (is_none (value_at row c)) && py_eq v (value_at row c)) eqn:E.
  - split; [by apply remove1_NoDup|].
    intros id. rewrite remove1_In by done. rewrite Hin, delete_holds. done.
  - split; [done|]. intros id. rewrite Hin, delete_holds.
    split; [|tauto]. intros Hh. split; [|done]. intros ->.
    apply Hin in Hh.
    rewrite (own_key_only c index v (conj Hok Hex) Hv Hh) in E. done.
Qed.

Lemma consistent_delete_commit : consistent self'.
Proof.
  split; try apply Hcons.
  - simpl. intros id [->%elem_of_singleton|H]%elem_of_union.
    + apply row_at_Some in Hrow. rewrite (cons_next _ Hcons). lia.
    + by apply (cons_deleted _ Hcons).
  - apply delete_index_exact.
  - intros c column index' v Hc Hu H.
    apply delete_get_index in H as (index & Hi & ->).
    pose proof (cons_unique _ Hcons _ _ _ v Hc Hu Hi) as Hlen.
    rewrite search_delete by apply (cons_index _ Hcons _ _ Hi).
    destruct (_ && _); [|done].
    pose proof (remove1_length row_id (HashIndex.search index v)). lia.
  - intros c column Hc Hu. unfold has_index. simpl. rewrite alter_all_mem.
    by apply (cons_mandatory _ Hcons c column).
Qed.

End ConsistentDelete.

(** ** [update_row] keeps a table consistent *)

Section ConsistentUpdate.
Import Table.

Variables (self : t) (row_id : Z) (old_row : Row)
          (updates : list (string * Value)).
Hypothesis Hwf : wf self.
Hypothesis Hcons : consistent self.
Hypothesis Hno : no_internal_column self.
Hypothesis Hrow : row_at self row_id = Some old_row.
Hypothesis Hlive : row_id ∉ _deleted_row_ids self.
Hypothesis Hdict : is_dict updates.
Hypothesis Hacc : update_accepts self row_id updates.

Let new_row := updated_row old_row updates.
Let self' := update_commit self row_id (Z.to_nat row_id) old_row updates.

Lemma update_keys_columns c v :
  dict_get String.eqb c updates = Some v → has_column self c = true.
Proof.
  intros H. apply sdict_get_In in H.
  by eapply update_accepts_columns.
Qed.

Lemma update_new_row_lookup k :
  new_row !! k
  = match dict_get String.eqb k updates with
    | Some v => Some v
    | None => old_row !! k
    end.
Proof. by apply updated_row_lookup. Qed.

Lemma update_new_row_id : new_row !! "_row_id" = Some (VInt row_id).
Proof.
  rewrite update_new_row_lookup.
  destruct (dict_get String.eqb "_row_id" updates) as [v|] eqn:G.
  - apply update_keys_columns in G. unfold no_internal_column in Hno.
    congruence.
  - by apply (row_at_id self).
Qed.

Lemma update_row_at row_id' :
  row_at self' row_id'
  = if Z.eqb row_id' row_id then Some new_row else row_at self row_id'.
Proof.
  unfold row_at. simpl.
  pose proof (row_at_Some _ _ _ Hrow) as (H0 & H1 & H2).
  destruct (Z.leb_spec 0 row_id') as [Hle|Hlt].
  - destruct (Z.eqb_spec row_id' row_id) as [->|Hne].
    + apply list_lookup_insert_eq. lia.
    + apply list_lookup_insert_ne. lia.
  - destruct (Z.eqb_spec row_id' row_id); [lia|done].
Qed.

Lemma update_holds c v row_id' :
  holds_value self' c v row_id'
  ↔ if Z.eqb row_id' row_id
    then ∃ w, new_row !! c = Some w ∧ py_eq w v = true
    else holds_value self c v row_id'.
Proof.
  unfold holds_value. setoid_rewrite update_row_at.
  destruct (Z.eqb_spec row_id' row_id) as [->|Hne]; [|done].
  split.
  - intros (r & w & [= <-] & _ & H3 & H4). eauto.
  - intros (w & H3 & H4). exists new_row, w. auto.
Qed.

Lemma update_get_index c index' :
  get_index self' c = Some index' →
  ∃ index, get_index self c = Some index
    ∧ index' = match dict_get String.eqb c updates with
               | Some v => HashIndex.insert
                             (HashIndex.delete index (value_at old_row c) row_id)
                             v row_id
               | None => index
               end.
Proof.
  unfold get_index. simpl.
  rewrite (update_fold_get (fun c v index =>
     HashIndex.insert (HashIndex.delete index (value_at old_row c) row_id)
                      v row_id)) by done.
  destruct (dict_get String.eqb c (_indexes self)) as [index|];
    destruct (dict_get String.eqb c updates); simpl; try done;
    intros [= <-]; eauto.
Qed.

(** The entries of an index under [v] once the old key of the row is
    taken out. *)
Lemma update_removed c index v :
  index_exact self c index → is_none v = false →
  let l := HashIndex.search index v in
  let x := if negb (is_none (value_at old_row c)) && py_eq v (value_at old_row c)
           then remove1 row_id l else l in
  NoDup x ∧ ¬ In row_id x
  ∧ (∀ i, i ≠ row_id → In i x ↔ holds_value self c v i)
  ∧ (length x ≤ length l)%nat
  ∧ (∀ i, In i x → In i l).
Proof.
  intros Hexact Hv l x. destruct Hexact as [Hok Hex] eqn:Eex. clear Eex.
  destruct (Hex v Hv) as [Hnd Hin]. fold l in Hnd, Hin. subst x.
  destruct (negb (is_none (value_at old_row c))
            && py_eq v (value_at old_row c)) eqn:E.
  - split; [by apply remove1_NoDup|]. split.
    + rewrite remove1_In by done. tauto.
    + split; [|split].
      * intros i Hi. rewrite remove1_In by done. rewrite Hin. tauto.
      * apply remove1_length.
      * intros i. rewrite remove1_In by done. tauto.
  - split; [done|]. split.
    + intros Hh.
      rewrite (own_key_only self row_id old_row Hrow c index v
                 (conj Hok Hex) Hv Hh) in E. done.
    + split; [|split]; [|lia|done]. intros i _. apply Hin.
Qed.

Lemma update_index_exact c index' :
  get_index self' c = Some index' → index_exact self' c index'.
Proof.
  intros H. apply update_get_index in H as (index & Hi & ->).
  pose proof (cons_index _ Hcons _ _ Hi) as Hexact.
  destruct Hexact as [Hok Hex] eqn:Eex. clear Eex.
  destruct (dict_get String.eqb c updates) as [vn|] eqn:G.
  - split; [by apply index_ok_insert, index_ok_delete|].
    intros v Hv.
    destruct (update_removed c index v (conj Hok Hex) Hv)
      as (Hnd & Hfresh & Hin & _ & _).
    rewrite search_insert, search_delete by done.
    set (x := if negb (is_none (value_at old_row c))
                 && py_eq v (value_at old_row c)
              then remove1 row_id (HashIndex.search index v)
              else HashIndex.search index v) in *.
    assert (new_row !! c = Some vn) as Hnew
      by (by rewrite update_new_row_lookup, G).
    destruct (negb (is_none vn) && py_eq v vn) eqn:E.
    + apply andb_true_iff in E as [Hk E]. split.
      * apply NoDup_app. split; [done|]. split; [|apply NoDup_singleton].
        intros i Hix [->|[]]%list_elem_of_In. by apply list_elem_of_In in Hix.
      * intros i. rewrite in_app_iff, update_holds. simpl.
        destruct (Z.eqb_spec i row_id) as [->|Hne].
        -- split; [|auto]. intros _. exists vn. by rewrite py_eq_sym.
        -- rewrite <- Hin by done. split; [|auto].
           intros [?|[?|[]]]; [done|congruence].
    + split; [done|]. intros i. rewrite update_holds.
      destruct (Z.eqb_spec i row_id) as [->|Hne]; [|by apply Hin].
      split; [done|]. intros (w & Hw & Hpy). rewrite Hnew in Hw.
      injection Hw as <-. rewrite py_eq_sym in Hpy.
      rewrite Hpy, andb_true_r in E. apply negb_false_iff in E.
      rewrite (is_none_py_eq _ _ Hpy) in Hv. congruence.
  - split; [done|]. intros v Hv. destruct (Hex v Hv) as [Hnd Hin].
    split; [done|]. intros i. rewrite Hin, update_holds.
    destruct (Z.eqb_spec i row_id) as [->|Hne]; [|done].
    rewrite update_new_row_lookup, G. unfold holds_value.
    split.
    + intros (r & w & H1 & _ & H3 & H4). rewrite Hrow in H1.
      injection H1 as <-. eauto.
    + intros (w & H3 & H4). exists old_row, w. auto.
Qed.

Lemma update_unique c column index' v :
  dict_get String.eqb c (columns self') = Some column →
  Column.is_unique column = true →
  get_index self' c = Some index' →
  (length (HashIndex.search index' v) ≤ 1)%nat.
Proof.
  intros Hc Hu H. apply update_get_index in H as (index & Hi & ->).
  simpl in Hc.
  pose proof (cons_unique _ Hcons _ _ _ v Hc Hu Hi) as Hlen.
  destruct (dict_get String.eqb c updates) as [vn|] eqn:G; [|done].
  destruct (is_none v) eqn:Hv; [rewrite search_none by done; simpl; lia|].
  pose proof (cons_index _ Hcons _ _ Hi) as Hexact.
  destruct (update_removed c index v Hexact Hv)
    as (Hnd & Hfresh & Hin & Hle & Hsub).
  rewrite search_insert, search_delete by (done || apply Hexact).
  set (x := if negb (is_none (value_at old_row c))
               && py_eq v (value_at old_row c)
            then remove1 row_id (HashIndex.search index v)
            else HashIndex.search index v) in *.
  destruct (negb (is_none vn) && py_eq v vn) eqn:E; [|lia].
  apply andb_true_iff in E as [Hk E].
  destruct (Hacc c vn (sdict_get_In _ _ _ G)) as (col' & Hc' & _ & _ & Hfirst).
  rewrite Hc in Hc'. injection Hc' as <-.
  rewrite Hu, Hk in Hfirst. specialize (Hfirst eq_refl).
  unfold _find_by_index in Hfirst. unfold get_index in Hi.
  rewrite Hi in Hfirst. rewrite <- (search_congr _ _ _ E) in Hfirst.
  assert (x = []) as ->; [|simpl; lia].
  destruct x as [|i x']; [done|]. exfalso.
  assert (In i (HashIndex.search index v)) as Hi' by (apply Hsub; by left).
  destruct (HashIndex.search index v) as [|j [|j' l']]; simpl in *;
    [done| |lia].
  destruct Hi' as [<-|[]]. subst j. apply Hfresh. by left.
Qed.

Lemma consistent_update_commit : consistent self'.
Proof.
  pose proof (row_at_Some _ _ _ Hrow) as (H0 & H1 & H2).
  split.
  - intros i row H. simpl in H.
    destruct (decide (i = Z.to_nat row_id)) as [->|Hne].
    + rewrite list_lookup_insert_eq in H by lia. injection H as <-.
      rewrite Z2Nat.id by done. apply update_new_row_id.
    + rewrite list_lookup_insert_ne in H by done.
      by apply (cons_ids _ Hcons).
  - simpl. rewrite length_insert. apply (cons_next _ Hcons).
  - apply (cons_deleted _ Hcons).
  - intros row k Hin Hk. simpl in Hin.
    apply In_list_insert in Hin as [->|Hin].
    + fold new_row in Hk. rewrite update_new_row_lookup in Hk.
      destruct (dict_get String.eqb k updates) as [v|] eqn:G.
      * right. by eapply update_keys_columns.
      * apply (cons_keys _ Hcons old_row); [|done].
        by eapply row_at_In.
    + by apply (cons_keys _ Hcons row).
  - apply update_index_exact.
  - apply update_unique.
  - intros c column Hc Hu. unfold has_index. simpl.
    rewrite (update_fold_mem (fun c v index =>
       HashIndex.insert (HashIndex.delete index (value_at old_row c) row_id)
                        v row_id)).
    by apply (cons_mandatory _ Hcons c column).
  - apply (cons_pk _ Hcons).
  - apply (cons_names _ Hcons).
Qed.

End ConsistentUpdate.

(** ** [create_index] and [drop_index] keep a table consistent *)

Section ConsistentIndex.
Import Table.

Variable self : t.
Hypothesis Hwf : wf self.
Hypothesis Hcons : consistent self.

Lemma holds_at_position c v n row k :
  _rows self !! n = Some row → row !! c = Some k →
  holds_value self c v (Z.of_nat n)
  ↔ (Z.of_nat n ∉ _deleted_row_ids self) ∧ py_eq k v = true.
Proof.
  intros Hn Hk. unfold holds_value, row_at.
  destruct (Z.leb_spec 0 (Z.of_nat n)); [|lia]. rewrite Nat2Z.id, Hn.
  split.
  - intros (r & w & [= <-] & H2 & H3 & H4). rewrite Hk in H3.
    by injection H3 as <-.
  - intros [H2 H4]. exists row, k. auto.
Qed.

Lemma populate_exact c rs n index :
  has_column self c = true →
  (∀ j row, rs !! j = Some row → _rows self !! (n + j)%nat = Some row) →
  exact_below self c n index →
  ∃ index', populate self c rs index = Return index'
            ∧ exact_below self c (n + length rs) index'.
Proof.
  intros Hcol. revert n index.
  induction rs as [|r rs IH]; intros n index Hrs Hex.
  - exists index. simpl. by rewrite Nat.add_0_r.
  - assert (_rows self !! n = Some r) as Hn.
    { rewrite <- (Nat.add_0_r n). by apply Hrs. }
    pose proof (cons_ids _ Hcons _ _ Hn) as Hid.
    destruct Hwf as (_ & _ & _ & Hrows).
    destruct (Hrows r) with (c := c) as [k Hk]; [|done|].
    { apply list_elem_of_In. by eapply list_elem_of_lookup_2. }
    assert (∀ index1, exact_below self c (S n) index1 →
              ∃ index', populate self c rs index1 = Return index'
                        ∧ exact_below self c (n + length (r :: rs)) index') as Hnext.
    { intros index1 H1. destruct (IH (S n) index1) as (index' & Hp & He).
      - intros j row Hj. replace (S n + j)%nat with (n + S j)%nat by lia.
        by apply Hrs.
      - done.
      - exists index'. split; [done|]. simpl length.
        by replace (n + S (length rs))%nat with (S n + length rs)%nat by lia. }
    simpl. rewrite Hid. unfold row_deleted. rewrite Hid. simpl.
    unfold getitem. rewrite Hk. simpl.
    destruct Hex as [Hok Hex].
    destruct (bool_decide (Z.of_nat n ∈ _deleted_row_ids self)) eqn:B;
      [apply bool_decide_eq_true in B as Hdel
      |apply bool_decide_eq_false in B as Hlive]; simpl.
    + apply Hnext.
      split; [done|]. intros v Hv. destruct (Hex v Hv) as [Hnd Hin].
      split; [done|]. intros i. rewrite Hin. split.
      * intros [? ?]. split; [done|lia].
      * intros [Hh Hlt]. split; [done|].
        destruct (decide (i = Z.of_nat n)) as [->|Hne]; [|lia].
        apply (holds_at_position c v n r k Hn Hk) in Hh. tauto.
    + apply Hnext.
      split; [by apply index_ok_insert|]. intros v Hv.
      destruct (Hex v Hv) as [Hnd Hin]. rewrite search_insert by done.
      assert (¬ In (Z.of_nat n) (HashIndex.search index v)) as Hfresh.
      { intros Hi. apply Hin in Hi. lia. }
      destruct (negb (is_none k) && py_eq v k) eqn:E.
      * apply andb_true_iff in E as [Hnk E]. split.
        -- apply NoDup_app. split; [done|]. split; [|apply NoDup_singleton].
           intros i Hix [<-|[]]%list_elem_of_In.
           by apply list_elem_of_In in Hix.
        -- intros i. rewrite in_app_iff, Hin. simpl. split.
           ++ intros [[? ?]|[<-|[]]]; [split; [done|lia]|].
              split; [|lia]. apply (holds_at_position c v n r k Hn Hk).
              by rewrite py_eq_sym.
           ++ intros [Hh Hlt].
              destruct (decide (i = Z.of_nat n)) as [->|Hne]; [auto|].
              left. split; [done|lia].
      * split; [done|]. intros i. rewrite Hin. split.
        -- intros [? ?]. split; [done|lia].
        -- intros [Hh Hlt]. split; [done|].
           destruct (decide (i = Z.of_nat n)) as [->|Hne]; [|lia].
           apply (holds_at_position c v n r k Hn Hk) in Hh as [_ Hpy].
           rewrite py_eq_sym in Hpy. rewrite Hpy, andb_true_r in E.
           apply negb_false_iff in E.
           rewrite (is_none_py_eq _ _ Hpy) in Hv. congruence.
Qed.

Lemma populate_index_exact c :
  has_column self c = true →
  ∃ index, populate self c (_rows self) (HashIndex.init c) = Return index
           ∧ index_exact self c index.
Proof.
  intros Hcol.
  destruct (populate_exact c (_rows self) 0 (HashIndex.init c) Hcol)
    as (index & Hp & [Hok Hex]).
  - done.
  - split; [apply index_ok_init|]. intros v Hv.
    unfold HashIndex.search. rewrite Hv. simpl. split; [constructor|].
    intros i. split; [done|]. intros [(row & w & H1 & _) Hlt].
    apply row_at_Some in H1. simpl in Hlt. lia.
  - exists index. split; [done|]. split; [done|]. intros v Hv.
    destruct (Hex v Hv) as [Hnd Hin]. split; [done|]. intros i.
    rewrite Hin. split; [tauto|]. intros Hh. split; [done|].
    destruct Hh as (row & w & H1 & _). apply row_at_Some in H1. simpl. lia.
Qed.

Lemma holds_value_indexes f c v row_id :
  holds_value (set_indexes f self) c v row_id ↔ holds_value self c v row_id.
Proof. done. Qed.

Lemma consistent_create_index c index :
  has_column self c = true → has_index self c = false →
  index_exact self c index →
  consistent (set_indexes (dict_set String.eqb c index) self).
Proof.
  intros Hcol Hidx Hexact.
  assert (∀ c' index', get_index (set_indexes (dict_set String.eqb c index) self) c'
                       = Some index' →
            (c' = c ∧ index' = index)
            ∨ (c' ≠ c ∧ get_index self c' = Some index')) as Hget.
  { intros c' index'. unfold get_index. simpl. rewrite sdict_get_set.
    destruct (String.eqb_spec c' c) as [->|Hne].
    - intros [= <-]. by left.
    - by right. }
  split; try apply Hcons.
  - intros c' index' H. apply Hget in H as [[-> ->]|[_ H]].
    + done.
    + by apply (cons_index _ Hcons).
  - intros c' column index' v Hc Hu H. simpl in Hc.
    apply Hget in H as [[-> ->]|[_ H]].
    + rewrite (cons_mandatory _ Hcons _ _ Hc Hu) in Hidx. done.
    + by apply (cons_unique _ Hcons c' column).
  - intros c' column Hc Hu. unfold has_index. simpl.
    rewrite dict_mem_set by eauto using String.eqb_sym, string_eqb_trans.
    pose proof (cons_mandatory _ Hcons c' column Hc Hu) as H.
    unfold has_index in H. by rewrite H, orb_true_r.
Qed.

Lemma consistent_drop_index c :
  (∀ column, dict_get String.eqb c (columns self) = Some column →
     Column.is_unique column = false) →
  consistent (set_indexes (dict_del String.eqb c) self).
Proof.
  intros Hdrop.
  assert (∀ c' index', get_index (set_indexes (dict_del String.eqb c) self) c'
                       = Some index' →
            c' ≠ c ∧ get_index self c' = Some index') as Hget.
  { intros c' index'. unfold get_index. simpl.
    rewrite sdict_get_del by apply Hwf.
    by destruct (String.eqb_spec c' c) as [->|Hne]. }
  split; try apply Hcons.
  - intros c' index' H. apply Hget in H as [_ H].
    by apply (cons_index _ Hcons).
  - intros c' column index' v Hc Hu H. simpl in Hc.
    apply Hget in H as [_ H]. by apply (cons_unique _ Hcons c' column).
  - intros c' column Hc Hu. unfold has_index. simpl.
    rewrite dict_mem_del by apply Hwf.
    pose proof (cons_mandatory _ Hcons c' column Hc Hu) as H.
    unfold has_index in H. rewrite H, andb_true_r.
    apply negb_true_iff, String.eqb_neq. intros ->.
    simpl in Hc. rewrite (Hdrop _ Hc) in Hu. done.
Qed.

End ConsistentIndex.

(** ** Every reachable table is well formed and consistent *)

Lemma is_unique_false column :
  Column.is_primary_key column || Column.is_unique column = false →
  Column.is_unique column = false.
Proof. by intros [_ ?]%orb_false_iff. Qed.

Lemma apply_op_consistent op self :
  wf self → consistent self → no_internal_column self → op_ok op →
  consistent (apply_op op self).
Proof.
  intros Hwf Hcons Hno Hop.
  destruct op as [rd|rid ups|rid|c|c]; simpl.
  - apply (insert_row_cases rd self); [done| |done].
    intros Hacc. simpl. by apply consistent_insert_commit.
  - apply (update_row_cases rid ups self); [done|].
    rewrite find_row_consistent by done.
    destruct (row_at self rid) as [old|] eqn:Hrow; [|done].
    destruct (Table.not_deleted self rid) eqn:Hnd; [|done].
    split; [|done]. intros Hacc. simpl.
    apply consistent_update_commit; try done.
    by apply not_deleted_true.
  - rewrite delete_row_run by done.
    rewrite find_row_consistent by done.
    destruct (row_at self rid) as [row|] eqn:Hrow; [|done].
    destruct (Table.not_deleted self rid) eqn:Hnd; [|done].
    simpl. apply consistent_delete_commit; try done.
  - rewrite create_index_run.
    destruct (Table.has_column self c) eqn:Hc; simpl; [|done].
    destruct (Table.has_index self c) eqn:Hi; simpl; [done|].
    destruct (populate_index_exact self Hwf Hcons c Hc) as (index & -> & Hex).
    simpl. by apply consistent_create_index.
  - rewrite drop_index_run.
    destruct (dict_get String.eqb c (Table.columns self)) as [col|] eqn:G.
    + destruct (Column.is_primary_key col || Column.is_unique col) eqn:E;
        [done|].
      simpl. apply consistent_drop_index; [done|done|].
      intros col' H. rewrite G in H. injection H as <-.
      by apply is_unique_false.
    + simpl. apply consistent_drop_index; [done|done|].
      intros col' H. by rewrite G in H.
Qed.

Lemma no_internal_column_schema a b :
  same_schema a b → no_internal_column b → no_internal_column a.
Proof.
  intros (_ & Hc & _). unfold no_internal_column, Table.has_column.
  by rewrite Hc.
Qed.

Lemma run_consistent ops self :
  wf self → consistent self → no_internal_column self → Forall op_ok ops →
  consistent (run ops self).
Proof.
  revert self. induction ops as [|op ops IH]; intros self Hwf Hc Hno Hok;
    simpl; [done|].
  apply Forall_cons in Hok as [Hop Hok].
  destruct (apply_op_wf op self Hwf) as [Hwf' Hs].
  apply IH; auto.
  - by apply apply_op_consistent.
  - by eapply no_internal_column_schema.
Qed.

Lemma empty_table_consistent name cols table :
  Forall valid_column cols → Table.init name cols = Return table →
  consistent table.
Proof.
  intros Hvalid Hinit.
  destruct (init_spec name cols table Hvalid Hinit)
    as ((Hr & Hn & Hd & Hc & Hi & Hic & Hempty) & Hget & Hmand & Hpk).
  split; auto.
  - rewrite Hr. intros i row. by rewrite lookup_nil.
  - by rewrite Hr, Hn.
  - rewrite Hd. intros i Hin. by apply not_elem_of_empty in Hin.
  - rewrite Hr. intros row k [].
  - intros c index H. rewrite (Hempty c index H).
    by apply empty_index_exact.
  - intros c column index v _ _ H. rewrite (Hempty c index H).
    unfold HashIndex.search, HashIndex.init. simpl.
    destruct (is_none v); simpl; lia.
  - intros c column H. destruct (Hget c column H) as [Hin <-].
    apply valid_column_name.
    exact (proj1 (List.Forall_forall _ _) Hvalid _ Hin).
Qed.

Lemma reachable_wf table : reachable table → wf table.
Proof.
  intros (name & cols & ops & t0 & Hvalid & Hinit & Hok & ->).
  apply run_wf, empty_table_wf.
  by destruct (init_spec name cols t0 Hvalid Hinit) as [? _].
Qed.

Lemma reachable_consistent table :
  reachable table → no_internal_column table → consistent table.
Proof.
  intros (name & cols & ops & t0 & Hvalid & Hinit & Hok & ->) Hno.
  assert (wf t0) as Hwf.
  { apply empty_table_wf.
    by destruct (init_spec name cols t0 Hvalid Hinit) as [? _]. }
  apply run_consistent; auto.
  - by eapply empty_table_consistent.
  - destruct (run_wf ops t0 Hwf) as [_ Hs].
    unfold no_internal_column, Table.has_column in *.
    destruct Hs as (_ & Hc & _). by rewrite <- Hc.
Qed.

Lemma reachable_step op table :
  reachable table → op_ok op → reachable (apply_op op table).
Proof.
  intros (name & cols & ops & t0 & Hvalid & Hinit & Hok & ->) Hop.
  exists name, cols, (ops ++ [op])%list, t0. repeat split; auto.
  - apply Forall_app. split; [done|]. by constructor.
  - unfold run. by rewrite fold_left_app.
Qed.

(** ** Failed inserts and updates *)

Lemma example_users_reachable : reachable Example.users.
Proof.
  exists "users", Example.users_columns, Example.users_ops, Example.empty_users.
  split; [repeat constructor|].
  split; [reflexivity|].
  split; [|reflexivity].
  repeat constructor; vm_compute; repeat constructor; intros H; inversion H;
    subst; try discriminate;
    repeat match goal with
           | H : _ ∈ _ |- _ => inversion H; subst; clear H; try discriminate
           end.
Defined.

Lemma example_users_no_internal_column : no_internal_column Example.users.
Proof. reflexivity. Defined.

(** C3. When [insert_row] raises, whatever the error, the table is the
    one it was called on: rows, identifier counter, deleted set and
    every index. *)
Theorem insert_row_failure_is_atomic table row_data table' e :
  reachable table →
  Table.insert_row row_data table = (table', Raise e) →
  table' = table.
Proof.
  intros Hreach Hrun.
  by destruct (insert_row_raise row_data table table' e
                 (reachable_wf _ Hreach) Hrun).
Qed.

Lemma insert_row_failure_is_atomic_witness :
  fst (Table.insert_row Example.alice_again Example.users) = Example.users.
Proof.
  apply (insert_row_failure_is_atomic Example.users Example.alice_again _
           (DuplicateKeyError "id" (VInt 1))).
  - exact example_users_reachable.
  - vm_compute. reflexivity.
Defined.

(** C10. When [update_row] raises, whatever the error, the table is the
    one it was called on: every validation comes before the first
    mutation. *)
Theorem update_row_failure_is_atomic table row_id updates table' e :
  reachable table →
  Table.update_row row_id updates table = (table', Raise e) →
  table' = table.
Proof.
  intros Hreach. apply (update_row_cases row_id updates table).
  - by apply reachable_wf.
  - destruct (Table.find_row table row_id (Table._rows table) 0)
      as [[i old]|]; [|done].
    split; [done|]. by intros e' _ [= <- _].
Qed.

Lemma update_row_failure_is_atomic_witness :
  fst (Table.update_row 1 [("age", VInt 26); ("email", VStr "a")] Example.users)
  = Example.users.
Proof.
  apply (update_row_failure_is_atomic Example.users 1
           [("age", VInt 26); ("email", VStr "a")] _
           (DuplicateKeyError "email" (VStr "a"))).
  - exact example_users_reachable.
  - vm_compute. reflexivity.
Defined.

(** ** What an index search returns *)

Lemma get_row_consistent table row_id :
  consistent table →
  Table.get_row table row_id
  = match row_at table row_id with
    | Some row =>
        if Table.not_deleted table row_id
        then Some (Table._strip_internal_id row) else None
    | None => None
    end.
Proof.
  intros Hc. unfold Table.get_row. rewrite find_row_consistent by done.
  destruct (row_at table row_id); [|done].
  by destruct (Table.not_deleted table row_id).
Qed.

Lemma strip_lookup row k :
  k ≠ "_row_id" → Table._strip_internal_id row !! k = row !! k.
Proof. intros H. unfold Table._strip_internal_id. by rewrite lookup_delete_ne. Qed.

Lemma strip_lookup_id row : Table._strip_internal_id row !! "_row_id" = None.
Proof. apply lookup_delete_eq. Qed.

(** [holds_value] through the code's own [get_row]. *)
Lemma holds_value_get_row table c v row_id :
  consistent table → c ≠ "_row_id" →
  holds_value table c v row_id
  ↔ ∃ row w, Table.get_row table row_id = Some row
             ∧ row !! c = Some w ∧ py_eq w v = true.
Proof.
  intros Hc Hne. rewrite get_row_consistent by done. unfold holds_value.
  split.
  - intros (row & w & H1 & H2 & H3 & H4).
    exists (Table._strip_internal_id row), w. rewrite H1.
    apply not_deleted_true in H2. rewrite H2.
    by rewrite strip_lookup.
  - intros (row & w & H1 & H3 & H4).
    destruct (row_at table row_id) as [raw|]; [|done].
    destruct (Table.not_deleted table row_id) eqn:Hnd; [|done].
    injection H1 as <-. rewrite strip_lookup in H3 by done.
    exists raw, w. repeat split; auto. by apply not_deleted_true.
Qed.

Lemma apply_op_deleted op table row_id :
  wf table →
  row_id ∈ Table._deleted_row_ids table →
  row_id ∈ Table._deleted_row_ids (apply_op op table).
Proof.
  intros Hwf Hin. destruct op as [rd|rid ups|rid|c|c]; simpl.
  - by apply (insert_row_cases rd table).
  - apply (update_row_cases rid ups table); [done|].
    by destruct (Table.find_row table rid (Table._rows table) 0) as [[i old]|].
  - rewrite delete_row_run by done.
    destruct (Table.find_row table rid (Table._rows table) 0) as [[i row]|];
      [|done].
    simpl. apply elem_of_union. by right.
  - rewrite create_index_run.
    destruct (negb (Table.has_column table c)); [done|].
    destruct (Table.has_index table c); [done|].
    by destruct (Table.populate _ _ _ _).
  - rewrite drop_index_run.
    destruct (dict_get String.eqb c (Table.columns table)) as [col|]; [|done].
    by destruct (Column.is_primary_key col || Column.is_unique col).
Qed.

Lemma run_deleted ops table row_id :
  wf table →
  row_id ∈ Table._deleted_row_ids table →
  row_id ∈ Table._deleted_row_ids (run ops table).
Proof.
  revert table. induction ops as [|op ops IH]; intros table Hwf Hin; [done|].
  simpl. apply IH.
  - by apply apply_op_wf.
  - by apply apply_op_deleted.
Qed.

Lemma run_reachable ops table :
  reachable table → Forall op_ok ops → reachable (run ops table).
Proof.
  revert table. induction ops as [|op ops IH]; intros table Hr Hok; [done|].
  apply Forall_cons in Hok as [Hop Hok]. simpl. apply IH; [|done].
  by apply reachable_step.
Qed.

Lemma run_no_internal_column ops table :
  wf table → no_internal_column table → no_internal_column (run ops table).
Proof.
  intros Hwf Hno. destruct (run_wf ops table Hwf) as [_ Hs].
  by eapply no_internal_column_schema.
Qed.

Lemma search_not_deleted table c index v row_id :
  consistent table → Table.get_index table c = Some index →
  row_id ∈ Table._deleted_row_ids table →
  ¬ In row_id (HashIndex.search index v).
Proof.
  intros Hc Hi Hdel Hin. destruct (is_none v) eqn:Hv.
  - by rewrite search_none in Hin.
  - destruct (cons_index _ Hc _ _ Hi) as [_ Hex].
    apply (Hex v Hv) in Hin as (row & w & _ & Hlive & _). done.
Qed.

(** The index invariant, on a reachable table with no column named
    [_row_id]: in a table reached by any sequence of operations, for
    every indexed column and every non-null value the search returns,
    without repetition, exactly the identifiers of the live rows whose
    value in that column equals the searched one; a null is never a
    key and a search for null finds nothing; and once [delete_row] has
    returned true for an identifier, no index of any later state finds
    it. *)
Theorem index_search_exact table :
  reachable table → no_internal_column table →
  (∀ c index, Table.get_index table c = Some index →
     HashIndex.search index VNull = []
     ∧ Forall (fun k => is_none k = false) (HashIndex.get_all_keys index)
     ∧ ∀ v, v ≠ VNull →
         NoDup (HashIndex.search index v)
         ∧ ∀ row_id, In row_id (HashIndex.search index v)
             ↔ ∃ row w, Table.get_row table row_id = Some row
                        ∧ row !! c = Some w ∧ py_eq w v = true)
  ∧ (∀ row_id table1 ops c index v,
       Table.delete_row row_id table = (table1, Return true) →
       Forall op_ok ops →
       Table.get_index (run ops table1) c = Some index →
       ¬ In row_id (HashIndex.search index v)).
Proof.
  intros Hreach Hno.
  pose proof (reachable_wf _ Hreach) as Hwf.
  pose proof (reachable_consistent _ Hreach Hno) as Hcons.
  split.
  - intros c index Hi. split; [done|].
    destruct (cons_index _ Hcons _ _ Hi) as [[_ Hkeys] Hex].
    split; [done|]. intros v Hv.
    assert (is_none v = false) as Hv' by (by destruct v).
    destruct (Hex v Hv') as [Hnd Hin]. split; [done|].
    intros row_id. rewrite Hin. apply holds_value_get_row; [done|].
    apply (indexed_not_internal table); auto.
    by eapply get_index_has_index.
  - intros row_id table1 ops c index v Hdel Hok Hi.
    assert (table1 = apply_op (DeleteRow row_id) table) as Ht1
      by (simpl; by rewrite Hdel).
    assert (reachable table1) as Hr1
      by (rewrite Ht1; by apply reachable_step).
    assert (row_id ∈ Table._deleted_row_ids table1) as Hin.
    { rewrite delete_row_run in Hdel by done.
      destruct (Table.find_row table row_id (Table._rows table) 0)
        as [[i row]|]; [|done].
      injection Hdel as <-. simpl. apply elem_of_union. left.
      by apply elem_of_singleton. }
    pose proof (reachable_wf _ Hr1) as Hwf1.
    eapply (search_not_deleted (run ops table1)); [|done|].
    + apply reachable_consistent; [by apply run_reachable|].
      apply run_no_internal_column; [done|].
      rewrite Ht1. eapply no_internal_column_schema; [|done].
      by apply apply_op_wf.
    + by apply run_deleted.
Qed.

Lemma index_search_exact_witness :
  In 1 (HashIndex.search
          (default (HashIndex.init "email")
             (Table.get_index Example.users "email")) (VStr "b"))
  ↔ ∃ row w, Table.get_row Example.users 1 = Some row
             ∧ row !! "email" = Some w ∧ py_eq w (VStr "b") = true.
Proof.
  refine (proj2 (proj2 (proj2 (proj1
            (index_search_exact Example.users _ _) "email" _ _)) (VStr "b") _)
            1).
  - exact example_users_reachable.
  - exact example_users_no_internal_column.
  - vm_compute. reflexivity.
  - discriminate.
Defined.

(** ** Live rows and their views *)

Section Views.
Import Table.

Lemma live_ids_In table row_id :
  In row_id (live_ids table)
  ↔ 0 ≤ row_id < Z.of_nat (length (_rows table))
    ∧ not_deleted table row_id = true.
Proof.
  unfold live_ids. rewrite filter_In, in_map_iff. split.
  - intros [(n & <- & Hn) Hd]. apply in_seq in Hn. split; [lia|done].
  - intros [Hr Hd]. split; [|done]. exists (Z.to_nat row_id).
    split; [lia|]. apply in_seq. lia.
Qed.

Lemma live_ids_NoDup table : NoDup (live_ids table).
Proof.
  unfold live_ids. apply NoDup_ListNoDup, List.NoDup_filter.
  apply NoDup_ListNoDup, NoDup_fmap_2; [apply Nat2Z.inj'|].
  apply NoDup_ListNoDup, List.seq_NoDup.
Qed.

Lemma row_at_is_Some table row_id :
  is_Some (row_at table row_id)
  ↔ 0 ≤ row_id < Z.of_nat (length (_rows table)).
Proof.
  unfold row_at. destruct (Z.leb_spec 0 row_id) as [Hle|Hlt].
  - rewrite lookup_lt_is_Some. lia.
  - split; [by intros [? ?]|lia].
Qed.

Lemma live_ids_In_row table row_id :
  In row_id (live_ids table)
  ↔ ∃ row, row_at table row_id = Some row
           ∧ (row_id ∉ _deleted_row_ids table).
Proof.
  rewrite live_ids_In, <- row_at_is_Some, not_deleted_true.
  split.
  - intros [[row Hrow] Hd]. eauto.
  - intros (row & Hrow & Hd). split; [eauto|done].
Qed.

Lemma get_row_live table row_id row :
  consistent table →
  row_at table row_id = Some row → (row_id ∉ _deleted_row_ids table) →
  get_row table row_id = Some (_strip_internal_id row)
  ∧ row_view table row_id = _strip_internal_id row.
Proof.
  intros Hc Hrow Hd. unfold row_view.
  rewrite get_row_consistent, Hrow by done.
  apply not_deleted_true in Hd. by rewrite Hd.
Qed.

Lemma get_row_Some table row_id view :
  consistent table →
  get_row table row_id = Some view →
  ∃ row, row_at table row_id = Some row
         ∧ (row_id ∉ _deleted_row_ids table)
         ∧ view = _strip_internal_id row
         ∧ In row_id (live_ids table).
Proof.
  intros Hc. rewrite get_row_consistent by done.
  destruct (row_at table row_id) as [row|] eqn:Hrow; [|done].
  destruct (not_deleted table row_id) eqn:Hd; [|done].
  intros [= <-]. apply not_deleted_true in Hd. exists row.
  repeat split; auto. apply live_ids_In_row. eauto.
Qed.

Lemma row_deleted_at table n row :
  consistent table → _rows table !! n = Some row →
  row_deleted table row = negb (not_deleted table (Z.of_nat n)).
Proof.
  intros Hc Hn. unfold row_deleted, not_deleted.
  rewrite (cons_ids _ Hc _ _ Hn). simpl. by rewrite negb_involutive.
Qed.

Lemma scan_prefix table k :
  consistent table → (k ≤ length (_rows table))%nat →
  map _strip_internal_id
    (List.filter (fun row => negb (row_deleted table row))
                 (take k (_rows table)))
  = map (row_view table)
      (List.filter (not_deleted table) (map Z.of_nat (seq 0 k))).
Proof.
  intros Hc. induction k as [|k IH]; intros Hk; [done|].
  destruct (lookup_lt_is_Some_2 (_rows table) k) as [row Hrow]; [lia|].
  rewrite (take_S_r _ _ _ Hrow), seq_S, map_app.
  rewrite !List.filter_app, !map_app, IH by lia. f_equal. simpl.
  rewrite (row_deleted_at table k row Hc Hrow), negb_involutive.
  destruct (not_deleted table (Z.of_nat k)) eqn:Hd; [|done]. simpl.
  f_equal. symmetry. apply get_row_live; [done| |by apply not_deleted_true].
  unfold row_at. destruct (Z.leb_spec 0 (Z.of_nat k)); [|lia].
  by rewrite Nat2Z.id.
Qed.

Lemma scan_live_ids table :
  consistent table → scan table = map (row_view table) (live_ids table).
Proof.
  intros Hc. unfold scan, live_ids.
  rewrite <- scan_prefix by done. by rewrite firstn_all.
Qed.

Lemma scan_In table view :
  consistent table →
  In view (scan table)
  ↔ ∃ row_id, get_row table row_id = Some view.
Proof.
  intros Hc. rewrite scan_live_ids, in_map_iff by done. split.
  - intros (row_id & <- & Hin). exists row_id.
    apply live_ids_In_row in Hin as (row & Hrow & Hd).
    destruct (get_row_live table row_id row Hc Hrow Hd) as [-> ->]. done.
  - intros (row_id & Hget).
    destruct (get_row_Some _ _ _ Hc Hget) as (row & Hrow & Hd & -> & Hin).
    exists row_id. split; [|done]. by apply get_row_live.
Qed.

(** The keys of the view of a live row are the columns. *)
Lemma row_view_keys table row_id k :
  wf table → consistent table → no_internal_column table →
  In row_id (live_ids table) →
  is_Some (row_view table row_id !! k) ↔ has_column table k = true.
Proof.
  intros Hwf Hc Hno Hin.
  apply live_ids_In_row in Hin as (row & Hrow & Hd).
  destruct (get_row_live table row_id row Hc Hrow Hd) as [_ ->].
  pose proof (row_at_In _ _ _ Hrow) as Hr.
  destruct (String.eqb_spec k "_row_id") as [->|Hne].
  - rewrite strip_lookup_id. unfold no_internal_column in Hno. rewrite Hno.
    split; [by intros [? ?]|done].
  - rewrite strip_lookup by done. split.
    + intros Hk. by destruct (cons_keys _ Hc row k Hr Hk).
    + by apply Hwf.
Qed.

Lemma collides_false table c v :
  consistent table → c ≠ "_row_id" →
  collides table c v = false → is_none v = false →
  ∀ row_id, ¬ holds_value table c v row_id.
Proof.
  intros Hc Hne Hcol Hv row_id Hh.
  apply (holds_value_get_row table c v row_id Hc Hne) in Hh
    as (view & w & Hget & Hw & Hpy).
  unfold collides in Hcol.
  assert (existsb (fun row => py_eq (value_at row c) v) (scan table) = true)
    as Hex; [|congruence].
  apply existsb_exists. exists view. split.
  - apply scan_In; eauto.
  - unfold value_at. by rewrite Hw.
Qed.

End Views.

(** ** The primary key *)

Section PrimaryKey.
Import Table.

Variables (table : t) (c : string) (column : Column.t).
Hypothesis Hwf : wf table.
Hypothesis Hcons : consistent table.
Hypothesis Hno : no_internal_column table.
Hypothesis Hcol : dict_get String.eqb c (columns table) = Some column.
Hypothesis Hpk : Column.is_primary_key column = true.

Lemma pk_is_unique : Column.is_unique column = true.
Proof. unfold Column.is_unique. by rewrite Hpk, orb_true_r. Qed.

Lemma pk_has_column : has_column table c = true.
Proof. unfold has_column, dict_mem. by rewrite Hcol. Qed.

Lemma pk_not_internal : c ≠ "_row_id".
Proof.
  intros Heq. pose proof pk_has_column as H. rewrite Heq in H.
  unfold no_internal_column in Hno. congruence.
Qed.

Lemma pk_index : ∃ index, get_index table c = Some index.
Proof.
  pose proof (cons_mandatory _ Hcons _ _ Hcol pk_is_unique) as H.
  unfold has_index, dict_mem, get_index in *.
  destruct (dict_get String.eqb c (_indexes table)); [eauto|done].
Qed.

Lemma pk_truthy : truthy_str (primary_key table) = true
                  ∧ default "" (primary_key table) = c.
Proof.
  rewrite (cons_pk _ Hcons _ _ Hcol Hpk). simpl. split; [|done].
  apply negb_true_iff, String.eqb_neq, validate_identifier_nonempty.
  by apply (cons_names _ Hcons _ _ Hcol).
Qed.

(** Inserting a row whose primary key is held by a live row. *)
Lemma insert_duplicate_pk row_data row_id row v :
  get_row table row_id = Some row → row !! c = Some v → is_none v = false →
  (∀ k x, In (k, x) row_data → has_column table k = true) →
  (∀ k col, In (k, col) (columns table) →
     Column.validate col (default VNull (dict_get String.eqb k row_data)) k
     = Return tt) →
  py_eq (default VNull (dict_get String.eqb c row_data)) v = true →
  insert_row row_data table
  = (table, Raise (DuplicateKeyError c
                     (default VNull (dict_get String.eqb c row_data)))).
Proof.
  intros Hget Hv Hnn Hknown Hvalid Heq.
  set (k := default VNull (dict_get String.eqb c row_data)) in *.
  unfold insert_row.
  rewrite (bind_run _ _ _ _ _ (proj2 (validate_columns_iff row_data table) Hknown)).
  destruct (build_complete_row_run row_data table) as [Hb1 Hb2].
  assert (build_complete_row row_data table
          = (table, Return (complete_row_of (columns table) row_data ∅)))
    as Hbuild.
  { destruct (build_complete_row row_data table) as [s r]. simpl in *.
    subst s. f_equal. by apply Hb2. }
  rewrite (bind_run _ _ _ _ _ Hbuild).
  unfold bind at 1. unfold check_primary_key.
  rewrite bind_gets. destruct pk_truthy as [-> ->].
  rewrite bind_lift. unfold getitem.
  rewrite complete_row_of_lookup.
  pose proof pk_has_column as Hc. unfold has_column in Hc. rewrite Hc.
  fold k. rewrite check_unique_run.
  destruct pk_index as [index Hi].
  unfold _find_by_index. unfold get_index in Hi. rewrite Hi.
  assert (is_none k = false) as Hk by (by rewrite (is_none_py_eq _ _ Heq)).
  rewrite Hk. simpl.
  assert (In row_id (HashIndex.search index k)) as Hin.
  { destruct (cons_index _ Hcons c index) as [_ Hex]; [done|].
    apply (Hex k Hk).
    apply (holds_value_get_row table c k row_id Hcons pk_not_internal).
    exists row, v. repeat split; auto. by rewrite py_eq_sym. }
  destruct (HashIndex.search index k); [done|done].
Qed.

(** Once the holder of a primary key is deleted, no live row holds it. *)
Lemma pk_free_after_delete row_id raw v k :
  row_at table row_id = Some raw → (row_id ∉ _deleted_row_ids table) →
  raw !! c = Some v → is_none v = false → py_eq k v = true →
  unique_free (delete_commit table row_id raw) c k.
Proof.
  intros Hrow Hlive Hv Hnn Heq. right.
  assert (is_none k = false) as Hk by (by rewrite (is_none_py_eq _ _ Heq)).
  pose proof (consistent_delete_commit table row_id raw Hwf Hcons Hrow)
    as Hcons1.
  unfold _find_by_index.
  destruct (dict_get String.eqb c (_indexes (delete_commit table row_id raw)))
    as [index1|] eqn:Hi1; [|done].
  destruct (cons_index _ Hcons1 c index1 Hi1) as [_ Hex1].
  destruct (HashIndex.search index1 k) as [|i l] eqn:Hs; [done|]. exfalso.
  assert (In i (HashIndex.search index1 k)) as Hin by (rewrite Hs; by left).
  apply (Hex1 k Hk) in Hin.
  apply (delete_holds table row_id raw) in Hin as [Hne Hh].
  destruct pk_index as [index Hi].
  destruct (cons_index _ Hcons c index Hi) as [_ Hex].
  pose proof (cons_unique _ Hcons c column index k Hcol pk_is_unique Hi) as Hlen.
  assert (In i (HashIndex.search index k)) as H1 by (by apply (Hex k Hk)).
  assert (In row_id (HashIndex.search index k)) as H2.
  { apply (Hex k Hk). exists raw, v. repeat split; auto.
    by rewrite py_eq_sym. }
  destruct (HashIndex.search index k) as [|a [|b l']]; simpl in *;
    [done| |lia].
  destruct H1 as [<-|[]], H2 as [<-|[]]. done.
Qed.

End PrimaryKey.

(** Primary key values, on a reachable table with no column named
    [_row_id].  In a table with a PRIMARY KEY column [c]: a row whose
    non-null [c] value equals that of a live row, and which passes the
    checks that come before the key check (known columns, type and
    NOT NULL validation), is rejected with a duplicate-key error on
    [c]; once [delete_row] has removed that live row, the same insert
    succeeds, provided no other UNIQUE column of the new row collides
    with a live row. *)
Theorem primary_key_duplicate_then_reuse
    table c column row_id row v row_data :
  reachable table → no_internal_column table →
  dict_get String.eqb c (Table.columns table) = Some column →
  Column.is_primary_key column = true →
  Table.get_row table row_id = Some row →
  row !! c = Some v → v ≠ VNull →
  (∀ k x, In (k, x) row_data → Table.has_column table k = true) →
  (∀ k col, In (k, col) (Table.columns table) →
     Column.validate col (default VNull (dict_get String.eqb k row_data)) k
     = Return tt) →
  py_eq (default VNull (dict_get String.eqb c row_data)) v = true →
  Table.insert_row row_data table
  = (table, Raise (DuplicateKeyError c
                     (default VNull (dict_get String.eqb c row_data))))
  ∧ ∃ table1,
      Table.delete_row row_id table = (table1, Return true)
      ∧ ((∀ k col, In (k, col) (Table.columns table) →
            Column.is_unique col && negb (Column.is_primary_key col) = true →
            is_none (default VNull (dict_get String.eqb k row_data)) = false →
            collides table1 k (default VNull (dict_get String.eqb k row_data))
            = false) →
         ∃ table2 new_id,
           Table.insert_row row_data table1 = (table2, Return new_id)
           ∧ Table.get_row table2 new_id
             = Some (complete_row_of (Table.columns table) row_data ∅)).
Proof.
  intros Hreach Hno Hcol Hpk Hget Hv Hnn Hknown Hvalid Heq.
  pose proof (reachable_wf _ Hreach) as Hwf.
  pose proof (reachable_consistent _ Hreach Hno) as Hcons.
  assert (is_none v = false) as Hv' by (by destruct v).
  split; [by eapply insert_duplicate_pk|].
  destruct (get_row_Some _ _ _ Hcons Hget) as (raw & Hrow & Hlive & -> & _).
  rewrite strip_lookup in Hv
    by (by eapply pk_not_internal).
  exists (delete_commit table row_id raw). split.
  { rewrite delete_row_run, find_row_consistent, Hrow by done.
    apply not_deleted_true in Hlive. by rewrite Hlive. }
  intros Hfree.
  pose proof (wf_delete_commit table row_id raw Hwf) as Hwf1.
  pose proof (consistent_delete_commit table row_id raw Hwf Hcons Hrow)
    as Hcons1.
  set (table1 := delete_commit table row_id raw) in *.
  assert (no_internal_column table1) as Hno1 by done.
  assert (insert_accepts table1 row_data) as Hacc.
  { split; [done|]. split; [done|]. split.
    - intros _. change (Table.primary_key table1) with (Table.primary_key table).
      destruct (pk_truthy table c column Hcons Hcol Hpk) as [_ ->].
      exists (default VNull (dict_get String.eqb c row_data)). split.
      + change (Table.columns table1) with (Table.columns table).
        rewrite complete_row_of_lookup.
        pose proof (pk_has_column table c column Hcol) as Hc.
        unfold Table.has_column in Hc. by rewrite Hc.
      + by eapply pk_free_after_delete.
    - intros k col Hin Hu.
      change (Table.columns table1) with (Table.columns table) in *.
      exists (default VNull (dict_get String.eqb k row_data)).
      assert (Table.has_column table k = true) as Hk.
      { apply sdict_mem_In. eauto. }
      split.
      + rewrite complete_row_of_lookup. unfold Table.has_column in Hk.
        by rewrite Hk.
      + destruct (is_none (default VNull (dict_get String.eqb k row_data)))
          eqn:Hnull; [by left|]. right.
        unfold Table._find_by_index.
        destruct (dict_get String.eqb k (Table._indexes table1))
          as [index1|] eqn:Hi1; [|done].
        destruct (cons_index _ Hcons1 k index1 Hi1) as [_ Hex1].
        destruct (HashIndex.search index1 _) as [|i l] eqn:Hs; [done|].
        exfalso.
        eapply (collides_false table1 k _ Hcons1);
          [|exact (Hfree k col Hin Hu Hnull)|done|].
        * intros ->. unfold no_internal_column in Hno. congruence.
        * apply (Hex1 _ Hnull). rewrite Hs. by left. }
  rewrite (insert_row_accepted row_data table1 Hwf1 Hacc).
  eexists _, _. split; [done|].
  pose proof (consistent_insert_commit table1 row_data Hwf1 Hcons1 Hno1 Hacc)
    as Hcons2.
  rewrite get_row_consistent by done.
  rewrite (insert_row_at table1 row_data Hcons1), Z.eqb_refl.
  assert (Table.not_deleted
            (insert_commit table1
               (complete_row_of (Table.columns table1) row_data ∅))
            (Table._next_row_id table1) = true) as ->.
  { apply not_deleted_true. apply (insert_new_id_fresh table1 Hcons1). }
  f_equal. unfold Table._strip_internal_id.
  rewrite delete_insert_eq. apply delete_id.
  rewrite complete_row_of_lookup.
  change (Table.columns table1) with (Table.columns table).
  unfold no_internal_column, Table.has_column in Hno. by rewrite Hno.
Qed.


Lemma primary_key_duplicate_then_reuse_witness :
  Table.insert_row Example.alice_again Example.users
  = (Example.users, Raise (DuplicateKeyError "id" (VInt 1)))
  ∧ ∃ table1,
      Table.delete_row 0 Example.users = (table1, Return true)
      ∧ ∃ table2 new_id,
          Table.insert_row Example.alice_again table1 = (table2, Return new_id).
Proof.
  destruct (primary_key_duplicate_then_reuse Example.users "id"
              (Column.mk "id" INTEGER None [PRIMARY_KEY]) 0
              (row_view Example.users 0) (VInt 1) Example.alice_again)
    as (Hdup & table1 & Hdel & Hreuse).
  - exact example_users_reachable.
  - exact example_users_no_internal_column.
  - reflexivity.
  - reflexivity.
  - vm_compute. reflexivity.
  - vm_compute. reflexivity.
  - discriminate.
  - intros k x H. vm_compute in H.
    destruct H as [[= <- <-]|[[= <- <-]|[[= <- <-]|[]]]]; reflexivity.
  - intros k col H. vm_compute in H.
    destruct H as [[= <- <-]|[[= <- <-]|[[= <- <-]|[]]]]; reflexivity.
  - reflexivity.
  - split; [exact Hdup|]. exists table1. split; [exact Hdel|].
    destruct Hreuse as (table2 & new_id & Hins & _).
    + vm_compute in Hdel. injection Hdel as <-.
      intros k col H. vm_compute in H.
      destruct H as [[= <- <-]|[[= <- <-]|[[= <- <-]|[]]]];
        intros Hu Hnull; try discriminate Hu; reflexivity.
    + exists table2, new_id. exact Hins.
Defined.

(** ** The planner *)

Section Identifiers.
Import Validators.

Lemma is_word_char_not_dot ch : is_word_char ch = true → Ascii.eqb ch "." = false.
Proof.
  intros H. destruct (Ascii.eqb_spec ch "."%char) as [->|]; [|done].
  discriminate.
Qed.

Lemma is_newline_not_dot ch : is_newline ch = true → Ascii.eqb ch "." = false.
Proof.
  intros H. destruct (Ascii.eqb_spec ch "."%char) as [->|]; [|done].
  discriminate.
Qed.

Lemma match_tail_no_dot s : match_tail s = true → has_dot s = false.
Proof.
  induction s as [|ch s IH]; simpl; [done|].
  intros [[Hw Ht]%andb_true_iff|[Hn He]%andb_true_iff]%orb_true_iff.
  - by rewrite (is_word_char_not_dot _ Hw), IH.
  - rewrite (is_newline_not_dot _ Hn). by destruct s.
Qed.

Lemma validate_identifier_no_dot s :
  validate_identifier s = Return true → has_dot s = false.
Proof.
  unfold validate_identifier.
  destruct (String.eqb s ""); [done|].
  destruct (Nat.ltb 64 (String.length s)); [done|].
  destruct (str_in (upper s) RESERVED_WORDS); [done|].
  destruct (re_match_identifier s) eqn:E; [|done]. intros _.
  destruct s as [|ch s]; [done|]. simpl in *.
  apply andb_true_iff in E as [Hh Ht].
  rewrite (match_tail_no_dot _ Ht), orb_false_r.
  apply is_word_char_not_dot. unfold is_word_char. by rewrite Hh.
Qed.

Lemma has_dot_app a b : has_dot (a +:+ b) = has_dot a || has_dot b.
Proof.
  induction a as [|ch a IH]; simpl; [done|]. by rewrite IH, orb_assoc.
Qed.

Lemma qualified_name_has_dot tn c : has_dot (qualified_name tn c) = true.
Proof.
  unfold qualified_name. rewrite !has_dot_app. simpl. apply orb_true_r.
Qed.

End Identifiers.

Section Planner.
Import Table ConditionEvaluator QueryPlanner.

Variable table : t.
Hypothesis Hwf : wf table.
Hypothesis Hcons : consistent table.
Hypothesis Hno : no_internal_column table.

Lemma view_qualified_absent row_id tn c :
  In row_id (live_ids table) →
  row_view table row_id !! qualified_name tn c = None.
Proof.
  intros Hin.
  destruct (row_view table row_id !! qualified_name tn c) as [x|] eqn:E;
    [|done].
  exfalso.
  assert (has_column table (qualified_name tn c) = true) as Hc.
  { apply (row_view_keys table row_id _ Hwf Hcons Hno Hin). rewrite E. eauto. }
  unfold has_column, dict_mem in Hc.
  destruct (dict_get String.eqb (qualified_name tn c) (columns table))
    as [col|] eqn:G; [|done].
  pose proof (cons_names _ Hcons _ _ G) as Hv.
  apply validate_identifier_no_dot in Hv.
  by rewrite qualified_name_has_dot in Hv.
Qed.

Lemma view_get_column_value row_id c tn :
  In row_id (live_ids table) → has_column table c = true →
  ∃ x, row_view table row_id !! c = Some x
       ∧ get_column_value (row_view table row_id) c tn = Return x.
Proof.
  intros Hin Hc.
  destruct (proj2 (row_view_keys table row_id c Hwf Hcons Hno Hin) Hc)
    as [x Hx].
  exists x. split; [done|]. unfold get_column_value.
  rewrite Hx. destruct (truthy_str tn); [|done].
  by rewrite view_qualified_absent.
Qed.

Lemma view_holds c v row_id x :
  c ≠ "_row_id" →
  In row_id (live_ids table) → row_view table row_id !! c = Some x →
  holds_value table c v row_id ↔ py_eq x v = true.
Proof.
  intros Hne Hin Hx.
  apply live_ids_In_row in Hin as (row & Hrow & Hd).
  destruct (get_row_live table row_id row Hcons Hrow Hd) as [_ Hview].
  rewrite Hview, strip_lookup in Hx by done.
  unfold holds_value. rewrite Hrow. split.
  - intros (r & w & [= <-] & _ & H3 & H4). rewrite Hx in H3.
    by injection H3 as <-.
  - intros H. exists row, x. auto.
Qed.

(** On a live row, an equality between an indexed column and a
    non-null literal evaluates to whether the row holds the literal. *)
Lemma evaluate_indexed c tn v ty row_id :
  has_column table c = true → c ≠ "_row_id" → is_none v = false →
  In row_id (live_ids table) →
  ∃ b, evaluate (Comparison (ColumnRef c tn) EQ (Literal v ty))
         (row_view table row_id) = Return b
       ∧ evaluate (Comparison (Literal v ty) EQ (ColumnRef c tn))
           (row_view table row_id) = Return b
       ∧ (b = true ↔ holds_value table c v row_id).
Proof.
  intros Hc Hne Hv Hin.
  destruct (view_get_column_value row_id c tn Hin Hc) as (x & Hx & Hget).
  exists (py_eq x v). simpl. unfold _evaluate_comparison. simpl.
  rewrite Hget, Hv. simpl. rewrite orb_false_r.
  rewrite (view_holds c v row_id x Hne Hin Hx).
  destruct (is_none x) eqn:Hnx.
  - apply is_none_true in Hnx as ->. rewrite py_eq_null_l, Hv. done.
  - by rewrite (py_eq_sym v x).
Qed.

Lemma filter_rows_Return w rows out :
  filter_rows w rows = Return out →
  out = List.filter (accepts (Some w)) rows
  ∧ ∀ row, In row rows → ∃ b, evaluate w row = Return b.
Proof.
  revert out. induction rows as [|r rows IH]; intros out; simpl.
  - intros [= <-]. split; [done|]. intros ? [].
  - destruct (evaluate w r) as [b|e] eqn:E; [|done]. simpl.
    destruct (filter_rows w rows) as [rest|e]; [|done]. simpl.
    intros [= <-]. destruct (IH rest eq_refl) as [-> Hall].
    split.
    + by destruct b.
    + intros row [<-|Hin]; eauto.
Qed.

Lemma filter_rows_total w rows :
  (∀ row, In row rows → ∃ b, evaluate w row = Return b) →
  filter_rows w rows = Return (List.filter (accepts (Some w)) rows).
Proof.
  induction rows as [|r rows IH]; intros H; simpl; [done|].
  destruct (H r) as [b Hb]; [by left|]. rewrite Hb. simpl.
  rewrite IH by (intros; apply H; by right). simpl. by destruct b.
Qed.

Lemma filter_all {A} (P : A → bool) (l : list A) :
  (∀ x, In x l → P x = true) → List.filter P l = l.
Proof.
  induction l as [|a l IH]; intros H; simpl; [done|].
  rewrite (H a) by (by left). f_equal. apply IH. intros; apply H; by right.
Qed.

Lemma filter_map_comm {A B} (P : B → bool) (f : A → B) (l : list A) :
  List.filter P (map f l) = map f (List.filter (fun x => P (f x)) l).
Proof.
  induction l as [|a l IH]; simpl; [done|].
  destruct (P (f a)); simpl; by rewrite IH.
Qed.

Lemma rows_of_ids_live row_ids :
  (∀ i, In i row_ids → In i (live_ids table)) →
  rows_of_ids table row_ids = map (row_view table) row_ids.
Proof.
  unfold rows_of_ids. induction row_ids as [|i l IH]; intros H; [done|].
  change (omap (get_row table) (i :: l))
    with (match get_row table i with
          | Some y => y :: omap (get_row table) l
          | None => omap (get_row table) l
          end).
  rewrite IH by (intros; apply H; by right).
  destruct (proj1 (live_ids_In_row table i) (H i (or_introl eq_refl)))
    as (row & Hrow & Hd).
  destruct (get_row_live table i row Hcons Hrow Hd) as [Hg Hv].
  rewrite Hg. simpl. f_equal. by rewrite Hv.
Qed.

Lemma holds_value_live c v row_id :
  holds_value table c v row_id → In row_id (live_ids table).
Proof.
  intros (row & w & Hrow & Hd & _). apply live_ids_In_row. eauto.
Qed.

(** The candidates are the full scan, or the rows an exact index finds
    for an equality between its column and a non-null literal. *)
Lemma candidate_cases w :
  _get_candidate_rows table w = scan table
  ∨ ∃ c tn v ty index,
      (w = Comparison (ColumnRef c tn) EQ (Literal v ty)
       ∨ w = Comparison (Literal v ty) EQ (ColumnRef c tn))
      ∧ is_none v = false
      ∧ get_index table c = Some index
      ∧ _get_candidate_rows table w
        = rows_of_ids table (HashIndex.search index v).
Proof.
  unfold _get_candidate_rows.
  destruct (_find_index_opportunity table w) as [oc v] eqn:F.
  destruct (truthy_str oc && negb (is_none v)) eqn:E; [|by left].
  apply andb_true_iff in E as [Hoc Hv]. apply negb_true_iff in Hv.
  destruct oc as [c|]; [|done]. simpl.
  destruct (get_index table c) as [index|] eqn:Hi; [|by left].
  destruct (negb (HashIndex.len index =? 0)%nat); [|by left].
  right. unfold _find_index_opportunity in F.
  destruct w as [[c1 tn1|v1 ty1] [] [c2 tn2|v2 ty2]|]; try done.
  - destruct (has_index table c1); [|done]. injection F as <- <-.
    exists c1, tn1, v2, ty2, index. auto.
  - destruct (has_index table c2); [|done]. injection F as <- <-.
    exists c2, tn2, v1, ty1, index. auto.
Qed.

(** The index path returns the accepted live rows, each once. *)
Lemma index_path c tn v ty index w :
  w = Comparison (ColumnRef c tn) EQ (Literal v ty)
  ∨ w = Comparison (Literal v ty) EQ (ColumnRef c tn) →
  is_none v = false →
  get_index table c = Some index →
  let row_ids := HashIndex.search index v in
  NoDup row_ids
  ∧ (∀ i, In i row_ids
          ↔ In i (live_ids table)
            ∧ accepts (Some w) (row_view table i) = true)
  ∧ filter_rows w (rows_of_ids table row_ids)
    = Return (map (row_view table) row_ids)
  ∧ filter_rows w (scan table)
    = Return (List.filter (accepts (Some w)) (scan table)).
Proof.
  intros Hw Hv Hi row_ids.
  destruct (cons_index _ Hcons _ _ Hi) as [_ Hex].
  destruct (Hex v Hv) as [Hnd Hin]. fold row_ids in Hnd, Hin.
  assert (has_index table c = true) as Hidx
    by (by eapply get_index_has_index).
  assert (has_column table c = true) as Hc by (by apply Hwf).
  assert (c ≠ "_row_id") as Hne by (by apply (indexed_not_internal table)).
  assert (∀ i, In i (live_ids table) →
            ∃ b, evaluate w (row_view table i) = Return b
                 ∧ (b = true ↔ holds_value table c v i)) as Heval.
  { intros i Hl.
    destruct (evaluate_indexed c tn v ty i Hc Hne Hv Hl) as (b & H1 & H2 & H3).
    exists b. by destruct Hw as [-> | ->]. }
  assert (∀ i, In i (live_ids table) →
            accepts (Some w) (row_view table i) = true
            ↔ holds_value table c v i) as Hacc.
  { intros i Hl. destruct (Heval i Hl) as (b & Hb & Hiff).
    unfold accepts. rewrite Hb, <- Hiff. by destruct b. }
  split; [done|]. split; [|split].
  - intros i. rewrite Hin. split.
    + intros Hh. pose proof (holds_value_live c v i Hh) as Hl.
      split; [done|]. by apply Hacc.
    + intros [Hl Ha]. by apply Hacc.
  - rewrite rows_of_ids_live
      by (intros i Hi'; apply Hin in Hi'; by eapply holds_value_live).
    rewrite filter_rows_total.
    + f_equal. apply filter_all. intros row (i & <- & Hi')%in_map_iff.
      apply Hin in Hi'. apply Hacc; [by eapply holds_value_live|done].
    + intros row (i & <- & Hi')%in_map_iff. apply Hin in Hi'.
      destruct (Heval i (holds_value_live c v i Hi')) as (b & Hb & _). eauto.
  - apply filter_rows_total. rewrite scan_live_ids by done.
    intros row (i & <- & Hl)%in_map_iff.
    destruct (Heval i Hl) as (b & Hb & _). eauto.
Qed.

End Planner.

(** ** What the planner returns *)

Section Matching.
Import Table QueryPlanner.

Variable table : t.
Hypothesis Hwf : wf table.
Hypothesis Hcons : consistent table.
Hypothesis Hno : no_internal_column table.

Lemma accepted_ids where_ :
  let row_ids :=
    List.filter (fun i => accepts where_ (row_view table i)) (live_ids table) in
  NoDup row_ids
  ∧ (∀ i, In i row_ids
          ↔ In i (live_ids table) ∧ accepts where_ (row_view table i) = true)
  ∧ List.filter (accepts where_) (scan table) = map (row_view table) row_ids.
Proof.
  intros row_ids. split; [|split].
  - apply NoDup_ListNoDup, List.NoDup_filter, NoDup_ListNoDup, live_ids_NoDup.
  - intros i. apply filter_In.
  - rewrite scan_live_ids by done. apply filter_map_comm.
Qed.

(** The rows the planner returns are the views of the accepted live
    rows, each identifier once. *)
Lemma matching_ids where_ rows :
  get_matching_rows table where_ = Return rows →
  ∃ row_ids,
    rows = map (row_view table) row_ids
    ∧ NoDup row_ids
    ∧ ∀ i, In i row_ids
           ↔ In i (live_ids table) ∧ accepts where_ (row_view table i) = true.
Proof.
  destruct where_ as [w|]; simpl.
  - destruct (candidate_cases table w)
      as [->|(c & tn & v & ty & index & Hw & Hv & Hi & ->)].
    + intros H. apply filter_rows_Return in H as [-> _].
      destruct (accepted_ids (Some w)) as (H1 & H2 & H3).
      eexists. split; [exact H3|]. split; [exact H1|exact H2].
    + destruct (index_path table Hwf Hcons Hno c tn v ty index w Hw Hv Hi)
        as (H1 & H2 & H3 & _).
      rewrite H3. intros [= <-]. eauto.
  - intros [= <-]. exists (live_ids table).
    split; [by apply scan_live_ids|]. split; [apply live_ids_NoDup|].
    intros i. tauto.
Qed.

Lemma matching_permutation w rows :
  get_matching_rows table (Some w) = Return rows →
  filter_rows w (scan table)
  = Return (List.filter (accepts (Some w)) (scan table))
  ∧ rows ≡ₚ List.filter (accepts (Some w)) (scan table).
Proof.
  intros H. split.
  - simpl in H.
    destruct (candidate_cases table w)
      as [Hc|(c & tn & v & ty & index & Hw & Hv & Hi & Hc)].
    + rewrite Hc in H. rewrite H. f_equal.
      by apply filter_rows_Return in H as [-> _].
    + by destruct (index_path table Hwf Hcons Hno c tn v ty index w Hw Hv Hi)
        as (_ & _ & _ & ->).
  - destruct (matching_ids _ _ H) as (row_ids & -> & Hnd & Hin).
    destruct (accepted_ids (Some w)) as (Hnd' & Hin' & ->).
    apply fmap_Permutation, NoDup_Permutation; [done|done|].
    intros i. rewrite !list_elem_of_In, Hin, Hin'. done.
Qed.

Lemma matching_raise w e :
  get_matching_rows table (Some w) = Raise e →
  filter_rows w (scan table) = Raise e.
Proof.
  simpl.
  destruct (candidate_cases table w)
    as [->|(c & tn & v & ty & index & Hw & Hv & Hi & ->)]; [done|].
  destruct (index_path table Hwf Hcons Hno c tn v ty index w Hw Hv Hi)
    as (_ & _ & -> & _).
  done.
Qed.

End Matching.

Lemma scan_stripped table row :
  In row (Table.scan table) → row !! "_row_id" = None.
Proof.
  unfold Table.scan. intros (raw & <- & _)%in_map_iff. apply strip_lookup_id.
Qed.

(** The planner against the filtered scan, on a reachable table with
    no column named [_row_id].  With no WHERE clause the planner
    returns the full scan.  With one, whichever path it takes, it
    returns exactly the scanned rows the evaluator accepts (the same
    rows as filtering the full scan, up to their order, which on the
    index path is the order of the index entry), and it raises only
    the error that filtering the full scan raises; no returned row
    carries the internal identifier. *)
Theorem matching_rows_are_scan_filter table :
  reachable table → no_internal_column table →
  QueryPlanner.get_matching_rows table None = Return (Table.scan table)
  ∧ (∀ w rows,
       QueryPlanner.get_matching_rows table (Some w) = Return rows →
       QueryPlanner.filter_rows w (Table.scan table)
       = Return (List.filter (accepts (Some w)) (Table.scan table))
       ∧ rows ≡ₚ List.filter (accepts (Some w)) (Table.scan table))
  ∧ (∀ w e,
       QueryPlanner.get_matching_rows table (Some w) = Raise e →
       QueryPlanner.filter_rows w (Table.scan table) = Raise e)
  ∧ (∀ row, In row (Table.scan table) → row !! "_row_id" = None).
Proof.
  intros Hreach Hno.
  pose proof (reachable_wf _ Hreach) as Hwf.
  pose proof (reachable_consistent _ Hreach Hno) as Hcons.
  split; [done|]. split; [|split].
  - intros w rows. by apply matching_permutation.
  - intros w e. by apply matching_raise.
  - apply scan_stripped.
Qed.

Lemma matching_rows_are_scan_filter_witness :
  QueryPlanner.get_matching_rows Example.users (Some Example.id_is_2)
  = Return [row_view Example.users 1]
  ∧ [row_view Example.users 1]
    ≡ₚ List.filter (accepts (Some Example.id_is_2)) (Table.scan Example.users).
Proof.
  split; [vm_compute; reflexivity|].
  refine (proj2 (proj1 (proj2
            (matching_rows_are_scan_filter Example.users _ _))
            Example.id_is_2 [row_view Example.users 1] _)).
  - exact example_users_reachable.
  - exact example_users_no_internal_column.
  - vm_compute. reflexivity.
Defined.

(** ** Re-locating a matched row *)

Section Relocate.
Import Table QueryExecutor.

Lemma value_identical_refl a : value_identical a a.
Proof. intros k. split; [done|]. apply py_eq_refl. Qed.

Lemma value_identical_sym a b : value_identical a b → value_identical b a.
Proof.
  intros H k. destruct (H k) as [H1 H2]. split; [by symmetry|].
  by rewrite py_eq_sym.
Qed.

Lemma value_identical_trans a b c :
  value_identical a b → value_identical b c → value_identical a c.
Proof.
  intros H1 H2 k. destruct (H1 k) as [H3 H4], (H2 k) as [H5 H6].
  split; [by rewrite H3|]. by eapply py_eq_trans.
Qed.

Lemma is_match_true row match_row :
  is_match row match_row = true
  ↔ ∀ k v, match_row !! k = Some v →
           py_eq (default VNull (row !! k)) v = true.
Proof.
  unfold is_match. rewrite forallb_forall. split.
  - intros H k v Hk. apply (H (k, v)).
    apply list_elem_of_In, elem_of_map_to_list. done.
  - intros H [k v] Hin. apply H.
    by apply elem_of_map_to_list, list_elem_of_In.
Qed.

(** A stored row matches the view of a row with the same columns
    exactly when their views are value-identical. *)
Lemma is_match_views (cols : string → bool) raw view :
  cols "_row_id" = false →
  (∀ k, is_Some (_strip_internal_id raw !! k) ↔ cols k = true) →
  (∀ k, is_Some (view !! k) ↔ cols k = true) →
  is_match raw view = true
  ↔ value_identical (_strip_internal_id raw) view.
Proof.
  intros Hid Hraw Hview. rewrite is_match_true. split.
  - intros H k. split; [by rewrite Hraw, Hview|].
    destruct (view !! k) as [v|] eqn:Hv.
    + assert (k ≠ "_row_id") as Hne.
      { intros ->. assert (is_Some (view !! "_row_id")) as Hs by eauto.
        apply Hview in Hs. congruence. }
      rewrite strip_lookup by done. by apply H.
    + destruct (_strip_internal_id raw !! k) as [x|] eqn:Hx; [|done].
      assert (is_Some (view !! k)) as [? ?]
        by (apply Hview, Hraw; eauto).
      congruence.
  - intros H k v Hv. destruct (H k) as [_ Hpy]. rewrite Hv in Hpy.
    assert (k ≠ "_row_id") as Hne.
    { intros ->. assert (is_Some (view !! "_row_id")) as Hs by eauto.
      apply Hview in Hs. congruence. }
    by rewrite strip_lookup in Hpy.
Qed.

(** The search of [relocate] does not touch the table. *)
Lemma relocate_find rows match_row (action : Z → M bool) table :
  relocate rows match_row action table
  = match List.find (fun row => negb (row_deleted table row)
                                && is_match row match_row) rows with
    | Some row =>
        bind (lift (row_id_of row)) (fun row_id =>
        bind (action row_id) (fun _ => ret true)) table
    | None => (table, Return false)
    end.
Proof.
  induction rows as [|r rows IH]; simpl; [done|].
  rewrite bind_gets.
  destruct (negb (row_deleted table r) && is_match r match_row); [done|].
  apply IH.
Qed.

Variable table : t.
Hypothesis Hwf : wf table.
Hypothesis Hcons : consistent table.
Hypothesis Hno : no_internal_column table.

Lemma stored_row_position raw :
  In raw (_rows table) →
  ∃ n, _rows table !! n = Some raw
       ∧ row_at table (Z.of_nat n) = Some raw
       ∧ row_id_of raw = Return (Z.of_nat n)
       ∧ row_deleted table raw = negb (not_deleted table (Z.of_nat n)).
Proof.
  intros Hin. apply list_elem_of_In, list_elem_of_lookup in Hin as [n Hn].
  exists n. split; [done|]. split; [|split].
  - unfold row_at. destruct (Z.leb_spec 0 (Z.of_nat n)); [|lia].
    by rewrite Nat2Z.id.
  - unfold row_id_of, getitem. by rewrite (cons_ids _ Hcons _ _ Hn).
  - by apply row_deleted_at.
Qed.

Lemma live_view_match row_id raw view :
  row_at table row_id = Some raw → In row_id (live_ids table) →
  (∀ k, is_Some (view !! k) ↔ has_column table k = true) →
  is_match raw view = true ↔ value_identical (row_view table row_id) view.
Proof.
  intros Hrow Hlive Hview.
  pose proof Hlive as Hl.
  apply live_ids_In_row in Hl as (raw' & Hrow' & Hd).
  rewrite Hrow in Hrow'. injection Hrow' as <-.
  destruct (get_row_live table row_id raw Hcons Hrow Hd) as [_ Hv].
  rewrite Hv. apply (is_match_views (has_column table)); [done| |done].
  intros k. rewrite <- Hv. by apply row_view_keys.
Qed.

(** [relocate] hands to [action] the first live row whose view is
    value-identical to the matched row, and there is one whenever the
    matched row is value-identical to the view of some live row. *)
Lemma relocate_run match_row (action : Z → M bool) row_id :
  (∀ k, is_Some (match_row !! k) ↔ has_column table k = true) →
  In row_id (live_ids table) →
  value_identical (row_view table row_id) match_row →
  ∃ found,
    In found (live_ids table)
    ∧ value_identical (row_view table found) match_row
    ∧ relocate (_rows table) match_row action table
      = bind (action found) (fun _ => ret true) table.
Proof.
  intros Hkeys Hlive Hid. rewrite relocate_find.
  destruct (List.find _ (_rows table)) as [raw|] eqn:F.
  - apply find_some in F as [Hin Hp].
    apply andb_true_iff in Hp as [Hd Hm].
    destruct (stored_row_position raw Hin) as (n & Hn & Hrow & Hrid & Hdel).
    rewrite Hdel, negb_involutive in Hd.
    assert (In (Z.of_nat n) (live_ids table)) as Hl.
    { apply live_ids_In. split; [|done]. apply lookup_lt_Some in Hn. lia. }
    exists (Z.of_nat n). split; [done|]. split.
    + by apply (live_view_match _ raw).
    + by rewrite bind_lift, Hrid.
  - exfalso.
    pose proof Hlive as Hl.
    apply live_ids_In_row in Hl as (raw & Hrow & Hd).
    pose proof (row_at_In _ _ _ Hrow) as Hin.
    apply (find_none _ _ F) in Hin.
    destruct (stored_row_position raw (row_at_In _ _ _ Hrow))
      as (n & Hn & Hrow' & _ & Hdel).
    assert (Z.of_nat n = row_id) as <-.
    { pose proof (row_at_id _ _ _ Hcons Hrow) as H1.
      rewrite (cons_ids _ Hcons _ _ Hn) in H1. by injection H1. }
    rewrite Hdel, negb_involutive in Hin.
    apply not_deleted_true in Hd. rewrite Hd in Hin. simpl in Hin.
    assert (is_match raw match_row = true) as Hm; [|congruence].
    by apply (live_view_match (Z.of_nat n) raw).
Qed.

End Relocate.

(** ** DELETE *)

Section DeleteStatement.
Import Table QueryExecutor.

Lemma delete_commit_view table row_id raw i :
  consistent table → row_at table row_id = Some raw →
  i ≠ row_id →
  row_view (delete_commit table row_id raw) i = row_view table i.
Proof.
  intros Hc Hrow Hne. unfold row_view, get_row. simpl.
  assert (∀ rows n,
            find_row (delete_commit table row_id raw) i rows n
            = find_row table i rows n) as ->; [|done].
  induction rows as [|r rows IH]; intros n; simpl; [done|].
  rewrite IH. unfold not_deleted. simpl.
  assert (bool_decide (i ∈ ({[row_id]} ∪ _deleted_row_ids table : gset Z))
          = bool_decide (i ∈ _deleted_row_ids table)) as ->; [|done].
  apply bool_decide_ext. rewrite elem_of_union, elem_of_singleton. tauto.
Qed.

Lemma delete_commit_live_ids table row_id raw i :
  In i (live_ids (delete_commit table row_id raw))
  ↔ i ≠ row_id ∧ In i (live_ids table).
Proof.
  rewrite !live_ids_In, !not_deleted_true. simpl.
  rewrite not_elem_of_union, not_elem_of_singleton. tauto.
Qed.

Lemma delete_live table row_id :
  wf table → consistent table → In row_id (live_ids table) →
  ∃ raw, row_at table row_id = Some raw
         ∧ (row_id ∉ _deleted_row_ids table)
         ∧ delete_row row_id table
           = (delete_commit table row_id raw, Return true).
Proof.
  intros Hwf Hc Hl. apply live_ids_In_row in Hl as (raw & Hrow & Hd).
  exists raw. split; [done|]. split; [done|].
  rewrite delete_row_run, find_row_consistent, Hrow by done.
  apply not_deleted_true in Hd. by rewrite Hd.
Qed.

Lemma delete_loop row_ids : ∀ table count,
  wf table → consistent table → no_internal_column table →
  distinct_live table → NoDup row_ids →
  (∀ i, In i row_ids → In i (live_ids table)) →
  ∃ table',
    mutate_each (map (row_view table) row_ids)
                (fun row_id => delete_row row_id) count table
    = (table', Return (count + Z.of_nat (length row_ids)))
    ∧ wf table' ∧ consistent table'
    ∧ _rows table' = _rows table
    ∧ (∀ i, i ∈ _deleted_row_ids table'
            ↔ i ∈ _deleted_row_ids table ∨ In i row_ids)
    ∧ (∀ i, ¬ In i row_ids → row_view table' i = row_view table i).
Proof.
  induction row_ids as [|j rest IH];
    intros table count Hwf Hc Hno Hdist Hnd Hlive.
  - exists table. simpl. rewrite Z.add_0_r. split; [done|].
    split; [done|]. split; [done|]. split; [done|]. split; [tauto|done].
  - apply NoDup_cons in Hnd as [Hj Hnd].
    rewrite list_elem_of_In in Hj.
    assert (In j (live_ids table)) as Hlj by (apply Hlive; by left).
    cbn [map mutate_each]. rewrite bind_gets.
    destruct (relocate_run table Hwf Hc Hno (row_view table j)
                (fun row_id => delete_row row_id) j)
      as (found & Hf & Hid & Hrel).
    { intros k. by apply row_view_keys. }
    { done. }
    { apply value_identical_refl. }
    assert (found = j) as -> by (by apply Hdist).
    destruct (delete_live table j Hwf Hc Hlj) as (raw & Hrow & Hd & Hdel).
    rewrite (bind_run _ _ _ (delete_commit table j raw) true).
    2:{ rewrite Hrel. by rewrite (bind_run _ _ _ _ _ Hdel). }
    set (table1 := delete_commit table j raw).
    assert (map (row_view table) rest = map (row_view table1) rest) as ->.
    { apply map_ext_in. intros i Hi. symmetry.
      apply delete_commit_view; [done|done|]. intros ->. done. }
    destruct (IH table1 (count + 1))
      as (table' & Hrun & Hwf' & Hc' & Hrows & Hdel' & Hv).
    + by apply wf_delete_commit.
    + by apply consistent_delete_commit.
    + done.
    + intros a b Ha Hb Hab.
      apply delete_commit_live_ids in Ha as [Ha1 Ha2].
      apply delete_commit_live_ids in Hb as [Hb1 Hb2].
      apply Hdist; auto.
      by rewrite !(delete_commit_view table j raw) in Hab.
    + done.
    + intros i Hi. apply delete_commit_live_ids. split.
      * intros ->. done.
      * apply Hlive. by right.
    + exists table'. split.
      { rewrite Hrun. do 2 f_equal. simpl length. lia. }
      split; [done|]. split; [done|]. split; [done|]. split.
      * intros i. rewrite Hdel'. simpl.
        rewrite elem_of_union, elem_of_singleton. simpl. split.
        -- intros [[->|?]|?]; auto.
        -- intros [?|[->|?]]; auto.
      * intros i Hi. rewrite Hv by (intros ?; apply Hi; by right).
        apply delete_commit_view; [done|done|].
        intros ->. apply Hi. by left.
Qed.

Lemma filter_filter {A} (P Q : A → bool) (l : list A) :
  List.filter P (List.filter Q l) = List.filter (fun x => Q x && P x) l.
Proof.
  induction l as [|a l IH]; simpl; [done|].
  destruct (Q a); simpl; [|done]. destruct (P a); by rewrite IH.
Qed.

Lemma matching_count table where_ row_ids :
  consistent table → NoDup row_ids →
  (∀ i, In i row_ids
        ↔ In i (live_ids table) ∧ accepts where_ (row_view table i) = true) →
  length row_ids = length (List.filter (accepts where_) (scan table)).
Proof.
  intros Hc Hnd Hin.
  destruct (accepted_ids table Hc where_) as (Hnd' & Hin' & ->).
  rewrite length_map. apply Permutation_length, NoDup_Permutation; [done..|].
  intros i. by rewrite !list_elem_of_In, Hin, Hin'.
Qed.

(** The outcome of a DELETE on a consistent table with distinct live
    rows. *)
Lemma delete_body_run stmt table rows :
  wf table → consistent table → no_internal_column table →
  distinct_live table →
  QueryPlanner.get_matching_rows table (delete_where stmt) = Return rows →
  ∃ table',
    delete_body stmt table
    = (table',
       Return (Z.of_nat (length (List.filter (accepts (delete_where stmt))
                                             (scan table)))))
    ∧ scan table'
      = List.filter (fun row => negb (accepts (delete_where stmt) row))
                    (scan table).
Proof.
  intros Hwf Hc Hno Hdist Hm.
  destruct (matching_ids table Hwf Hc Hno _ _ Hm) as (row_ids & -> & Hnd & Hin).
  destruct (delete_loop row_ids table 0 Hwf Hc Hno Hdist Hnd)
    as (table' & Hrun & Hwf' & Hc' & Hrows & Hdel & Hv).
  { intros i Hi. by apply Hin. }
  exists table'. split.
  - unfold delete_body. rewrite (bind_run _ _ _ _ _ (f_equal (pair table) Hm)).
    rewrite Hrun. rewrite Z.add_0_l. do 3 f_equal. by apply matching_count.
  - rewrite (scan_live_ids table') by done.
    rewrite (scan_live_ids table), filter_map_comm by done.
    unfold live_ids. rewrite Hrows, filter_filter.
    set (ids := map Z.of_nat (seq 0 (length (_rows table)))).
    assert (∀ i, In i ids →
              not_deleted table' i
              = not_deleted table i
                && negb (accepts (delete_where stmt) (row_view table i)))
      as Hext.
    { intros i Hi.
      assert (0 ≤ i < Z.of_nat (length (_rows table))) as Hr.
      { subst ids. apply in_map_iff in Hi as (n & <- & Hn).
        apply in_seq in Hn. lia. }
      destruct (not_deleted table i) eqn:Hd; simpl.
      - assert (In i (live_ids table)) as Hl by (by apply live_ids_In).
        destruct (accepts (delete_where stmt) (row_view table i)) eqn:Ha; simpl.
        + apply not_true_iff_false. rewrite not_deleted_true, Hdel.
          intros Hn. apply Hn. right. by apply Hin.
        + apply not_deleted_true. rewrite Hdel.
          apply not_deleted_true in Hd.
          intros [?|Hi']; [done|]. apply Hin in Hi' as [_ ?]. congruence.
      - apply not_true_iff_false. rewrite not_deleted_true, Hdel.
        apply not_true_iff_false in Hd. rewrite not_deleted_true in Hd.
        intros Hn. apply Hd. intros ?. apply Hn. by left. }
    rewrite (filter_ext_in _ _ _ Hext).
    apply map_ext_in. intros i [Hi Hp]%filter_In. apply Hv.
    intros Hi'. apply Hin in Hi' as [Hl Ha].
    rewrite Ha, andb_false_r in Hp. done.
Qed.

End DeleteStatement.

(** ** UPDATE *)

Section UpdateStatement.
Import Table QueryExecutor.

Lemma updated_row_idempotent row assignments :
  is_dict assignments →
  updated_row (updated_row row assignments) assignments
  = updated_row row assignments.
Proof.
  intros Hd. apply map_eq. intros k. rewrite !updated_row_lookup by done.
  by destruct (dict_get String.eqb k assignments).
Qed.

Lemma updated_row_identical a b assignments :
  is_dict assignments → value_identical a b →
  value_identical (updated_row a assignments) (updated_row b assignments).
Proof.
  intros Hd H k. rewrite !updated_row_lookup by done.
  destruct (dict_get String.eqb k assignments) as [v|].
  - split; [done|]. apply py_eq_refl.
  - apply H.
Qed.

Lemma strip_updated_row raw assignments :
  is_dict assignments →
  dict_get String.eqb "_row_id" assignments = None →
  _strip_internal_id (updated_row raw assignments)
  = updated_row (_strip_internal_id raw) assignments.
Proof.
  intros Hd Hid. apply map_eq. intros k.
  destruct (String.eqb_spec k "_row_id") as [->|Hne].
  - by rewrite strip_lookup_id, updated_row_lookup, Hid, strip_lookup_id.
  - rewrite strip_lookup, !updated_row_lookup, strip_lookup by done. done.
Qed.

Lemma update_accepts_no_id table row_id assignments :
  no_internal_column table → update_accepts table row_id assignments →
  dict_get String.eqb "_row_id" assignments = None.
Proof.
  intros Hno Hacc.
  destruct (dict_get String.eqb "_row_id" assignments) as [v|] eqn:G; [|done].
  apply sdict_get_In in G.
  pose proof (update_accepts_columns _ _ _ _ _ Hacc G) as Hc.
  unfold no_internal_column in Hno. congruence.
Qed.

Variables (table : t) (row_id : Z) (raw : Row)
          (assignments : list (string * Value)).
Hypothesis Hwf : wf table.
Hypothesis Hcons : consistent table.
Hypothesis Hno : no_internal_column table.
Hypothesis Hrow : row_at table row_id = Some raw.
Hypothesis Hlive : row_id ∉ _deleted_row_ids table.
Hypothesis Hdict : is_dict assignments.
Hypothesis Hacc : update_accepts table row_id assignments.

Let table1 := update_commit table row_id (Z.to_nat row_id) raw assignments.

Lemma update_commit_live_ids : live_ids table1 = live_ids table.
Proof.
  unfold live_ids. simpl. rewrite length_insert. done.
Qed.

Lemma update_commit_view i :
  row_view table1 i
  = if Z.eqb i row_id
    then updated_row (row_view table row_id) assignments
    else row_view table i.
Proof.
  pose proof (consistent_update_commit table row_id raw assignments
                Hcons Hno Hrow Hlive Hdict Hacc) as Hcons1.
  unfold row_view. rewrite !get_row_consistent by done.
  fold table1.
  rewrite (update_row_at table row_id raw assignments Hrow).
  change (not_deleted table1 i) with (not_deleted table i).
  destruct (Z.eqb_spec i row_id) as [->|Hne]; [|done].
  rewrite Hrow. apply not_deleted_true in Hlive. rewrite Hlive. simpl.
  apply strip_updated_row; [done|].
  by eapply update_accepts_no_id.
Qed.

End UpdateStatement.

Section UpdateLoop.
Import Table QueryExecutor.

Lemma update_live table row_id assignments :
  wf table → consistent table → In row_id (live_ids table) →
  ∃ raw, row_at table row_id = Some raw
    ∧ (row_id ∉ _deleted_row_ids table)
    ∧ ((update_accepts table row_id assignments
        ∧ update_row row_id assignments table
          = (update_commit table row_id (Z.to_nat row_id) raw assignments,
             Return true))
       ∨ (¬ update_accepts table row_id assignments
          ∧ ∃ e, update_row row_id assignments table = (table, Raise e))).
Proof.
  intros Hwf Hc Hl. apply live_ids_In_row in Hl as (raw & Hrow & Hd).
  exists raw. split; [done|]. split; [done|].
  apply (update_row_cases row_id assignments table); [done|].
  rewrite find_row_consistent, Hrow by done.
  pose proof Hd as Hd'. apply not_deleted_true in Hd'. rewrite Hd'.
  split.
  - intros Hacc. left. done.
  - intros e Hn. right. eauto.
Qed.

Lemma admissible_accepts table0 table row_id assignments :
  same_schema table table0 →
  assignments_admissible table0 assignments →
  update_accepts table row_id assignments.
Proof.
  intros (_ & Hcols & _) Hadm c v Hin.
  destruct (Hadm c v Hin) as (col & H1 & H2 & H3 & H4).
  exists col. rewrite Hcols, H4. repeat split; auto. done.
Qed.

Variables (table0 : t) (assignments : list (string * Value))
          (all_ids : list Z).
Hypothesis Hwf0 : wf table0.
Hypothesis Hcons0 : consistent table0.
Hypothesis Hno0 : no_internal_column table0.
Hypothesis Hdist : distinct_live table0.
Hypothesis Hdict : is_dict assignments.
Hypothesis Hall : ∀ i, In i all_ids → In i (live_ids table0).

Lemma update_step table j rest :
  update_inv table0 assignments all_ids table (j :: rest) →
  In j all_ids → ¬ In j rest →
  ∃ found raw,
    relocate (_rows table) (row_view table0 j)
             (fun row_id => update_row row_id assignments) table
    = bind (update_row found assignments) (fun _ => ret true) table
    ∧ In found (live_ids table)
    ∧ row_at table found = Some raw
    ∧ (found ∉ _deleted_row_ids table)
    ∧ (update_accepts table found assignments →
       update_inv table0 assignments all_ids
         (update_commit table found (Z.to_nat found) raw assignments) rest).
Proof.
  intros Hinv Hj Hjr.
  destruct Hinv as [Hwf Hc Hs Hl Hst Hrem Hdone].
  assert (no_internal_column table) as Hno
    by (by eapply no_internal_column_schema).
  assert (In j (live_ids table)) as Hlj by (rewrite Hl; by apply Hall).
  assert (row_view table j = row_view table0 j) as Hvj
    by (apply Hrem; by left).
  destruct (relocate_run table Hwf Hc Hno (row_view table0 j)
              (fun row_id => update_row row_id assignments) j)
    as (found & Hf & Hid & Hrel).
  { intros k. rewrite <- Hvj. by apply row_view_keys. }
  { done. }
  { rewrite Hvj. apply value_identical_refl. }
  pose proof Hf as Hf'.
  apply live_ids_In_row in Hf' as (raw & Hrow & Hd).
  exists found, raw. split; [done|]. split; [done|]. split; [done|].
  split; [done|]. intros Hacc.
  set (table1 := update_commit table found (Z.to_nat found) raw assignments).
  assert (∀ i, row_view table1 i
               = if Z.eqb i found
                 then updated_row (row_view table found) assignments
                 else row_view table i) as Hview.
  { intros i. by apply update_commit_view. }
  assert (In found (live_ids table0)) as Hf0 by (by rewrite <- Hl).
  assert (row_view table found = row_view table0 found → found = j) as F1.
  { intros Hu. apply Hdist; auto. by rewrite <- Hu. }
  assert (In found (j :: rest) → found = j) as F2.
  { intros Hin. apply F1. by apply Hrem. }
  assert (found ≠ j →
          row_view table found
          = updated_row (row_view table0 found) assignments
          ∧ In found all_ids
          ∧ updated_row (row_view table found) assignments
            = row_view table found
          ∧ value_identical (row_view table0 j)
                            (updated_row (row_view table0 j) assignments))
    as F4.
  { intros Hne. destruct (Hst found Hf0) as [Hu|[Hu Hin]];
      [by apply F1 in Hu|].
    split; [done|]. split; [done|]. split.
    - rewrite Hu. by apply updated_row_idempotent.
    - rewrite Hu in Hid.
      apply value_identical_trans
        with (updated_row (row_view table0 found) assignments).
      + by apply value_identical_sym.
      + rewrite <- (updated_row_idempotent (row_view table0 found)) at 1
          by done.
        by apply updated_row_identical. }
  split.
  - apply wf_update_commit; [done|]. by eapply row_at_In.
  - by apply consistent_update_commit.
  - destruct Hs as (?&?&?&?). done.
  - rewrite <- Hl. by apply update_commit_live_ids.
  - intros i Hi. rewrite Hview.
    destruct (Z.eqb_spec i found) as [->|Hne]; [|by apply Hst].
    right. destruct (Z.eq_dec found j) as [->|Hfj].
    + by rewrite Hvj.
    + destruct (F4 Hfj) as (Hu & Hin & Hfix & _).
      rewrite Hfix. done.
  - intros i Hi. rewrite Hview.
    destruct (Z.eqb_spec i found) as [->|Hne]; [|apply Hrem; by right].
    exfalso. apply Hjr. rewrite <- (F2 (or_intror Hi)). done.
  - intros i Hi Hr. rewrite Hview.
    destruct (Z.eqb_spec i found) as [->|Hne].
    + destruct (Z.eq_dec found j) as [->|Hfj].
      * rewrite Hvj. apply value_identical_refl.
      * destruct (F4 Hfj) as (Hu & Hin & Hfix & _).
        rewrite Hfix, Hu. apply value_identical_refl.
    + destruct (Z.eq_dec i j) as [->|Hij].
      * rewrite Hvj. apply F4. congruence.
      * apply Hdone; [done|]. intros [->|?]; done.
Qed.

Lemma update_loop remaining : ∀ table count table' r,
  NoDup remaining →
  (∀ i, In i remaining → In i all_ids) →
  update_inv table0 assignments all_ids table remaining →
  mutate_each (map (row_view table0) remaining)
              (fun row_id => update_row row_id assignments) count table
  = (table', r) →
  match r with
  | Return n =>
      n = count + Z.of_nat (length remaining)
      ∧ update_inv table0 assignments all_ids table' []
  | Raise _ => True
  end
  ∧ (assignments_admissible table0 assignments → ∃ n, r = Return n).
Proof.
  induction remaining as [|j rest IH];
    intros table count table' r Hnd Hsub Hinv.
  - simpl. intros [= <- <-]. split; [|eauto].
    split; [lia|done].
  - apply NoDup_cons in Hnd as [Hj Hnd]. rewrite list_elem_of_In in Hj.
    cbn [map mutate_each]. rewrite bind_gets.
    destruct (update_step table j rest Hinv) as
      (found & raw & Hrel & Hf & Hrow & Hd & Hnext);
      [apply Hsub; by left|done|].
    destruct (update_live table found assignments (ui_wf _ _ _ _ _ Hinv)
                (ui_cons _ _ _ _ _ Hinv) Hf)
      as (raw' & Hrow' & _ & Hupd).
    rewrite Hrow in Hrow'. injection Hrow' as <-.
    destruct Hupd as [[Hacc Hrun]|[Hrej [e Hrun]]].
    + rewrite (bind_run _ _ _
                 (update_commit table found (Z.to_nat found) raw assignments)
                 true).
      2:{ rewrite Hrel. by rewrite (bind_run _ _ _ _ _ Hrun). }
      intros Hloop.
      destruct (IH _ _ _ _ Hnd (fun i Hi => Hsub i (or_intror Hi))
                  (Hnext Hacc) Hloop) as [H1 H2].
      split; [|done]. destruct r as [n|e]; [|done].
      destruct H1 as [-> H1]. split; [|done]. simpl length. lia.
    + assert (relocate (_rows table) (row_view table0 j)
                (fun row_id => update_row row_id assignments) table
              = (table, Raise e)) as Hrel'.
      { rewrite Hrel. unfold bind. by rewrite Hrun. }
      unfold bind at 1. rewrite Hrel'. intros [= <- <-].
      split; [done|]. intros Hadm. exfalso. apply Hrej.
      eapply admissible_accepts; [|done]. apply (ui_schema _ _ _ _ _ Hinv).
Qed.

End UpdateLoop.

(** ** UPDATE and DELETE statements *)

Section Statements.
Import Table QueryExecutor.

Lemma Forall2_map_same {A B} (R : B → B → Prop) (f g : A → B) (l : list A) :
  (∀ x, In x l → R (f x) (g x)) → Forall2 R (map f l) (map g l).
Proof.
  induction l as [|a l IH]; intros H; simpl; constructor.
  - apply H. by left.
  - apply IH. intros; apply H; by right.
Qed.

Lemma update_inv_start table assignments row_ids :
  wf table → consistent table →
  update_inv table assignments row_ids table row_ids.
Proof. intros Hwf Hc. split; auto; done. Qed.

Lemma update_body_return stmt table table' n :
  wf table → consistent table → no_internal_column table →
  distinct_live table → is_dict (assignments stmt) →
  update_body stmt table = (table', Return n) →
  n = Z.of_nat (length (List.filter (accepts (update_where stmt)) (scan table)))
  ∧ Forall2 value_identical (scan table')
      (map (fun row => if accepts (update_where stmt) row
                       then updated_row row (assignments stmt) else row)
           (scan table)).
Proof.
  intros Hwf Hc Hno Hdist Hd. unfold update_body. unfold bind at 1.
  destruct (QueryPlanner.get_matching_rows table (update_where stmt))
    as [rows|e] eqn:Hm; [|done].
  destruct (matching_ids table Hwf Hc Hno _ _ Hm) as (row_ids & -> & Hnd & Hin).
  intros Hloop.
  destruct (update_loop table (assignments stmt) row_ids Hno Hdist Hd
              (fun i Hi => proj1 (proj1 (Hin i) Hi))
              row_ids table 0 table' (Return n) Hnd (fun i Hi => Hi)
              (update_inv_start table (assignments stmt) row_ids Hwf Hc)
              Hloop) as [[-> Hinv] _].
  split.
  - rewrite Z.add_0_l. f_equal. by apply matching_count.
  - rewrite (scan_live_ids table') by apply Hinv.
    rewrite (ui_live _ _ _ _ _ Hinv), (scan_live_ids table) by done.
    rewrite map_map. apply Forall2_map_same. intros i Hi.
    destruct (accepts (update_where stmt) (row_view table i)) eqn:Ha.
    + apply (ui_done _ _ _ _ _ Hinv); [|by intros []]. by apply Hin.
    + destruct (ui_status _ _ _ _ _ Hinv i Hi) as [->|[_ Hi']].
      * apply value_identical_refl.
      * apply Hin in Hi' as [_ ?]. congruence.
Qed.

Lemma update_body_total stmt table rows :
  wf table → consistent table → no_internal_column table →
  distinct_live table → is_dict (assignments stmt) →
  assignments_admissible table (assignments stmt) →
  QueryPlanner.get_matching_rows table (update_where stmt) = Return rows →
  ∃ table' n, update_body stmt table = (table', Return n).
Proof.
  intros Hwf Hc Hno Hdist Hd Hadm Hm. unfold update_body.
  rewrite (bind_run _ _ _ _ _ (f_equal (pair table) Hm)).
  destruct (matching_ids table Hwf Hc Hno _ _ Hm) as (row_ids & -> & Hnd & Hin).
  destruct (mutate_each (map (row_view table) row_ids)
              (fun row_id => update_row row_id (assignments stmt)) 0 table)
    as [table' r] eqn:Hloop.
  destruct (update_loop table (assignments stmt) row_ids Hno Hdist Hd
              (fun i Hi => proj1 (proj1 (Hin i) Hi))
              row_ids table 0 table' r Hnd (fun i Hi => Hi)
              (update_inv_start table (assignments stmt) row_ids Hwf Hc)
              Hloop) as [_ Htot].
  destruct (Htot Hadm) as [n ->]. eauto.
Qed.

Lemma on_table_return {A} name (body : M A) database table database' (a : A) :
  Database.get_table database name = Return table →
  on_table name body database = (database', Return a) →
  ∃ table', body table = (table', Return a)
            ∧ database' = Database.store name table' database.
Proof.
  intros Hg. unfold on_table. rewrite Hg.
  destruct (body table) as [table' r]. intros [= <- ->]. eauto.
Qed.

Lemma on_table_run {A} name (body : M A) database table table' (r : result A) :
  Database.get_table database name = Return table →
  body table = (table', r) →
  on_table name body database = (Database.store name table' database, r).
Proof. intros Hg Hb. unfold on_table. by rewrite Hg, Hb. Qed.

End Statements.

Lemma example_users_distinct : distinct_live Example.users.
Proof.
  intros i j Hi Hj H. vm_compute in Hi, Hj.
  destruct Hi as [<-|[<-|[]]], Hj as [<-|[<-|[]]]; try reflexivity;
    destruct (H "id") as [_ Hid]; vm_compute in Hid; discriminate.
Defined.

(** UPDATE and DELETE, on a reachable table with no column named
    [_row_id] in which no two live rows are value-identical:
    a DELETE that returns deletes exactly the live rows its WHERE
    clause accepts at call time and returns their number, and it
    returns whenever the planner returns; an UPDATE that returns has
    returned that same number and leaves a scan that differs from the
    scan at call time exactly in the accepted rows, each holding the
    assigned values (rows compared with the code's own [==]), and it
    returns whenever the planner returns and no row can make
    [update_row] reject the assignments. *)
Theorem update_delete_count_and_effect database table :
  reachable table → no_internal_column table → distinct_live table →
  (∀ stmt,
     Database.get_table database (delete_table_name stmt) = Return table →
     (∀ database' n,
        QueryExecutor._execute_delete stmt database = (database', Return n) →
        ∃ table',
          database' = Database.store (delete_table_name stmt) table' database
          ∧ n = Z.of_nat (length (List.filter (accepts (delete_where stmt))
                                              (Table.scan table)))
          ∧ Table.scan table'
            = List.filter (fun row => negb (accepts (delete_where stmt) row))
                          (Table.scan table))
     ∧ (∀ rows,
          QueryPlanner.get_matching_rows table (delete_where stmt)
          = Return rows →
          ∃ database' n,
            QueryExecutor._execute_delete stmt database
            = (database', Return n)))
  ∧ (∀ stmt,
       Database.get_table database (update_table_name stmt) = Return table →
       is_dict (assignments stmt) →
       (∀ database' n,
          QueryExecutor._execute_update stmt database = (database', Return n) →
          ∃ table',
            database' = Database.store (update_table_name stmt) table' database
            ∧ n = Z.of_nat (length (List.filter (accepts (update_where stmt))
                                                (Table.scan table)))
            ∧ Forall2 value_identical (Table.scan table')
                (map (fun row => if accepts (update_where stmt) row
                                 then updated_row row (assignments stmt)
                                 else row)
                     (Table.scan table)))
       ∧ (assignments_admissible table (assignments stmt) →
          ∀ rows,
            QueryPlanner.get_matching_rows table (update_where stmt)
            = Return rows →
            ∃ database' n,
              QueryExecutor._execute_update stmt database
              = (database', Return n))).
Proof.
  intros Hreach Hno Hdist.
  pose proof (reachable_wf _ Hreach) as Hwf.
  pose proof (reachable_consistent _ Hreach Hno) as Hcons.
  split.
  - intros stmt Hget. split.
    + intros database' n Hrun.
      apply (on_table_return _ _ _ _ _ _ Hget) in Hrun
        as (table' & Hbody & ->).
      exists table'. split; [done|].
      destruct (QueryPlanner.get_matching_rows table (delete_where stmt))
        as [rows|e] eqn:Hm.
      * destruct (delete_body_run stmt table rows Hwf Hcons Hno Hdist Hm)
          as (table'' & Hrun' & Hscan).
        rewrite Hrun' in Hbody. injection Hbody as <- <-. done.
      * unfold QueryExecutor.delete_body in Hbody.
        unfold Table.bind at 1 in Hbody. by rewrite Hm in Hbody.
    + intros rows Hm.
      destruct (delete_body_run stmt table rows Hwf Hcons Hno Hdist Hm)
        as (table' & Hrun & _).
      eexists _, _. by apply (on_table_run _ _ _ _ _ _ Hget Hrun).
  - intros stmt Hget Hd. split.
    + intros database' n Hrun.
      apply (on_table_return _ _ _ _ _ _ Hget) in Hrun
        as (table' & Hbody & ->).
      exists table'. split; [done|].
      by apply update_body_return.
    + intros Hadm rows Hm.
      destruct (update_body_total stmt table rows Hwf Hcons Hno Hdist Hd
                  Hadm Hm) as (table' & n & Hrun).
      eexists _, _. by apply (on_table_run _ _ _ _ _ _ Hget Hrun).
Qed.

Lemma update_delete_count_and_effect_witness :
  ∃ table',
    fst (QueryExecutor._execute_update Example.retire_older Example.database)
    = Database.store "users" table' Example.database
    ∧ 1 = Z.of_nat (length (List.filter (accepts (Some Example.older_than_26))
                                        (Table.scan Example.users)))
    ∧ Forall2 value_identical (Table.scan table')
        (map (fun row => if accepts (Some Example.older_than_26) row
                         then updated_row row
                                [("age", VInt 26); ("email", VNull)]
                         else row)
             (Table.scan Example.users)).
Proof.
  refine (proj1 (proj2 (update_delete_count_and_effect Example.database
                          Example.users _ _ _) Example.retire_older _ _)
            _ 1 _).
  - exact example_users_reachable.
  - exact example_users_no_internal_column.
  - exact example_users_distinct.
  - reflexivity.
  - repeat constructor; vm_compute; intros H; inversion H; subst;
      repeat match goal with
             | H : _ ∈ _ |- _ => inversion H; subst; clear H
             end.
  - vm_compute. reflexivity.
Defined.


(** ** A column named [_row_id]

    [validate_identifier] accepts the name [_row_id], the key under
    which [insert_row] keeps a stored row's identifier (table.py:171),
    so a schema can declare such a column and [update_row] can then
    overwrite the identifier of a stored row (table.py:253).  The
    index entries of that row still name the old identifier.  The
    statements below evaluate the code on two such tables. *)

Local Ltac example_reachable name columns ops table0 :=
  exists name, columns, ops, table0;
  split; [repeat constructor|];
  split; [reflexivity|];
  split; [|reflexivity];
  repeat constructor; vm_compute; repeat constructor; intros H; inversion H;
    subst; try discriminate;
    repeat match goal with
           | H : _ ∈ _ |- _ => inversion H; subst; clear H; try discriminate
           end.

Lemma example_tagged_reachable : reachable Example.tagged.
Proof.
  example_reachable "tagged" Example.tagged_columns Example.tagged_ops
                    Example.empty_tagged.
Qed.

Lemma example_keyed_reachable : reachable Example.keyed.
Proof.
  example_reachable "keyed" Example.keyed_columns Example.keyed_ops
                    Example.empty_keyed.
Qed.

(** C1. On the table [tagged], built by the constructor and then
    [insert_row({"email": "a"})] and [update_row(0, {"_row_id": 99})],
    the planner answers [email = 'a'] from the index on [email] and
    returns no row, while the full scan filtered through the evaluator
    returns the one live row. *)
Theorem planner_misses_scanned_row :
  reachable Example.tagged
  ∧ QueryPlanner.get_matching_rows Example.tagged (Some Example.email_is_a)
    = Return []
  ∧ QueryPlanner.filter_rows Example.email_is_a (Table.scan Example.tagged)
    = Return [ {[ "email" := VStr "a" ]} ].
Proof.
  split; [exact example_tagged_reachable|].
  split; vm_compute; reflexivity.
Qed.

(** C2. On the same table the index on [email] answers the search for
    ['a'] with the identifier 0, under which [get_row] finds no row:
    the one live row, whose [email] is ['a'], is the row 99. *)
Theorem index_names_identifier_of_no_row :
  reachable Example.tagged
  ∧ (∃ index, Table.get_index Example.tagged "email" = Some index
              ∧ HashIndex.search index (VStr "a") = [0])
  ∧ Table.get_row Example.tagged 0 = None
  ∧ Table.get_row Example.tagged 99 = Some {[ "email" := VStr "a" ]}.
Proof.
  split; [exact example_tagged_reachable|].
  split; [eexists; split; vm_compute; reflexivity|].
  split; vm_compute; reflexivity.
Qed.

(** C4. On the table [keyed], with primary key [id], built by the
    constructor and then [insert_row({"id": 1})] and
    [update_row(0, {"_row_id": 99})]: the one live row holds [id = 1];
    [delete_row(99)] returns true and leaves no live row; yet inserting
    a row with [id = 1] afterwards raises the duplicate-key error. *)
Theorem primary_key_not_freed_by_delete :
  reachable Example.keyed
  ∧ Table.scan Example.keyed = [ {[ "id" := VInt 1 ]} ]
  ∧ ∃ table1,
      Table.delete_row 99 Example.keyed = (table1, Return true)
      ∧ Table.scan table1 = []
      ∧ Table.insert_row [("id", VInt 1)] table1
        = (table1, Raise (DuplicateKeyError "id" (VInt 1))).
Proof.
  split; [exact example_keyed_reachable|].
  split; [vm_compute; reflexivity|].
  eexists. split; [vm_compute; reflexivity|].
  split; vm_compute; reflexivity.
Qed.

(** C7. On the table [tagged], whose one live row the WHERE clause
    [email = 'a'] accepts, [DELETE FROM tagged WHERE email = 'a']
    returns 0 and deletes nothing. *)
Theorem delete_statement_misses_accepted_row :
  reachable Example.tagged
  ∧ Table.scan Example.tagged = [ {[ "email" := VStr "a" ]} ]
  ∧ accepts (Some Example.email_is_a) {[ "email" := VStr "a" ]} = true
  ∧ QueryExecutor._execute_delete Example.delete_a Example.tagged_database
    = (Example.tagged_database, Return 0).
Proof.
  split; [exact example_tagged_reachable|].
  repeat split; vm_compute; reflexivity.
Qed.
(** ** More on the hash index *)

Section IndexRoundTrip.
Implicit Types index : HashIndex.t.









Lemma index_run_app ops1 ops2 index :
    index_run (ops1 ++ ops2) index = index_run ops2 (index_run ops1 index).
  Proof. apply fold_left_app. Qed.



End IndexRoundTrip.




(** ** What the methods of a table do to its rows *)

Section TableViews.
Import Table.

Lemma live_count table :
  consistent table →
  (length (live_ids table) + size (_deleted_row_ids table)
   = length (_rows table))%nat.
Proof.
  intros Hc.
  set (range := map Z.of_nat (seq 0 (length (_rows table)))).
  set (gone := List.filter
                 (fun i => bool_decide (i ∈ _deleted_row_ids table)) range).
  assert (NoDup range) as Hnd.
  { apply NoDup_fmap_2; [apply Nat2Z.inj'|].
    apply NoDup_ListNoDup, List.seq_NoDup. }
  assert (_deleted_row_ids table = list_to_set gone) as Hset.
  { apply set_eq. intros x. rewrite elem_of_list_to_set, list_elem_of_In.
    unfold gone. rewrite filter_In, bool_decide_eq_true. split; [|tauto].
    intros Hx. split; [|done].
    pose proof (cons_deleted _ Hc _ Hx) as Hb.
    rewrite (cons_next _ Hc) in Hb.
    apply in_map_iff. exists (Z.to_nat x). split; [lia|].
    apply in_seq. lia. }
  rewrite Hset, size_list_to_set.
  2:{ apply NoDup_ListNoDup, List.NoDup_filter. by apply NoDup_ListNoDup. }
  unfold live_ids, gone. fold range.
  replace (length (_rows table)) with (length range)
    by (unfold range; by rewrite length_map, length_seq).
  rewrite Nat.add_comm.
  apply (List.filter_length
           (fun i => bool_decide (i ∈ _deleted_row_ids table)) range).
Qed.

Lemma complete_row_no_id table row_data :
  no_internal_column table →
  complete_row_of (columns table) row_data ∅ !! "_row_id" = None.
Proof.
  intros Hno. rewrite complete_row_of_lookup.
  unfold no_internal_column, has_column in Hno. by rewrite Hno.
Qed.

Lemma strip_stored table row_data row_id :
  no_internal_column table →
  _strip_internal_id
    (<["_row_id" := VInt row_id]> (complete_row_of (columns table) row_data ∅))
  = complete_row_of (columns table) row_data ∅.
Proof.
  intros Hno. unfold _strip_internal_id.
  rewrite delete_insert_eq. apply delete_id.
  by apply complete_row_no_id.
Qed.

Lemma insert_commit_get_row table row_data i :
  wf table → consistent table → no_internal_column table →
  insert_accepts table row_data →
  get_row (insert_commit table (complete_row_of (columns table) row_data ∅)) i
  = if Z.eqb i (_next_row_id table)
    then Some (complete_row_of (columns table) row_data ∅)
    else get_row table i.
Proof.
  intros Hwf Hc Hno Hacc.
  pose proof (consistent_insert_commit table row_data Hwf Hc Hno Hacc) as Hc'.
  rewrite !get_row_consistent by done.
  rewrite (insert_row_at table row_data Hc).
  change (not_deleted (insert_commit table _) i) with (not_deleted table i).
  destruct (Z.eqb_spec i (_next_row_id table)) as [->|Hne]; [|done].
  pose proof (insert_new_id_fresh table Hc) as Hfresh.
  apply not_deleted_true in Hfresh. rewrite Hfresh.
  by rewrite strip_stored.
Qed.

Lemma insert_commit_scan table row_data :
  consistent table → no_internal_column table →
  scan (insert_commit table (complete_row_of (columns table) row_data ∅))
  = (scan table ++ [complete_row_of (columns table) row_data ∅])%list.
Proof.
  intros Hc Hno. unfold scan. rewrite insert_rows.
  rewrite List.filter_app, map_app. f_equal. simpl.
  unfold row_deleted at 1. simpl. rewrite lookup_insert_eq. simpl.
  pose proof (insert_new_id_fresh table Hc) as Hfresh.
  rewrite bool_decide_eq_false_2 by done. simpl.
  by rewrite strip_stored.
Qed.

Lemma update_commit_get_row table row_id raw updates i :
  consistent table → no_internal_column table →
  row_at table row_id = Some raw → row_id ∉ _deleted_row_ids table →
  is_dict updates → update_accepts table row_id updates →
  get_row (update_commit table row_id (Z.to_nat row_id) raw updates) i
  = if Z.eqb i row_id
    then Some (updated_row (_strip_internal_id raw) updates)
    else get_row table i.
Proof.
  intros Hc Hno Hrow Hlive Hd Hacc.
  pose proof (consistent_update_commit table row_id raw updates
                Hc Hno Hrow Hlive Hd Hacc) as Hc'.
  rewrite !get_row_consistent by done.
  rewrite (update_row_at table row_id raw updates Hrow).
  change (not_deleted (update_commit table row_id _ raw updates) i)
    with (not_deleted table i).
  destruct (Z.eqb_spec i row_id) as [->|Hne]; [|done].
  apply not_deleted_true in Hlive. rewrite Hlive.
  rewrite strip_updated_row; [done|done|].
  by eapply update_accepts_no_id.
Qed.

Lemma delete_commit_get_row table row_id raw i :
  wf table → consistent table → row_at table row_id = Some raw →
  get_row (delete_commit table row_id raw) i
  = if Z.eqb i row_id then None else get_row table i.
Proof.
  intros Hwf Hc Hrow.
  pose proof (consistent_delete_commit table row_id raw Hwf Hc Hrow) as Hc'.
  rewrite !get_row_consistent by done.
  change (row_at (delete_commit table row_id raw) i) with (row_at table i).
  unfold not_deleted. simpl.
  destruct (Z.eqb_spec i row_id) as [->|Hne].
  - rewrite bool_decide_eq_true_2 by set_solver. simpl.
    by destruct (row_at table row_id).
  - destruct (row_at table i) as [row|]; [|done].
    assert (bool_decide (i ∈ ({[row_id]} ∪ _deleted_row_ids table : gset Z))
            = bool_decide (i ∈ _deleted_row_ids table)) as ->; [|done].
    apply bool_decide_ext. rewrite elem_of_union, elem_of_singleton. tauto.
Qed.

Lemma get_row_cases table row_id :
  consistent table →
  match get_row table row_id with
  | Some view =>
      ∃ raw, row_at table row_id = Some raw
             ∧ (row_id ∉ _deleted_row_ids table)
             ∧ view = _strip_internal_id raw
             ∧ find_row table row_id (_rows table) 0
               = Some (Z.to_nat row_id, raw)
  | None => find_row table row_id (_rows table) 0 = None
  end.
Proof.
  intros Hc. rewrite get_row_consistent, find_row_consistent by done.
  destruct (row_at table row_id) as [raw|] eqn:Hrow; [|done].
  destruct (not_deleted table row_id) eqn:Hd; [|done].
  exists raw. apply not_deleted_true in Hd. done.
Qed.

Lemma row_count_commit_insert table cr :
  row_count (insert_commit table cr) = row_count table + 1.
Proof.
  unfold row_count, insert_commit. simpl. rewrite length_app. simpl. lia.
Qed.

End TableViews.

(** X4. On a reachable table with no column named [_row_id],
    [row_count] is the number of rows a [scan] yields. *)
Theorem row_count_is_scan_length table :
  reachable table → no_internal_column table →
  Table.row_count table = Z.of_nat (length (Table.scan table)).
Proof.
  intros Hreach Hno.
  pose proof (reachable_consistent _ Hreach Hno) as Hc.
  rewrite scan_live_ids, length_map by done.
  pose proof (live_count table Hc). unfold Table.row_count. lia.
Qed.

Lemma row_count_is_scan_length_witness :
  Table.row_count Example.users = Z.of_nat (length (Table.scan Example.users)).
Proof.
  apply row_count_is_scan_length.
  - exact example_users_reachable.
  - exact example_users_no_internal_column.
Defined.

(** X5. When [insert_row] returns on a reachable table with no column
    named [_row_id], the identifier it returns was never in use (no
    live and no deleted row has it),
    [get_row] on it now gives the inserted row, in which every column
    of the table holds the value given for it or [None] when none was
    given, every other [get_row] is as before, and [scan] yields the
    earlier rows followed by the new one. *)
Theorem insert_row_then_get_row table row_data table' row_id :
  reachable table → no_internal_column table →
  Table.insert_row row_data table = (table', Return row_id) →
  let new_row := complete_row_of (Table.columns table) row_data ∅ in
  Table.get_row table row_id = None
  ∧ (row_id ∉ Table._deleted_row_ids table)
  ∧ Table.get_row table' row_id = Some new_row
  ∧ (∀ c, new_row !! c
          = if Table.has_column table c
            then Some (default VNull (dict_get String.eqb c row_data))
            else None)
  ∧ (∀ i, i ≠ row_id → Table.get_row table' i = Table.get_row table i)
  ∧ Table.scan table' = (Table.scan table ++ [new_row])%list
  ∧ Table.row_count table' = Table.row_count table + 1.
Proof.
  intros Hreach Hno Hrun new_row.
  pose proof (reachable_wf _ Hreach) as Hwf.
  pose proof (reachable_consistent _ Hreach Hno) as Hc.
  destruct (insert_row_return _ _ _ _ Hwf Hrun) as (Hacc & -> & ->).
  split; [|split; [|split; [|split; [|split; [|split]]]]].
  - rewrite get_row_consistent by done. by rewrite insert_row_at_old.
  - by apply insert_new_id_fresh.
  - rewrite insert_commit_get_row by done. by rewrite Z.eqb_refl.
  - intros c. unfold new_row. rewrite complete_row_of_lookup.
    unfold Table.has_column. by rewrite lookup_empty.
  - intros i Hi. rewrite insert_commit_get_row by done.
    by rewrite (proj2 (Z.eqb_neq _ _) Hi).
  - by apply insert_commit_scan.
  - apply row_count_commit_insert.
Qed.

Lemma insert_row_then_get_row_witness :
  Table.get_row (fst (Table.insert_row Example.bob Example.empty_users)) 0
  = Some (complete_row_of (Table.columns Example.empty_users) Example.bob ∅).
Proof.
  refine (proj1 (proj2 (proj2
    (insert_row_then_get_row Example.empty_users Example.bob
       (fst (Table.insert_row Example.bob Example.empty_users)) 0 _ _ _)))).
  - exists "users", Example.users_columns, [], Example.empty_users.
    split; [|split; [|split]]; try reflexivity.
    + repeat constructor.
    + constructor.
  - reflexivity.
  - vm_compute. reflexivity.
Defined.

(** X6. On a reachable table with no column named [_row_id],
    [delete_row] returns [True] exactly when the row is live; then [get_row] on that identifier gives [None],
    every other [get_row] is as before, the count of rows drops by
    one, and deleting the same identifier again returns [False].  When
    the row is not live it returns [False] and the table is as it
    was. *)
Theorem delete_row_effect table row_id :
  reachable table → no_internal_column table →
  match Table.get_row table row_id with
  | Some _ =>
      ∃ table',
        Table.delete_row row_id table = (table', Return true)
        ∧ Table.get_row table' row_id = None
        ∧ (∀ i, i ≠ row_id → Table.get_row table' i = Table.get_row table i)
        ∧ Table.row_count table' = Table.row_count table - 1
        ∧ Table.delete_row row_id table' = (table', Return false)
  | None => Table.delete_row row_id table = (table, Return false)
  end.
Proof.
  intros Hreach Hno.
  pose proof (reachable_wf _ Hreach) as Hwf.
  pose proof (reachable_consistent _ Hreach Hno) as Hc.
  pose proof (get_row_cases table row_id Hc) as Hcases.
  destruct (Table.get_row table row_id) as [view|].
  - destruct Hcases as (raw & Hrow & Hlive & -> & Hfind).
    pose proof (wf_delete_commit table row_id raw Hwf) as Hwf'.
    pose proof (consistent_delete_commit table row_id raw Hwf Hc Hrow) as Hc'.
    assert (Table.get_row (delete_commit table row_id raw) row_id = None)
      as Hgone.
    { rewrite delete_commit_get_row by done. by rewrite Z.eqb_refl. }
    exists (delete_commit table row_id raw).
    split; [|split; [|split; [|split]]].
    + by rewrite delete_row_run, Hfind.
    + done.
    + intros i Hi. rewrite delete_commit_get_row by done.
      by rewrite (proj2 (Z.eqb_neq _ _) Hi).
    + unfold Table.row_count. simpl.
      rewrite size_union, size_singleton by set_solver. lia.
    + rewrite delete_row_run by done.
      pose proof (get_row_cases _ row_id Hc') as H. rewrite Hgone in H.
      by rewrite H.
  - by rewrite delete_row_run, Hcases.
Qed.

Lemma delete_row_effect_witness :
  ∃ table',
    Table.delete_row 0 Example.users = (table', Return true)
    ∧ Table.get_row table' 0 = None
    ∧ (∀ i, i ≠ 0 → Table.get_row table' i = Table.get_row Example.users i)
    ∧ Table.row_count table' = Table.row_count Example.users - 1
    ∧ Table.delete_row 0 table' = (table', Return false).
Proof.
  exact (delete_row_effect Example.users 0 example_users_reachable
           example_users_no_internal_column).
Defined.

(** X7. On a reachable table with no column named [_row_id],
    [update_row] on an identifier that has no live row returns [False] and leaves the table as it was,
    whatever the updates are (they are not validated); and when it
    returns [True], [get_row] on that identifier gives the earlier row
    with the updated columns replaced, while every other [get_row] and
    the number of rows are as before. *)
Theorem update_row_effect table row_id updates :
  reachable table → no_internal_column table → is_dict updates →
  (Table.get_row table row_id = None →
   Table.update_row row_id updates table = (table, Return false))
  ∧ (∀ table',
       Table.update_row row_id updates table = (table', Return true) →
       ∃ old_row,
         Table.get_row table row_id = Some old_row
         ∧ Table.get_row table' row_id = Some (updated_row old_row updates)
         ∧ (∀ c, updated_row old_row updates !! c
                 = match dict_get String.eqb c updates with
                   | Some v => Some v
                   | None => old_row !! c
                   end)
         ∧ (∀ i, i ≠ row_id → Table.get_row table' i = Table.get_row table i)
         ∧ Table.row_count table' = Table.row_count table).
Proof.
  intros Hreach Hno Hd.
  pose proof (reachable_wf _ Hreach) as Hwf.
  pose proof (reachable_consistent _ Hreach Hno) as Hc.
  pose proof (get_row_cases table row_id Hc) as Hcases.
  split.
  - intros Hnone. rewrite Hnone in Hcases.
    apply (update_row_cases row_id updates table); [done|].
    by rewrite Hcases.
  - intros table'.
    apply (update_row_cases row_id updates table); [done|].
    destruct (Table.get_row table row_id) as [view|].
    + destruct Hcases as (raw & Hrow & Hlive & -> & ->). split.
      * intros Hacc [= <-]. exists (Table._strip_internal_id raw).
        split; [done|]. split; [|split; [|split]].
        -- rewrite update_commit_get_row by done. by rewrite Z.eqb_refl.
        -- intros c. by apply updated_row_lookup.
        -- intros i Hi. rewrite update_commit_get_row by done.
           by rewrite (proj2 (Z.eqb_neq _ _) Hi).
        -- unfold Table.row_count. simpl. by rewrite length_insert.
      * intros e _ [=].
    + rewrite Hcases. intros [=].
Qed.

Lemma update_row_effect_witness :
  ∃ old_row,
    Table.get_row Example.users 0 = Some old_row
    ∧ Table.get_row
        (fst (Table.update_row 0 [("age", VInt 31)] Example.users)) 0
      = Some (updated_row old_row [("age", VInt 31)])
    ∧ (∀ c, updated_row old_row [("age", VInt 31)] !! c
            = match dict_get String.eqb c [("age", VInt 31)] with
              | Some v => Some v
              | None => old_row !! c
              end)
    ∧ (∀ i, i ≠ 0 →
         Table.get_row
           (fst (Table.update_row 0 [("age", VInt 31)] Example.users)) i
         = Table.get_row Example.users i)
    ∧ Table.row_count
        (fst (Table.update_row 0 [("age", VInt 31)] Example.users))
      = Table.row_count Example.users.
Proof.
  refine (proj2 (update_row_effect Example.users 0 [("age", VInt 31)]
                   example_users_reachable example_users_no_internal_column _)
            _ _).
  - repeat constructor. intros H. inversion H.
  - vm_compute. reflexivity.
Defined.
(** ** Invariants of the stored rows *)

Section TableInvariants.
Import Table.

Lemma apply_op_step op table :
  wf table → consistent table → op_ok op → step table (apply_op op table).
Proof.
  intros Hwf Hc Hop. destruct op as [rd|rid ups|rid|c|c]; simpl.
  - apply (insert_row_cases rd table); [done| |intros; constructor].
    intros Hacc. by constructor.
  - apply (update_row_cases rid ups table); [done|].
    rewrite find_row_consistent by done.
    destruct (row_at table rid) as [old|] eqn:Hrow; [|constructor].
    destruct (not_deleted table rid) eqn:Hnd; [|constructor].
    apply not_deleted_true in Hnd.
    split; [|intros; constructor]. intros Hacc. simpl. by constructor.
  - rewrite delete_row_run, find_row_consistent by done.
    destruct (row_at table rid) as [row|] eqn:Hrow; [|constructor].
    destruct (not_deleted table rid) eqn:Hnd; [|constructor].
    apply not_deleted_true in Hnd. simpl. by constructor.
  - rewrite create_index_run.
    destruct (has_column table c) eqn:Hcol; simpl; [|constructor].
    destruct (has_index table c) eqn:Hi; simpl; [constructor|].
    destruct (populate table c (_rows table) (HashIndex.init c))
      as [index|e] eqn:Hp; simpl; [|constructor].
    by constructor.
  - rewrite drop_index_run.
    destruct (dict_get String.eqb c (columns table)) as [col|] eqn:G.
    + destruct (Column.is_primary_key col || Column.is_unique col) eqn:E;
        simpl; [constructor|].
      apply step_drop. intros col' H. rewrite G in H. injection H as <-.
      by apply is_unique_false.
    + simpl. apply step_drop. intros col' H. by rewrite G in H.
Qed.

Lemma step_columns table table' :
  step table table' → columns table' = columns table.
Proof. by intros []. Qed.

Lemma conforms_step table table' :
  wf table → no_internal_column table →
  step table table' → conforms table → conforms table'.
Proof.
  intros Hwf Hno Hstep Hconf.
  destruct Hstep as [|rd Hacc|rid raw ups Hrow Hlive Hd Hacc|rid raw Hrow Hlive
                     |c index _ _ _|c _]; try done.
  - intros row c column Hin Hcol. simpl in Hcol.
    rewrite insert_rows in Hin. apply in_app_iff in Hin as [Hin|[<-|[]]];
      [by apply Hconf|].
    assert (c ≠ "_row_id") as Hne.
    { intros ->. unfold no_internal_column, has_column, dict_mem in Hno.
      by rewrite Hcol in Hno. }
    unfold value_at. rewrite lookup_insert_ne by done.
    rewrite complete_row_of_lookup. unfold dict_mem. rewrite Hcol. simpl.
    destruct Hacc as (_ & Hval & _). apply Hval. by apply sdict_get_In.
  - intros row c column Hin Hcol. simpl in Hin, Hcol.
    apply In_list_insert in Hin as [->|Hin]; [|by apply Hconf].
    unfold value_at. rewrite updated_row_lookup by done.
    destruct (dict_get String.eqb c ups) as [v|] eqn:G.
    + apply sdict_get_In in G.
      destruct (Hacc c v G) as (column' & Hcol' & _ & Hval & _).
      rewrite Hcol in Hcol'. injection Hcol' as <-. done.
    + apply (Hconf raw c column); [|done]. by eapply row_at_In.
Qed.

Lemma run_conforms ops : ∀ table,
  wf table → consistent table → no_internal_column table →
  Forall op_ok ops → conforms table → conforms (run ops table).
Proof.
  induction ops as [|op ops IH]; intros table Hwf Hc Hno Hok Hconf; [done|].
  apply Forall_cons in Hok as [Hop Hok]. simpl.
  destruct (apply_op_wf op table Hwf) as [Hwf' Hs].
  apply IH; auto.
  - by apply apply_op_consistent.
  - by eapply no_internal_column_schema.
  - apply (conforms_step table); auto. by apply apply_op_step.
Qed.

Lemma reachable_conforms table :
  reachable table → no_internal_column table → conforms table.
Proof.
  intros (name & cols & ops & t0 & Hvalid & Hinit & Hok & ->) Hno.
  destruct (init_spec name cols t0 Hvalid Hinit) as [He _].
  pose proof (empty_table_wf _ He) as Hwf.
  apply run_conforms; auto.
  - by eapply empty_table_consistent.
  - destruct (run_wf ops t0 Hwf) as [_ Hs].
    unfold no_internal_column, has_column in *.
    destruct Hs as (_ & Hcols & _). by rewrite <- Hcols.
  - destruct He as (Hr & _). intros row c column Hin. by rewrite Hr in Hin.
Qed.

Lemma validate_not_null column c :
  Column.is_not_null column = true →
  Column.validate column VNull c ≠ Return tt.
Proof. unfold Column.validate. simpl. by intros ->. Qed.

Lemma get_row_set_indexes f table row_id :
  get_row (set_indexes f table) row_id = get_row table row_id.
Proof.
  unfold get_row. simpl.
  assert (∀ rows n, find_row (set_indexes f table) row_id rows n
                    = find_row table row_id rows n) as ->; [|done].
  induction rows as [|r rows IH]; intros n; simpl; [done|]. by rewrite IH.
Qed.

(** The fate of a live row over one call. *)
Lemma step_get_row table table' c column row_id row :
  wf table → consistent table → no_internal_column table →
  step table table' →
  dict_get String.eqb c (columns table) = Some column →
  Column.is_primary_key column = true →
  get_row table row_id = Some row →
  (∃ row', get_row table' row_id = Some row' ∧ row' !! c = row !! c)
  ∨ row_id ∈ _deleted_row_ids table'.
Proof.
  intros Hwf Hc Hno Hstep Hcol Hpk Hget.
  destruct Hstep as [|rd Hacc|rid raw ups Hrow Hlive Hd Hacc|rid raw Hrow Hlive
                     |c' index _ _ _|c' _]; try (left; by eauto).
  - left. exists row. split; [|done].
    rewrite insert_commit_get_row by done.
    destruct (Z.eqb_spec row_id (_next_row_id table)) as [->|Hne]; [|done].
    rewrite get_row_consistent, insert_row_at_old in Hget by done. done.
  - left. rewrite update_commit_get_row by done.
    destruct (Z.eqb_spec row_id rid) as [->|Hne]; [|by eauto].
    eexists. split; [done|].
    rewrite get_row_consistent, Hrow in Hget by done.
    apply not_deleted_true in Hlive. rewrite Hlive in Hget.
    injection Hget as <-.
    rewrite updated_row_lookup by done.
    destruct (dict_get String.eqb c ups) as [v|] eqn:G; [|done].
    apply sdict_get_In in G.
    destruct (Hacc c v G) as (column' & Hcol' & Hpk' & _).
    rewrite Hcol in Hcol'. injection Hcol' as <-. congruence.
  - destruct (Z.eqb_spec row_id rid) as [->|Hne].
    + right. simpl. set_solver.
    + left. exists row. split; [|done].
      rewrite delete_commit_get_row by done.
      by rewrite (proj2 (Z.eqb_neq _ _) Hne).
  - left. exists row. by rewrite get_row_set_indexes.
  - left. exists row. by rewrite get_row_set_indexes.
Qed.

Lemma run_get_row ops : ∀ table c column row_id row row',
  wf table → consistent table → no_internal_column table →
  Forall op_ok ops →
  dict_get String.eqb c (columns table) = Some column →
  Column.is_primary_key column = true →
  get_row table row_id = Some row →
  get_row (run ops table) row_id = Some row' →
  row' !! c = row !! c.
Proof.
  induction ops as [|op ops IH];
    intros table c column row_id row row' Hwf Hc Hno Hok Hcol Hpk Hget Hget'.
  - simpl in Hget'. congruence.
  - apply Forall_cons in Hok as [Hop Hok]. simpl in Hget'.
    destruct (apply_op_wf op table Hwf) as [Hwf1 Hs].
    pose proof (apply_op_consistent op table Hwf Hc Hno Hop) as Hc1.
    pose proof (no_internal_column_schema _ _ Hs Hno) as Hno1.
    pose proof (apply_op_step op table Hwf Hc Hop) as Hstep.
    destruct (step_get_row _ _ c column row_id row Hwf Hc Hno Hstep Hcol Hpk
                Hget) as [(row1 & Hget1 & <-)|Hdel].
    + apply (IH (apply_op op table) c column row_id row1 row'); auto.
      by rewrite (step_columns _ _ Hstep).
    + exfalso. apply (run_deleted ops) in Hdel; [|done].
      assert (consistent (run ops (apply_op op table))) as Hc2
        by (by apply run_consistent).
      rewrite get_row_consistent in Hget' by done.
      destruct (row_at _ row_id); [|done].
      unfold not_deleted in Hget'.
      by rewrite bool_decide_eq_true_2 in Hget'.
Qed.

Lemma unique_holders table c column i j row_i row_j v w :
  wf table → consistent table → no_internal_column table →
  dict_get String.eqb c (columns table) = Some column →
  Column.is_unique column = true →
  get_row table i = Some row_i → get_row table j = Some row_j →
  row_i !! c = Some v → row_j !! c = Some w →
  is_none v = false → py_eq v w = true → i = j.
Proof.
  intros Hwf Hc Hno Hcol Hu Hi Hj Hv Hw Hnn Heq.
  pose proof (cons_mandatory _ Hc _ _ Hcol Hu) as Hidx.
  pose proof (indexed_not_internal _ _ Hwf Hno Hidx) as Hne.
  unfold has_index, dict_mem in Hidx.
  destruct (dict_get String.eqb c (_indexes table)) as [index|] eqn:G; [|done].
  destruct (cons_index _ Hc c index G) as [_ Hex].
  pose proof (cons_unique _ Hc c column index v Hcol Hu G) as Hlen.
  assert (In i (HashIndex.search index v)) as H1.
  { apply (Hex v Hnn). apply (holds_value_get_row table c v i Hc Hne).
    exists row_i, v. by rewrite py_eq_refl. }
  assert (In j (HashIndex.search index v)) as H2.
  { apply (Hex v Hnn). apply (holds_value_get_row table c v j Hc Hne).
    exists row_j, w. by rewrite py_eq_sym. }
  destruct (HashIndex.search index v) as [|a [|b l]]; simpl in *;
    [done| |lia].
  destruct H1 as [<-|[]], H2 as [<-|[]]. done.
Qed.

End TableInvariants.

(** X8. Every live row of a reachable table with no column named
    [_row_id] conforms to the schema: it has a value for every column of the table, and that value passes
    the column's own validation (type, VARCHAR length, NOT NULL); in
    particular a NOT NULL or PRIMARY KEY column never holds [None]. *)
Theorem live_rows_conform_to_schema table row_id row c column :
  reachable table → no_internal_column table →
  Table.get_row table row_id = Some row →
  dict_get String.eqb c (Table.columns table) = Some column →
  ∃ v, row !! c = Some v
       ∧ Column.validate column v c = Return tt
       ∧ (Column.is_not_null column = true → v ≠ VNull).
Proof.
  intros Hreach Hno Hget Hcol.
  pose proof (reachable_wf _ Hreach) as Hwf.
  pose proof (reachable_consistent _ Hreach Hno) as Hc.
  pose proof (reachable_conforms _ Hreach Hno) as Hconf.
  destruct (get_row_Some _ _ _ Hc Hget) as (raw & Hrow & Hlive & -> & _).
  pose proof (row_at_In _ _ _ Hrow) as Hin.
  assert (c ≠ "_row_id") as Hne.
  { intros ->. unfold no_internal_column, Table.has_column, dict_mem in Hno.
    by rewrite Hcol in Hno. }
  destruct Hwf as (_ & _ & _ & Hrows).
  destruct (Hrows raw Hin c) as [v Hv].
  { unfold Table.has_column, dict_mem. by rewrite Hcol. }
  exists v. rewrite strip_lookup by done.
  pose proof (Hconf raw c column Hin Hcol) as Hval.
  unfold value_at in Hval. rewrite Hv in Hval. simpl in Hval.
  split; [done|]. split; [done|].
  intros Hnn ->. by apply (validate_not_null column c Hnn).
Qed.

Lemma live_rows_conform_to_schema_witness :
  ∃ v, row_view Example.users 0 !! "email" = Some v
       ∧ Column.validate (Column.mk "email" VARCHAR (Some 10) [UNIQUE]) v "email"
         = Return tt
       ∧ (Column.is_not_null (Column.mk "email" VARCHAR (Some 10) [UNIQUE])
          = true → v ≠ VNull).
Proof.
  apply (live_rows_conform_to_schema Example.users 0).
  - exact example_users_reachable.
  - exact example_users_no_internal_column.
  - reflexivity.
  - reflexivity.
Defined.

(** X9. In a reachable table with no column named [_row_id], two
    different live rows never hold equal non-null values in a UNIQUE
    or PRIMARY KEY column. *)
Theorem unique_column_values_are_distinct
    table c column i j row_i row_j v w :
  reachable table → no_internal_column table →
  dict_get String.eqb c (Table.columns table) = Some column →
  Column.is_unique column = true →
  Table.get_row table i = Some row_i → Table.get_row table j = Some row_j →
  row_i !! c = Some v → row_j !! c = Some w →
  v ≠ VNull → i ≠ j → py_eq v w = false.
Proof.
  intros Hreach Hno Hcol Hu Hi Hj Hv Hw Hnn Hij.
  pose proof (reachable_wf _ Hreach) as Hwf.
  pose proof (reachable_consistent _ Hreach Hno) as Hc.
  destruct (py_eq v w) eqn:Heq; [|done]. destruct Hij.
  apply (unique_holders table c column i j row_i row_j v w); auto.
  by destruct v.
Qed.

Lemma unique_column_values_are_distinct_witness :
  py_eq (VStr "a") (VStr "b") = false.
Proof.
  apply (unique_column_values_are_distinct Example.users "email"
           (Column.mk "email" VARCHAR (Some 10) [UNIQUE]) 0 1
           (row_view Example.users 0) (row_view Example.users 1)).
  - exact example_users_reachable.
  - exact example_users_no_internal_column.
  - reflexivity.
  - reflexivity.
  - reflexivity.
  - reflexivity.
  - reflexivity.
  - reflexivity.
  - discriminate.
  - discriminate.
Defined.

(** X10. The primary key of a row never changes: whatever calls of
    [insert_row], [update_row], [delete_row], [create_index] and
    [drop_index] follow on a reachable table with no column named
    [_row_id], a row that is live
    before and after them holds the same value in the PRIMARY KEY
    column (and a row deleted in between is not live afterwards). *)
Theorem primary_key_value_never_changes
    table ops c column row_id row row' :
  reachable table → no_internal_column table → Forall op_ok ops →
  dict_get String.eqb c (Table.columns table) = Some column →
  Column.is_primary_key column = true →
  Table.get_row table row_id = Some row →
  Table.get_row (run ops table) row_id = Some row' →
  row' !! c = row !! c.
Proof.
  intros Hreach Hno Hok Hcol Hpk Hget Hget'.
  pose proof (reachable_wf _ Hreach) as Hwf.
  pose proof (reachable_consistent _ Hreach Hno) as Hc.
  by apply (run_get_row ops table c column row_id row row').
Qed.

Lemma primary_key_value_never_changes_witness :
  row_view (run [UpdateRow 0 [("age", VInt 31)]; DeleteRow 1] Example.users) 0
    !! "id"
  = row_view Example.users 0 !! "id".
Proof.
  apply (primary_key_value_never_changes Example.users
           [UpdateRow 0 [("age", VInt 31)]; DeleteRow 1] "id"
           (Column.mk "id" INTEGER None [PRIMARY_KEY]) 0).
  - exact example_users_reachable.
  - exact example_users_no_internal_column.
  - repeat constructor. intros H. inversion H.
  - reflexivity.
  - reflexivity.
  - reflexivity.
  - vm_compute. reflexivity.
Defined.
(** ** Creating and dropping indexes; the constructor *)

Section IndexDDL.
Import Table.

Lemma scan_set_indexes f table :
  scan (set_indexes f table) = scan table.
Proof. reflexivity. Qed.

Lemma set_indexes_back f g table :
  f (g (_indexes table)) = _indexes table →
  set_indexes f (set_indexes g table) = table.
Proof. destruct table. simpl. unfold set_indexes. simpl. by intros ->. Qed.

Lemma sdict_del_set {V} k (v : V) d :
  dict_get String.eqb k d = None →
  dict_del String.eqb k (dict_set String.eqb k v d) = d.
Proof.
  induction d as [|[k0 v0] d IH]; simpl.
  - by rewrite String.eqb_refl.
  - destruct (String.eqb k k0) eqn:E; simpl; [done|]. rewrite E.
    intros H. by rewrite IH.
Qed.

Lemma is_unique_or column :
  Column.is_primary_key column || Column.is_unique column
  = Column.is_unique column.
Proof.
  unfold Column.is_unique.
  by destruct (Column.is_primary_key column), (Column.has_constraint _ _).
Qed.

Lemma create_index_indexes c table c' :
  has_index (fst (create_index c table)) c' = true →
  c' = c ∨ has_index table c' = true.
Proof.
  rewrite create_index_run.
  destruct (has_column table c); simpl; [|auto].
  destruct (has_index table c); simpl; [auto|].
  destruct (populate _ _ _ _); simpl; [|auto].
  unfold has_index. simpl.
  rewrite dict_mem_set by eauto using String.eqb_sym, string_eqb_trans.
  destruct (String.eqb_spec c' c); auto.
Qed.

Lemma init_loop_only (l : list Column.t) : ∀ self c,
  has_index
    (fst (for_each l (fun col =>
            if Column.is_primary_key col || Column.is_unique col
            then create_index (Column.name col) else ret tt) self)) c = true →
  has_index self c = true
  ∨ ∃ col, In col l ∧ Column.name col = c ∧ Column.is_unique col = true.
Proof.
  induction l as [|a l IH]; intros self c; simpl; [auto|].
  unfold bind at 1.
  destruct ((if Column.is_primary_key a || Column.is_unique a
             then create_index (Column.name a) else ret tt) self)
    as [s1 r1] eqn:Hbody.
  assert (has_index s1 c = true →
          has_index self c = true
          ∨ (Column.name a = c ∧ Column.is_unique a = true)) as Hstep.
  { rewrite is_unique_or in Hbody.
    destruct (Column.is_unique a).
    - intros H. replace s1 with (fst (create_index (Column.name a) self)) in H
        by (by rewrite Hbody).
      apply create_index_indexes in H as [->|H]; auto.
    - injection Hbody as <- _. auto. }
  destruct r1 as [[]|e]; simpl.
  - intros H. apply IH in H as [H|(col & Hin & Hn & Hu)].
    + destruct (Hstep H) as [?|[? ?]]; [by left|].
      right. exists a. simpl. auto.
    + right. exists col. simpl. auto.
  - intros H. destruct (Hstep H) as [?|[? ?]]; [by left|].
    right. exists a. simpl. auto.
Qed.

End IndexDDL.

(** X11. On a reachable table with no column named [_row_id],
    [create_index] on a column the table does not have raises a column-not-found error and changes nothing;
    on a column it has, it returns, the column is indexed from then
    on, no row is touched ([get_row] and [scan] are as before), a
    second call changes nothing, and the planner can use the index for
    an equality with any non-null literal on that column. *)
Theorem create_index_effect table c :
  reachable table → no_internal_column table →
  if Table.has_column table c then
    ∃ table',
      Table.create_index c table = (table', Return tt)
      ∧ Table.has_index table' c = true
      ∧ (∀ i, Table.get_row table' i = Table.get_row table i)
      ∧ Table.scan table' = Table.scan table
      ∧ Table.create_index c table' = (table', Return tt)
      ∧ (∀ tn v ty,
           QueryPlanner.can_use_index table'
             (Some (Comparison (ColumnRef c tn) EQ (Literal v ty)))
           = negb (is_none v))
  else
    Table.create_index c table
    = (table, Raise (ColumnNotFoundError c (Some (Table.name table)))).
Proof.
  intros Hreach Hno.
  pose proof (reachable_wf _ Hreach) as Hwf.
  pose proof (reachable_consistent _ Hreach Hno) as Hc.
  rewrite create_index_run.
  destruct (Table.has_column table c) eqn:Hcol; simpl; [|done].
  assert (∀ table', Table.has_index table' c = true →
            ∀ tn v ty,
              QueryPlanner.can_use_index table'
                (Some (Comparison (ColumnRef c tn) EQ (Literal v ty)))
              = negb (is_none v)) as Hplan.
  { intros table' Hi tn v ty. simpl. by rewrite Hi. }
  destruct (Table.has_index table c) eqn:Hidx.
  - exists table. rewrite create_index_run, Hcol, Hidx. simpl.
    repeat split; auto.
  - destruct (populate_index_exact table Hwf Hc c Hcol) as (index & -> & _).
    eexists. split; [done|].
    assert (Table.has_index
              (Table.set_indexes (dict_set String.eqb c index) table) c = true)
      as Hi'.
    { unfold Table.has_index. simpl.
      rewrite dict_mem_set by eauto using String.eqb_sym, string_eqb_trans.
      by rewrite String.eqb_refl. }
    split; [done|]. split; [|split; [|split]].
    + intros i. apply get_row_set_indexes.
    + done.
    + rewrite create_index_run.
      change (Table.has_column (Table.set_indexes _ table) c)
        with (Table.has_column table c).
      by rewrite Hcol, Hi'.
    + by apply Hplan.
Qed.

Lemma create_index_effect_witness :
  ∃ table',
    Table.create_index "age" Example.users = (table', Return tt)
    ∧ Table.has_index table' "age" = true
    ∧ (∀ i, Table.get_row table' i = Table.get_row Example.users i)
    ∧ Table.scan table' = Table.scan Example.users
    ∧ Table.create_index "age" table' = (table', Return tt)
    ∧ (∀ tn v ty,
         QueryPlanner.can_use_index table'
           (Some (Comparison (ColumnRef "age" tn) EQ (Literal v ty)))
         = negb (is_none v)).
Proof.
  exact (create_index_effect Example.users "age" example_users_reachable
           example_users_no_internal_column).
Defined.

(** X12. On a reachable table with no column named [_row_id],
    [drop_index] refuses with a [ValueError] to drop the index of a UNIQUE or PRIMARY KEY column
    and changes nothing; on any other name, also one that is no column
    or has no index, it returns, after which the column has no index
    while the other indexes, [get_row] and [scan] are as before.
    Dropping an index that [create_index] just created on a column
    that had none gives back the table as it was. *)
Theorem drop_index_effect table c :
  reachable table → no_internal_column table →
  match dict_get String.eqb c (Table.columns table) with
  | Some column =>
      Column.is_unique column = true →
      Table.drop_index c table
      = (table, Raise (ValueError
           ("Cannot drop index on PRIMARY KEY or UNIQUE column '"
            +:+ c +:+ "'")))
  | None => True
  end
  ∧ ((∀ column, dict_get String.eqb c (Table.columns table) = Some column →
        Column.is_unique column = false) →
     (∃ table',
        Table.drop_index c table = (table', Return tt)
        ∧ Table.has_index table' c = false
        ∧ (∀ c', c' ≠ c → Table.get_index table' c' = Table.get_index table c')
        ∧ (∀ i, Table.get_row table' i = Table.get_row table i)
        ∧ Table.scan table' = Table.scan table)
     ∧ (Table.has_column table c = true → Table.has_index table c = false →
        Table.drop_index c (fst (Table.create_index c table))
        = (table, Return tt))).
Proof.
  intros Hreach Hno.
  pose proof (reachable_wf _ Hreach) as Hwf.
  pose proof (reachable_consistent _ Hreach Hno) as Hc.
  split.
  - destruct (dict_get String.eqb c (Table.columns table)) as [column|] eqn:G;
      [|done].
    intros Hu. by rewrite drop_index_run, G, is_unique_or, Hu.
  - intros Hplain.
    assert (∀ t, Table.columns t = Table.columns table →
              Table.drop_index c t
              = (Table.set_indexes (dict_del String.eqb c) t, Return tt))
      as Hdrop.
    { intros t Ht. rewrite drop_index_run, Ht.
      destruct (dict_get String.eqb c (Table.columns table)) as [column|] eqn:G;
        [|done].
      by rewrite is_unique_or, (Hplain column eq_refl). }
    split.
    + eexists. split; [by apply Hdrop|].
      destruct Hwf as (_ & Hok & _).
      split; [|split; [|split]].
      * unfold Table.has_index, dict_mem. simpl.
        rewrite sdict_get_del by done. by rewrite String.eqb_refl.
      * intros c' Hne. unfold Table.get_index. simpl.
        rewrite sdict_get_del by done.
        by rewrite (proj2 (String.eqb_neq _ _) Hne).
      * intros i. apply get_row_set_indexes.
      * done.
    + intros Hcol Hidx. rewrite create_index_run, Hcol, Hidx. simpl.
      destruct (populate_index_exact table Hwf Hc c Hcol) as (index & -> & _).
      simpl. rewrite Hdrop by done. f_equal.
      apply set_indexes_back.
      apply sdict_del_set. unfold Table.has_index, dict_mem in Hidx.
      by destruct (dict_get String.eqb c (Table._indexes table)).
Qed.

Lemma drop_index_effect_witness :
  Table.drop_index "age" (fst (Table.create_index "age" Example.users))
  = (Example.users, Return tt).
Proof.
  refine (proj2 (proj2 (drop_index_effect Example.users "age"
                          example_users_reachable
                          example_users_no_internal_column) _) _ _).
  - intros column H. vm_compute in H. injection H as <-. reflexivity.
  - reflexivity.
  - reflexivity.
Defined.

(** What the constructor does, case by case. *)
Lemma init_cases name columns :
  match Table.init name columns with
  | Return table =>
      columns ≠ []
      ∧ (length (List.filter Column.is_primary_key columns) ≤ 1)%nat
      ∧ Table.name table = name
      ∧ Table.column_order table = map Column.name columns
      ∧ Table.scan table = []
      ∧ Table.row_count table = 0
      ∧ (∀ c, Table.has_column table c = true
              ↔ In c (map Column.name columns))
      ∧ (∀ c, Table.has_index table c = true
              ↔ ∃ col, In col columns ∧ Column.name col = c
                       ∧ Column.is_unique col = true)
  | Raise e =>
      (columns = []
       ∧ e = ValueError "Table must have at least one column")
      ∨ ((1 < length (List.filter Column.is_primary_key columns))%nat
         ∧ e = ValueError "Table can have at most one PRIMARY KEY")
  end.
Proof.
  unfold Table.init.
  destruct columns as [|c0 cols0] eqn:Ecols; [by left|].
  rewrite <- Ecols.
  destruct (Nat.ltb_spec 1 (length (List.filter Column.is_primary_key columns)))
    as [Hlt|Hle]; [by right|].
  set (self0 := Table.mk name _ _ _ [] 0 ∅ []).
  assert (empty_table self0) as He0.
  { repeat split; simpl; auto.
    - by apply columns_dict_ok.
    - done.
    - done. }
  assert (∀ c, Table.has_column self0 c = true
               ↔ In c (map Column.name columns)) as Hcols0.
  { intros c. split.
    - unfold Table.has_column, dict_mem. simpl.
      destruct (dict_get String.eqb c _) as [col|] eqn:G; [|done].
      intros _. apply columns_dict_get in G as [[Hin <-]|G]; [|done].
      by apply in_map.
    - intros Hin. apply in_map_iff in Hin as (col & <- & Hin).
      by apply columns_dict_mem. }
  pose proof (init_loop_only columns self0) as Honly.
  destruct (init_loop columns self0 He0) as (s' & Hrun & He' & Hs' & _ & Hall).
  { intros col Hin. by apply columns_dict_mem. }
  rewrite Hrun in *. simpl in Honly.
  destruct Hs' as (Hname & Hcols & Horder & _).
  destruct He' as (Hr & Hn & Hd & _).
  split; [by rewrite Ecols|]. split; [done|].
  split; [by rewrite Hname|]. split; [by rewrite Horder|].
  split; [unfold Table.scan; by rewrite Hr|].
  split; [unfold Table.row_count; by rewrite Hr, Hd|].
  split.
  - intros c. rewrite <- Hcols0. unfold Table.has_column. by rewrite Hcols.
  - intros c. split.
    + intros H. by destruct (Honly c H) as [H0|H0].
    + intros (col & Hin & <- & Hu). apply Hall; [done|].
      by rewrite is_unique_or.
Qed.

(** X13. [Table.__init__] fails exactly when it is given no column or
    more than one PRIMARY KEY column, with a [ValueError] in both
    cases.  The table it returns has no row, keeps the column names in
    the given order, has exactly the given column names as columns,
    and has an index on exactly the names of the given UNIQUE and
    PRIMARY KEY columns. *)
Theorem table_init_effect name columns :
  match Table.init name columns with
  | Return table =>
      columns ≠ []
      ∧ (length (List.filter Column.is_primary_key columns) ≤ 1)%nat
      ∧ Table.name table = name
      ∧ Table.column_order table = map Column.name columns
      ∧ Table.scan table = []
      ∧ Table.row_count table = 0
      ∧ (∀ c, Table.has_column table c = true
              ↔ In c (map Column.name columns))
      ∧ (∀ c, Table.has_index table c = true
              ↔ ∃ col, In col columns ∧ Column.name col = c
                       ∧ Column.is_unique col = true)
  | Raise e =>
      (columns = []
       ∧ e = ValueError "Table must have at least one column")
      ∨ ((1 < length (List.filter Column.is_primary_key columns))%nat
         ∧ e = ValueError "Table can have at most one PRIMARY KEY")
  end.
Proof. apply init_cases. Qed.
(** ** The database and the statements that change it *)

Section DatabaseFacts.
Import Table.

Lemma fst_bind {A B} (m : M A) (k : A → M B) self :
  fst (bind m k self)
  = match m self with
    | (self', Return a) => fst (k a self')
    | (self', Raise _) => self'
    end.
Proof. unfold bind. by destruct (m self) as [s [a|e]]. Qed.

Lemma run_app ops1 ops2 table :
  run (ops1 ++ ops2) table = run ops2 (run ops1 table).
Proof. apply fold_left_app. Qed.

(** The tables left by the loops of UPDATE and DELETE. *)
Lemma relocate_ops rows match_row (action : Z → M bool) table :
  (∀ row_id, ∃ op, op_ok op ∧ ∀ t, fst (action row_id t) = apply_op op t) →
  ∃ ops, Forall op_ok ops
         ∧ fst (QueryExecutor.relocate rows match_row action table)
           = run ops table.
Proof.
  intros Hact. induction rows as [|row rows IH]; simpl.
  - by exists [].
  - rewrite fst_bind. unfold gets at 1. cbv beta iota.
    destruct (negb (row_deleted table row)
              && QueryExecutor.is_match row match_row); [|done].
    rewrite fst_bind. unfold lift at 1. cbv beta iota.
    destruct (QueryExecutor.row_id_of row) as [row_id|e]; [|by exists []].
    rewrite fst_bind. destruct (Hact row_id) as (op & Hop & Hrun).
    exists [op]. split; [by repeat constructor|].
    specialize (Hrun table).
    destruct (action row_id table) as [t' [b|e]]; simpl in *; by subst.
Qed.

Lemma mutate_each_ops matching_rows (action : Z → M bool) : ∀ count table,
  (∀ row_id, ∃ op, op_ok op ∧ ∀ t, fst (action row_id t) = apply_op op t) →
  ∃ ops, Forall op_ok ops
         ∧ fst (QueryExecutor.mutate_each matching_rows action count table)
           = run ops table.
Proof.
  induction matching_rows as [|match_row rest IH]; intros count table Hact;
    simpl.
  - by exists [].
  - rewrite fst_bind. unfold gets at 1. cbv beta iota.
    rewrite fst_bind.
    destruct (relocate_ops (_rows table) match_row action table Hact)
      as (ops1 & Hok1 & Hrun1).
    destruct (QueryExecutor.relocate (_rows table) match_row action table)
      as [t1 [hit|e]]; simpl in Hrun1; subst t1; [|by exists ops1].
    destruct (IH (if hit then count + 1 else count) (run ops1 table) Hact)
      as (ops2 & Hok2 & Hrun2).
    exists (ops1 ++ ops2)%list. split; [by apply Forall_app|].
    by rewrite run_app.
Qed.

Lemma statement_body_ops (matching : t → result (list Row))
    (action : Z → M bool) table :
  (∀ row_id, ∃ op, op_ok op ∧ ∀ t, fst (action row_id t) = apply_op op t) →
  ∃ ops, Forall op_ok ops
         ∧ fst (bind (fun table => (table, matching table))
                     (fun matching_rows =>
                        QueryExecutor.mutate_each matching_rows action 0)
                     table)
           = run ops table.
Proof.
  intros Hact. rewrite fst_bind.
  destruct (matching table) as [rows|e]; [|by exists []].
  by apply mutate_each_ops.
Qed.

Lemma build_row_data_is_dict columns : ∀ values row_data,
  is_dict row_data →
  is_dict (QueryExecutor.build_row_data columns values row_data).
Proof.
  induction columns as [|c columns IH]; intros values row_data Hd; [done|].
  destruct values as [|v values]; [done|]. simpl. apply IH.
  apply dict_ok_NoDup. apply sdict_ok_set.
  clear -Hd. induction row_data as [|[k x] d IH]; simpl; [done|].
  apply NoDup_cons in Hd as [Hk Hd]. split; [|auto].
  destruct (dict_get String.eqb k d) as [y|] eqn:G; [|done].
  apply sdict_get_In, In_fst in G. destruct Hk. by apply list_elem_of_In.
Qed.

Lemma run_schema ops table :
  wf table → same_schema (run ops table) table.
Proof. intros Hwf. by destruct (run_wf ops table Hwf). Qed.

Lemma run_keeps ops table table_name :
  reachable table → no_internal_column table →
  Table.name table = table_name → Forall op_ok ops →
  reachable (run ops table) ∧ no_internal_column (run ops table)
  ∧ Table.name (run ops table) = table_name.
Proof.
  intros Hreach Hno <- Hok. split; [by apply run_reachable|].
  pose proof (run_schema ops table (reachable_wf _ Hreach)) as Hs.
  split; [by eapply no_internal_column_schema|].
  by destruct Hs as (-> & _).
Qed.

Lemma tables_reachable_store database table_name table :
  tables_reachable database →
  reachable table → no_internal_column table →
  Table.name table = table_name →
  tables_reachable (Database.store table_name table database).
Proof.
  intros Hdb Hreach Hno Hname n t. unfold Database.store. simpl.
  destruct (decide (n = table_name)) as [->|Hne].
  - rewrite lookup_insert_eq. by intros [= <-].
  - rewrite lookup_insert_ne by done. apply Hdb.
Qed.

(** A statement that works on one table leaves it reachable. *)
Lemma on_table_reachable {A} table_name (body : M A) database :
  tables_reachable database →
  (∀ table, ∃ ops, Forall op_ok ops ∧ fst (body table) = run ops table) →
  tables_reachable (fst (QueryExecutor.on_table table_name body database)).
Proof.
  intros Hdb Hbody. unfold QueryExecutor.on_table, Database.get_table.
  destruct (Database._tables database !! table_name) as [table|] eqn:G;
    [|done].
  destruct (Hbody table) as (ops & Hok & Hrun).
  destruct (body table) as [table' r]. simpl in *. subst table'.
  destruct (Hdb _ _ G) as (Hreach & Hno & Hname).
  destruct (run_keeps ops table table_name Hreach Hno Hname Hok)
    as (? & ? & ?).
  by apply tables_reachable_store.
Qed.

Lemma column_init_valid name data_type max_length constraints column :
  Column.init name data_type max_length constraints = Return column →
  valid_column column.
Proof.
  unfold valid_column, Column.init.
  destruct (Validators.validate_identifier name) as [b|e] eqn:E; [|done].
  simpl. intros [= <-]. simpl. by rewrite E.
Qed.

Lemma column_init_name name data_type max_length constraints column :
  Column.init name data_type max_length constraints = Return column →
  Column.name column = name.
Proof.
  unfold Column.init.
  destruct (Validators.validate_identifier name) as [b|e]; [|done].
  simpl. by intros [= <-].
Qed.

Lemma build_columns_names col_defs : ∀ acc columns,
  QueryExecutor.build_columns col_defs acc = Return columns →
  map Column.name columns
  = (map Column.name acc ++ map def_name col_defs)%list.
Proof.
  induction col_defs as [|d col_defs IH]; intros acc columns; simpl.
  - intros [= <-]. by rewrite app_nil_r.
  - destruct (DataType.from_string (def_data_type d)) as [dt|e]; [|done].
    simpl.
    destruct (Column.init (def_name d) dt (def_max_length d) _)
      as [column|e] eqn:Hc; [|done].
    simpl. intros Hrest. rewrite (IH _ _ Hrest), map_app. simpl.
    rewrite (column_init_name _ _ _ _ _ Hc). by rewrite <- app_assoc.
Qed.

Lemma build_columns_valid col_defs : ∀ acc columns,
  QueryExecutor.build_columns col_defs acc = Return columns →
  Forall valid_column acc → Forall valid_column columns.
Proof.
  induction col_defs as [|d col_defs IH]; intros acc columns; simpl.
  - by intros [= <-].
  - destruct (DataType.from_string (def_data_type d)) as [dt|e]; [|done].
    simpl.
    destruct (Column.init (def_name d) dt (def_max_length d) _)
      as [column|e] eqn:Hc; [|done].
    simpl. intros Hrest Hacc. apply (IH _ _ Hrest).
    apply Forall_app. split; [done|]. repeat constructor.
    by eapply column_init_valid.
Qed.

Lemma init_reachable name columns table :
  Forall valid_column columns → Table.init name columns = Return table →
  reachable table ∧ Table.name table = name.
Proof.
  intros Hvalid Hinit. split.
  - exists name, columns, [], table. by repeat split.
  - pose proof (init_cases name columns) as H. rewrite Hinit in H.
    by destruct H as (_ & _ & ? & _).
Qed.

Lemma init_no_internal_column name columns table :
  ¬ In "_row_id" (map Column.name columns) →
  Table.init name columns = Return table →
  no_internal_column table.
Proof.
  intros Hfree Hinit.
  pose proof (init_cases name columns) as H. rewrite Hinit in H.
  destruct H as (_ & _ & _ & _ & _ & _ & Hcol & _).
  unfold no_internal_column.
  destruct (Table.has_column table "_row_id") eqn:E; [|done].
  by apply Hcol in E.
Qed.

Lemma create_table_reachable table_name columns database :
  tables_reachable database → Forall valid_column columns →
  ¬ In "_row_id" (map Column.name columns) →
  tables_reachable (fst (Database.create_table table_name columns database)).
Proof.
  intros Hdb Hvalid Hfree. unfold Database.create_table.
  destruct (Validators.validate_identifier table_name); [|done].
  destruct (Database.has_table database table_name); [done|].
  destruct (Table.init table_name columns) as [table|e] eqn:Hinit; [|done].
  destruct (init_reachable _ _ _ Hvalid Hinit).
  pose proof (init_no_internal_column _ _ _ Hfree Hinit).
  by apply tables_reachable_store.
Qed.

Lemma execute_reachable statement database :
  statement_ok statement → tables_reachable database →
  tables_reachable (fst (QueryExecutor.execute statement database)).
Proof.
  intros Hok Hdb. destruct statement as [s|s|s|s|s [j|]|s|s]; simpl.
  - unfold QueryExecutor._execute_create_table.
    destruct (QueryExecutor.build_columns (create_columns s) [])
      as [columns|e] eqn:Hb; [|done].
    assert (¬ In "_row_id" (map Column.name columns)) as Hfree.
    { rewrite (build_columns_names _ _ _ Hb). simpl. intros Hin.
      apply in_map_iff in Hin as (d & Hd & Hin).
      simpl in Hok. rewrite List.Forall_forall in Hok.
      by apply (Hok d). }
    pose proof (create_table_reachable (create_table_name s) columns database
                  Hdb (build_columns_valid _ _ _ Hb (Forall_nil_2 _)) Hfree)
      as H.
    by destruct (Database.create_table _ _ _) as [db' [t|e]].
  - unfold QueryExecutor._execute_drop_table, Database.drop_table.
    destruct (Database.has_table database (drop_table_name s)); simpl; [|done].
    intros n t. simpl. intros H. apply lookup_delete_Some in H as [_ H].
    by apply Hdb.
  - pose proof (on_table_reachable (index_table_name s)
                  (create_index (index_column_name s)) database Hdb) as H.
    unfold QueryExecutor._execute_create_index.
    destruct (QueryExecutor.on_table _ _ _) as [db' r]. apply H.
    intros table. exists [CreateIndex (index_column_name s)].
    by repeat constructor.
  - unfold QueryExecutor._execute_insert.
    match goal with
    | |- context [QueryExecutor.on_table ?n ?b database] =>
        pose proof (on_table_reachable n b database Hdb) as H;
        destruct (QueryExecutor.on_table n b database) as [db' r]
    end.
    apply H. intros table.
    destruct (negb (length (insert_columns s) =? length (insert_values s))%nat);
      [by exists []|].
    exists [InsertRow (QueryExecutor.build_row_data (insert_columns s)
                         (insert_values s) [])].
    split.
    + repeat constructor. apply build_row_data_is_dict. constructor.
    + rewrite fst_bind. simpl.
      by destruct (insert_row _ table) as [t' [a|e]].
  - done.
  - done.
  - pose proof (on_table_reachable (update_table_name s)
                  (QueryExecutor.update_body s) database Hdb) as H.
    unfold QueryExecutor._execute_update.
    destruct (QueryExecutor.on_table _ _ _) as [db' r]. apply H.
    intros table. apply statement_body_ops.
    intros row_id. exists (UpdateRow row_id (assignments s)). by split.
  - pose proof (on_table_reachable (delete_table_name s)
                  (QueryExecutor.delete_body s) database Hdb) as H.
    unfold QueryExecutor._execute_delete.
    destruct (QueryExecutor.on_table _ _ _) as [db' r]. apply H.
    intros table. apply statement_body_ops.
    intros row_id. exists (DeleteRow row_id). by split.
Qed.

Lemma run_statements_reachable statements : ∀ database,
  Forall statement_ok statements → tables_reachable database →
  tables_reachable (run_statements statements database).
Proof.
  induction statements as [|s statements IH]; intros database Hok Hdb; [done|].
  apply Forall_cons in Hok as [Hs Hok]. simpl. apply IH; [done|].
  by apply execute_reachable.
Qed.

End DatabaseFacts.

(** X14. When [create_table] returns, the name was free and valid, the
    new table is the one [get_table] finds under that name, every
    other name is looked up as before, the number of tables grew by
    one, a second [create_table] under the same name raises
    table-already-exists, and [drop_table] on the name gives back the
    database as it was.  When [create_table] raises, the database is
    unchanged. *)
Theorem create_table_effect table_name columns database :
  match Database.create_table table_name columns database with
  | (database', Return table) =>
      Validators.validate_identifier table_name = Return true
      ∧ Database.has_table database table_name = false
      ∧ Table.init table_name columns = Return table
      ∧ Database.get_table database' table_name = Return table
      ∧ (∀ other, other ≠ table_name →
           Database.get_table database' other
           = Database.get_table database other)
      ∧ Database.table_count database' = S (Database.table_count database)
      ∧ (∀ columns',
           Database.create_table table_name columns' database'
           = (database', Raise (TableAlreadyExistsError table_name)))
      ∧ Database.drop_table table_name database' = (database, Return tt)
  | (database', Raise _) => database' = database
  end.
Proof.
  unfold Database.create_table.
  destruct (Validators.validate_identifier table_name) as [b|e] eqn:Hv;
    [|done].
  pose proof (validate_identifier_true _ _ Hv) as ->.
  destruct (Database.has_table database table_name) eqn:Hhas; [done|].
  destruct (Table.init table_name columns) as [table|e]; [|done].
  unfold Database.has_table in Hhas. apply bool_decide_eq_false in Hhas.
  assert (Database._tables database !! table_name = None) as Hnone.
  { destruct (Database._tables database !! table_name) eqn:G; [|done].
    destruct Hhas. eauto. }
  assert (Database.has_table (Database.store table_name table database)
            table_name = true) as Hhas'.
  { unfold Database.has_table, Database.store. simpl.
    apply bool_decide_eq_true. rewrite lookup_insert_eq. eauto. }
  split; [done|]. split; [done|]. split; [done|].
  split; [|split; [|split; [|split]]].
  - unfold Database.get_table, Database.store. simpl.
    by rewrite lookup_insert_eq.
  - intros other Hne. unfold Database.get_table, Database.store. simpl.
    by rewrite lookup_insert_ne.
  - unfold Database.table_count, Database.store. simpl.
    by rewrite map_size_insert_None.
  - intros columns'. by rewrite Hhas'.
  - unfold Database.drop_table. rewrite Hhas'. simpl.
    destruct database as [n tables]. simpl in *. f_equal. f_equal.
    rewrite delete_insert_eq. by apply delete_id.
Qed.

(** X15. Whatever statements are executed on an empty database, with
    whatever outcome, as long as no CREATE TABLE among them defines a
    column named [_row_id]: every table then found in the database is a
    table built by the constructor from validated columns and used only
    through [insert_row], [update_row], [delete_row], [create_index]
    and [drop_index] on dict arguments, it has no column named
    [_row_id], and it is registered under its own name. *)
Theorem executed_tables_are_reachable statements name table_name table :
  Forall statement_ok statements →
  Database.get_table (run_statements statements (Database.init name))
                     table_name = Return table →
  reachable table ∧ no_internal_column table
  ∧ Table.name table = table_name.
Proof.
  intros Hok Hget.
  assert (tables_reachable (Database.init name)) as H0.
  { intros n t. unfold Database.init. simpl. by rewrite lookup_empty. }
  pose proof (run_statements_reachable statements _ Hok H0) as Hdb.
  unfold Database.get_table in Hget.
  destruct (Database._tables _ !! table_name) as [t|] eqn:G; [|done].
  injection Hget as <-. by apply Hdb.
Qed.

Lemma executed_tables_are_reachable_witness :
  reachable Example.session_users
  ∧ no_internal_column Example.session_users
  ∧ Table.name Example.session_users = "users".
Proof.
  apply (executed_tables_are_reachable Example.session "default" "users").
  - repeat constructor; intros H; inversion H; subst;
      repeat match goal with
             | H : _ ∈ _ |- _ => inversion H; subst; clear H
             end.
  - vm_compute. reflexivity.
Defined.
(** ** CREATE TABLE through the executor *)

Section CreateTable.
Import QueryExecutor.

Lemma has_set_add k k' constraints :
  existsb (ColumnConstraint.eqb k) (set_add k' constraints)
  = ColumnConstraint.eqb k k' || existsb (ColumnConstraint.eqb k) constraints.
Proof.
  unfold set_add.
  destruct (existsb (ColumnConstraint.eqb k') constraints) eqn:E.
  - destruct (ColumnConstraint.eqb k k') eqn:E'; [|done].
    assert (k = k') as ->
      by (clear E; revert E'; destruct k, k'; simpl; congruence).
    by rewrite E.
  - rewrite existsb_app. simpl. rewrite orb_false_r. apply orb_comm.
Qed.

Lemma parse_constraints_loop k constraint_strs : ∀ acc,
  existsb (ColumnConstraint.eqb k)
    (fold_left (fun constraints constraint_str =>
                  if String.eqb constraint_str "PRIMARY KEY" then
                    set_add PRIMARY_KEY constraints
                  else if String.eqb constraint_str "UNIQUE" then
                    set_add UNIQUE constraints
                  else if String.eqb constraint_str "NOT NULL" then
                    set_add NOT_NULL constraints
                  else constraints) constraint_strs acc) = true
  ↔ existsb (ColumnConstraint.eqb k) acc = true
    ∨ In (constraint_string k) constraint_strs.
Proof.
  induction constraint_strs as [|s l IH]; intros acc; simpl; [tauto|].
  rewrite IH. clear IH.
  destruct (String.eqb_spec s "PRIMARY KEY") as [->|H1];
    [|destruct (String.eqb_spec s "UNIQUE") as [->|H2];
      [|destruct (String.eqb_spec s "NOT NULL") as [->|H3]]];
    rewrite ?has_set_add, ?orb_true_iff;
    destruct k; simpl; split; intros H; try tauto;
    repeat match goal with
           | H : _ ∨ _ |- _ => destruct H
           | H : _ = _ |- _ => (discriminate H || (symmetry in H; contradiction)
                                || contradiction)
           end; tauto.
Qed.

Lemma parse_constraints_has k constraint_strs :
  existsb (ColumnConstraint.eqb k) (parse_constraints constraint_strs) = true
  ↔ In (constraint_string k) constraint_strs.
Proof.
  unfold parse_constraints. rewrite parse_constraints_loop. simpl.
  split; [by intros [|]|auto].
Qed.

Lemma build_columns_spec col_defs : ∀ acc columns,
  build_columns col_defs acc = Return columns →
  ∃ made, columns = (acc ++ made)%list ∧ Forall2 column_of col_defs made.
Proof.
  induction col_defs as [|d col_defs IH]; intros acc columns; simpl.
  - intros [= <-]. exists []. by rewrite app_nil_r.
  - destruct (DataType.from_string (def_data_type d)) as [dt|e] eqn:Hdt;
      [|done].
    simpl. unfold Column.init at 1.
    destruct (Validators.validate_identifier (def_name d)) as [b|e] eqn:Hv;
      [|done].
    simpl. intros Hrest.
    destruct (IH _ _ Hrest) as (made & -> & Hall).
    exists (Column.mk (def_name d) dt (def_max_length d)
              (parse_constraints (def_constraints d)) :: made).
    split; [by rewrite <- app_assoc|]. constructor; [|done].
    repeat split; simpl; auto.
    by rewrite (validate_identifier_true _ _ Hv) in Hv.
Qed.

Lemma column_of_unique col_def column :
  column_of col_def column →
  Column.is_unique column = true
  ↔ In "PRIMARY KEY" (def_constraints col_def)
    ∨ In "UNIQUE" (def_constraints col_def).
Proof.
  intros (_ & _ & _ & Hc & _).
  unfold Column.is_unique, Column.is_primary_key, Column.has_constraint.
  rewrite Hc, orb_true_iff.
  rewrite (parse_constraints_has UNIQUE), (parse_constraints_has PRIMARY_KEY).
  simpl. tauto.
Qed.

Lemma column_of_names col_defs columns :
  Forall2 column_of col_defs columns →
  map Column.name columns = map def_name col_defs.
Proof.
  induction 1 as [|d col defs cols (Hn & _) _ IH]; simpl; [done|].
  by rewrite Hn, IH.
Qed.

Lemma column_of_indexed col_defs columns c :
  Forall2 column_of col_defs columns →
  (∃ col, In col columns ∧ Column.name col = c
          ∧ Column.is_unique col = true)
  ↔ (∃ col_def, In col_def col_defs ∧ def_name col_def = c
                ∧ (In "PRIMARY KEY" (def_constraints col_def)
                   ∨ In "UNIQUE" (def_constraints col_def))).
Proof.
  induction 1 as [|d col defs cols Hd _ IH].
  - split; intros (x & [] & _).
  - pose proof (column_of_unique d col Hd) as Hu.
    destruct Hd as (Hn & _). split.
    + intros (x & [<-|Hin] & Hx & Hux).
      * exists d. split; [by left|]. split; [congruence|]. by apply Hu.
      * destruct (proj1 IH) as (d' & ? & ? & ?); [by eauto|].
        exists d'. split; [by right|done].
    + intros (x & [<-|Hin] & Hx & Hux).
      * exists col. split; [by left|]. split; [congruence|]. by apply Hu.
      * destruct (proj2 IH) as (col' & ? & ? & ?); [by eauto|].
        exists col'. split; [by right|done].
Qed.

End CreateTable.

(** X16. When a CREATE TABLE statement returns, the table registered
    under its name is empty, reachable, lists the defined column names
    in order, and has an index on exactly the columns whose definition
    carries the constraint string [PRIMARY KEY] or [UNIQUE]; a
    constraint string other than [PRIMARY KEY], [UNIQUE] and
    [NOT NULL] has no effect.  When the statement raises, the database
    is unchanged. *)
Theorem create_table_statement_effect stmt database :
  match QueryExecutor._execute_create_table stmt database with
  | (database', Return _) =>
      ∃ table,
        Database.get_table database' (create_table_name stmt) = Return table
        ∧ reachable table
        ∧ Table.scan table = []
        ∧ Table.column_order table = map def_name (create_columns stmt)
        ∧ (∀ c, Table.has_index table c = true
                ↔ ∃ col_def,
                    In col_def (create_columns stmt)
                    ∧ def_name col_def = c
                    ∧ (In "PRIMARY KEY" (def_constraints col_def)
                       ∨ In "UNIQUE" (def_constraints col_def)))
  | (database', Raise _) => database' = database
  end.
Proof.
  unfold QueryExecutor._execute_create_table.
  destruct (QueryExecutor.build_columns (create_columns stmt) [])
    as [columns|e] eqn:Hb; [|done].
  pose proof (build_columns_valid _ _ _ Hb (Forall_nil_2 _)) as Hvalid.
  destruct (build_columns_spec _ _ _ Hb) as (made & -> & Hall).
  simpl in *.
  unfold Database.create_table.
  destruct (Validators.validate_identifier (create_table_name stmt)); [|done].
  destruct (Database.has_table database (create_table_name stmt)); [done|].
  pose proof (init_cases (create_table_name stmt) made) as Hinit.
  destruct (Table.init (create_table_name stmt) made) as [table|e] eqn:Hi;
    [|done].
  destruct Hinit as (_ & _ & _ & Horder & Hscan & _ & _ & Hidx).
  exists table. split; [|split; [|split; [|split]]].
  - unfold Database.get_table, Database.store. simpl.
    by rewrite lookup_insert_eq.
  - by destruct (init_reachable _ _ _ Hvalid Hi).
  - done.
  - by rewrite Horder, (column_of_names _ _ Hall).
  - intros c. rewrite Hidx. by apply column_of_indexed.
Qed.
(** ** Type names, lengths, identifiers and evaluation errors *)

Section TypeNames.
Import Validators.

Lemma upper_app a b : upper (a +:+ b) = upper a +:+ upper b.
Proof. induction a as [|ch a IH]; simpl; [done|]. by rewrite IH. Qed.

Lemma length_app_string a b :
  String.length (a +:+ b) = (String.length a + String.length b)%nat.
Proof. induction a as [|ch a IH]; simpl; [done|]. by rewrite IH. Qed.

Lemma match_tail_newline s :
  all_chars is_word_char s = true → match_tail (s +:+ newline) = true.
Proof.
  induction s as [|ch s IH]; simpl; [done|].
  intros [Hc Hs]%andb_true_iff. by rewrite Hc, IH.
Qed.

Lemma all_chars_upper (p : ascii → bool) s :
  (∀ ch, p ch = true → p (upper_char ch) = true) →
  all_chars p s = true → all_chars p (upper s) = true.
Proof.
  intros Hp. induction s as [|ch s IH]; simpl; [done|].
  intros [Hc Hs]%andb_true_iff. by rewrite (Hp _ Hc), IH.
Qed.

Lemma ends_newline_not_word s w :
  all_chars is_word_char w = true → (s +:+ newline) ≠ w.
Proof.
  revert w. induction s as [|ch s IH]; intros w Hw; simpl.
  - destruct w as [|c w]; [done|]. intros [= <- _]. by simpl in Hw.
  - destruct w as [|c w]; [done|]. intros [= _ H].
    simpl in Hw. apply andb_true_iff in Hw as [_ Hw]. by apply (IH w).
Qed.

Lemma reserved_words_are_words :
  Forall (fun w => all_chars is_word_char w = true) RESERVED_WORDS.
Proof. repeat constructor. Qed.

End TypeNames.

(** X17. The type names of the enum and of the value validator are
    the same, aliases and letter case included: every member's own
    name is read back by [from_string]; when [from_string] reads a
    string as a type, the validator accepts exactly the same values
    under that string as under the type's own name; and a string
    [from_string] rejects (with a [KeyError]) makes the validator
    raise a [ValueError] on every non-null value. *)
Theorem type_names_agree type_str :
  (∀ t, DataType.from_string (DataType.value t) = Return t)
  ∧ match DataType.from_string type_str with
    | Return t =>
        ∀ value max_length,
          Validators.validate_value_for_type value type_str max_length
          = Return true
          ↔ Validators.validate_value_for_type value (DataType.value t)
                                               max_length
            = Return true
    | Raise e =>
        e = KeyError (Validators.upper type_str)
        ∧ ∀ value max_length,
            value ≠ VNull →
            Validators.validate_value_for_type value type_str max_length
            = Raise (ValueError ("Unknown data type: "
                                 +:+ Validators.upper type_str))
    end.
Proof.
  split; [by intros []|].
  unfold DataType.from_string, DataType.of_name,
    Validators.validate_value_for_type.
  set (u := Validators.upper type_str).
  destruct (String.eqb_spec u "INT") as [->|H1];
    [intros [] ?; simpl; split; done|].
  destruct (String.eqb_spec u "REAL") as [->|H2];
    [intros [] ?; simpl; split; done|].
  destruct (String.eqb_spec u "BOOL") as [->|H3];
    [intros [] ?; simpl; split; done|].
  destruct (String.eqb_spec u "INTEGER") as [->|H4];
    [intros [] ?; simpl; split; done|].
  destruct (String.eqb_spec u "FLOAT") as [->|H5];
    [intros [] ?; simpl; split; done|].
  destruct (String.eqb_spec u "VARCHAR") as [->|H6];
    [intros [] ?; simpl; split; done|].
  destruct (String.eqb_spec u "TEXT") as [->|H7];
    [intros [] ?; simpl; split; done|].
  destruct (String.eqb_spec u "BOOLEAN") as [->|H8];
    [intros [] ?; simpl; split; done|].
  split; [done|]. intros value max_length Hv.
  apply String.eqb_neq in H1, H2, H3, H4, H5, H6, H7, H8.
  unfold Validators.str_in. cbn [existsb].
  rewrite ?H1, ?H2, ?H3, ?H4, ?H5, ?H6, ?H7, ?H8. simpl.
  by destruct value.
Qed.

(** X18. A VARCHAR column accepts a string exactly when the column
    has no maximum length, or the maximum length is 0 (which the
    validator takes for none), or the string is no longer than it. *)
Theorem varchar_length_bound name max_length constraints s col_name :
  Column.validate (Column.mk name VARCHAR max_length constraints)
                  (VStr s) col_name = Return tt
  ↔ match max_length with
    | Some n => n = 0 ∨ Z.of_nat (String.length s) ≤ n
    | None => True
    end.
Proof.
  unfold Column.validate, Validators.validate_value_for_type. simpl.
  destruct max_length as [n|]; simpl; [|done].
  destruct (Z.eqb_spec n 0) as [->|Hn]; simpl; [by split; auto|].
  destruct (Z.ltb_spec n (Z.of_nat (String.length s))); simpl.
  - split; [done|]. intros [?|?]; [done|lia].
  - split; [|done]. intros _. by right.
Qed.

(** X19. [validate_identifier] lets a line feed through at the end of
    a name: when it accepts a name made of letters, digits and
    underscores that is shorter than 64 characters, it also accepts
    that name followed by a line feed (the [$] of the pattern matches
    before a final line feed). *)
Theorem identifier_with_final_newline name :
  Validators.validate_identifier name = Return true →
  all_chars Validators.is_word_char name = true →
  (String.length name < 64)%nat →
  Validators.validate_identifier (name +:+ newline) = Return true.
Proof.
  unfold Validators.validate_identifier.
  destruct (String.eqb_spec name "") as [->|Hne]; [done|].
  destruct (Nat.ltb_spec 64 (String.length name)) as [Hlong|Hlen]; [done|].
  destruct (Validators.str_in (Validators.upper name)
              Validators.RESERVED_WORDS); [done|].
  destruct (Validators.re_match_identifier name) eqn:Hm; [|done].
  intros _ Hw Hlt.
  destruct name as [|ch name]; [done|]. simpl in Hm, Hw.
  apply andb_true_iff in Hm as [Hh _].
  apply andb_true_iff in Hw as [_ Hw].
  change ((String ch name) +:+ newline) with (String ch (name +:+ newline)).
  destruct (String.eqb_spec (String ch (name +:+ newline)) ""); [done|].
  assert ((String.length (String ch (name +:+ newline)) <=? 64)%nat = true)
    as Hle.
  { apply Nat.leb_le. simpl in *. rewrite length_app_string. simpl. lia. }
  unfold Nat.ltb. rewrite Nat.leb_antisym in Hle.
  apply negb_true_iff in Hle. unfold Nat.ltb in Hle. rewrite Hle.
  assert (Validators.str_in
            (Validators.upper (String ch (name +:+ newline)))
            Validators.RESERVED_WORDS = false) as ->.
  { unfold Validators.str_in. apply not_true_iff_false.
    intros (w & Hin & Heq)%existsb_exists. apply String.eqb_eq in Heq.
    pose proof (proj1 (List.Forall_forall _ _) reserved_words_are_words
                  _ Hin) as Hword.
    change (String ch (name +:+ newline))
      with ((String ch name) +:+ newline) in Heq.
    rewrite upper_app in Heq. by apply ends_newline_not_word in Heq. }
  simpl. by rewrite Hh, (match_tail_newline name Hw).
Qed.

Lemma identifier_with_final_newline_witness :
  Validators.validate_identifier ("users" +:+ newline) = Return true.
Proof.
  apply identifier_with_final_newline; [reflexivity|reflexivity|].
  simpl. lia.
Defined.

Section EvaluationErrors.
Import ConditionEvaluator.

Lemma py_lt_raises v w e : py_lt v w = Raise e → e = TypeError.
Proof.
  unfold py_lt. destruct v, w; simpl; try discriminate; by intros [= <-].
Qed.

Lemma py_le_raises v w e : py_le v w = Raise e → e = TypeError.
Proof.
  unfold py_le. destruct v, w; simpl; try discriminate; by intros [= <-].
Qed.

Lemma get_value_raises expr row e :
  _get_value expr row = Raise e →
  ∃ column_name table_name,
    expr = ColumnRef column_name table_name
    ∧ e = ColumnNotFoundError column_name None
    ∧ has_column row column_name table_name = false.
Proof.
  destruct expr as [c tn|v ty]; simpl; [|done].
  unfold get_column_value.
  assert (bool_decide (is_Some (row !! c)) = false ↔ row !! c = None) as Hb.
  { rewrite bool_decide_eq_false. split.
    - intros H. destruct (row !! c); [destruct H; eauto|done].
    - intros -> [? ?]. done. }
  destruct (truthy_str tn) eqn:Ht.
  - destruct (row !! qualified_name (default "" tn) c) eqn:Hq; [done|].
    destruct (row !! c) eqn:G; [done|]. intros [= <-]. exists c, tn.
    repeat split. unfold has_column. rewrite Ht, Hq, G. by apply Hb.
  - destruct (row !! c) eqn:G; [done|]. intros [= <-]. exists c, tn.
    repeat split. unfold has_column. rewrite Ht, G. by apply Hb.
Qed.

Lemma comparison_raises lhs op rhs row e :
  _evaluate_comparison lhs op rhs row = Raise e →
  (∃ column_name, e = ColumnNotFoundError column_name None)
  ∨ (e = TypeError ∧ uses_ordering (Comparison lhs op rhs) = true).
Proof.
  unfold _evaluate_comparison.
  destruct (_get_value lhs row) as [v|e1] eqn:H1; simpl.
  2:{ intros [= <-]. left.
      destruct (get_value_raises _ _ _ H1) as (c & tn & _ & -> & _). eauto. }
  destruct (_get_value rhs row) as [w|e2] eqn:H2; simpl.
  2:{ intros [= <-]. left.
      destruct (get_value_raises _ _ _ H2) as (c & tn & _ & -> & _). eauto. }
  destruct (is_none v || is_none w); [by destruct op|].
  destruct op; try done; intros H; right; split; try done;
    unfold py_gt, py_ge in H;
    eauto using py_lt_raises, py_le_raises.
Qed.

End EvaluationErrors.

(** X20. Evaluating a WHERE condition on a row can fail in two ways
    only: with a column-not-found error, or with the [TypeError] of an
    ordering comparison between a number and a string; a condition
    built from [=] and [!=] alone never raises a [TypeError]. *)
Theorem evaluate_raises_only condition row e :
  ConditionEvaluator.evaluate condition row = Raise e →
  (∃ column_name, e = ColumnNotFoundError column_name None)
  ∨ (e = TypeError ∧ uses_ordering condition = true).
Proof.
  induction condition as [lhs op rhs|lhs IHl op rhs IHr];
    [apply comparison_raises|].
  simpl. destruct (ConditionEvaluator.evaluate lhs row) as [b|e1]; simpl.
  - assert (ConditionEvaluator.evaluate rhs row = Raise e →
            (∃ column_name, e = ColumnNotFoundError column_name None)
            ∨ e = TypeError
              ∧ uses_ordering lhs || uses_ordering rhs = true) as Hr.
    { intros H. destruct (IHr H) as [?|[? ->]]; [by left|right].
      by rewrite orb_true_r. }
    destruct op, b; simpl; try done; apply Hr.
  - intros [= <-]. destruct (IHl eq_refl) as [?|[? ->]]; [by left|by right].
Qed.

Lemma evaluate_raises_only_witness :
  (∃ column_name, TypeError = ColumnNotFoundError column_name None)
  ∨ (TypeError = TypeError
     ∧ uses_ordering
         (Comparison (ColumnRef "email" None) LT (Literal (VInt 3) "NUMBER"))
       = true).
Proof.
  apply (evaluate_raises_only
           (Comparison (ColumnRef "email" None) LT (Literal (VInt 3) "NUMBER"))
           (row_view Example.users 0)).
  reflexivity.
Defined.

(** X21. [has_column] and [get_column_value] agree: the lookup of a
    column in a row returns a value exactly when [has_column] is true,
    and raises the [KeyError] for the bare column name exactly when it
    is false; with a table name, the qualified key is the one read
    when the row has it. *)
Theorem has_column_iff_get_column_value row column_name table_name :
  (has_column row column_name table_name = true
   ↔ ∃ value, get_column_value row column_name table_name = Return value)
  ∧ (has_column row column_name table_name = false
     ↔ get_column_value row column_name table_name
       = Raise (KeyError (not_found_message column_name)))
  ∧ (∀ name value,
       table_name = Some name → name ≠ "" →
       row !! qualified_name name column_name = Some value →
       get_column_value row column_name table_name = Return value).
Proof.
  unfold has_column, get_column_value.
  assert (∀ o : option Value,
            bool_decide (is_Some o)
            = match o with Some _ => true | None => false end) as Hb.
  { intros [v|]; [apply bool_decide_eq_true; eauto|].
    apply bool_decide_eq_false. by intros [? ?]. }
  rewrite !Hb. split; [|split].
  - destruct (truthy_str table_name);
      [destruct (row !! qualified_name _ _)|];
      destruct (row !! column_name); split; intros H; eauto;
      try done; by destruct H.
  - destruct (truthy_str table_name);
      [destruct (row !! qualified_name _ _)|];
      destruct (row !! column_name); split; intros H; done.
  - intros name value -> Hne Hq. simpl.
    rewrite (proj2 (String.eqb_neq _ _) Hne). simpl. by rewrite Hq.
Qed.

Lemma has_column_iff_get_column_value_witness :
  get_column_value {[ "users.id" := VInt 1; "id" := VInt 2 ]} "id"
                   (Some "users")
  = Return (VInt 1).
Proof.
  refine (proj2 (proj2 (has_column_iff_get_column_value
                          {[ "users.id" := VInt 1; "id" := VInt 2 ]} "id"
                          (Some "users"))) "users" (VInt 1) _ _ _).
  - reflexivity.
  - discriminate.
  - reflexivity.
Defined.
(** ** SELECT with INNER JOIN *)

Section Join.
Import Table QueryExecutor.

Lemma view_missing_column table row_id c tn :
  wf table → consistent table → no_internal_column table →
  In row_id (live_ids table) → has_column table c = false →
  get_column_value (row_view table row_id) c tn
  = Raise (KeyError (not_found_message c)).
Proof.
  intros Hwf Hc Hno Hin Hcol. unfold get_column_value.
  assert (row_view table row_id !! c = None) as ->.
  { destruct (row_view table row_id !! c) eqn:E; [|done].
    assert (has_column table c = true); [|congruence].
    apply (row_view_keys table row_id c Hwf Hc Hno Hin). by rewrite E. }
  destruct (truthy_str tn); [|done].
  by rewrite view_qualified_absent.
Qed.

Lemma scan_missing_column table row c tn :
  wf table → consistent table → no_internal_column table →
  In row (scan table) → has_column table c = false →
  get_column_value row c tn = Raise (KeyError (not_found_message c)).
Proof.
  intros Hwf Hc Hno Hin Hcol. rewrite scan_live_ids in Hin by done.
  apply in_map_iff in Hin as (row_id & <- & Hin).
  by apply view_missing_column.
Qed.

Lemma get_column_value_raises row c tn e :
  get_column_value row c tn = Raise e → e = KeyError (not_found_message c).
Proof.
  unfold get_column_value.
  destruct (truthy_str tn); [destruct (row !! qualified_name _ _); [done|]|];
    destruct (row !! c); try done; by intros [= <-].
Qed.

Lemma join_right_skipped stmt join lt rt left_row right_rows acc :
  (∀ right_row, In right_row right_rows →
     skipped (join_pair stmt join lt rt left_row right_row)) →
  join_right stmt join lt rt left_row right_rows acc = Return acc.
Proof.
  induction right_rows as [|r rows IH]; intros Hall; simpl; [done|].
  destruct (Hall r) as [->|[m ->]]; [by left| |]; apply IH;
    intros r' Hr'; apply Hall; by right.
Qed.

Lemma join_left_skipped stmt join lt rt left_rows acc :
  (∀ left_row right_row, In left_row left_rows → In right_row (scan rt) →
     skipped (join_pair stmt join lt rt left_row right_row)) →
  join_left stmt join lt rt left_rows acc = Return acc.
Proof.
  induction left_rows as [|l rows IH]; intros Hall; simpl; [done|].
  rewrite join_right_skipped by (intros r Hr; apply Hall; [by left|done]).
  simpl. apply IH. intros l' r' Hl' Hr'. apply Hall; [by right|done].
Qed.

Lemma join_right_barren e stmt join lt rt left_row right_rows :
  (∀ message, e ≠ KeyError message) →
  (∀ right_row, In right_row right_rows →
     barren e (join_pair stmt join lt rt left_row right_row)) →
  join_right stmt join lt rt left_row right_rows [] = Return []
  ∨ join_right stmt join lt rt left_row right_rows [] = Raise e.
Proof.
  intros He. induction right_rows as [|r rows IH]; intros Hall; simpl;
    [by left|].
  destruct (Hall r) as [[->|[m ->]]| ->]; [by left| | |].
  - apply IH. intros r' Hr'. apply Hall. by right.
  - apply IH. intros r' Hr'. apply Hall. by right.
  - right. destruct e; try done. by destruct (He message).
Qed.

Lemma join_left_barren e stmt join lt rt left_rows :
  (∀ message, e ≠ KeyError message) →
  (∀ left_row right_row, In left_row left_rows → In right_row (scan rt) →
     barren e (join_pair stmt join lt rt left_row right_row)) →
  join_left stmt join lt rt left_rows [] = Return []
  ∨ join_left stmt join lt rt left_rows [] = Raise e.
Proof.
  intros He. induction left_rows as [|l rows IH]; intros Hall; simpl;
    [by left|].
  destruct (join_right_barren e stmt join lt rt l (scan rt) He) as [-> | ->].
  - intros r Hr. apply Hall; [by left|done].
  - simpl. apply IH. intros l' r' Hl' Hr'. apply Hall; [by right|done].
  - by right.
Qed.

Lemma project_nothing sel :
  match sel with
  | Star => Return []
  | Names columns => project_all [] columns []
  end = Return (@nil Items).
Proof. by destruct sel. Qed.

(** *** Combined rows *)

Lemma as_row_lookup (items : Items) k :
  as_row items !! k = dict_get String.eqb k items.
Proof.
  unfold as_row. induction items as [|[k0 v0] items IH]; simpl; [done|].
  destruct (String.eqb_spec k k0) as [->|Hne].
  - by rewrite lookup_insert_eq.
  - by rewrite lookup_insert_ne.
Qed.

Lemma qualified_name_inj tn c1 c2 :
  qualified_name tn c1 = qualified_name tn c2 → c1 = c2.
Proof.
  unfold qualified_name. induction tn as [|ch tn IH]; simpl.
  - intros H. by injection H.
  - intros H. injection H as H. auto.
Qed.

Lemma qualified_name_table t1 t2 c1 c2 :
  has_dot t1 = false → has_dot t2 = false →
  qualified_name t1 c1 = qualified_name t2 c2 → t1 = t2.
Proof.
  unfold qualified_name. revert t2.
  induction t1 as [|ch t1 IH]; intros [|ch2 t2]; simpl; try done.
  - intros _ H [= <- _]. simpl in H. done.
  - intros H _ [= -> _]. simpl in H. done.
  - intros [_ H1]%orb_false_iff [_ H2]%orb_false_iff [= -> H].
    f_equal. by apply IH.
Qed.

Lemma qualify_fold_other tn (items : Items) : ∀ acc k,
  (∀ c, k ≠ qualified_name tn c) →
  dict_get String.eqb k
    (fold_left (fun combined '(col_name, value) =>
                  dict_set String.eqb (qualified_name tn col_name) value
                           combined) items acc)
  = dict_get String.eqb k acc.
Proof.
  induction items as [|[c v] items IH]; intros acc k Hk; simpl; [done|].
  rewrite IH by done. rewrite sdict_get_set.
  by rewrite (proj2 (String.eqb_neq _ _) (Hk c)).
Qed.

Lemma qualify_fold_get tn (items : Items) : ∀ acc c,
  is_dict items →
  dict_get String.eqb (qualified_name tn c)
    (fold_left (fun combined '(col_name, value) =>
                  dict_set String.eqb (qualified_name tn col_name) value
                           combined) items acc)
  = match dict_get String.eqb c items with
    | Some v => Some v
    | None => dict_get String.eqb (qualified_name tn c) acc
    end.
Proof.
  induction items as [|[c0 v0] items IH]; intros acc c Hd; simpl; [done|].
  apply NoDup_cons in Hd as [Hc0 Hd]. rewrite IH by done.
  destruct (String.eqb_spec c c0) as [->|Hne].
  - destruct (dict_get String.eqb c0 items) as [v|] eqn:G.
    + apply sdict_get_In, In_fst in G. destruct Hc0. by apply list_elem_of_In.
    + by rewrite sdict_get_set, String.eqb_refl.
  - destruct (dict_get String.eqb c items); [done|].
    rewrite sdict_get_set.
    destruct (String.eqb_spec (qualified_name tn c) (qualified_name tn c0))
      as [Heq|_]; [|done].
    by apply qualified_name_inj in Heq.
Qed.

Lemma qualify_fold_dotted tn (items : Items) : ∀ acc,
  Forall (fun '(k, _) => has_dot k = true) acc →
  Forall (fun '(k, _) => has_dot k = true)
    (fold_left (fun combined '(col_name, value) =>
                  dict_set String.eqb (qualified_name tn col_name) value
                           combined) items acc).
Proof.
  induction items as [|[c v] items IH]; intros acc Hacc; simpl; [done|].
  apply IH. clear IH.
  induction acc as [|[k0 v0] acc IHa]; simpl.
  - repeat constructor. apply qualified_name_has_dot.
  - apply Forall_cons in Hacc as [H0 Hacc].
    destruct (String.eqb _ k0); constructor; auto.
Qed.

Lemma combined_keys_dotted left_row right_row lt rt k :
  is_Some (as_row (combine_rows left_row right_row lt rt) !! k) →
  has_dot k = true.
Proof.
  rewrite as_row_lookup. intros [v Hv]. apply sdict_get_In in Hv.
  unfold combine_rows in Hv.
  pose proof (qualify_fold_dotted rt right_row _
                (qualify_fold_dotted lt left_row [] (Forall_nil_2 _))) as H.
  exact (proj1 (List.Forall_forall _ _) H _ Hv).
Qed.

Lemma evaluate_first_operand condition row e :
  ConditionEvaluator._get_value (first_operand condition) row = Raise e →
  ConditionEvaluator.evaluate condition row = Raise e.
Proof.
  induction condition as [lhs op rhs|lhs IH op rhs _]; simpl.
  - unfold ConditionEvaluator._evaluate_comparison. by intros ->.
  - intros H. by rewrite (IH H).
Qed.

Lemma combined_unqualified_raises left_row right_row lt rt w c tn :
  first_operand w = ColumnRef c tn → truthy_str tn = false →
  has_dot c = false →
  ConditionEvaluator.evaluate w
    (as_row (combine_rows left_row right_row lt rt))
  = Raise (ColumnNotFoundError c None).
Proof.
  intros Hfirst Htn Hdot. apply evaluate_first_operand. rewrite Hfirst.
  simpl. unfold get_column_value. rewrite Htn.
  destruct (as_row (combine_rows left_row right_row lt rt) !! c) eqn:E;
    [|done].
  assert (has_dot c = true); [|congruence].
  apply (combined_keys_dotted left_row right_row lt rt). by rewrite E.
Qed.

Lemma join_pair_barren stmt join lt rt left_row right_row w c tn :
  select_where stmt = Some w →
  first_operand w = ColumnRef c tn → truthy_str tn = false →
  has_dot c = false →
  barren (ColumnNotFoundError c None)
         (join_pair stmt join lt rt left_row right_row).
Proof.
  intros Hw Hfirst Htn Hdot. unfold join_pair.
  destruct (get_column_value left_row _ _) as [lv|e1] eqn:H1; simpl.
  2:{ left. right. apply get_column_value_raises in H1 as ->. eauto. }
  destruct (get_column_value right_row _ _) as [rv|e2] eqn:H2; simpl.
  2:{ left. right. apply get_column_value_raises in H2 as ->. eauto. }
  destruct (py_eq lv rv); [|by left; left].
  rewrite Hw.
  rewrite (combined_unqualified_raises _ _ _ _ w c tn) by done.
  by right.
Qed.

End Join.

(** X22. A join on a column that its table does not have finds
    nothing and reports nothing: with both tables reachable and
    neither having a column named [_row_id], when the left join column
    is no column of the left table, or the right join column is no
    column of the right table, SELECT with INNER JOIN returns the
    empty list, whatever the WHERE clause and the column list are. *)
Theorem join_on_unknown_column_is_empty
    stmt join database left_table right_table :
  Database.get_table database (select_table_name stmt) = Return left_table →
  Database.get_table database (join_table_name join) = Return right_table →
  reachable left_table → no_internal_column left_table →
  reachable right_table → no_internal_column right_table →
  Table.has_column left_table (join_column_name (left_column join)) = false
  ∨ Table.has_column right_table (join_column_name (right_column join))
    = false →
  QueryExecutor._execute_select_with_join stmt join database = Return [].
Proof.
  intros Hl Hr Hreach_l Hno_l Hreach_r Hno_r Hmissing.
  unfold QueryExecutor._execute_select_with_join. rewrite Hl, Hr. simpl.
  rewrite join_left_skipped; [simpl; apply project_nothing|].
  intros left_row right_row Hin_l Hin_r. right.
  unfold QueryExecutor.join_pair.
  destruct (get_column_value left_row _ _) as [lv|e1] eqn:H1; simpl.
  2:{ apply get_column_value_raises in H1 as ->. eauto. }
  destruct Hmissing as [Hm|Hm].
  - rewrite (scan_missing_column left_table left_row _ _
               (reachable_wf _ Hreach_l)
               (reachable_consistent _ Hreach_l Hno_l) Hno_l Hin_l Hm) in H1.
    done.
  - rewrite (scan_missing_column right_table right_row _ _
               (reachable_wf _ Hreach_r)
               (reachable_consistent _ Hreach_r Hno_r) Hno_r Hin_r Hm).
    simpl. eauto.
Qed.

Lemma join_on_unknown_column_is_empty_witness :
  QueryExecutor._execute_select_with_join Example.select_nope
    Example.join_on_nope Example.database = Return [].
Proof.
  apply (join_on_unknown_column_is_empty Example.select_nope
           Example.join_on_nope Example.database Example.users Example.users).
  - reflexivity.
  - reflexivity.
  - exact example_users_reachable.
  - exact example_users_no_internal_column.
  - exact example_users_reachable.
  - exact example_users_no_internal_column.
  - left. reflexivity.
Defined.

(** X23. The WHERE clause of a join is evaluated on rows whose keys
    are all of the form [table.column], so a column it names without a
    table is never found: when the first operand the clause evaluates
    is such a column (and the name holds no dot), SELECT with INNER
    JOIN never returns a row; it returns the empty list when no pair
    of rows satisfies the join condition, and raises a
    column-not-found error for that column otherwise (or a
    table-not-found error for one of the two tables). *)
Theorem join_where_unqualified_column stmt join database w c tn :
  select_where stmt = Some w →
  first_operand w = ColumnRef c tn → truthy_str tn = false →
  has_dot c = false →
  match QueryExecutor._execute_select_with_join stmt join database with
  | Return rows => rows = []
  | Raise e =>
      e = ColumnNotFoundError c None
      ∨ e = TableNotFoundError (select_table_name stmt)
      ∨ e = TableNotFoundError (join_table_name join)
  end.
Proof.
  intros Hw Hfirst Htn Hdot.
  unfold QueryExecutor._execute_select_with_join, Database.get_table.
  destruct (Database._tables database !! select_table_name stmt)
    as [left_table|]; simpl; [|auto].
  destruct (Database._tables database !! join_table_name join)
    as [right_table|]; simpl; [|auto].
  destruct (join_left_barren (ColumnNotFoundError c None) stmt join
              left_table right_table (Table.scan left_table)) as [-> | ->].
  - done.
  - intros l r _ _. by eapply join_pair_barren.
  - simpl. by rewrite project_nothing.
  - simpl. auto.
Qed.

Lemma join_where_unqualified_column_witness :
  match QueryExecutor._execute_select_with_join Example.select_older
          Example.join_users Example.database with
  | Return rows => rows = []
  | Raise e =>
      e = ColumnNotFoundError "age" None
      ∨ e = TableNotFoundError "users"
      ∨ e = TableNotFoundError "users"
  end.
Proof.
  exact (join_where_unqualified_column Example.select_older
           Example.join_users Example.database Example.older_than_26
           "age" None eq_refl eq_refl eq_refl eq_refl).
Defined.

(** X24. In the row [combine_rows] builds from two rows, every key
    holds a dot; a column of the right row is found under the right
    table's name with the right row's value; and a column of the left
    row is found under the left table's name with the left row's value
    when the two table names differ, while in a join of a table with
    itself the right row's value has replaced it. *)
Theorem combine_rows_lookup left_row right_row left_table right_table c :
  is_dict left_row → is_dict right_row →
  has_dot left_table = false → has_dot right_table = false →
  let combined :=
    as_row (combine_rows left_row right_row left_table right_table) in
  (∀ k, is_Some (combined !! k) → has_dot k = true)
  ∧ combined !! qualified_name right_table c
    = match dict_get String.eqb c right_row with
      | Some v => Some v
      | None => if String.eqb left_table right_table
                then dict_get String.eqb c left_row else None
      end
  ∧ (left_table ≠ right_table →
     combined !! qualified_name left_table c
     = dict_get String.eqb c left_row).
Proof.
  intros Hl Hr Hdl Hdr combined. split; [|split].
  - apply combined_keys_dotted.
  - unfold combined. rewrite as_row_lookup. unfold combine_rows.
    rewrite qualify_fold_get by done.
    destruct (dict_get String.eqb c right_row); [done|].
    destruct (String.eqb_spec left_table right_table) as [->|Hne].
    + rewrite qualify_fold_get by done.
      by destruct (dict_get String.eqb c left_row).
    + rewrite qualify_fold_other; [done|].
      intros c' Heq. symmetry in Heq.
      apply qualified_name_table in Heq; [by destruct Hne|done|done].
  - intros Hne. unfold combined. rewrite as_row_lookup. unfold combine_rows.
    rewrite qualify_fold_other.
    + rewrite qualify_fold_get by done.
      by destruct (dict_get String.eqb c left_row).
    + intros c' Heq.
      apply qualified_name_table in Heq; [by destruct Hne|done|done].
Qed.

Lemma combine_rows_lookup_witness :
  as_row (combine_rows [("id", VInt 1)] [("id", VInt 2)] "users" "users")
    !! "users.id"
  = Some (VInt 2).
Proof.
  refine (proj1 (proj2 (combine_rows_lookup [("id", VInt 1)] [("id", VInt 2)]
                          "users" "users" "id" _ _ _ _))).
  - repeat constructor. intros H. inversion H.
  - repeat constructor. intros H. inversion H.
  - reflexivity.
  - reflexivity.
Defined.
(** ** The planner's candidates; selecting what was inserted *)

Section PlannerExtras.
Import Table QueryPlanner.

Lemma singleton_list (l : list Z) x :
  NoDup l → (∀ i, In i l ↔ i = x) → l = [x].
Proof.
  intros Hnd Hin. destruct l as [|a l].
  - by destruct (proj2 (Hin x) eq_refl).
  - pose proof (proj1 (Hin a) (or_introl eq_refl)) as ->.
    apply NoDup_cons in Hnd as [Hx Hnd]. destruct l as [|b l]; [done|].
    pose proof (proj1 (Hin b) (or_intror (or_introl eq_refl))) as ->.
    destruct Hx. by left.
Qed.

Lemma same_members (l1 l2 : list Z) x :
  NoDup l1 → (∀ i, In i l1 ↔ In i l2) → l2 = [x] → l1 = [x].
Proof.
  intros Hnd Hin ->. apply singleton_list; [done|].
  intros i. rewrite Hin. simpl. split; [by intros [->|[]]|auto].
Qed.

Lemma not_usable_scans table w :
  can_use_index table (Some w) = false →
  _get_candidate_rows table w = scan table.
Proof.
  unfold can_use_index, _get_candidate_rows.
  destruct (_find_index_opportunity table w) as [[c|] v]; simpl; [|done].
  intros ->. by rewrite andb_false_r.
Qed.

Lemma NoDup_incl_length_Z (l1 l2 : list Z) :
  NoDup l1 → (∀ i, In i l1 → In i l2) → (length l1 ≤ length l2)%nat.
Proof.
  intros Hnd Hincl. apply List.NoDup_incl_length; [by apply NoDup_ListNoDup|].
  exact Hincl.
Qed.

Lemma candidates_cases table w :
  wf table → consistent table → no_internal_column table →
  _get_candidate_rows table w = scan table
  ∨ ∃ row_ids,
      _get_candidate_rows table w = map (row_view table) row_ids
      ∧ NoDup row_ids
      ∧ (∀ i, In i row_ids
              ↔ In i (live_ids table)
                ∧ accepts (Some w) (row_view table i) = true)
      ∧ filter_rows w (map (row_view table) row_ids)
        = Return (map (row_view table) row_ids).
Proof.
  intros Hwf Hc Hno.
  destruct (candidate_cases table w)
    as [?|(c & tn & v & ty & index & Hw & Hv & Hi & Hcand)]; [by left|].
  right.
  destruct (index_path table Hwf Hc Hno c tn v ty index w Hw Hv Hi)
    as (Hnd & Hin & Hfilter & _).
  exists (HashIndex.search index v).
  assert (rows_of_ids table (HashIndex.search index v)
          = map (row_view table) (HashIndex.search index v)) as Hr.
  { apply rows_of_ids_live; [done|]. intros i Hi'.
    by apply (proj1 (Hin i)) in Hi' as [? _]. }
  cbv zeta in Hfilter. rewrite Hr in Hfilter. by rewrite Hcand, Hr.
Qed.

End PlannerExtras.

(** X25. On a reachable table with no column named [_row_id], the
    rows the planner hands to the evaluator are live rows of the
    table, no more of them than a scan yields, and every live row
    the WHERE clause accepts is among them; when [can_use_index] is
    false they are the full scan. *)
Theorem candidate_rows_cover_matches table w :
  reachable table → no_internal_column table →
  let candidates := QueryPlanner._get_candidate_rows table w in
  (∀ row, In row candidates → In row (Table.scan table))
  ∧ (∀ row, In row (Table.scan table) → accepts (Some w) row = true →
       In row candidates)
  ∧ (length candidates ≤ length (Table.scan table))%nat
  ∧ (QueryPlanner.can_use_index table (Some w) = false →
     candidates = Table.scan table).
Proof.
  intros Hreach Hno candidates.
  pose proof (reachable_wf _ Hreach) as Hwf.
  pose proof (reachable_consistent _ Hreach Hno) as Hc.
  split; [|split; [|split]]; [| | |apply not_usable_scans].
  - destruct (candidates_cases table w Hwf Hc Hno)
      as [Hs|(ids & Hs & Hnd & Hin & _)]; unfold candidates; rewrite Hs;
      [done|].
    intros row (i & <- & Hi)%in_map_iff.
    rewrite scan_live_ids by done. apply in_map. by apply Hin.
  - destruct (candidates_cases table w Hwf Hc Hno)
      as [Hs|(ids & Hs & Hnd & Hin & _)]; unfold candidates; rewrite Hs;
      [done|].
    rewrite scan_live_ids by done.
    intros row (i & <- & Hi)%in_map_iff Hacc. apply in_map. by apply Hin.
  - destruct (candidates_cases table w Hwf Hc Hno)
      as [Hs|(ids & Hs & Hnd & Hin & _)]; unfold candidates; rewrite Hs;
      [done|].
    rewrite scan_live_ids, !length_map by done.
    apply NoDup_incl_length_Z; [done|]. intros i Hi. by apply Hin.
Qed.

Lemma candidate_rows_cover_matches_witness :
  (length (QueryPlanner._get_candidate_rows Example.users Example.id_is_2)
   ≤ length (Table.scan Example.users))%nat.
Proof.
  exact (proj1 (proj2 (proj2
           (candidate_rows_cover_matches Example.users Example.id_is_2
              example_users_reachable example_users_no_internal_column)))).
Defined.

(** X26. Once [insert_row] has returned on a reachable table with no
    column named [_row_id], a search for the value the new row holds in a UNIQUE or PRIMARY KEY
    column (the value being non-null) finds the new row and nothing
    else: the planner returns exactly the inserted row for
    [column = value]. *)
Theorem insert_then_select_by_key
    table row_data table' row_id c column v tn ty :
  reachable table → no_internal_column table →
  Table.insert_row row_data table = (table', Return row_id) →
  dict_get String.eqb c (Table.columns table) = Some column →
  Column.is_unique column = true →
  dict_get String.eqb c row_data = Some v → v ≠ VNull →
  QueryPlanner.get_matching_rows table'
    (Some (Comparison (ColumnRef c tn) EQ (Literal v ty)))
  = Return [complete_row_of (Table.columns table) row_data ∅].
Proof.
  intros Hreach Hno Hrun Hcol Hu Hv Hnn.
  pose proof (reachable_wf _ Hreach) as Hwf.
  pose proof (reachable_consistent _ Hreach Hno) as Hc.
  destruct (insert_row_return _ _ _ _ Hwf Hrun) as (Hacc & -> & ->).
  set (new_row := complete_row_of (Table.columns table) row_data ∅).
  set (table' := insert_commit table new_row).
  set (w := Comparison (ColumnRef c tn) EQ (Literal v ty)).
  pose proof (wf_insert_commit table row_data Hwf) as Hwf'.
  pose proof (consistent_insert_commit table row_data Hwf Hc Hno Hacc) as Hc'.
  fold new_row table' in Hwf', Hc'.
  assert (no_internal_column table') as Hno' by exact Hno.
  assert (is_none v = false) as Hv' by (by destruct v).
  assert (dict_get String.eqb c (Table.columns table') = Some column)
    as Hcol' by exact Hcol.
  pose proof (cons_mandatory _ Hc' _ _ Hcol' Hu) as Hidx.
  pose proof (indexed_not_internal _ _ Hwf' Hno' Hidx) as Hne.
  unfold Table.has_index, dict_mem in Hidx.
  destruct (dict_get String.eqb c (Table._indexes table')) as [index|] eqn:Hi;
    [|done].
  destruct (index_path table' Hwf' Hc' Hno' c tn v ty index w
              (or_introl eq_refl) Hv' Hi)
    as (Hnd & Hin & Hfilter & Hscan).
  assert (Table.get_row table' (Table._next_row_id table) = Some new_row)
    as Hget.
  { unfold table', new_row. rewrite insert_commit_get_row by done.
    by rewrite Z.eqb_refl. }
  assert (HashIndex.search index v = [Table._next_row_id table]) as Hids.
  { destruct (cons_index _ Hc' c index Hi) as [_ Hex].
    pose proof (cons_unique _ Hc' c column index v Hcol' Hu Hi) as Hlen.
    assert (In (Table._next_row_id table) (HashIndex.search index v)) as H1.
    { apply (Hex v Hv').
      apply (holds_value_get_row table' c v _ Hc' Hne).
      exists new_row, v. split; [done|]. split; [|apply py_eq_refl].
      unfold new_row. rewrite complete_row_of_lookup.
      unfold dict_mem. by rewrite Hcol, Hv. }
    destruct (HashIndex.search index v) as [|a [|b l]]; simpl in *;
      [done| |lia].
    by destruct H1 as [->|[]]. }
  assert (row_view table' (Table._next_row_id table) = new_row) as Hview
    by (unfold row_view; by rewrite Hget).
  unfold QueryPlanner.get_matching_rows.
  destruct (candidates_cases table' w Hwf' Hc' Hno')
    as [-> | (ids & -> & Hnd2 & Hin2 & Hf2)].
  - rewrite Hscan.
    destruct (accepted_ids table' Hc' (Some w)) as (Hnd3 & Hin3 & ->).
    rewrite (same_members _ (HashIndex.search index v)
               (Table._next_row_id table) Hnd3); [|
      intros i; by rewrite Hin3, Hin | done].
    simpl. by rewrite Hview.
  - rewrite Hf2.
    rewrite (same_members ids (HashIndex.search index v)
               (Table._next_row_id table) Hnd2); [|
      intros i; by rewrite Hin2, Hin | done].
    simpl. by rewrite Hview.
Qed.

Lemma insert_then_select_by_key_witness :
  QueryPlanner.get_matching_rows
    (fst (Table.insert_row Example.alice Example.empty_users))
    (Some (Comparison (ColumnRef "email" None) EQ (Literal (VStr "a") "STRING")))
  = Return [complete_row_of (Table.columns Example.empty_users)
                            Example.alice ∅].
Proof.
  apply (insert_then_select_by_key Example.empty_users Example.alice
           (fst (Table.insert_row Example.alice Example.empty_users)) 0
           "email" (Column.mk "email" VARCHAR (Some 10) [UNIQUE])).
  - exists "users", Example.users_columns, [], Example.empty_users.
    split; [|split; [|split]]; try reflexivity.
    + repeat constructor.
    + constructor.
  - reflexivity.
  - vm_compute. reflexivity.
  - reflexivity.
  - reflexivity.
  - reflexivity.
  - discriminate.
Defined.
(** ** INSERT statements; the uniqueness check of an update *)

Section StatementExtras.
Import Table.

Lemma store_same database table_name table :
  Database.get_table database table_name = Return table →
  Database.store table_name table database = database.
Proof.
  unfold Database.get_table, Database.store. destruct database as [n tables].
  simpl. destruct (tables !! table_name) as [t|] eqn:G; [|done].
  intros [= ->]. f_equal. by apply insert_id.
Qed.

Lemma dict_get_app {V} k (l1 l2 : list (string * V)) :
  dict_get String.eqb k (l1 ++ l2)
  = match dict_get String.eqb k l1 with
    | Some v => Some v
    | None => dict_get String.eqb k l2
    end.
Proof.
  induction l1 as [|[k0 v0] l1 IH]; simpl; [done|].
  by destruct (String.eqb k k0).
Qed.

(** The value a column gets from the lists of an INSERT statement is
    the last one paired with its name. *)
Lemma build_row_data_lookup columns : ∀ values row_data c,
  dict_get String.eqb c (QueryExecutor.build_row_data columns values row_data)
  = match dict_get String.eqb c (rev (combine columns values)) with
    | Some v => Some v
    | None => dict_get String.eqb c row_data
    end.
Proof.
  induction columns as [|c0 columns IH]; intros values row_data c; [done|].
  destruct values as [|v0 values]; [done|]. simpl.
  rewrite IH, dict_get_app, sdict_get_set. simpl.
  destruct (dict_get String.eqb c (rev (combine columns values))); [done|].
  by destruct (String.eqb c c0).
Qed.


End StatementExtras.

(** X27. An INSERT statement on a reachable table with no column
    named [_row_id] either returns 1,
    having appended to the table one row in which every column holds
    the last value the statement pairs with its name, or [None] when
    the statement does not name it; or it raises, and then the
    database is exactly as it was.  It returns only if it lists as
    many values as columns. *)
Theorem insert_statement_effect stmt database table :
  Database.get_table database (insert_table_name stmt) = Return table →
  reachable table → no_internal_column table →
  match QueryExecutor._execute_insert stmt database with
  | (database', Return n) =>
      n = 1
      ∧ length (insert_columns stmt) = length (insert_values stmt)
      ∧ ∃ table' new_row,
          Database.get_table database' (insert_table_name stmt)
          = Return table'
          ∧ Table.scan table' = (Table.scan table ++ [new_row])%list
          ∧ ∀ c, new_row !! c
                 = if Table.has_column table c
                   then Some (default VNull
                                (dict_get String.eqb c
                                   (rev (combine (insert_columns stmt)
                                                 (insert_values stmt)))))
                   else None
  | (database', Raise _) => database' = database
  end.
Proof.
  intros Hget Hreach Hno.
  pose proof (reachable_wf _ Hreach) as Hwf.
  pose proof (reachable_consistent _ Hreach Hno) as Hc.
  unfold QueryExecutor._execute_insert, QueryExecutor.on_table.
  rewrite Hget.
  destruct (Nat.eqb_spec (length (insert_columns stmt))
                         (length (insert_values stmt))) as [Hlen|Hlen];
    simpl; [|by apply store_same].
  set (row_data := QueryExecutor.build_row_data (insert_columns stmt)
                     (insert_values stmt) []).
  unfold Table.bind.
  apply (insert_row_cases row_data table); [done| |].
  - intros Hacc. split; [done|]. split; [done|].
    eexists _, _. split; [|split].
    + unfold Database.get_table, Database.store. simpl.
      by rewrite lookup_insert_eq.
    + by apply insert_commit_scan.
    + intros c. rewrite complete_row_of_lookup, lookup_empty.
      unfold Table.has_column.
      destruct (dict_mem String.eqb c (Table.columns table)); [|done].
      unfold row_data. rewrite build_row_data_lookup. simpl.
      by destruct (dict_get String.eqb c _).
  - intros e _. by apply store_same.
Qed.

Lemma insert_statement_effect_witness :
  match QueryExecutor._execute_insert Example.insert_alice
          Example.database with
  | (database', Return n) =>
      n = 1
      ∧ length (insert_columns Example.insert_alice)
        = length (insert_values Example.insert_alice)
      ∧ ∃ table' new_row,
          Database.get_table database' "users" = Return table'
          ∧ Table.scan table' = (Table.scan Example.users ++ [new_row])%list
          ∧ ∀ c, new_row !! c
                 = if Table.has_column Example.users c
                   then Some (default VNull
                                (dict_get String.eqb c
                                   (rev (combine
                                           (insert_columns Example.insert_alice)
                                           (insert_values Example.insert_alice)))))
                   else None
  | (database', Raise _) => database' = Example.database
  end.
Proof.
  exact (insert_statement_effect Example.insert_alice Example.database
           Example.users eq_refl example_users_reachable
           example_users_no_internal_column).
Defined.


(** ** Column dicts and the schema of a table *)

Section Schema.

Lemma of_value_value k :
  ColumnConstraint.of_value (ColumnConstraint.value k) = Return k.
Proof. by destruct k. Qed.

Lemma constraint_eqb_eq a b : ColumnConstraint.eqb a b = true ↔ a = b.
Proof. destruct a, b; simpl; split; congruence. Qed.

Lemma constraint_set_returns l : ∀ acc,
  ∃ out,
    Column.constraint_set (map ColumnConstraint.value l) acc = Return out
    ∧ (∀ k, existsb (ColumnConstraint.eqb k) out
            = existsb (ColumnConstraint.eqb k) acc
              || existsb (ColumnConstraint.eqb k) l)
    ∧ (NoDup (acc ++ l) → out = (acc ++ l)%list).
Proof.
  induction l as [|a l IH]; intros acc; simpl.
  - exists acc. split; [done|]. split.
    + intros k. by rewrite orb_false_r.
    + by rewrite app_nil_r.
  - rewrite of_value_value. simpl.
    destruct (existsb (ColumnConstraint.eqb a) acc) eqn:E.
    + destruct (IH acc) as (out & -> & Hhas & Hnd). exists out.
      split; [done|]. split.
      * intros k. rewrite Hhas.
        destruct (ColumnConstraint.eqb k a) eqn:Ek; simpl; [|done].
        apply constraint_eqb_eq in Ek as ->. by rewrite E.
      * intros Hn. exfalso.
        apply existsb_exists in E as (x & Hx & Heq).
        apply constraint_eqb_eq in Heq as <-.
        apply NoDup_app in Hn as (_ & Hdis & _).
        apply (Hdis a); [by apply list_elem_of_In|]. by left.
    + destruct (IH (acc ++ [a])%list) as (out & -> & Hhas & Hnd).
      exists out. split; [done|]. split.
      * intros k. rewrite Hhas, existsb_app. simpl.
        rewrite orb_false_r. by rewrite orb_assoc.
      * rewrite <- app_assoc in Hnd. exact Hnd.
Qed.

Lemma of_name_value data_type :
  DataType.of_name (DataType.value data_type) = Return data_type.
Proof. by destruct data_type. Qed.

Lemma from_dict_to_dict c :
  valid_column c →
  ∃ c',
    Column.from_dict (Column.to_dict c) = Return c'
    ∧ Column.name c' = Column.name c
    ∧ Column.data_type c' = Column.data_type c
    ∧ Column.max_length c' = Column.max_length c
    ∧ (∀ k, Column.has_constraint k c' = Column.has_constraint k c)
    ∧ (NoDup (Column.constraints c) → c' = c).
Proof.
  intros Hvalid. unfold Column.from_dict, Column.to_dict. simpl.
  rewrite of_name_value. simpl.
  destruct (constraint_set_returns (Column.constraints c) [])
    as (out & -> & Hhas & Hnd).
  simpl. pose proof (valid_column_name c Hvalid) as Hname.
  unfold Column.init. rewrite Hname. simpl.
  exists (Column.mk (Column.name c) (Column.data_type c)
            (Column.max_length c) out).
  split; [done|]. split; [done|]. split; [done|]. split; [done|]. split.
  - intros k. unfold Column.has_constraint. simpl. by rewrite Hhas.
  - intros Hn. rewrite (Hnd Hn). by destruct c.
Qed.

Lemma schema_of_total columns names :
  (∀ name, In name names → is_Some (dict_get String.eqb name columns)) →
  ∃ schema,
    Table.schema_of columns names = Return schema
    ∧ Forall2 (fun name d =>
                 ∃ column, dict_get String.eqb name columns = Some column
                           ∧ d = Column.to_dict column) names schema.
Proof.
  induction names as [|name names IH]; intros Hall; simpl.
  - exists []. by split.
  - destruct (Hall name) as [column Hc]; [by left|]. rewrite Hc.
    destruct IH as (schema & -> & Hf); [intros n Hn; apply Hall; by right|].
    simpl. eexists. split; [done|]. constructor; eauto.
Qed.

(** The columns of a reachable table are the validated objects it was
    built from, each registered under its own name, and every name of
    [column_order] is registered. *)
Lemma reachable_columns table :
  reachable table →
  (∀ name, In name (Table.column_order table) →
     is_Some (dict_get String.eqb name (Table.columns table)))
  ∧ (∀ name column,
       dict_get String.eqb name (Table.columns table) = Some column →
       Column.name column = name ∧ valid_column column).
Proof.
  intros (name0 & cols & ops & t0 & Hvalid & Hinit & Hok & ->).
  destruct (init_spec name0 cols t0 Hvalid Hinit) as (He & Hget & _).
  pose proof (init_cases name0 cols) as Hcases. rewrite Hinit in Hcases.
  destruct Hcases as (_ & _ & _ & Horder & _ & _ & Hcols & _).
  destruct (run_wf ops t0 (empty_table_wf _ He)) as [_ (_ & Hc & Ho & _)].
  rewrite Hc, Ho. split.
  - intros name Hin. rewrite Horder in Hin. apply Hcols in Hin.
    unfold Table.has_column, dict_mem in Hin.
    by destruct (dict_get String.eqb name (Table.columns t0)).
  - intros name column Hd. destruct (Hget name column Hd) as [Hin Hn].
    split; [done|]. exact (proj1 (List.Forall_forall _ _) Hvalid _ Hin).
Qed.

End Schema.

(** X29. A column survives the trip through its dict: for a column
    object the constructor returned, [from_dict] applied to [to_dict]
    returns a column with the same name, data type and maximum length
    and the same constraints, hence the same [is_primary_key],
    [is_unique] and [is_not_null]; it is the very same object when the
    constraints are listed without repetition. *)
Theorem column_dict_round_trip c :
  valid_column c →
  ∃ c',
    Column.from_dict (Column.to_dict c) = Return c'
    ∧ Column.name c' = Column.name c
    ∧ Column.data_type c' = Column.data_type c
    ∧ Column.max_length c' = Column.max_length c
    ∧ (∀ k, Column.has_constraint k c' = Column.has_constraint k c)
    ∧ Column.is_primary_key c' = Column.is_primary_key c
    ∧ Column.is_unique c' = Column.is_unique c
    ∧ Column.is_not_null c' = Column.is_not_null c
    ∧ (NoDup (Column.constraints c) → c' = c).
Proof.
  intros Hvalid.
  destruct (from_dict_to_dict c Hvalid) as (c' & Hr & Hn & Hd & Hm & Hk & He).
  exists c'. unfold Column.is_unique, Column.is_not_null, Column.is_primary_key.
  rewrite !Hk. by repeat split.
Qed.

Lemma column_dict_round_trip_witness :
  ∃ c',
    Column.from_dict
      (Column.to_dict (Column.mk "email" VARCHAR (Some 10) [UNIQUE; NOT_NULL]))
    = Return c'
    ∧ c' = Column.mk "email" VARCHAR (Some 10) [UNIQUE; NOT_NULL].
Proof.
  destruct (column_dict_round_trip
              (Column.mk "email" VARCHAR (Some 10) [UNIQUE; NOT_NULL]))
    as (c' & Hr & _ & _ & _ & _ & _ & _ & _ & He); [reflexivity|].
  exists c'. split; [exact Hr|]. apply He.
  repeat constructor; intros H; inversion H; subst;
    repeat match goal with
           | H : _ ∈ _ |- _ => inversion H; subst; clear H
           end.
Defined.

(** X30. [get_schema] of a reachable table returns (it meets no
    missing key) one dict per name of [column_order], in that order:
    the [to_dict] of the column [get_column] finds under that name,
    whose own name it is, and a dict that [from_dict] reads back. *)
Theorem get_schema_lists_columns table :
  reachable table →
  ∃ schema,
    Table.get_schema table = Return schema
    ∧ Forall2 (fun name d =>
                 ∃ column,
                   Table.get_column table name = Return column
                   ∧ Column.name column = name
                   ∧ d = Column.to_dict column
                   ∧ ∃ column', Column.from_dict d = Return column')
              (Table.column_order table) schema.
Proof.
  intros Hreach. destruct (reachable_columns table Hreach) as [Hall Hcol].
  destruct (schema_of_total _ _ Hall) as (schema & Hs & Hf).
  exists schema. split; [done|].
  apply (Forall2_impl _ _ _ _ Hf). intros name d (column & Hc & ->).
  destruct (Hcol name column Hc) as [Hn Hv].
  destruct (from_dict_to_dict column Hv) as (c' & Hr & _).
  exists column. unfold Table.get_column. rewrite Hc. eauto.
Qed.

Lemma get_schema_lists_columns_witness :
  ∃ schema,
    Table.get_schema Example.users = Return schema
    ∧ Forall2 (fun name d =>
                 ∃ column,
                   Table.get_column Example.users name = Return column
                   ∧ Column.name column = name
                   ∧ d = Column.to_dict column
                   ∧ ∃ column', Column.from_dict d = Return column')
              (Table.column_order Example.users) schema.
Proof. exact (get_schema_lists_columns Example.users example_users_reachable). Defined.
